(** * FTuner: the sketch policy, its hardware-aligned configurations and filters

    A shallow embedding of the search engine of FTuner (a fork of TVM's
    auto-scheduler with the DietCode and "efficient search" extensions):

    - [tvm/include/tvm/hardware/hw_aligned_config.h]  ([HwConfig])
    - [auto_scheduler/search_task.cc]                   ([Task])
    - [auto_scheduler/search_policy/filter_rules.h]     ([Filters])
    - [auto_scheduler/search_policy/sketch_policy.cc]   ([Policy], [Emit])
    - [hardware/hw_expr_extractor.h]                     ([Emit])

    Conventions.  C++ [int] and [int64_t] values are modelled by [Z]; the
    statements proved concern values far from the machine limits.  A
    [size_t] is a [Z] below [2 ^ 64]: the conversions to it and its
    arithmetic wrap ([to_size_t]).
    [float] and [double] quantities (scores, thresholds, ratios) are modelled
    by exact rationals [Q]: the code only compares, multiplies, divides and
    subtracts them.  A [LOG(FATAL)] and a failed [CHECK]/[ICHECK] end a run
    with [Fatal].  [Undefined] ends the runs the model does not follow: a
    read that C++ leaves undefined, and a floating-point division by zero
    (whose [inf] or [NaN] a rational cannot carry).  Loops whose termination
    depends on their input run on fuel and answer [OutOfFuel] when it is
    used up. *)

From Stdlib Require Import ZArith QArith Qround Lia Lqa List String Bool Permutation Sorted.
From stdpp Require Import gmap strings list sorting.

Open Scope Z_scope.

(** ** Outcomes of fallible code *)

Inductive Outcome (A : Type) : Type :=
| Ok (a : A)
| Fatal (msg : string)
| Undefined
| OutOfFuel.

Arguments Ok {A} a.
Arguments Fatal {A} msg.
Arguments Undefined {A}.
Arguments OutOfFuel {A}.

Definition obind {A B : Type} (m : Outcome A) (k : A -> Outcome B) : Outcome B :=
  match m with
  | Ok a => k a
  | Fatal msg => Fatal msg
  | Undefined => Undefined
  | OutOfFuel => OutOfFuel
  end.

Notation "'let!' x ':=' m 'in' k" := (obind m (fun x => k))
  (at level 10, x pattern, m at level 100, k at level 200).

Definition CHECK (b : bool) (msg : string) : Outcome unit :=
  if b then Ok tt else Fatal msg.

Definition is_Ok {A : Type} (m : Outcome A) : bool :=
  match m with Ok _ => true | _ => false end.

(** [operator[]] of a TVM [Array] checks its index; that of a [std::vector]
    does not. *)
Definition array_at {A : Type} (l : list A) (i : Z) : Outcome A :=
  if i <? 0 then Fatal "IndexError: indexing out of bound"
  else match l !! Z.to_nat i with
       | Some a => Ok a
       | None => Fatal "IndexError: indexing out of bound"
       end.

(** The conversion of an integer to [size_t], and the result of an
    operation on [size_t]. *)
Definition size_max : Z := 2 ^ 64 - 1.

Definition to_size_t (z : Z) : Z := z mod 2 ^ 64.

(** [operator bool] / [defined()] of an [Optional] or an [ObjectRef]. *)
Definition defined {A : Type} (o : option A) : bool :=
  match o with Some _ => true | None => false end.

(** ** Rationals standing for [float]/[double] *)

Definition Qltb (a b : Q) : bool := (Qnum a * QDen b <? Qnum b * QDen a)%Z.

Lemma Qltb_lt (a b : Q) : Qltb a b = true <-> (a < b)%Q.
Proof. unfold Qltb, Qlt. apply Z.ltb_lt. Qed.

Lemma Qltb_ge (a b : Q) : Qltb a b = false <-> (b <= a)%Q.
Proof. unfold Qltb, Qle. rewrite Z.ltb_ge. reflexivity. Qed.

Lemma Qltb_lt' (a b : Q) : Is_true (Qltb a b) <-> (a < b)%Q.
Proof. rewrite Is_true_true. apply Qltb_lt. Qed.

(** A floating-point quotient; see the conventions for a zero divisor. *)
Definition fdiv (a b : Q) : Outcome Q :=
  if Qnum b =? 0 then Undefined else Ok (a / b)%Q.

(** ** [std::sort] *)

(** [std::sort(first, last, cmp)].  The standard fixes the order of two
    elements only when [cmp] tells them apart; this insertion sort leaves
    the others in the order of the input. *)
Fixpoint sort_insert {A : Type} (cmp : A -> A -> bool) (x : A) (l : list A) : list A :=
  match l with
  | [] => [x]
  | y :: l' => if cmp y x then y :: sort_insert cmp x l' else x :: y :: l'
  end.

Definition std_sort {A : Type} (cmp : A -> A -> bool) (l : list A) : list A :=
  foldr (sort_insert cmp) [] l.

Lemma sort_insert_perm {A : Type} (cmp : A -> A -> bool) (x : A) (l : list A) :
  sort_insert cmp x l ≡ₚ x :: l.
Proof.
  induction l as [|y l IH]; [reflexivity|]. cbn.
  destruct (cmp y x); [|reflexivity]. rewrite IH. apply Permutation_swap.
Qed.

Lemma std_sort_perm {A : Type} (cmp : A -> A -> bool) (l : list A) :
  std_sort cmp l ≡ₚ l.
Proof.
  induction l as [|x l IH]; [reflexivity|]. unfold std_sort in *. cbn.
  rewrite sort_insert_perm, IH. reflexivity.
Qed.

Section SortedByKey.

Context {A : Type} (key : A -> Q).

(** Descending order of keys. *)
Definition descending (a b : A) : Prop := (key b <= key a)%Q.

Definition greater_first (a b : A) : bool := Qltb (key b) (key a).

Lemma sort_insert_sorted (x : A) (l : list A) :
  StronglySorted descending l -> StronglySorted descending (sort_insert greater_first x l).
Proof.
  induction 1 as [|y l Hl IH Hy]; cbn; [repeat constructor|].
  unfold greater_first at 1. destruct (Qltb (key x) (key y)) eqn:E.
  - constructor; [exact IH|].
    apply Forall_forall. intros z Hz.
    rewrite (sort_insert_perm greater_first x l) in Hz.
    apply elem_of_cons in Hz as [->|Hz].
    + apply Qltb_lt in E. unfold descending. lra.
    + rewrite Forall_forall in Hy. apply Hy, Hz.
  - apply Qltb_ge in E. constructor; [constructor; assumption|].
    constructor; [exact E|].
    apply Forall_forall. intros z Hz. rewrite Forall_forall in Hy.
    specialize (Hy _ Hz). unfold descending in *. lra.
Qed.

Lemma std_sort_sorted (l : list A) :
  StronglySorted descending (std_sort greater_first l).
Proof.
  induction l as [|x l IH]; [constructor|]. apply sort_insert_sorted, IH.
Qed.

End SortedByKey.

(** ** [HwAlignedConfig] and its ordering *)

Module HwConfig.

Record HwAlignedConfig : Type := {
  space_tiles : list (list Z);
  reduce_tiles : list (list Z);
  k_threshold : list Q;
  compute_intensive_ratio : list Q;
  single_thread_reg_usage : Z;
  space_production_threshold : Z;
  smem_usage : Z;
  threads_num : Z
}.

(** The inner loop [for j < this->tiles[i].size()] of [operator<]: [mine] is
    what is left of [this->tiles[i]] from index [j] on, [theirs] is
    [config.tiles[i]], read at [j].  [Some b] stands for [return b], [None]
    for the loop running to its end.  A read past the end of [theirs] is
    undefined in C++ and gives [0] here; it does not occur between configs of
    one shape. *)
Fixpoint row_scan (mine theirs : list Z) (j : nat) : option bool :=
  match mine with
  | [] => None
  | x :: mine' =>
      let y := nth j theirs 0 in
      if x <? y then Some true
      else if x >? y then Some false
      else row_scan mine' theirs (S j)
  end.

(** The outer loop [for i < this->tiles.size()]. *)
Fixpoint tiles_scan (mine theirs : list (list Z)) (i : nat) : option bool :=
  match mine with
  | [] => None
  | r :: mine' =>
      match row_scan r (nth i theirs []) 0 with
      | Some b => Some b
      | None => tiles_scan mine' theirs (S i)
      end
  end.

(** [bool HwAlignedConfig::operator<(const HwAlignedConfig& config) const] *)
Definition lt (this config : HwAlignedConfig) : bool :=
  match tiles_scan (space_tiles this) (space_tiles config) 0 with
  | Some b => b
  | None =>
      match tiles_scan (reduce_tiles this) (reduce_tiles config) 0 with
      | Some b => b
      | None => false
      end
  end.

(** Configs built for one task: the tile lists have the same shape. *)
Definition same_shape (a b : HwAlignedConfig) : Prop :=
  map (@length Z) (space_tiles a) = map (@length Z) (space_tiles b) /\
  map (@length Z) (reduce_tiles a) = map (@length Z) (reduce_tiles b).

(** Equivalence under the ordering, as [std::map] uses it for its keys. *)
Definition equiv (a b : HwAlignedConfig) : Prop :=
  lt a b = false /\ lt b a = false.

(** The specification the loops are compared with: lexicographic comparison
    of two sequences read in lockstep. *)
Fixpoint lex (a b : list Z) : option bool :=
  match a, b with
  | x :: a', y :: b' =>
      if x <? y then Some true else if x >? y then Some false else lex a' b'
  | _, _ => None
  end.

Definition c_small : HwAlignedConfig :=
  {| space_tiles := [[1; 2]; [4; 8]]; reduce_tiles := [[1]; [16]];
     k_threshold := []; compute_intensive_ratio := [];
     single_thread_reg_usage := 2; space_production_threshold := 0;
     smem_usage := 0; threads_num := 32 |}.

Definition c_mid : HwAlignedConfig :=
  {| space_tiles := [[1; 2]; [4; 16]]; reduce_tiles := [[1]; [8]];
     k_threshold := []; compute_intensive_ratio := [];
     single_thread_reg_usage := 2; space_production_threshold := 0;
     smem_usage := 0; threads_num := 64 |}.

Definition c_big : HwAlignedConfig :=
  {| space_tiles := [[1; 4]; [4; 8]]; reduce_tiles := [[1]; [8]];
     k_threshold := []; compute_intensive_ratio := [];
     single_thread_reg_usage := 4; space_production_threshold := 0;
     smem_usage := 0; threads_num := 32 |}.

(** *** The loops compute the lexicographic comparison *)

Lemma row_scan_lex (mine theirs : list Z) (j : nat) :
  (length mine <= length (drop j theirs))%nat ->
  row_scan mine theirs j = lex mine (firstn (length mine) (drop j theirs)).
Proof.
  revert j. induction mine as [|x mine IH]; intros j Hlen; [reflexivity|].
  cbn [row_scan length].
  destruct (drop j theirs) as [|y rest] eqn:Hd; [cbn in Hlen; lia|].
  assert (Hy : nth j theirs 0 = y).
  { rewrite <- (take_drop j theirs) at 1. rewrite Hd.
    assert (Hj : length (take j theirs) = j).
    { rewrite length_take. apply Nat.min_l.
      assert (length (drop j theirs) = S (length rest)) by (rewrite Hd; reflexivity).
      rewrite length_drop in H. lia. }
    rewrite app_nth2 by lia. rewrite Hj, Nat.sub_diag. reflexivity. }
  rewrite Hy. cbn [firstn lex].
  destruct (x <? y); [reflexivity|]. destruct (x >? y); [reflexivity|].
  assert (Hd' : drop (S j) theirs = rest).
  { replace (S j) with (j + 1)%nat by lia. rewrite <- drop_drop, Hd. reflexivity. }
  rewrite IH; rewrite Hd'; [reflexivity | cbn in Hlen; lia].
Qed.

Lemma row_scan_same_length (a b : list Z) :
  length a = length b -> row_scan a b 0 = lex a b.
Proof.
  intros H. rewrite row_scan_lex; rewrite drop_0; [|lia].
  rewrite H, firstn_all. reflexivity.
Qed.

Lemma lex_app (a b a' b' : list Z) :
  length a = length b ->
  lex (a ++ a') (b ++ b') =
  match lex a b with Some r => Some r | None => lex a' b' end.
Proof.
  revert b. induction a as [|x a IH]; intros [|y b] H; try discriminate.
  - reflexivity.
  - cbn. destruct (x <? y); [reflexivity|]. destruct (x >? y); [reflexivity|].
    apply IH. cbn in H. lia.
Qed.

Lemma tiles_scan_lex_from (mine theirs : list (list Z)) (i : nat) :
  map (@length Z) mine = map (@length Z) (drop i theirs) ->
  tiles_scan mine theirs i = lex (concat mine) (concat (drop i theirs)).
Proof.
  revert i. induction mine as [|r mine IH]; intros i H.
  - reflexivity.
  - destruct (drop i theirs) as [|r' rest] eqn:Hd; [discriminate|].
    cbn in H. injection H as Hr Hrest.
    assert (Hnth : nth i theirs [] = r').
    { rewrite <- (take_drop i theirs) at 1. rewrite Hd.
      assert (Hi : length (take i theirs) = i).
      { rewrite length_take. apply Nat.min_l.
        assert (length (drop i theirs) = S (length rest)) by (rewrite Hd; reflexivity).
        rewrite length_drop in H. lia. }
      rewrite app_nth2 by lia. rewrite Hi, Nat.sub_diag. reflexivity. }
    assert (Hd' : drop (S i) theirs = rest).
    { replace (S i) with (i + 1)%nat by lia. rewrite <- drop_drop, Hd. reflexivity. }
    cbn [tiles_scan concat]. rewrite Hnth, (row_scan_same_length _ _ Hr).
    rewrite (lex_app _ _ _ _ Hr). rewrite IH; rewrite Hd'; [reflexivity | exact Hrest].
Qed.

Lemma tiles_scan_lex (mine theirs : list (list Z)) :
  map (@length Z) mine = map (@length Z) theirs ->
  tiles_scan mine theirs 0 = lex (concat mine) (concat theirs).
Proof. intros H. apply (tiles_scan_lex_from mine theirs 0). rewrite drop_0. exact H. Qed.

Lemma concat_same_length (a b : list (list Z)) :
  map (@length Z) a = map (@length Z) b -> length (concat a) = length (concat b).
Proof.
  revert b. induction a as [|r a IH]; intros [|r' b] H; try discriminate; [reflexivity|].
  cbn in H. injection H as Hr Hrest. cbn. rewrite !length_app, Hr, (IH _ Hrest). reflexivity.
Qed.

Lemma concat_inj_same_shape (a b : list (list Z)) :
  map (@length Z) a = map (@length Z) b -> concat a = concat b -> a = b.
Proof.
  revert b. induction a as [|r a IH]; intros [|r' b] H Hc; try discriminate; [reflexivity|].
  cbn in H. injection H as Hr Hrest. cbn in Hc.
  apply app_inj_1 in Hc; [|exact Hr]. destruct Hc as [-> Hc].
  f_equal. apply IH; assumption.
Qed.

(** The flattened key of a config: its space tiles, then its reduce tiles. *)
Definition flat (c : HwAlignedConfig) : list Z :=
  concat (space_tiles c) ++ concat (reduce_tiles c).

Lemma lt_lex (a b : HwAlignedConfig) :
  same_shape a b ->
  lt a b = match lex (flat a) (flat b) with Some r => r | None => false end.
Proof.
  intros [Hs Hr]. unfold lt, flat.
  rewrite (tiles_scan_lex _ _ Hs), (tiles_scan_lex _ _ Hr).
  rewrite (lex_app _ _ _ _ (concat_same_length _ _ Hs)).
  destruct (lex (concat (space_tiles a)) (concat (space_tiles b))); reflexivity.
Qed.

Lemma flat_same_length (a b : HwAlignedConfig) :
  same_shape a b -> length (flat a) = length (flat b).
Proof.
  intros [Hs Hr]. unfold flat.
  rewrite !length_app, (concat_same_length _ _ Hs), (concat_same_length _ _ Hr). reflexivity.
Qed.

(** *** Lexicographic comparison of sequences of one length *)

Lemma lex_refl (a : list Z) : lex a a = None.
Proof.
  induction a as [|x a IH]; [reflexivity|]. cbn.
  rewrite Z.gtb_ltb, Z.ltb_irrefl. exact IH.
Qed.

Lemma lex_None_eq (a b : list Z) :
  length a = length b -> lex a b = None -> a = b.
Proof.
  revert b. induction a as [|x a IH]; intros [|y b] Hlen H; try discriminate; [reflexivity|].
  cbn in H. rewrite Z.gtb_ltb in H.
  destruct (Z.ltb_spec x y); [discriminate|]. destruct (Z.ltb_spec y x); [discriminate|].
  f_equal; [lia|]. apply IH; [cbn in Hlen; lia | exact H].
Qed.

Lemma lex_flip (a b : list Z) :
  length a = length b -> lex a b = Some false -> lex b a = Some true.
Proof.
  revert b. induction a as [|x a IH]; intros [|y b] Hlen H; try discriminate.
  cbn in H |- *. rewrite Z.gtb_ltb in *.
  destruct (Z.ltb_spec x y); [discriminate|].
  destruct (Z.ltb_spec y x); [reflexivity|].
  apply IH; [cbn in Hlen; lia | exact H].
Qed.

Lemma lex_asym (a b : list Z) :
  lex a b = Some true -> lex b a = Some false.
Proof.
  revert b. induction a as [|x a IH]; intros [|y b] H; try discriminate.
  cbn in H |- *. rewrite Z.gtb_ltb in *.
  destruct (Z.ltb_spec x y).
  - destruct (Z.ltb_spec y x); [lia | reflexivity].
  - destruct (Z.ltb_spec y x); [discriminate|]. apply IH, H.
Qed.

Lemma lex_trans (a b c : list Z) :
  lex a b = Some true -> lex b c = Some true -> lex a c = Some true.
Proof.
  revert b c. induction a as [|x a IH]; intros [|y b] [|z c] Hab Hbc; try discriminate.
  cbn in Hab, Hbc |- *. rewrite Z.gtb_ltb in *.
  destruct (Z.ltb_spec x y) as [Hxy|Hxy].
  - destruct (Z.ltb_spec y z); [|destruct (Z.ltb_spec z y); [discriminate|]];
      destruct (Z.ltb_spec x z); try reflexivity; lia.
  - destruct (Z.ltb_spec y x); [discriminate|].
    destruct (Z.ltb_spec y z).
    + destruct (Z.ltb_spec x z); [reflexivity | lia].
    + destruct (Z.ltb_spec z y); [discriminate|].
      destruct (Z.ltb_spec x z); [lia|]. destruct (Z.ltb_spec z x); [lia|].
      eapply IH; eassumption.
Qed.

(** *** The ordering on configs of one shape *)

Lemma lt_irrefl (a : HwAlignedConfig) : lt a a = false.
Proof.
  rewrite lt_lex by (split; reflexivity). rewrite lex_refl. reflexivity.
Qed.

Lemma lt_trans (a b c : HwAlignedConfig) :
  same_shape a b -> same_shape b c ->
  lt a b = true -> lt b c = true -> lt a c = true.
Proof.
  intros Hab Hbc. assert (Hac : same_shape a c).
  { destruct Hab as [? ?], Hbc as [? ?]. split; congruence. }
  rewrite (lt_lex _ _ Hab), (lt_lex _ _ Hbc), (lt_lex _ _ Hac).
  destruct (lex (flat a) (flat b)) as [[|]|] eqn:E1; try discriminate.
  destruct (lex (flat b) (flat c)) as [[|]|] eqn:E2; try discriminate.
  intros _ _. rewrite (lex_trans _ _ _ E1 E2). reflexivity.
Qed.

Lemma equiv_iff_tiles (a b : HwAlignedConfig) :
  same_shape a b ->
  equiv a b <-> space_tiles a = space_tiles b /\ reduce_tiles a = reduce_tiles b.
Proof.
  intros Hab. assert (Hba : same_shape b a) by (destruct Hab; split; congruence).
  unfold equiv. rewrite (lt_lex _ _ Hab), (lt_lex _ _ Hba). split.
  - intros [H1 H2].
    assert (Hflat : flat a = flat b).
    { apply lex_None_eq; [apply flat_same_length, Hab|].
      destruct (lex (flat a) (flat b)) as [[|]|] eqn:E; [discriminate| |reflexivity].
      apply lex_flip in E; [|apply flat_same_length, Hab]. rewrite E in H2. discriminate. }
    unfold flat in Hflat. destruct Hab as [Hs Hr].
    apply app_inj_1 in Hflat; [|apply concat_same_length, Hs].
    destruct Hflat as [Hcs Hcr].
    split; apply concat_inj_same_shape; assumption.
  - intros [Hs Hr]. unfold flat. rewrite Hs, Hr, lex_refl. split; reflexivity.
Qed.

(** C9.  On configs built for one task (equal tile-list shapes) the
    comparison [operator<] of [HwAlignedConfig] is a strict weak ordering:
    it is irreflexive and transitive, and two configs are equivalent under
    it (neither is less than the other) exactly when their [space_tiles] and
    their [reduce_tiles] are equal, so that equivalence is transitive too. *)
Theorem HwAlignedConfig_lt_strict_weak_order (a b c : HwAlignedConfig) :
  same_shape a b -> same_shape b c ->
  lt a a = false /\
  (lt a b = true -> lt b c = true -> lt a c = true) /\
  (equiv a b <-> space_tiles a = space_tiles b /\ reduce_tiles a = reduce_tiles b) /\
  (equiv a b -> equiv b c -> equiv a c).
Proof.
  intros Hab Hbc. assert (Hac : same_shape a c).
  { destruct Hab as [? ?], Hbc as [? ?]. split; congruence. }
  split; [apply lt_irrefl|]. split; [apply lt_trans; assumption|].
  split; [apply equiv_iff_tiles, Hab|].
  rewrite (equiv_iff_tiles _ _ Hab), (equiv_iff_tiles _ _ Hbc), (equiv_iff_tiles _ _ Hac).
  intros [-> ->] [-> ->]. split; reflexivity.
Qed.

Lemma HwAlignedConfig_lt_witness :
  same_shape c_small c_mid /\ same_shape c_mid c_big /\
  lt c_small c_mid = true /\ lt c_mid c_big = true /\ lt c_small c_big = true /\
  lt c_small c_small = false.
Proof.
  assert (H1 : same_shape c_small c_mid) by (split; reflexivity).
  assert (H2 : same_shape c_mid c_big) by (split; reflexivity).
  destruct (HwAlignedConfig_lt_strict_weak_order c_small c_mid c_big H1 H2)
    as [Hirr [Htr _]].
  split; [exact H1|]. split; [exact H2|].
  split; [reflexivity|]. split; [reflexivity|].
  split; [apply Htr; reflexivity | exact Hirr].
Defined.

End HwConfig.

(** ** Schedule states, hardware descriptors and search tasks *)

Module Task.

(** The fragment of TVM's [PrimExpr] that loop extents of the modelled
    workloads are written in. *)
Inductive PrimExpr : Type :=
| IntImm (value : Z)
| DynShapeVar (name_hint : string)
| Add (a b : PrimExpr)
| Mul (a b : PrimExpr).

(** The transform steps the modelled code inspects; every other kind of step
    (fuse, annotation, cache read/write, ...) is an [OtherStep]. *)
Inductive Step : Type :=
| SplitStep (stage_id iter_id : Z) (extent : option PrimExpr)
    (lengths : list (option Z)) (inner_to_outer : bool)
| RfactorStep (stage_id iter_id factor_iter_id : Z)
| OtherStep (kind : string).

(** A [State] is a reference to a [StateNode]: [node_addr] is the address of
    the node ([ObjectHash]/[ObjectEqual] compare it), [stages] the names of
    the stages' operations, [transform_steps] the history of the schedule. *)
Record State : Type := {
  node_addr : nat;
  stages : list string;
  transform_steps : list Step
}.

Record HardwareParams : Type := {
  num_cores : Z;
  vector_unit_bytes : Z;
  cache_line_bytes : Z;
  max_shared_memory_per_block : Z;
  max_local_memory_per_block : Z;
  max_threads_per_block : Z;
  max_vthread_extent : Z;
  hp_warp_size : Z
}.

(** [hardware::HardwareAPINode], the fields read by the modelled code. *)
Record HardwareAPI : Type := {
  num_level : Z;
  bandwidth : list Z;
  peak_flops : Q;
  reg_cap : list Z;
  smem_cap : list Z;
  warp_size : Z;
  compute_sm_partition : list Z;
  smem_sm_partition : list Z;
  transaction_size : list Z;
  glbmem_sm_partition : list Z;
  max_smem_usage_per_sm : Z;
  max_reg_per_sm : Z;
  lt_ratio : Q;
  gt_ratio : Q
}.

Inductive DLDeviceType : Type :=
| kDLCPU | kDLCUDA | kDLROCM | kDLMetal | kDLOpenCL | kDLVulkan | kDLOtherDevice.

Record Target : Type := {
  device_type : DLDeviceType;
  device_attr : string        (* target->GetAttr<String>("device", "") *)
}.

(** What the device API of the registry answers for device 0; [None] when
    no such API is registered. *)
Record DeviceAttrs : Type := {
  kMultiProcessorCount : Z;
  kMaxSharedMemoryPerBlock : Z;
  kMaxRegistersPerBlock : Z;
  kMaxThreadsPerBlock : Z;
  kWarpSize : Z
}.

Record SearchTaskNode : Type := {
  init_state : State;                       (* compute_dag->init_state *)
  workload_key : string;
  target : Target;
  target_host : Target;
  hardware_params : HardwareParams;
  layout_rewrite_option : Z;
  task_input_names : list string;
  shape_vars : option (list string);        (* Optional<Array<DynShapeVar>>, by name_hint *)
  wkl_insts : list (list Z);                (* Array<Array<IntImm>> *)
  wkl_inst_weights : list Q;                (* Array<FloatImm> *)
  hardware_api : HardwareAPI
}.

Definition INT32_MAX : Z := 2147483647.

Definition mkHardwareParams (a b c d e f g h : Z) : HardwareParams :=
  {| num_cores := a; vector_unit_bytes := b; cache_line_bytes := c;
     max_shared_memory_per_block := d; max_local_memory_per_block := e;
     max_threads_per_block := f; max_vthread_extent := g; hp_warp_size := h |}.

(** [HardwareParamsNode::GetDefaultHardwareParams].  [max_concurrency] is
    [threading::MaxConcurrency()], [dev] the device API looked up in the
    registry. *)
Definition GetDefaultHardwareParams (max_concurrency : Z) (dev : option DeviceAttrs)
    (tgt : Target) : Outcome HardwareParams :=
  match device_type tgt with
  | kDLCPU => Ok (mkHardwareParams max_concurrency 64 64 0 0 0 0 0)
  | kDLCUDA | kDLROCM =>
      match dev with
      | None => Fatal "Cannot find CUDA device_api in registry"
      | Some d =>
          Ok (mkHardwareParams (kMultiProcessorCount d) 16 64
                (kMaxSharedMemoryPerBlock d) (kMaxRegistersPerBlock d)
                (kMaxThreadsPerBlock d) (Z.quot (kWarpSize d) 4) (kWarpSize d))
      end
  | kDLMetal => Ok (mkHardwareParams (-1) 16 64 (32 * 1024) INT32_MAX 1024 (Z.quot 8 4) 8)
  | kDLOpenCL =>
      if String.eqb (device_attr tgt) "mali"
      then Ok (mkHardwareParams (-1) 16 64 32768 INT32_MAX 256 1 1)
      else Fatal "No default hardware parameters for opencl target device"
  | kDLVulkan =>
      match dev with
      | None => Fatal "Cannot find Vulkan device_api in registry"
      | Some d =>
          Ok (mkHardwareParams (-1) 16 64 (kMaxSharedMemoryPerBlock d) INT32_MAX
                (kMaxThreadsPerBlock d) (Z.max 1 (Z.quot (kWarpSize d) 4)) (kWarpSize d))
      end
  | kDLOtherDevice => Fatal "No default hardware parameters for target"
  end.

(** The arguments of the constructor [SearchTask::SearchTask]. *)
Record SearchTaskArgs : Type := {
  a_init_state : State;
  a_workload_key : string;
  a_target : Target;
  a_target_host : Target;
  a_hardware_params : option HardwareParams;
  a_layout_rewrite_option : Z;
  a_task_input_names : list string;
  a_shape_vars : option (list string);
  a_wkl_insts : option (list (list Z));
  a_wkl_inst_weights : option (list Q);
  a_hardware_api : HardwareAPI
}.

Section Constructor.

(** TVM's [Optional] and [ObjectPtr] are declared outside the files at hand:
    [moved_from x] is what [std::move] leaves in a source that held [x]. *)
Variable moved_from : forall A : Type, option A -> option A.
Variable max_concurrency : Z.
Variable dev : option DeviceAttrs.

(** [SearchTask::SearchTask]: the node it builds, or the fatal error it
    stops with.  The test [if (shape_vars)] reads the parameter after
    [node->shape_vars = std::move(shape_vars)]. *)
Definition SearchTask (args : SearchTaskArgs) : Outcome SearchTaskNode :=
  let! hp := match a_hardware_params args with
             | Some hp => Ok hp
             | None => GetDefaultHardwareParams max_concurrency dev (a_target args)
             end in
  let node_shape_vars := a_shape_vars args in
  let shape_vars_after_move := moved_from _ (a_shape_vars args) in
  let! _ := if defined shape_vars_after_move
            then let! _ := CHECK (defined (a_wkl_insts args))
                             "Check failed: wkl_insts" in
                 CHECK (defined (a_wkl_inst_weights args))
                   "Check failed: wkl_inst_weights"
            else Ok tt in
  Ok {| init_state := a_init_state args;
        workload_key := a_workload_key args;
        target := a_target args;
        target_host := a_target_host args;
        hardware_params := hp;
        layout_rewrite_option := a_layout_rewrite_option args;
        task_input_names := a_task_input_names args;
        shape_vars := node_shape_vars;
        wkl_insts := default [] (a_wkl_insts args);
        wkl_inst_weights := default [] (a_wkl_inst_weights args);
        hardware_api := a_hardware_api args |}.

End Constructor.

(** [ObjectPtr]'s move constructor nulls its source. *)
Definition tvm_moved_from (A : Type) (x : option A) : option A := None.

(** A source that [std::move] would leave as it was. *)
Definition untouched_moved_from (A : Type) (x : option A) : option A := x.

(** Modelled from the spec: [IsDynTask] (declared in [utils.h], not among
    the sources) holds of the "dynamic-shape tasks", those whose symbolic
    shape variables are present. *)
Definition IsDynTask (task : SearchTaskNode) : bool :=
  defined (shape_vars task).

Definition empty_state : State :=
  {| node_addr := 0; stages := ["C"%string]; transform_steps := [] |}.

Definition v100_params : HardwareParams := mkHardwareParams 80 16 64 49152 65536 1024 8 32.

Definition v100_api : HardwareAPI :=
  {| num_level := 2; bandwidth := [750; 12080]; peak_flops := 15700;
     reg_cap := [65536; 255]; smem_cap := [49152]; warp_size := 32;
     compute_sm_partition := [80; 4]; smem_sm_partition := [80; 2];
     transaction_size := [32]; glbmem_sm_partition := [80; 1];
     max_smem_usage_per_sm := 98304; max_reg_per_sm := 65536;
     lt_ratio := 1; gt_ratio := 1 |}.

Definition cuda : Target := {| device_type := kDLCUDA; device_attr := "" |}.

(** A dynamic dense task with one shape variable, three instances and two
    weights. *)
Definition mismatched_args : SearchTaskArgs :=
  {| a_init_state := empty_state; a_workload_key := "dense";
     a_target := cuda; a_target_host := cuda;
     a_hardware_params := Some v100_params;
     a_layout_rewrite_option := 0; a_task_input_names := [];
     a_shape_vars := Some ["T"%string];
     a_wkl_insts := Some [[16]; [32]; [64]];
     a_wkl_inst_weights := Some [1%Q; 1%Q];
     a_hardware_api := v100_api |}.

(** *** What the constructor checks *)

(** C7 (as amended).  The constructor compares no counts: whenever the
    instances and the weights are both present, and hardware parameters are
    given, the task is constructed and stores the shape variables, the
    instances and the weights as they were passed, whatever their counts
    are.  This holds whatever [std::move] leaves in its source. *)
Theorem SearchTask_constructed_whatever_the_counts
    (moved_from : forall A : Type, option A -> option A)
    (max_concurrency : Z) (dev : option DeviceAttrs)
    (args : SearchTaskArgs) (hp : HardwareParams)
    (insts : list (list Z)) (weights : list Q) :
  a_hardware_params args = Some hp ->
  a_wkl_insts args = Some insts ->
  a_wkl_inst_weights args = Some weights ->
  exists node,
    SearchTask moved_from max_concurrency dev args = Ok node /\
    shape_vars node = a_shape_vars args /\
    wkl_insts node = insts /\
    wkl_inst_weights node = weights.
Proof.
  intros Hhp Hi Hw. unfold SearchTask. rewrite Hhp, Hi, Hw. cbn.
  destruct (defined _); cbn; eexists; repeat split; reflexivity.
Qed.

Lemma SearchTask_constructed_witness :
  exists node,
    SearchTask tvm_moved_from 8 None mismatched_args = Ok node /\
    shape_vars node = Some ["T"%string] /\
    wkl_insts node = [[16]; [32]; [64]] /\
    wkl_inst_weights node = [1%Q; 1%Q].
Proof.
  exact (SearchTask_constructed_whatever_the_counts tvm_moved_from 8 None
           mismatched_args v100_params [[16]; [32]; [64]] [1%Q; 1%Q]
           eq_refl eq_refl eq_refl).
Defined.

(** C7 fails as stated: a task with shape variables, three instances and
    two weights is not rejected, whether the moved-from parameter reads as
    null or as before. *)
Lemma SearchTask_accepts_mismatched_counts :
  defined (a_shape_vars mismatched_args) = true /\
  length (default [] (a_wkl_insts mismatched_args))
    <> length (default [] (a_wkl_inst_weights mismatched_args)) /\
  is_Ok (SearchTask tvm_moved_from 8 None mismatched_args) = true /\
  is_Ok (SearchTask untouched_moved_from 8 None mismatched_args) = true.
Proof.
  split; [reflexivity|]. split; [cbn; lia|]. split; reflexivity.
Qed.

(** With TVM's move the guard is never entered: the moved-from parameter
    is null when it is tested, so no absence is reported either. *)
Lemma SearchTask_guard_after_move (max_concurrency : Z) (dev : option DeviceAttrs)
    (args : SearchTaskArgs) (hp : HardwareParams) :
  a_hardware_params args = Some hp ->
  is_Ok (SearchTask tvm_moved_from max_concurrency dev args) = true.
Proof. intros H. unfold SearchTask. rewrite H. reflexivity. Qed.

End Task.

(** ** The ranking and pruning filters of the efficient search *)

Module Filters.

Import HwConfig Task.

(** A filter receives the configs and, index by index, their states. *)
Abbreviation Entry := (HwAlignedConfig * State)%type.
Abbreviation Filtered := (list HwAlignedConfig * list State)%type.

Definition unzip_entries (l : list Entry) : Filtered := (map fst l, map snd l).

(** The loops read [cand_states[i]] for every [i < configs.size()]: a
    shorter [cand_states] is a read past its end. *)
Definition zip_inputs (configs : list HwAlignedConfig) (cand_states : list State)
    : Outcome (list Entry) :=
  if (length cand_states <? length configs)%nat then Undefined
  else Ok (combine configs cand_states).

Fixpoint omap {A B : Type} (f : A -> Outcome B) (l : list A) : Outcome (list B) :=
  match l with
  | [] => Ok []
  | x :: l' => let! y := f x in let! ys := omap f l' in Ok (y :: ys)
  end.

(** [shape_var_value_map.Set(shape_vars[i]->name_hint, wkl_inst[i])], in order. *)
Definition bind_shape_vars (vars : list string) (wkl_inst : list Z) : gmap string Z :=
  foldl (fun m kv => <[kv.1 := kv.2]> m) ∅ (combine vars wkl_inst).

(** The prologue the per-instance filters share. *)
Definition instance_map (task : SearchTaskNode) (wkl_inst : list Z)
    : Outcome (gmap string Z) :=
  match shape_vars task with
  | None => Fatal "Optional has no value"
  | Some vars =>
      let! _ := CHECK (length vars =? length wkl_inst)%nat
                  "Check failed: shape_vars.size() == wkl_inst.size()" in
      Ok (bind_shape_vars vars wkl_inst)
  end.

(** [GetIntImm(analyzer.Simplify(replacer(e)))]: the replacer stops with a
    fatal error at a shape variable the map does not bind. *)
Fixpoint replaced_extent (m : gmap string Z) (e : PrimExpr) : Outcome Z :=
  match e with
  | IntImm v => Ok v
  | DynShapeVar n =>
      match m !! n with
      | Some v => Ok v
      | None => Fatal "Dynamic Axis Node has not been found"
      end
  | Add a b =>
      let! x := replaced_extent m a in let! y := replaced_extent m b in Ok (x + y)
  | Mul a b =>
      let! x := replaced_extent m a in let! y := replaced_extent m b in Ok (x * y)
  end.

Definition step_extent (m : gmap string Z) (extent : option PrimExpr) : Outcome Z :=
  match extent with
  | Some e => replaced_extent m e
  | None => Fatal "Optional has no value"
  end.

(** [for (len : lengths) split_length *= len.value()->value] *)
Fixpoint split_length (lengths : list (option Z)) (acc : Z) : Outcome Z :=
  match lengths with
  | [] => Ok acc
  | Some v :: rest => split_length rest (acc * v)
  | None :: _ => Fatal "Optional has no value"
  end.

Section WithUtils.

(** [floor_div] and [floor_by] come from [utils.h], which is not among the
    sources: the filters are modelled for any two such functions. *)
Variable floor_div : Z -> Z -> Z.
Variable floor_by : Z -> Z -> Z.

(** The body of the loop over [transform_steps] that computes a grid size
    (shared by the occupancy and the two launch-bounds filters);
    [extent_ratio] and [grid_size] are [size_t]. *)
Definition grid_step (m : gmap string Z) (grid_size : Z) (step : Step) : Outcome Z :=
  match step with
  | SplitStep _ _ extent lengths _ =>
      if (length lengths =? 3)%nat then
        let! e := step_extent m extent in
        let! sl := split_length lengths 1 in
        let extent_ratio := to_size_t (floor_div e sl) in
        let! _ := CHECK (1 <=? extent_ratio) "Check failed: extent_ratio >= 1" in
        Ok (to_size_t (grid_size * extent_ratio))
      else Ok grid_size
  | _ => Ok grid_size
  end.

Fixpoint grid_size_from (m : gmap string Z) (steps : list Step) (grid_size : Z)
    : Outcome Z :=
  match steps with
  | [] => Ok grid_size
  | step :: rest =>
      let! g := grid_step m grid_size step in grid_size_from m rest g
  end.

Definition state_grid_size (m : gmap string Z) (s : State) : Outcome Z :=
  grid_size_from m (transform_steps s) 1.

(** The final loop of the scanning filters: keep entry [i] when
    [valid_states[i]]. *)
Fixpoint keep_valid (valid : list bool) (entries : list Entry) : list Entry :=
  match valid, entries with
  | v :: valid', e :: entries' =>
      if v then e :: keep_valid valid' entries' else keep_valid valid' entries'
  | _, _ => []
  end.

(** *** ThreadsNumberFilter *)

(** [configs[i].threads_num % (warp_size * compute_sm_partition[1]->value) == 0]:
    the array is read for every config, and a remainder by zero is
    undefined. *)
Definition threads_ok (task : SearchTaskNode) (c : HwAlignedConfig) : Outcome bool :=
  let api := hardware_api task in
  let! partition := array_at (compute_sm_partition api) 1 in
  let unit := warp_size api * partition in
  if unit =? 0 then Undefined else Ok (Z.rem (threads_num c) unit =? 0).

(** The loop [for (i < configs.size())], from the index [i] on:
    [cand_states[i]] is read for the configs that pass. *)
Fixpoint threads_scan (task : SearchTaskNode) (configs : list HwAlignedConfig)
    (cand_states : list State) (i : nat) : Outcome (list Entry) :=
  match configs with
  | [] => Ok []
  | c :: rest =>
      let! ok := threads_ok task c in
      if ok : bool then
        match cand_states !! i with
        | Some s =>
            let! kept := threads_scan task rest cand_states (S i) in Ok ((c, s) :: kept)
        | None => Undefined
        end
      else threads_scan task rest cand_states (S i)
  end.

Definition ThreadsNumberFilter (task : SearchTaskNode)
    (configs : list HwAlignedConfig) (cand_states : list State) : Outcome Filtered :=
  let! kept := threads_scan task configs cand_states 0 in
  Ok (unzip_entries kept).

(** *** PaddingFilter *)

Definition padding_step (m : gmap string Z) (padding_penalty : Q) (step : Step)
    : Outcome Q :=
  match step with
  | SplitStep _ _ extent lengths _ =>
      if ((length lengths =? 3) || (length lengths =? 2))%nat then
        let! e := step_extent m extent in
        let! sl := split_length lengths 1 in
        let! padding_ratio := fdiv (inject_Z e) (inject_Z (floor_by e sl)) in
        Ok (padding_penalty * padding_ratio)%Q
      else Ok padding_penalty
  | _ => Ok padding_penalty
  end.

Fixpoint padding_penalty_from (m : gmap string Z) (steps : list Step) (p : Q)
    : Outcome Q :=
  match steps with
  | [] => Ok p
  | step :: rest => let! p' := padding_step m p step in padding_penalty_from m rest p'
  end.

Definition padding_penalty (m : gmap string Z) (s : State) : Outcome Q :=
  padding_penalty_from m (transform_steps s) 1%Q.

Definition PaddingFilter (task : SearchTaskNode)
    (configs : list HwAlignedConfig) (cand_states : list State)
    (wkl_inst : list Z) (padding_penalty_threshold : Q) : Outcome Filtered :=
  let! m := instance_map task wkl_inst in
  let! entries := zip_inputs configs cand_states in
  let! penalties := omap (fun e : Entry => padding_penalty m e.2) entries in
  let valid_states := map (fun p => Qltb padding_penalty_threshold p) penalties in
  Ok (unzip_entries (keep_valid valid_states entries)).

(** The relaxation loop around [PaddingFilter] in [EfficientSearch]:
    [while (true) { ...; if (size > 0) break; ...; threshold -= 0.05; }]. *)
Fixpoint PaddingRelaxation (fuel : nat) (task : SearchTaskNode)
    (configs : list HwAlignedConfig) (cand_states : list State)
    (wkl_inst : list Z) (padding_penalty_threshold : Q) : Outcome Filtered :=
  match fuel with
  | O => OutOfFuel
  | S fuel' =>
      let! r := PaddingFilter task configs cand_states wkl_inst
                  padding_penalty_threshold in
      if (0 <? length r.1)%nat then Ok r
      else PaddingRelaxation fuel' task configs cand_states wkl_inst
             (padding_penalty_threshold - (5 # 100))%Q
  end.

(** *** OccupancyFilter *)

(** [coeff * g / ((coeff - 1) * g + floor_by(g, num_cores))] for a grid size
    [g], with [coeff] chosen by [g < static_cast<size_t>(num_cores)]. *)
Definition occupancy_penalty (task : SearchTaskNode) (grid_size : Z) : Outcome Q :=
  let api := hardware_api task in
  let cores := num_cores (hardware_params task) in
  let coeff := if grid_size <? to_size_t cores then lt_ratio api else gt_ratio api in
  fdiv (coeff * inject_Z grid_size)
       ((coeff - 1) * inject_Z grid_size + inject_Z (floor_by grid_size cores)).

(** The SM multiple of a grid size, [floor_div(grid, glbmem)] as a
    [size_t], for the value [glbmem] read from [glbmem_sm_partition[0]]. *)
Definition sm_multiple (glbmem : Z) (grid_size : Z) : Z :=
  to_size_t (floor_div grid_size glbmem).

(** An entry with its grid size ([states_grid_size[i]]). *)
Record Graded : Type := {
  g_entry : Entry;
  g_grid : Z
}.

Definition grade (m : gmap string Z) (e : Entry) : Outcome Graded :=
  let! grid := state_grid_size m e.2 in
  Ok {| g_entry := e; g_grid := grid |}.

Definition max_grid_size (grids : list Z) : Z :=
  foldl (fun acc g => if acc <? g then g else acc) 0 grids.

(** [size_t max_sm_times = floor_div(max_grid_size, glbmem_sm_partition[0]->value)] *)
Definition max_sm_times (glbmem : Z) (graded : list Graded) : Z :=
  sm_multiple glbmem (max_grid_size (map g_grid graded)).

(** The loop [for (i < states_grid_size.size())] for one [sm_times]: the
    penalty of an entry is computed before its multiple is looked at. *)
Fixpoint occupancy_row (task : SearchTaskNode) (glbmem sm_times : Z)
    (occupancy_ratio : Q) (graded : list Graded) : Outcome (list Graded) :=
  match graded with
  | [] => Ok []
  | g :: rest =>
      let! penalty := occupancy_penalty task (g_grid g) in
      let! pushed := occupancy_row task glbmem sm_times occupancy_ratio rest in
      Ok (if (sm_multiple glbmem (g_grid g) =? sm_times) && Qltb occupancy_ratio penalty
          then g :: pushed else pushed)
  end.

(** [while (sm_times <= max_sm_times) { ...; sm_times++; }], on [size_t]. *)
Fixpoint occupancy_scan (fuel : nat) (task : SearchTaskNode) (glbmem max_sm_times : Z)
    (graded : list Graded) (occupancy_ratio : Q) (sm_times : Z)
    : Outcome (list Graded) :=
  if sm_times <=? max_sm_times then
    match fuel with
    | O => OutOfFuel
    | S fuel' =>
        let! row := occupancy_row task glbmem sm_times occupancy_ratio graded in
        let! pushed := occupancy_scan fuel' task glbmem max_sm_times graded
                         occupancy_ratio (to_size_t (sm_times + 1)) in
        Ok (row ++ pushed)
    end
  else Ok [].

(** [while (filtered_configs.size() == 0)]: each turn reads
    [smem_sm_partition[1]] and scans the multiples from it on; [turns] is
    the fuel of each scan. *)
Fixpoint occupancy_loop (fuel turns : nat) (task : SearchTaskNode)
    (glbmem max_sm_times : Z) (graded : list Graded) (occupancy_ratio : Q)
    : Outcome (list Graded) :=
  match fuel with
  | O => OutOfFuel
  | S fuel' =>
      let! first := array_at (smem_sm_partition (hardware_api task)) 1 in
      let! pushed := occupancy_scan turns task glbmem max_sm_times graded
                       occupancy_ratio (to_size_t first) in
      if (0 <? length pushed)%nat then Ok pushed
      else occupancy_loop fuel' turns task glbmem max_sm_times graded
             (occupancy_ratio - (5 # 100))%Q
  end.

(** What [OccupancyFilter] computes before it reads the hardware: the grid
    sizes of the states. *)
Definition occupancy_inputs (task : SearchTaskNode)
    (configs : list HwAlignedConfig) (cand_states : list State)
    (wkl_inst : list Z) : Outcome (list Graded) :=
  let! m := instance_map task wkl_inst in
  let! entries := zip_inputs configs cand_states in
  omap (grade m) entries.

Definition OccupancyFilter (fuel : nat) (task : SearchTaskNode)
    (configs : list HwAlignedConfig) (cand_states : list State)
    (wkl_inst : list Z) : Outcome Filtered :=
  let! graded := occupancy_inputs task configs cand_states wkl_inst in
  let! glbmem := array_at (glbmem_sm_partition (hardware_api task)) 0 in
  let! pushed := occupancy_loop fuel fuel task glbmem (max_sm_times glbmem graded)
                   graded (95 # 100)%Q in
  Ok (unzip_entries (map g_entry pushed)).

(** *** RegisterLaunchBoundsFilter and SharedMemoryLaunchBoundsFilter *)

(** [std::min(size_t(smem_sm_partition[1]->value),
    floor_div(grid_size, smem_sm_partition[0]->value))] *)
Definition blocks_in_sm (task : SearchTaskNode) (grid_size : Z) : Outcome Z :=
  let partition := smem_sm_partition (hardware_api task) in
  let! blocks := array_at partition 1 in
  let! per_block := array_at partition 0 in
  Ok (Z.min (to_size_t blocks) (to_size_t (floor_div grid_size per_block))).

(** [configs[index].reduce_tiles[0][0]] *)
Definition reduce_tile_00 (c : HwAlignedConfig) : Outcome Z :=
  match reduce_tiles c with
  | (x :: _) :: _ => Ok x
  | _ => Undefined
  end.

Definition register_bounds_ok (task : SearchTaskNode) (m : gmap string Z)
    (sch_base : Z) (e : Entry) : Outcome bool :=
  let! grid := state_grid_size m e.2 in
  let! blocks := blocks_in_sm task grid in
  let! r00 := reduce_tile_00 e.1 in
  let reg := single_thread_reg_usage e.1 in
  let spill := (inject_Z (reg * r00) / 16)%Q in
  Ok (Qltb (inject_Z (to_size_t (blocks * threads_num e.1)) * (inject_Z reg + spill))
           (inject_Z (max_reg_per_sm (hardware_api task)))
      && Qltb (inject_Z (reg * sch_base) + spill) 255).

Definition RegisterLaunchBoundsFilter (task : SearchTaskNode)
    (configs : list HwAlignedConfig) (cand_states : list State)
    (wkl_inst : list Z) : Outcome Filtered :=
  match shape_vars task, cand_states with
  | None, _ => Fatal "Optional has no value"
  | Some _, [] => Undefined                           (* cand_states[0] *)
  | Some _, first :: _ =>
      let sch_base := if (7 <? length (stages first))%nat then 2 else 1 in
      let! m := instance_map task wkl_inst in
      let! entries := zip_inputs configs cand_states in
      let! valid_states := omap (register_bounds_ok task m sch_base) entries in
      Ok (unzip_entries (keep_valid valid_states entries))
  end.

Definition shared_memory_bounds_ok (task : SearchTaskNode) (m : gmap string Z)
    (e : Entry) : Outcome bool :=
  let! grid := state_grid_size m e.2 in
  let! blocks := blocks_in_sm task grid in
  (* [size_t * int] against an [int]: both sides are compared as [size_t] *)
  let used := to_size_t (blocks * smem_usage e.1) in
  let limit := to_size_t (max_smem_usage_per_sm (hardware_api task)) in
  Ok (if limit <? used then false else used <? limit).

Definition SharedMemoryLaunchBoundsFilter (task : SearchTaskNode)
    (configs : list HwAlignedConfig) (cand_states : list State)
    (wkl_inst : list Z) : Outcome Filtered :=
  let! m := instance_map task wkl_inst in
  let! entries := zip_inputs configs cand_states in
  let! valid_states := omap (shared_memory_bounds_ok task m) entries in
  Ok (unzip_entries (keep_valid valid_states entries)).

End WithUtils.

(** *** The compute-intensity filters *)

(** [configs[i].compute_intensive_ratio[level]], of a config that has the
    entry. *)
Definition ratio_at (level : nat) (c : HwAlignedConfig) : Q :=
  nth level (compute_intensive_ratio c) 0%Q.

(** [std::sort] calls [cmp_compute_ratio] on every element of a range of two
    or more; the read of an entry that a config does not have is undefined. *)
Definition ratios_defined (level : nat) (configs : list HwAlignedConfig) : bool :=
  (length configs <? 2)%nat
  || forallb (fun c => (level <? length (compute_intensive_ratio c))%nat) configs.

(** [cmp_compute_ratio]: [a] goes before [b] when its ratio is greater. *)
Definition cmp_compute_ratio (level : nat) (a b : HwAlignedConfig * nat) : bool :=
  Qltb (ratio_at level b.1) (ratio_at level a.1).

(** The body shared by the two filters: sort the configs, paired with their
    indices, and keep the first [keep] with the states at those indices. *)
Definition ComputeIntensiveFilter (level keep : nat)
    (configs : list HwAlignedConfig) (cand_states : list State) : Outcome Filtered :=
  let configs_for_sort := combine configs (seq 0 (length configs)) in
  if ratios_defined level configs then
    let sorted := std_sort (cmp_compute_ratio level) configs_for_sort in
    let kept := take (Nat.min keep (length sorted)) sorted in
    let! states := omap (fun ci : HwAlignedConfig * nat =>
                           match cand_states !! ci.2 with
                           | Some s => Ok s
                           | None => Undefined
                           end) kept in
    Ok (map fst kept, states)
  else Undefined.

Definition SharedMemoryComputeIntensiveFilter (task : SearchTaskNode)
    (configs : list HwAlignedConfig) (cand_states : list State) : Outcome Filtered :=
  ComputeIntensiveFilter 0 20 configs cand_states.

Definition RegComputeIntensiveFilter (task : SearchTaskNode)
    (configs : list HwAlignedConfig) (cand_states : list State)
    (wkl_inst : list Z) : Outcome Filtered :=
  ComputeIntensiveFilter 1 10 configs cand_states.

(** Modelled from the spec: [floor_div] and [floor_by] of [utils.h] (not
    among the sources).  The spec reads [floor_by(g, num_cores)] as
    "roundUp(g, num_cores)"; the grid size of a tiled loop is the number of
    tiles that cover its extent. *)
Definition ceil_div (a b : Z) : Z := Z.quot (a + b - 1) b.
Definition ceil_by (a b : Z) : Z := ceil_div a b * b.

(** The other reading of the two names: truncating division, and rounding
    down to a multiple. *)
Definition trunc_div (a b : Z) : Z := Z.quot a b.
Definition trunc_by (a b : Z) : Z := Z.quot a b * b.


(** What "never reordering surviving elements" asks of a filter's result:
    its config-state pairs, in the order they come out, are a subsequence of
    the pairs that went in. *)
Definition keeps_order (configs : list HwAlignedConfig) (cand_states : list State)
    (r : Outcome Filtered) : Prop :=
  match r with
  | Ok (cs, ss) => combine cs ss `sublist_of` combine configs cand_states
  | _ => True
  end.

Definition dyn_task : SearchTaskNode :=
  {| init_state := empty_state; workload_key := "dense";
     target := cuda; target_host := cuda;
     hardware_params := v100_params; layout_rewrite_option := 0;
     task_input_names := [];
     shape_vars := Some ["T"%string]; wkl_insts := [[16]; [32]; [64]];
     wkl_inst_weights := [1%Q; 1%Q; 1%Q]; hardware_api := v100_api |}.

(** A state whose only split step tiles an axis of extent [64 * T] by three
    factors. *)
Definition tiled (addr : nat) (f1 f2 f3 : Z) : State :=
  {| node_addr := addr; stages := ["C"%string];
     transform_steps :=
       [SplitStep 0 0 (Some (Mul (DynShapeVar "T") (IntImm 64)))
          [Some f1; Some f2; Some f3] true;
        OtherStep "fuse"] |}.

Definition config_of (ratio0 ratio1 : Q) (threads : Z) : HwAlignedConfig :=
  {| space_tiles := [[1]; [4]]; reduce_tiles := [[1]; [16]];
     k_threshold := []; compute_intensive_ratio := [ratio0; ratio1];
     single_thread_reg_usage := 2; space_production_threshold := 0;
     smem_usage := 1024; threads_num := threads |}.

(** *** Facts about the scanning filters *)

Lemma combine_unzip (l : list Entry) : combine (map fst l) (map snd l) = l.
Proof. induction l as [|[c st] l IH]; [reflexivity|]. cbn. rewrite IH. reflexivity. Qed.

Lemma keep_valid_sublist (valid : list bool) (entries : list Entry) :
  keep_valid valid entries `sublist_of` entries.
Proof.
  revert entries. induction valid as [|v valid IH]; intros [|e entries]; cbn;
    try apply sublist_nil_l.
  destruct v; [apply sublist_skip | apply sublist_cons]; apply IH.
Qed.

Lemma zip_inputs_Ok (configs : list HwAlignedConfig) (cand_states : list State)
    (entries : list Entry) :
  zip_inputs configs cand_states = Ok entries ->
  entries = combine configs cand_states /\ length entries = length configs.
Proof.
  unfold zip_inputs. destruct (Nat.ltb_spec (length cand_states) (length configs));
    [discriminate|].
  intros [= <-]. split; [reflexivity|]. rewrite length_combine. lia.
Qed.

Lemma omap_length {A B : Type} (f : A -> Outcome B) (l : list A) (r : list B) :
  omap f l = Ok r -> length r = length l.
Proof.
  revert r. induction l as [|x l IH]; intros r; cbn.
  - intros [= <-]. reflexivity.
  - destruct (f x); try discriminate. cbn.
    destruct (omap f l) as [ys| | |]; try discriminate. cbn.
    intros [= <-]. cbn. f_equal. apply IH. reflexivity.
Qed.

Section Facts.

Variable floor_div : Z -> Z -> Z.
Variable floor_by : Z -> Z -> Z.

Lemma threads_scan_sublist (task : SearchTaskNode) (configs : list HwAlignedConfig)
    (cand_states : list State) (i : nat) (kept : list Entry) :
  threads_scan task configs cand_states i = Ok kept ->
  kept `sublist_of` combine configs (drop i cand_states).
Proof.
  revert i kept. induction configs as [|c configs IH]; intros i kept; cbn [threads_scan].
  - intros [= <-]. apply sublist_nil_l.
  - destruct (threads_ok task c) as [[|]| | |]; cbn [obind]; try discriminate.
    + destruct (cand_states !! i) as [s|] eqn:Hs; [|discriminate].
      destruct (threads_scan task configs cand_states (S i)) as [kept'| | |] eqn:E;
        cbn [obind]; try discriminate.
      intros [= <-]. rewrite (drop_S _ _ _ Hs). cbn [combine].
      apply sublist_skip, IH, E.
    + intros H. apply IH in H. destruct (cand_states !! i) as [s|] eqn:Hs.
      * rewrite (drop_S _ _ _ Hs). cbn [combine]. apply sublist_cons, H.
      * rewrite drop_ge in H by (apply lookup_ge_None_1 in Hs; lia).
        destruct configs; cbn [combine] in H; apply sublist_nil_r in H; subst;
          apply sublist_nil_l.
Qed.

Lemma ThreadsNumberFilter_keeps_order (task : SearchTaskNode)
    (configs : list HwAlignedConfig) (cand_states : list State) :
  keeps_order configs cand_states (ThreadsNumberFilter task configs cand_states).
Proof.
  unfold ThreadsNumberFilter.
  destruct (threads_scan task configs cand_states 0) as [kept| | |] eqn:E; cbn; try exact I.
  rewrite combine_unzip. apply (threads_scan_sublist task configs cand_states 0), E.
Qed.

Lemma PaddingFilter_keeps_order (task : SearchTaskNode)
    (configs : list HwAlignedConfig) (cand_states : list State)
    (wkl_inst : list Z) (threshold : Q) :
  keeps_order configs cand_states
    (PaddingFilter floor_by task configs cand_states wkl_inst threshold).
Proof.
  unfold PaddingFilter.
  destruct (instance_map task wkl_inst) as [m| | |]; cbn; try exact I.
  destruct (zip_inputs configs cand_states) as [entries| | |] eqn:Hz; cbn; try exact I.
  destruct (omap _ entries) as [penalties| | |]; cbn; try exact I.
  apply zip_inputs_Ok in Hz as [-> _]. rewrite combine_unzip. apply keep_valid_sublist.
Qed.

Lemma RegisterLaunchBoundsFilter_keeps_order (task : SearchTaskNode)
    (configs : list HwAlignedConfig) (cand_states : list State) (wkl_inst : list Z) :
  keeps_order configs cand_states
    (RegisterLaunchBoundsFilter floor_div task configs cand_states wkl_inst).
Proof.
  unfold RegisterLaunchBoundsFilter.
  destruct (shape_vars task); [|exact I]. destruct cand_states as [|st0 rest]; [exact I|].
  destruct (instance_map task wkl_inst) as [m| | |]; cbn; try exact I.
  destruct (zip_inputs configs (st0 :: rest)) as [entries| | |] eqn:Hz; cbn; try exact I.
  destruct (omap _ entries) as [valid| | |]; cbn; try exact I.
  apply zip_inputs_Ok in Hz as [-> _]. rewrite combine_unzip. apply keep_valid_sublist.
Qed.

Lemma SharedMemoryLaunchBoundsFilter_keeps_order (task : SearchTaskNode)
    (configs : list HwAlignedConfig) (cand_states : list State) (wkl_inst : list Z) :
  keeps_order configs cand_states
    (SharedMemoryLaunchBoundsFilter floor_div task configs cand_states wkl_inst).
Proof.
  unfold SharedMemoryLaunchBoundsFilter.
  destruct (instance_map task wkl_inst) as [m| | |]; cbn; try exact I.
  destruct (zip_inputs configs cand_states) as [entries| | |] eqn:Hz; cbn; try exact I.
  destruct (omap _ entries) as [valid| | |]; cbn; try exact I.
  apply zip_inputs_Ok in Hz as [-> _]. rewrite combine_unzip. apply keep_valid_sublist.
Qed.

End Facts.

(** *** Facts about OccupancyFilter *)

Lemma StronglySorted_seqZ (m n : Z) : StronglySorted Z.lt (seqZ m n).
Proof.
  destruct (Z.le_gt_cases n 0) as [Hn|Hn]; [rewrite seqZ_nil by lia; constructor|].
  rewrite <- (Z2Nat.id n) by lia. generalize (Z.to_nat n) as k. clear Hn n.
  intros k. revert m. induction k as [|k IH]; intros m.
  - rewrite seqZ_nil by lia. constructor.
  - rewrite seqZ_cons by lia. replace (Z.pred (Z.of_nat (S k))) with (Z.of_nat k) by lia.
    constructor; [apply IH|]. apply Forall_forall. intros x Hx.
    apply elem_of_seqZ in Hx. lia.
Qed.

Lemma elem_of_flat_map {A B : Type} (f : A -> list B) (l : list A) (y : B) :
  y ∈ flat_map f l <-> exists x, x ∈ l /\ y ∈ f x.
Proof.
  rewrite list_elem_of_In, in_flat_map. split; intros (x & Hx & Hy); exists x;
    rewrite ?list_elem_of_In in *; auto.
Qed.

Lemma filter_none {A : Type} (P : A -> Prop) `{forall x, Decision (P x)} (l : list A) :
  (forall x, x ∈ l -> ~ P x) -> filter P l = [].
Proof.
  intros Hno. destruct (filter P l) as [|x l'] eqn:E; [reflexivity|].
  assert (Hx : x ∈ filter P l) by (rewrite E; left).
  apply list_elem_of_filter in Hx as [HP Hx]. destruct (Hno x Hx HP).
Qed.

Section OccupancyFacts.

Variable floor_div : Z -> Z -> Z.
Variable floor_by : Z -> Z -> Z.
Variable task : SearchTaskNode.
Variable glbmem : Z.
Variable graded : list Graded.

(** The SM multiple of a graded entry. *)
Definition sm_of (g : Graded) : Z := sm_multiple floor_div glbmem (g_grid g).

(** No penalty of the entries divides by zero. *)
Definition penalties_defined (l : list Graded) : Prop :=
  Forall (fun g => is_Ok (occupancy_penalty floor_by task (g_grid g)) = true) l.

(** The test that pushes an entry, once its penalty is computed. *)
Definition occupancy_ok (sm_times : Z) (ratio : Q) (g : Graded) : bool :=
  (sm_of g =? sm_times)
  && match occupancy_penalty floor_by task (g_grid g) with
     | Ok penalty => Qltb ratio penalty
     | _ => false
     end.

Definition groups (ratio : Q) (ks : list Z) : list Graded :=
  flat_map (fun k => filter (fun g => occupancy_ok k ratio g) graded) ks.

(** The SM multiples a scan walks through when it starts at [first] and
    [max] is not the last [size_t]. *)
Definition sm_window (first max : Z) : list Z := seqZ first (max - first + 1).

Lemma to_size_t_range (z : Z) : 0 <= to_size_t z <= size_max.
Proof.
  unfold to_size_t, size_max. pose proof (Z.mod_pos_bound z (2 ^ 64) eq_refl). lia.
Qed.

Lemma to_size_t_small (z : Z) : 0 <= z <= size_max -> to_size_t z = z.
Proof. unfold to_size_t, size_max. intros H. apply Z.mod_small. lia. Qed.

Lemma to_size_t_wrap : to_size_t (size_max + 1) = 0.
Proof. reflexivity. Qed.

Lemma sm_window_cons (first max : Z) :
  first <= max -> sm_window first max = first :: sm_window (first + 1) max.
Proof.
  intros H. unfold sm_window. rewrite seqZ_cons by lia. f_equal.
  unfold Z.succ. f_equal. lia.
Qed.

Lemma sm_window_nil (first max : Z) : max < first -> sm_window first max = [].
Proof. intros H. unfold sm_window. apply seqZ_nil. lia. Qed.

Lemma occupancy_push (sm_times : Z) (ratio penalty : Q) (g : Graded) (l : list Graded) :
  occupancy_penalty floor_by task (g_grid g) = Ok penalty ->
  (if (sm_multiple floor_div glbmem (g_grid g) =? sm_times) && Qltb ratio penalty
   then g :: filter (fun g => occupancy_ok sm_times ratio g) l
   else filter (fun g => occupancy_ok sm_times ratio g) l)
  = filter (fun g => occupancy_ok sm_times ratio g) (g :: l).
Proof.
  intros Ep.
  assert (Hc : (sm_multiple floor_div glbmem (g_grid g) =? sm_times) && Qltb ratio penalty
               = occupancy_ok sm_times ratio g)
    by (unfold occupancy_ok, sm_of; rewrite Ep; reflexivity).
  rewrite Hc. destruct (occupancy_ok sm_times ratio g) eqn:E.
  - rewrite filter_cons_True by (rewrite E; exact I). reflexivity.
  - rewrite filter_cons_False by (rewrite E; auto). reflexivity.
Qed.

Lemma occupancy_row_Ok (sm_times : Z) (ratio : Q) (l row : list Graded) :
  occupancy_row floor_div floor_by task glbmem sm_times ratio l = Ok row ->
  row = filter (fun g => occupancy_ok sm_times ratio g) l /\ penalties_defined l.
Proof.
  revert row. induction l as [|g l IH]; intros row; cbn [occupancy_row].
  - intros [= <-]. split; [reflexivity|constructor].
  - destruct (occupancy_penalty floor_by task (g_grid g)) as [penalty| | |] eqn:Ep;
      cbn [obind]; try discriminate.
    destruct (occupancy_row _ _ _ _ _ _ l) as [pushed| | |]; cbn [obind]; try discriminate.
    destruct (IH pushed eq_refl) as [-> Hdef]. intros [= <-]. split.
    + apply occupancy_push, Ep.
    + constructor; [rewrite Ep; reflexivity|exact Hdef].
Qed.


(** A scan up to the last [size_t] has no last turn. *)
Lemma occupancy_scan_wraps (fuel : nat) (ratio : Q) (sm_times : Z) :
  sm_times <= size_max ->
  is_Ok (occupancy_scan floor_div floor_by fuel task glbmem size_max graded ratio sm_times)
  = false.
Proof.
  revert sm_times. induction fuel as [|fuel IH]; intros sm_times Hle; cbn [occupancy_scan];
    rewrite (proj2 (Z.leb_le _ _) Hle); [reflexivity|].
  destruct (occupancy_row _ _ _ _ _ _ _) as [row| | |]; cbn [obind]; try reflexivity.
  specialize (IH (to_size_t (sm_times + 1)) (proj2 (to_size_t_range _))).
  destruct (occupancy_scan _ _ _ _ _ _ _ _ _) as [pushed| | |]; cbn [obind];
    [discriminate IH|reflexivity..].
Qed.

(** What a scan that ends has pushed. *)
Lemma occupancy_scan_Ok (fuel : nat) (max : Z) (ratio : Q) (sm_times : Z)
    (pushed : list Graded) :
  0 <= sm_times -> max <= size_max ->
  occupancy_scan floor_div floor_by fuel task glbmem max graded ratio sm_times = Ok pushed ->
  pushed = groups ratio (sm_window sm_times max).
Proof.
  intros Hpos Hmax. revert sm_times pushed Hpos.
  induction fuel as [|fuel IH]; intros sm_times pushed Hpos; cbn [occupancy_scan];
    destruct (Z.leb_spec sm_times max) as [Hle|Hgt]; try discriminate;
    try (intros [= <-]; rewrite sm_window_nil by lia; reflexivity).
  destruct (occupancy_row _ _ _ _ _ _ _) as [row| | |] eqn:Er; cbn [obind]; try discriminate.
  destruct (occupancy_scan _ _ _ _ _ _ _ _ _) as [rest| | |] eqn:Es; cbn [obind];
    try discriminate.
  intros [= <-]. apply occupancy_row_Ok in Er as [-> _].
  destruct (Z.eq_dec sm_times size_max) as [->|Hne].
  - assert (max = size_max) as -> by lia.
    pose proof (occupancy_scan_wraps fuel ratio (to_size_t (size_max + 1))
                  (proj2 (to_size_t_range _))) as Hw.
    rewrite Es in Hw. discriminate Hw.
  - rewrite to_size_t_small in Es by lia. apply IH in Es; [|lia].
    rewrite (sm_window_cons sm_times max Hle). unfold groups at 1. cbn [flat_map].
    rewrite Es. reflexivity.
Qed.


Lemma elem_of_group (ratio : Q) (k : Z) (g : Graded) :
  g ∈ filter (fun g => occupancy_ok k ratio g) graded <->
  g ∈ graded /\ sm_of g = k /\
  exists penalty,
    occupancy_penalty floor_by task (g_grid g) = Ok penalty /\ (ratio < penalty)%Q.
Proof.
  rewrite list_elem_of_filter. unfold occupancy_ok.
  rewrite andb_True, Is_true_true, Z.eqb_eq.
  destruct (occupancy_penalty floor_by task (g_grid g)) as [penalty| | |].
  - rewrite Qltb_lt'. split.
    + intros [[Hk Hp] Hg]. eauto.
    + intros (Hg & Hk & p & [= <-] & Hp). auto.
  - split; [intros [[_ []] _]|intros (_ & _ & p & Hp & _); discriminate Hp].
  - split; [intros [[_ []] _]|intros (_ & _ & p & Hp & _); discriminate Hp].
  - split; [intros [[_ []] _]|intros (_ & _ & p & Hp & _); discriminate Hp].
Qed.

Lemma elem_of_groups (ratio : Q) (ks : list Z) (g : Graded) :
  g ∈ groups ratio ks <->
  g ∈ graded /\ sm_of g ∈ ks /\
  exists penalty,
    occupancy_penalty floor_by task (g_grid g) = Ok penalty /\ (ratio < penalty)%Q.
Proof.
  unfold groups. rewrite elem_of_flat_map. split.
  - intros (k & Hk & Hg). apply elem_of_group in Hg as (? & <- & ?). auto.
  - intros (Hg & Hk & Hr). exists (sm_of g). split; [exact Hk|].
    apply elem_of_group. auto.
Qed.

Lemma groups_sorted (ratio : Q) (ks : list Z) :
  StronglySorted Z.lt ks ->
  StronglySorted (fun a b => sm_of a <= sm_of b) (groups ratio ks).
Proof.
  induction 1 as [|k ks Hks IH Hall]; [constructor|].
  unfold groups. cbn [flat_map]. apply StronglySorted_app_2.
  - intros x1 x2 H1 H2. apply elem_of_group in H1 as (_ & H1 & _).
    apply (elem_of_groups ratio ks) in H2 as (_ & H2 & _).
    rewrite Forall_forall in Hall. specialize (Hall _ H2). lia.
  - assert (Hk : Forall (fun g => sm_of g = k)
                   (filter (fun g => occupancy_ok k ratio g) graded)).
    { apply Forall_forall. intros g Hg. apply elem_of_group in Hg. tauto. }
    induction Hk as [|g l Hg Hl IHl]; constructor; [exact IHl|].
    apply Forall_forall. intros g' Hg'. rewrite Forall_forall in Hl.
    rewrite Hg, (Hl _ Hg'). lia.
  - exact IH.
Qed.

Lemma groups_one_multiple (ratio : Q) (ks : list Z) (k : Z) :
  StronglySorted Z.lt ks ->
  filter (fun g => sm_of g = k) (groups ratio ks) `sublist_of` graded.
Proof.
  induction 1 as [|k0 ks Hks IH Hall]; [apply sublist_nil_l|].
  unfold groups. cbn [flat_map]. rewrite filter_app. fold (groups ratio ks).
  destruct (decide (k = k0)) as [->|Hne].
  - replace (filter (fun g => sm_of g = k0) (groups ratio ks)) with (@nil Graded).
    + rewrite app_nil_r. etrans; apply sublist_filter.
    + symmetry. apply filter_none. intros g Hg Heq.
      apply (elem_of_groups ratio ks) in Hg as (_ & Hg & _).
      rewrite Forall_forall in Hall. specialize (Hall _ Hg). lia.
  - replace (filter (fun g => sm_of g = k)
               (filter (fun g => occupancy_ok k0 ratio g) graded))
      with (@nil Graded); [exact IH|].
    symmetry. apply filter_none. intros g Hg Heq.
    apply elem_of_group in Hg as (_ & Hg & _). congruence.
Qed.

(** What [OccupancyFilter] keeps is ordered by SM multiple; the entries of
    one multiple are in the order of the input. *)
Definition grouped_by_sm_multiple (pushed : list Graded) : Prop :=
  StronglySorted (fun a b => sm_of a <= sm_of b) pushed /\
  forall k, filter (fun g => sm_of g = k) pushed `sublist_of` graded.

Lemma groups_grouped (ratio : Q) (first max : Z) :
  grouped_by_sm_multiple (groups ratio (sm_window first max)).
Proof.
  split; [|intros k]; [apply groups_sorted | apply groups_one_multiple];
    apply StronglySorted_seqZ.
Qed.

Lemma occupancy_loop_pass (fuel turns : nat) (max : Z) (ratio : Q)
    (pushed : list Graded) :
  max <= size_max ->
  occupancy_loop floor_div floor_by fuel turns task glbmem max graded ratio = Ok pushed ->
  pushed <> [] /\
  exists first ratio',
    array_at (smem_sm_partition (hardware_api task)) 1 = Ok first /\
    pushed = groups ratio' (sm_window (to_size_t first) max).
Proof.
  intros Hmax. revert ratio. induction fuel as [|fuel IH]; intros ratio; [discriminate|].
  cbn [occupancy_loop].
  destruct (array_at (smem_sm_partition (hardware_api task)) 1) as [first| | |] eqn:Ef;
    cbn [obind]; try discriminate.
  destruct (occupancy_scan _ _ _ _ _ _ _ _ _) as [scanned| | |] eqn:Es; cbn [obind];
    try discriminate.
  destruct (Nat.ltb_spec 0 (length scanned)) as [Hlen|Hlen].
  - intros [= <-]. split; [intros Heq; rewrite Heq in Hlen; cbn in Hlen; lia|].
    exists first, ratio. split; [reflexivity|].
    eapply occupancy_scan_Ok; [apply to_size_t_range|exact Hmax|exact Es].
  - intros H. destruct (IH _ H) as (Hne & first' & ratio' & Hf & Hp).
    split; [exact Hne|]. exists first', ratio'. split; [exact Hf|exact Hp].
Qed.


(** A window that is empty stays so: no turn pushes anything. *)
Lemma occupancy_loop_empty_window (first max : Z) (fuel turns : nat) (ratio : Q) :
  array_at (smem_sm_partition (hardware_api task)) 1 = Ok first ->
  max < to_size_t first ->
  occupancy_loop floor_div floor_by fuel turns task glbmem max graded ratio = OutOfFuel.
Proof.
  intros Hf Hw. revert ratio. induction fuel as [|fuel IH]; intros ratio; [reflexivity|].
  cbn [occupancy_loop]. rewrite Hf. cbn [obind].
  destruct turns; cbn [occupancy_scan]; rewrite (proj2 (Z.leb_gt _ _) Hw); cbn; apply IH.
Qed.

End OccupancyFacts.

(** *** Facts about the padding relaxation *)

Section PaddingFacts.

Variable floor_by : Z -> Z -> Z.
Variable task : SearchTaskNode.
Variable wkl_inst : list Z.

Lemma PaddingFilter_inputs (configs : list HwAlignedConfig) (cand_states : list State)
    (threshold : Q) (r : Filtered) :
  PaddingFilter floor_by task configs cand_states wkl_inst threshold = Ok r ->
  exists m entries penalties,
    instance_map task wkl_inst = Ok m /\
    zip_inputs configs cand_states = Ok entries /\
    omap (fun e : Entry => padding_penalty floor_by m e.2) entries = Ok penalties /\
    r = unzip_entries (keep_valid (map (fun p => Qltb threshold p) penalties) entries).
Proof.
  unfold PaddingFilter.
  destruct (instance_map task wkl_inst) as [m| | |]; cbn [obind]; try discriminate.
  destruct (zip_inputs configs cand_states) as [entries| | |]; cbn [obind]; try discriminate.
  destruct (omap _ entries) as [penalties| | |] eqn:Hp; cbn [obind]; try discriminate.
  intros [= <-]. exists m, entries, penalties. repeat split; try reflexivity. exact Hp.
Qed.

Lemma PaddingFilter_any_threshold (configs : list HwAlignedConfig)
    (cand_states : list State) (threshold threshold' : Q) (r : Filtered) :
  PaddingFilter floor_by task configs cand_states wkl_inst threshold = Ok r ->
  exists r', PaddingFilter floor_by task configs cand_states wkl_inst threshold' = Ok r'.
Proof.
  intros H. apply PaddingFilter_inputs in H as (m & entries & penalties & Hm & Hz & Hp & _).
  unfold PaddingFilter. rewrite Hm. cbn [obind]. rewrite Hz. cbn [obind]. rewrite Hp.
  cbn [obind]. eauto.
Qed.





End PaddingFacts.

(** Every rational lies below some natural number. *)
Lemma Q_below_nat (q : Q) : exists n : nat, (q < inject_Z (Z.of_nat n))%Q.
Proof.
  exists (Z.to_nat (Z.max 0 (Qfloor q + 1))).
  rewrite Z2Nat.id by lia.
  apply Qlt_le_trans with (inject_Z (Qfloor q + 1)); [apply Qlt_floor|].
  rewrite <- Zle_Qle. lia.
Qed.

(** *** Facts about the compute-intensity filters *)

Lemma omap_Forall2 {A B : Type} (f : A -> Outcome B) (l : list A) (r : list B) :
  omap f l = Ok r -> Forall2 (fun x y => f x = Ok y) l r.
Proof.
  revert r. induction l as [|x l IH]; intros r; cbn.
  - intros [= <-]. constructor.
  - destruct (f x) as [y| | |] eqn:E; try discriminate. cbn.
    destruct (omap f l) as [ys| | |]; try discriminate. cbn.
    intros [= <-]. constructor; [exact E | apply IH; reflexivity].
Qed.

(** What a compute-intensity filter returns: the first [keep] configs of an
    arrangement of the input in descending order of the ratio, each with the
    state that stood at its index. *)
Definition top_by_ratio (level keep : nat) (configs : list HwAlignedConfig)
    (cand_states : list State) (r : Filtered) : Prop :=
  exists sorted : list (HwAlignedConfig * nat),
    sorted ≡ₚ combine configs (seq 0 (length configs)) /\
    StronglySorted (descending (fun ci : HwAlignedConfig * nat => ratio_at level ci.1)) sorted /\
    r.1 = map fst (take keep sorted) /\
    Forall2 (fun (ci : HwAlignedConfig * nat) s => cand_states !! ci.2 = Some s)
      (take keep sorted) r.2.

Lemma ComputeIntensiveFilter_top (level keep : nat) (configs : list HwAlignedConfig)
    (cand_states : list State) (r : Filtered) :
  ComputeIntensiveFilter level keep configs cand_states = Ok r ->
  top_by_ratio level keep configs cand_states r.
Proof.
  unfold ComputeIntensiveFilter. destruct (ratios_defined level configs); [|discriminate].
  set (sorted := std_sort (cmp_compute_ratio level) _).
  assert (Htake : take (Nat.min keep (length sorted)) sorted = take keep sorted).
  { destruct (Nat.le_ge_cases keep (length sorted)) as [Hle|Hge].
    - rewrite Nat.min_l by exact Hle. reflexivity.
    - rewrite Nat.min_r by exact Hge. rewrite !take_ge by lia. reflexivity. }
  rewrite Htake. destruct (omap _ (take keep sorted)) as [states| | |] eqn:E;
    cbn; try discriminate.
  intros [= <-]. exists sorted. split; [apply std_sort_perm|].
  split; [apply (std_sort_sorted (fun ci : HwAlignedConfig * nat => ratio_at level ci.1))|].
  split; [reflexivity|]. cbn.
  apply omap_Forall2 in E. eapply Forall2_impl; [exact E|].
  intros ci s. cbn. destruct (cand_states !! ci.2); [intros [= ->]; reflexivity | discriminate].
Qed.

(** *** The claims about the filters *)

Definition cfgA : HwAlignedConfig := config_of 1 1 128.
Definition cfgB : HwAlignedConfig := config_of 2 2 256.
Definition stA : State := tiled 1 1 1 1.
Definition stB : State := tiled 2 1 2 1.


(** A state with a grid of 128 blocks for [T = 16]. *)
Definition st_fine : State := tiled 4 1 4 2.

(** A state whose tiles of 300 pad the axis of the instance [T = 16] from
    1024 to 1200. *)
Definition st_padded : State := tiled 6 1 3 100.

Lemma PaddingRelaxation_keeps_order (floor_by : Z -> Z -> Z) (fuel : nat)
    (task : SearchTaskNode) (configs : list HwAlignedConfig) (cand_states : list State)
    (wkl_inst : list Z) (threshold : Q) :
  keeps_order configs cand_states
    (PaddingRelaxation floor_by fuel task configs cand_states wkl_inst threshold).
Proof.
  revert threshold. induction fuel as [|fuel IH]; intros threshold; [exact I|].
  cbn [PaddingRelaxation].
  pose proof (PaddingFilter_keeps_order floor_by task configs cand_states wkl_inst threshold)
    as Hk.
  destruct (PaddingFilter _ _ _ _ _ _) as [r| | |]; cbn [obind]; try exact I.
  destruct (0 <? length r.1)%nat; [exact Hk | apply IH].
Qed.

Lemma OccupancyFilter_grouped (floor_div floor_by : Z -> Z -> Z) (fuel : nat)
    (task : SearchTaskNode) (configs : list HwAlignedConfig) (cand_states : list State)
    (wkl_inst : list Z) (r : Filtered) :
  OccupancyFilter floor_div floor_by fuel task configs cand_states wkl_inst = Ok r ->
  exists glbmem graded pushed,
    array_at (glbmem_sm_partition (hardware_api task)) 0 = Ok glbmem /\
    occupancy_inputs floor_div task configs cand_states wkl_inst = Ok graded /\
    r = unzip_entries (map g_entry pushed) /\
    grouped_by_sm_multiple floor_div glbmem graded pushed.
Proof.
  unfold OccupancyFilter.
  destruct (occupancy_inputs _ _ _ _ _) as [graded| | |]; cbn [obind]; try discriminate.
  destruct (array_at (glbmem_sm_partition (hardware_api task)) 0) as [glbmem| | |];
    cbn [obind]; try discriminate.
  destruct (occupancy_loop _ _ _ _ _ _ _ _ _) as [pushed| | |] eqn:Hloop; cbn [obind];
    try discriminate.
  intros [= <-]. exists glbmem, graded, pushed.
  split; [reflexivity|]. split; [reflexivity|]. split; [reflexivity|].
  apply occupancy_loop_pass in Hloop as (_ & first & ratio & _ & ->);
    [apply groups_grouped|apply (proj2 (to_size_t_range _))].
Qed.

(** C4 (as amended).  The four scanning filters ([ThreadsNumberFilter],
    [RegisterLaunchBoundsFilter], [SharedMemoryLaunchBoundsFilter] and
    [PaddingFilter], also under its relaxation loop) return the surviving
    config-state pairs in the order of their input.  [OccupancyFilter]
    returns its survivors by ascending SM multiple (the multiples being
    those of the value read from [glbmem_sm_partition[0]]), those of one
    multiple in the order of the input.  The two compute-intensity filters return the
    first 20, respectively 10, configs of the input arranged in descending
    order of the ratio, each with its own state. *)
Theorem filters_order_of_survivors (floor_div floor_by : Z -> Z -> Z)
    (task : SearchTaskNode) (configs : list HwAlignedConfig) (cand_states : list State)
    (wkl_inst : list Z) (threshold : Q) (fuel : nat) :
  keeps_order configs cand_states (ThreadsNumberFilter task configs cand_states) /\
  keeps_order configs cand_states
    (RegisterLaunchBoundsFilter floor_div task configs cand_states wkl_inst) /\
  keeps_order configs cand_states
    (SharedMemoryLaunchBoundsFilter floor_div task configs cand_states wkl_inst) /\
  keeps_order configs cand_states
    (PaddingFilter floor_by task configs cand_states wkl_inst threshold) /\
  keeps_order configs cand_states
    (PaddingRelaxation floor_by fuel task configs cand_states wkl_inst threshold) /\
  (forall r,
     OccupancyFilter floor_div floor_by fuel task configs cand_states wkl_inst = Ok r ->
     exists glbmem graded pushed,
       array_at (glbmem_sm_partition (hardware_api task)) 0 = Ok glbmem /\
       occupancy_inputs floor_div task configs cand_states wkl_inst = Ok graded /\
       r = unzip_entries (map g_entry pushed) /\
       grouped_by_sm_multiple floor_div glbmem graded pushed) /\
  (forall r,
     SharedMemoryComputeIntensiveFilter task configs cand_states = Ok r ->
     top_by_ratio 0 20 configs cand_states r) /\
  (forall r,
     RegComputeIntensiveFilter task configs cand_states wkl_inst = Ok r ->
     top_by_ratio 1 10 configs cand_states r).
Proof.
  split; [apply ThreadsNumberFilter_keeps_order|].
  split; [apply RegisterLaunchBoundsFilter_keeps_order|].
  split; [apply SharedMemoryLaunchBoundsFilter_keeps_order|].
  split; [apply PaddingFilter_keeps_order|].
  split; [apply PaddingRelaxation_keeps_order|].
  split; [intros r; apply OccupancyFilter_grouped|].
  split; intros r; apply ComputeIntensiveFilter_top.
Qed.

Lemma filters_order_witness :
  top_by_ratio 0 20 [cfgA; cfgB] [stA; stB] ([cfgB; cfgA], [stB; stA]) /\
  exists glbmem graded pushed,
    array_at (glbmem_sm_partition (hardware_api dyn_task)) 0 = Ok glbmem /\
    occupancy_inputs ceil_div dyn_task [cfgA; cfgB] [stA; stB] [64] = Ok graded /\
    ([cfgB; cfgA], [stB; stA]) = unzip_entries (map g_entry pushed) /\
    grouped_by_sm_multiple ceil_div glbmem graded pushed.
Proof.
  destruct (filters_order_of_survivors ceil_div ceil_by dyn_task [cfgA; cfgB] [stA; stB]
              [64] (95 # 100)%Q 60) as (_ & _ & _ & _ & _ & Hocc & Hsm & _).
  split.
  - apply Hsm. reflexivity.
  - apply Hocc. vm_compute. reflexivity.
Defined.

Lemma sublist_swapped {A : Type} (a b : A) : a <> b -> ~ [b; a] `sublist_of` [a; b].
Proof.
  intros Hne H. inversion H as [| |x l1 l2 H1]; subst; [congruence|].
  inversion H1 as [|x l1 l2 H2|x l1 l2 H2]; subst; inversion H2.
Qed.

(** C4 fails as stated: each of the two compute-intensity filters, and the
    occupancy filter, returns the two surviving pairs of these inputs in the
    order opposite to the input's. *)
Lemma filters_reorder_survivors :
  ~ keeps_order [cfgA; cfgB] [stA; stB]
      (SharedMemoryComputeIntensiveFilter dyn_task [cfgA; cfgB] [stA; stB]) /\
  ~ keeps_order [cfgA; cfgB] [stA; stB]
      (RegComputeIntensiveFilter dyn_task [cfgA; cfgB] [stA; stB] [64]) /\
  ~ keeps_order [cfgA; cfgB] [stA; stB]
      (OccupancyFilter ceil_div ceil_by 60 dyn_task [cfgA; cfgB] [stA; stB] [64]).
Proof.
  assert (Hne : (cfgA, stA) <> (cfgB, stB)) by discriminate.
  assert (H1 : SharedMemoryComputeIntensiveFilter dyn_task [cfgA; cfgB] [stA; stB]
               = Ok ([cfgB; cfgA], [stB; stA])) by reflexivity.
  assert (H2 : RegComputeIntensiveFilter dyn_task [cfgA; cfgB] [stA; stB] [64]
               = Ok ([cfgB; cfgA], [stB; stA])) by reflexivity.
  assert (H3 : OccupancyFilter ceil_div ceil_by 60 dyn_task [cfgA; cfgB] [stA; stB] [64]
               = Ok ([cfgB; cfgA], [stB; stA])) by (vm_compute; reflexivity).
  rewrite H1, H2, H3. cbn [keeps_order combine].
  repeat split; apply sublist_swapped, Hne.
Qed.



(** The turns the two loops of the witness take: the first thresholds keep
    nothing. *)
Lemma relaxation_takes_steps :
  OccupancyFilter ceil_div ceil_by 4 dyn_task [cfgA] [st_fine] [16] = OutOfFuel /\
  OccupancyFilter ceil_div ceil_by 5 dyn_task [cfgA] [st_fine] [16]
  = Ok ([cfgA], [st_fine]) /\
  PaddingFilter ceil_by dyn_task [cfgA] [st_padded] [16] (90 # 100)%Q = Ok ([], []) /\
  PaddingRelaxation ceil_by 2 dyn_task [cfgA] [st_padded] [16] (95 # 100)%Q = OutOfFuel /\
  PaddingRelaxation ceil_by 3 dyn_task [cfgA] [st_padded] [16] (95 # 100)%Q
  = Ok ([cfgA], [st_padded]).
Proof. repeat split; vm_compute; reflexivity. Qed.


(** A partition of [-1] blocks starts every scan at the last [size_t],
    past the multiple of any grid here: the filter spins.  A descriptor
    without the partition arrays stops it with an [IndexError]. *)
Definition with_partitions (glbmem smem : list Z) : SearchTaskNode :=
  let api := hardware_api dyn_task in
  {| init_state := init_state dyn_task; workload_key := workload_key dyn_task;
     target := target dyn_task; target_host := target_host dyn_task;
     hardware_params := hardware_params dyn_task;
     layout_rewrite_option := layout_rewrite_option dyn_task;
     task_input_names := task_input_names dyn_task;
     shape_vars := shape_vars dyn_task; wkl_insts := wkl_insts dyn_task;
     wkl_inst_weights := wkl_inst_weights dyn_task;
     hardware_api :=
       {| num_level := num_level api; bandwidth := bandwidth api;
          peak_flops := peak_flops api; reg_cap := reg_cap api; smem_cap := smem_cap api;
          warp_size := warp_size api; compute_sm_partition := compute_sm_partition api;
          smem_sm_partition := smem; transaction_size := transaction_size api;
          glbmem_sm_partition := glbmem;
          max_smem_usage_per_sm := max_smem_usage_per_sm api;
          max_reg_per_sm := max_reg_per_sm api;
          lt_ratio := lt_ratio api; gt_ratio := gt_ratio api |} |}.

Lemma OccupancyFilter_reads_partitions (fuel : nat) :
  OccupancyFilter ceil_div ceil_by fuel (with_partitions [80; 1] [80; -1])
    [cfgA] [st_fine] [16] = OutOfFuel /\
  OccupancyFilter ceil_div ceil_by fuel (with_partitions [] [80; 2])
    [cfgA] [st_fine] [16] = Fatal "IndexError: indexing out of bound" /\
  OccupancyFilter ceil_div ceil_by (S fuel) (with_partitions [80; 1] [80])
    [cfgA] [st_fine] [16] = Fatal "IndexError: indexing out of bound".
Proof.
  split; [|split; reflexivity].
  unfold OccupancyFilter.
  destruct (occupancy_inputs ceil_div (with_partitions [80; 1] [80; -1]) [cfgA] [st_fine] [16])
    as [graded| | |] eqn:E; try discriminate.
  cbn [obind].
  change (array_at (glbmem_sm_partition (hardware_api (with_partitions [80; 1] [80; -1]))) 0)
    with (Ok 80).
  cbn [obind]. rewrite (occupancy_loop_empty_window _ _ _ _ _ (-1)); [reflexivity..|].
  injection E as <-. vm_compute. reflexivity.
Qed.

(** *** SpaceProductionThresholdFilter and KThresholdFilter *)

(** The conversion of a [double] to [int]: truncation. *)
Definition int_of_double (q : Q) : Z := Z.quot (Qnum q) (Z.pos (Qden q)).

(** [cmp_ij]: [a] goes before [b] when its threshold is greater. *)
Definition cmp_ij (a b : HwAlignedConfig * nat) : bool :=
  space_production_threshold b.1 <? space_production_threshold a.1.

(** [std::accumulate(k_threshold.begin(), k_threshold.end(), 1,
    std::multiplies<double>())]: the initial value [1] is an [int], so the
    accumulator is one, and every product is converted back to [int]. *)
Definition k_product (c : HwAlignedConfig) : Z :=
  foldl (fun acc k => int_of_double (inject_Z acc * k)) 1 (k_threshold c).

(** [cmp_k]: [a] goes before [b] when its product is less. *)
Definition cmp_k (a b : HwAlignedConfig * nat) : bool := k_product a.1 <? k_product b.1.

(** Every conversion to [int] made on the way to [k_product] is of a value
    that an [int] holds; the conversion of any other is undefined. *)
Fixpoint k_conversions_defined (acc : Z) (ks : list Q) : bool :=
  match ks with
  | [] => true
  | k :: ks' =>
      let p := int_of_double (inject_Z acc * k) in
      (-2147483648 <=? p) && (p <=? 2147483647) && k_conversions_defined p ks'
  end.

(** The body the two filters share: sort the configs, paired with their
    indices, and keep the first 10 with the states at those indices. *)
Definition ThresholdFilter (cmp : HwAlignedConfig * nat -> HwAlignedConfig * nat -> bool)
    (configs : list HwAlignedConfig) (cand_states : list State) : Outcome Filtered :=
  let configs_for_sort := combine configs (seq 0 (length configs)) in
  let sorted := std_sort cmp configs_for_sort in
  let kept := take (Nat.min 10 (length sorted)) sorted in
  let! states := omap (fun ci : HwAlignedConfig * nat =>
                         match cand_states !! ci.2 with
                         | Some s => Ok s
                         | None => Undefined
                         end) kept in
  Ok (map fst kept, states).

Definition SpaceProductionThresholdFilter (task : SearchTaskNode)
    (configs : list HwAlignedConfig) (cand_states : list State) (wkl_inst : list Z)
    : Outcome Filtered :=
  ThresholdFilter cmp_ij configs cand_states.

(** [std::sort] compares every element of a range of two or more, so that
    the product of every config is computed then. *)
Definition KThresholdFilter (task : SearchTaskNode)
    (configs : list HwAlignedConfig) (cand_states : list State) (wkl_inst : list Z)
    : Outcome Filtered :=
  if (2 <=? length configs)%nat
     && negb (forallb (fun c => k_conversions_defined 1 (k_threshold c)) configs)
  then Undefined
  else ThresholdFilter cmp_k configs cand_states.

(** *** Facts about the threshold filters *)

Section SortedByIntKey.

Context {A : Type} (key : A -> Z) (cmp : A -> A -> bool).
Hypothesis cmp_key : forall a b, cmp a b = (key a <? key b).

Definition ascending_key (a b : A) : Prop := key a <= key b.

Lemma sort_insert_ascending (x : A) (l : list A) :
  StronglySorted ascending_key l -> StronglySorted ascending_key (sort_insert cmp x l).
Proof.
  induction 1 as [|y l Hl IH Hy]; cbn; [repeat constructor|].
  rewrite cmp_key. destruct (Z.ltb_spec (key y) (key x)) as [Hlt|Hge].
  - constructor; [exact IH|].
    apply Forall_forall. intros z Hz. rewrite (sort_insert_perm cmp x l) in Hz.
    apply elem_of_cons in Hz as [->|Hz].
    + unfold ascending_key. lia.
    + rewrite Forall_forall in Hy. apply Hy, Hz.
  - constructor; [constructor; assumption|].
    constructor; [exact Hge|].
    apply Forall_forall. intros z Hz. rewrite Forall_forall in Hy.
    specialize (Hy _ Hz). unfold ascending_key in *. lia.
Qed.

Lemma std_sort_ascending (l : list A) : StronglySorted ascending_key (std_sort cmp l).
Proof.
  induction l as [|x l IH]; [constructor|]. apply sort_insert_ascending, IH.
Qed.

End SortedByIntKey.

(** What a threshold filter returns: the first 10 configs of an arrangement
    of the input in ascending order of [key], each with the state that
    stood at its index. *)
Definition top_by_key (key : HwAlignedConfig -> Z) (configs : list HwAlignedConfig)
    (cand_states : list State) (r : Filtered) : Prop :=
  exists sorted : list (HwAlignedConfig * nat),
    sorted ≡ₚ combine configs (seq 0 (length configs)) /\
    StronglySorted (ascending_key (fun ci : HwAlignedConfig * nat => key ci.1)) sorted /\
    r.1 = map fst (take 10 sorted) /\
    Forall2 (fun (ci : HwAlignedConfig * nat) s => cand_states !! ci.2 = Some s)
      (take 10 sorted) r.2.

Lemma ThresholdFilter_top (key : HwAlignedConfig -> Z)
    (cmp : HwAlignedConfig * nat -> HwAlignedConfig * nat -> bool)
    (configs : list HwAlignedConfig) (cand_states : list State) (r : Filtered) :
  (forall a b, cmp a b = (key a.1 <? key b.1)) ->
  ThresholdFilter cmp configs cand_states = Ok r ->
  top_by_key key configs cand_states r.
Proof.
  intros Hcmp. unfold ThresholdFilter.
  set (sorted := std_sort cmp _).
  assert (Htake : take (Nat.min 10 (length sorted)) sorted = take 10 sorted).
  { destruct (Nat.le_ge_cases 10 (length sorted)) as [Hle|Hge].
    - rewrite Nat.min_l by exact Hle. reflexivity.
    - rewrite Nat.min_r by exact Hge. rewrite !take_ge by lia. reflexivity. }
  rewrite Htake. destruct (omap _ (take 10 sorted)) as [states| | |] eqn:E;
    cbn [obind]; try discriminate.
  intros [= <-]. exists sorted. split; [apply std_sort_perm|].
  split; [apply (std_sort_ascending (fun ci : HwAlignedConfig * nat => key ci.1)), Hcmp|].
  split; [reflexivity|]. cbn [snd].
  apply omap_Forall2 in E. eapply Forall2_impl; [exact E|].
  intros ci s. cbn. destruct (cand_states !! ci.2); [intros [= ->]; reflexivity | discriminate].
Qed.

Lemma omap_returns {A B : Type} (f : A -> Outcome B) (l : list A) :
  Forall (fun a => is_Ok (f a) = true) l -> exists r, omap f l = Ok r.
Proof.
  induction 1 as [|a l Ha _ [r IH]]; cbn [omap]; [eauto|].
  destruct (f a) as [b| | |]; try discriminate. cbn [obind]. rewrite IH. cbn [obind].
  eauto.
Qed.

Lemma ThresholdFilter_returns
    (cmp : HwAlignedConfig * nat -> HwAlignedConfig * nat -> bool)
    (configs : list HwAlignedConfig) (cand_states : list State) :
  (length configs <= length cand_states)%nat ->
  exists r, ThresholdFilter cmp configs cand_states = Ok r.
Proof.
  intros Hlen. unfold ThresholdFilter.
  set (kept := take _ _).
  destruct (omap_returns
              (fun ci : HwAlignedConfig * nat =>
                 match cand_states !! ci.2 with Some s => Ok s | None => Undefined end)
              kept) as [states Hs].
  - apply Forall_take, Forall_forall. intros [c i] Hin.
    rewrite (std_sort_perm cmp _) in Hin.
    apply list_elem_of_In, in_combine_r, in_seq in Hin. cbn [snd].
    destruct (lookup_lt_is_Some_2 cand_states i) as [s ->]; [lia|reflexivity].
  - rewrite Hs. cbn [obind]. eauto.
Qed.

Lemma k_product_zero (ks : list Q) :
  foldl (fun acc k => int_of_double (inject_Z acc * k)) 0 ks = 0.
Proof.
  induction ks as [|k ks IH]; [reflexivity|]. cbn [foldl].
  replace (int_of_double (inject_Z 0 * k)) with 0; [exact IH|].
  unfold int_of_double. destruct k as [n d]. cbn. reflexivity.
Qed.

(** X12.  SpaceProductionThresholdFilter and KThresholdFilter return the
    first 10 configs (all of them when there are fewer) of the input
    arranged, for the first, in descending order of
    [space_production_threshold] and, for the second, in ascending order of
    the product of the [k_threshold]s as the code computes it, in an [int]
    accumulator; each config comes with the state of its own index.  That
    product is 0 for every config whose first threshold lies in [[0, 1)].
    The first filter returns whenever there is a state for every config. *)
Theorem threshold_filters_top (task : SearchTaskNode) (configs : list HwAlignedConfig)
    (cand_states : list State) (wkl_inst : list Z) :
  ((length configs <= length cand_states)%nat ->
   exists r, SpaceProductionThresholdFilter task configs cand_states wkl_inst = Ok r) /\
  (forall r,
     SpaceProductionThresholdFilter task configs cand_states wkl_inst = Ok r ->
     top_by_key (fun c => - space_production_threshold c) configs cand_states r) /\
  (forall r,
     KThresholdFilter task configs cand_states wkl_inst = Ok r ->
     top_by_key k_product configs cand_states r) /\
  (forall (c : HwAlignedConfig) (k : Q) (ks : list Q),
     k_threshold c = k :: ks -> (0 <= k)%Q -> (k < 1)%Q -> k_product c = 0).
Proof.
  split; [|split; [|split]].
  - apply ThresholdFilter_returns.
  - intros r. apply ThresholdFilter_top. intros a b. unfold cmp_ij.
    destruct (Z.ltb_spec (space_production_threshold b.1) (space_production_threshold a.1)),
             (Z.ltb_spec (- space_production_threshold a.1)
                (- space_production_threshold b.1)); lia || reflexivity.
  - intros r. unfold KThresholdFilter. destruct (_ && _); [discriminate|].
    apply ThresholdFilter_top. intros a b. reflexivity.
  - intros c k ks Hks Hk0 Hk1. unfold k_product. rewrite Hks. cbn [foldl].
    replace (int_of_double (inject_Z 1 * k)) with 0; [apply k_product_zero|].
    unfold int_of_double. destruct k as [n d]. unfold Qle, Qlt in *. cbn in *.
    rewrite ?Z.mul_1_r in *. symmetry. apply Z.quot_small. 
    destruct n; cbn in *; lia.
Qed.

Lemma keep_valid_mono (valid valid' : list bool) (entries : list Entry) :
  Forall2 (fun v v' => v = true -> v' = true) valid valid' ->
  keep_valid valid entries `sublist_of` keep_valid valid' entries.
Proof.
  intros H. revert entries. induction H as [|v v' valid valid' Hv _ IH]; intros entries.
  - destruct entries; constructor.
  - destruct entries as [|e entries]; cbn [keep_valid].
    + destruct v, v'; constructor.
    + destruct v, v'; try (specialize (Hv eq_refl); discriminate).
      * apply sublist_skip, IH.
      * apply sublist_cons, IH.
      * apply IH.
Qed.

(** X13.  Lowering the threshold of PaddingFilter loses no survivor: when
    the filter returns for a threshold, it returns for every lower one, and
    the pairs it kept are, in their order, among the pairs it keeps then. *)
Theorem PaddingFilter_lower_threshold (floor_by : Z -> Z -> Z) (task : SearchTaskNode)
    (configs : list HwAlignedConfig) (cand_states : list State) (wkl_inst : list Z)
    (threshold threshold' : Q) (r : Filtered) :
  (threshold' <= threshold)%Q ->
  PaddingFilter floor_by task configs cand_states wkl_inst threshold = Ok r ->
  exists r',
    PaddingFilter floor_by task configs cand_states wkl_inst threshold' = Ok r' /\
    combine r.1 r.2 `sublist_of` combine r'.1 r'.2.
Proof.
  intros Hle H.
  apply PaddingFilter_inputs in H as (m & entries & penalties & Hm & Hz & Hp & ->).
  unfold PaddingFilter. rewrite Hm. cbn [obind]. rewrite Hz. cbn [obind]. rewrite Hp.
  cbn [obind]. eexists. split; [reflexivity|].
  unfold unzip_entries. cbn [fst snd]. rewrite !combine_unzip.
  apply keep_valid_mono. clear -Hle.
  induction penalties as [|p penalties IH]; cbn [map]; constructor; [|exact IH].
  rewrite !Qltb_lt. intros Hlt. lra.
Qed.

Lemma PaddingFilter_lower_threshold_witness :
  exists r',
    PaddingFilter ceil_by dyn_task [cfgA; cfgB] [tiled 1 1 8 8; tiled 2 3 8 8] [16]
      (5 # 10)%Q = Ok r' /\
    combine [cfgA] [tiled 1 1 8 8] `sublist_of` combine r'.1 r'.2.
Proof.
  apply (PaddingFilter_lower_threshold ceil_by dyn_task [cfgA; cfgB]
           [tiled 1 1 8 8; tiled 2 3 8 8] [16] (95 # 100)%Q (5 # 10)%Q
           ([cfgA], [tiled 1 1 8 8])).
  - unfold Qle. cbn. lia.
  - vm_compute. reflexivity.
Defined.

End Filters.

(** ** The sketch policy *)

Module Policy.

Import Task.

Inductive ConditionKind : Type := kSkip | kApply | kApplyAndSkipRest.

Inductive ResultKind : Type := kValid | kInvalid.

(** The tuning parameters read through [GetIntParam]/[GetDoubleParam]. *)
Record Params : Type := {
  eps_greedy : Q;
  empty_retry_count : Z;
  population : Z;
  mutation_prob : Q;
  num_iters : Z;
  use_measured_ratio : Q;
  min_population : Z;
  max_innermost_split_factor : Z
}.

Record MeasureInput : Type := {
  mi_state : State;
  mi_wkl_inst : option (list Z)
}.

Record MeasureResult : Type := {
  costs : list Q;
  mr_error_no : Z
}.

Record BuildResult : Type := {
  error_no : Z;
  error_msg : string
}.

(** The calls that leave the policy, in the order they are made. *)
Inductive Event : Type :=
| EvReset
| EvUpdate (n_inputs : nat)
| EvMeasure (n_inputs : nat)
| EvBuild (n_inputs : nat).

Section WithCollaborators.

(** Proofs depend on the collaborators that their statements name, and on
    no other: [statement_only] drops the rest of the section's variables
    before a decision procedure can pick them up. *)
Set Default Proof Using "Type".

Ltac statement_only := repeat match goal with x : _ |- _ => clear x end.

(** The cost model, the random generator, the measurer and the three kinds
    of rules are objects of TVM that the file only calls: their states and
    names are parameters. *)
Variable CostModel : Type.
Variable Rng : Type.
Variable Measurer : Type.
Variable SketchRule : Type.
Variable InitRule : Type.
Variable MutationRule : Type.

(** [SketchPolicyNode]: the members the methods below read or write. *)
Record SketchPolicyNode : Type := {
  search_task : SearchTaskNode;
  program_cost_model : CostModel;
  rand_gen : Rng;
  params : Params;
  verbose : Z;
  sample_init_min_pop_ : Z;
  sketch_rules : list SketchRule;
  init_rules : list InitRule;
  mutation_rules : list MutationRule;
  sketch_cache_ : list State;
  measured_states_set_ : gset string;
  measured_states_vector_ : list State;
  measured_states_throughputs_ : list Q;
  num_measure_per_iter_ : Z;
  n_trials : Z;
  curr_inst_opt_prob : list Q
}.

Definition set_rand_gen (p : SketchPolicyNode) (g : Rng) : SketchPolicyNode :=
  {| search_task := search_task p; program_cost_model := program_cost_model p;
     rand_gen := g; params := params p; verbose := verbose p;
     sample_init_min_pop_ := sample_init_min_pop_ p;
     sketch_rules := sketch_rules p; init_rules := init_rules p;
     mutation_rules := mutation_rules p; sketch_cache_ := sketch_cache_ p;
     measured_states_set_ := measured_states_set_ p;
     measured_states_vector_ := measured_states_vector_ p;
     measured_states_throughputs_ := measured_states_throughputs_ p;
     num_measure_per_iter_ := num_measure_per_iter_ p; n_trials := n_trials p;
     curr_inst_opt_prob := curr_inst_opt_prob p |}.

Definition set_sample_init_min_pop (p : SketchPolicyNode) (n : Z) : SketchPolicyNode :=
  {| search_task := search_task p; program_cost_model := program_cost_model p;
     rand_gen := rand_gen p; params := params p; verbose := verbose p;
     sample_init_min_pop_ := n;
     sketch_rules := sketch_rules p; init_rules := init_rules p;
     mutation_rules := mutation_rules p; sketch_cache_ := sketch_cache_ p;
     measured_states_set_ := measured_states_set_ p;
     measured_states_vector_ := measured_states_vector_ p;
     measured_states_throughputs_ := measured_states_throughputs_ p;
     num_measure_per_iter_ := num_measure_per_iter_ p; n_trials := n_trials p;
     curr_inst_opt_prob := curr_inst_opt_prob p |}.

Definition set_sketch_cache (p : SketchPolicyNode) (c : list State) : SketchPolicyNode :=
  {| search_task := search_task p; program_cost_model := program_cost_model p;
     rand_gen := rand_gen p; params := params p; verbose := verbose p;
     sample_init_min_pop_ := sample_init_min_pop_ p;
     sketch_rules := sketch_rules p; init_rules := init_rules p;
     mutation_rules := mutation_rules p; sketch_cache_ := c;
     measured_states_set_ := measured_states_set_ p;
     measured_states_vector_ := measured_states_vector_ p;
     measured_states_throughputs_ := measured_states_throughputs_ p;
     num_measure_per_iter_ := num_measure_per_iter_ p; n_trials := n_trials p;
     curr_inst_opt_prob := curr_inst_opt_prob p |}.

Definition set_num_measure_per_iter (p : SketchPolicyNode) (n : Z) : SketchPolicyNode :=
  {| search_task := search_task p; program_cost_model := program_cost_model p;
     rand_gen := rand_gen p; params := params p; verbose := verbose p;
     sample_init_min_pop_ := sample_init_min_pop_ p;
     sketch_rules := sketch_rules p; init_rules := init_rules p;
     mutation_rules := mutation_rules p; sketch_cache_ := sketch_cache_ p;
     measured_states_set_ := measured_states_set_ p;
     measured_states_vector_ := measured_states_vector_ p;
     measured_states_throughputs_ := measured_states_throughputs_ p;
     num_measure_per_iter_ := n; n_trials := n_trials p;
     curr_inst_opt_prob := curr_inst_opt_prob p |}.

(** [State::ToStr], [ComputeDAG::InferBound] and [PruneInvalidState]. *)
Variable ToStr : State -> string.
Variable InferBound : SearchTaskNode -> list State -> list State.
Variable PruneInvalidState : SearchTaskNode -> list State -> list State.

(** The cost model. *)
Variable Predict : CostModel -> SearchTaskNode -> list State -> list Q.
Variable PredictForAllInstances : CostModel -> SearchTaskNode -> list State -> list Q.
Variable IsRandomModel : CostModel -> bool.

(** [std::mt19937]: construction from a seed, [operator()], and a draw of
    [std::uniform_real_distribution<>(0.0, 1.0)]. *)
Variable mt19937 : Z -> Rng.
Variable rng_next : Rng -> Z * Rng.
Variable uniform_real : Rng -> Q * Rng.

(** [utils.h]: [RandomChoose], [ComputePrefixSumProb], [Argsort],
    [RandomSampleStates] and [floor_div]. *)
Variable RandomChoose : list Q -> Rng -> nat * Rng.
Variable ComputePrefixSumProb : list Q -> list Q.
Variable Argsort : list Q -> list nat.
Variable RandomSampleStates : list State -> Rng -> Z -> list State * Rng.
Variable floor_div : Z -> Z -> Z.

(** The rules ([sketch_policy_rules.h]).  A rule receives the policy; the
    population rules also receive the generator they draw from. *)
Variable MeetCondition : SketchRule -> SketchPolicyNode -> State -> Z -> ConditionKind.
Variable SketchApply : SketchRule -> SketchPolicyNode -> State -> Z -> list (State * Z).
Variable InitApply : InitRule -> SketchPolicyNode -> State -> Rng -> ResultKind * State * Rng.
Variable rule_weight : MutationRule -> Q.
Variable MutationApply :
  MutationRule -> SketchPolicyNode -> State -> Rng -> ResultKind * State * Rng.

(** *** GenerateSketches *)

(** The frontier of the enumeration: the buffer being filled, the map from a
    state (by the address of its node, as [ObjectHash]/[ObjectEqual] see it)
    to its current stage, and the sketches found. *)
Record Frontier : Type := {
  pnext : list State;
  cur_stage_id_map : gmap nat Z;
  out_states : list State
}.

(** [cur_stage_id_map[state]]: a key that is absent reads as [0]. *)
Definition stage_of (m : gmap nat Z) (s : State) : Z := default 0 (m !! node_addr s).

(** [for (pair : rule->Apply(...)) { map[pair.first] = pair.second; pnext->push_back(pair.first); }] *)
Definition push_derived (f : Frontier) (derived : list (State * Z)) : Frontier :=
  foldl (fun f pair =>
           {| pnext := pnext f ++ [pair.1];
              cur_stage_id_map := <[node_addr pair.1 := pair.2]> (cur_stage_id_map f);
              out_states := out_states f |})
        f derived.

(** [for (rule : sketch_rules)], with its [break] after a rule that answers
    [kApplyAndSkipRest]. *)
Fixpoint try_rules (policy : SketchPolicyNode) (rules : list SketchRule)
    (state : State) (stage_id : Z) (f : Frontier) : Frontier :=
  match rules with
  | [] => f
  | rule :: rest =>
      match MeetCondition rule policy state stage_id with
      | kSkip => try_rules policy rest state stage_id f
      | kApply =>
          try_rules policy rest state stage_id
            (push_derived f (SketchApply rule policy state stage_id))
      | kApplyAndSkipRest => push_derived f (SketchApply rule policy state stage_id)
      end
  end.

(** The body of [for (state : *pnow)]. *)
Definition expand_state (policy : SketchPolicyNode) (f : Frontier) (state : State)
    : Frontier :=
  let stage_id := stage_of (cur_stage_id_map f) state in
  if stage_id <? 0
  then {| pnext := pnext f; cur_stage_id_map := cur_stage_id_map f;
          out_states := out_states f ++ [state] |}
  else try_rules policy (sketch_rules policy) state stage_id f.

(** [while (!pnow->empty())]: one unit of fuel per wave. *)
Fixpoint enumerate (fuel : nat) (policy : SketchPolicyNode) (pnow : list State)
    (m : gmap nat Z) (out : list State) : Outcome (list State) :=
  match pnow with
  | [] => Ok out
  | _ :: _ =>
      match fuel with
      | O => OutOfFuel
      | S fuel' =>
          let f := foldl (expand_state policy)
                     {| pnext := []; cur_stage_id_map := m; out_states := out |} pnow in
          enumerate fuel' policy (pnext f) (cur_stage_id_map f) (out_states f)
      end
  end.

(** The pass over [transform_steps] that frees the factor of the split
    before each rfactor step; [step_id] runs over the [todo] indices left. *)
Fixpoint free_rfactor_splits (steps : list Step) (step_id : nat) (todo : nat)
    : Outcome (list Step) :=
  match todo with
  | O => Ok steps
  | S todo' =>
      match steps !! step_id with
      | Some (RfactorStep _ _ _) =>
          let! _ := CHECK (1 <=? step_id)%nat "Check failed: step_id >= 1" in
          match steps !! (step_id - 1)%nat with
          | Some (SplitStep stage_id iter_id extent _ inner_to_outer) =>
              free_rfactor_splits
                (<[(step_id - 1)%nat :=
                     SplitStep stage_id iter_id extent [None] inner_to_outer]> steps)
                (S step_id) todo'
          | _ => Fatal "Check failed: step != nullptr"
          end
      | _ => free_rfactor_splits steps (S step_id) todo'
      end
  end.

(** The copy that [CopyOnWrite] makes keeps the address of the original
    here: no method reads the address of a sketch after the enumeration. *)
Definition free_rfactor (s : State) : Outcome State :=
  let! steps := free_rfactor_splits (transform_steps s) 0 (length (transform_steps s)) in
  Ok {| node_addr := node_addr s; stages := stages s; transform_steps := steps |}.

Fixpoint free_rfactor_all (l : list State) : Outcome (list State) :=
  match l with
  | [] => Ok []
  | s :: l' =>
      let! s' := free_rfactor s in
      let! l'' := free_rfactor_all l' in
      Ok (s' :: l'')
  end.

(** [SketchPolicyNode::GenerateSketches] *)
Definition GenerateSketches (fuel : nat) (policy : SketchPolicyNode)
    : Outcome (list State) :=
  let init := init_state (search_task policy) in
  let m := <[node_addr init := Z.of_nat (length (stages init)) - 1]> (∅ : gmap nat Z) in
  let! out := enumerate fuel policy [init] m [] in
  free_rfactor_all out.

(** *** SampleInitPopulation *)

(** [for (rule : init_rules)], with its [break] at the first rule that
    answers [kInvalid]. *)
Fixpoint apply_init_rules (policy : SketchPolicyNode) (rules : list InitRule)
    (s : State) (g : Rng) : bool * State * Rng :=
  match rules with
  | [] => (true, s, g)
  | rule :: rest =>
      match InitApply rule policy s g with
      | (kInvalid, s', g') => (false, s', g')
      | (kValid, s', g') => apply_init_rules policy rest s' g'
      end
  end.

(** The work of one index of a wave: draw a sketch with the generator of
    the index and annotate it.  [None] is a slot of [temp_states] left
    undefined. *)
Definition sample_one (policy : SketchPolicyNode) (sketches : list State) (g : Rng)
    : Outcome (option State * Rng) :=
  match sketches with
  | [] => Undefined                       (* ... % sketches.size() *)
  | _ :: _ =>
      let (r, g1) := rng_next g in
      match sketches !! Z.to_nat (r mod Z.of_nat (length sketches)) with
      | None => Undefined
      | Some tmp_s =>
          match apply_init_rules policy (init_rules policy) tmp_s g1 with
          | (true, s', g') => Ok (Some s', g')
          | (false, _, g') => Ok (None, g')
          end
      end
  end.

(** All indices of a wave (index 0 first, then the [parallel_for] over the
    others, each on its own generator). *)
Fixpoint sample_wave (policy : SketchPolicyNode) (sketches : list State)
    (rand_gens : list Rng) : Outcome (list (option State) * list Rng) :=
  match rand_gens with
  | [] => Ok ([], [])
  | g :: rest =>
      let! (s, g') := sample_one policy sketches g in
      let! (ss, gs) := sample_wave policy sketches rest in
      Ok (s :: ss, g' :: gs)
  end.

(** The local variables of [SampleInitPopulation], with the target
    [sample_init_min_pop_] of the policy. *)
Record Sampling : Type := {
  s_out_states : list State;
  s_rand_gens : list Rng;
  explored_state_strs : gset string;
  iter : Z;
  unchange_cnt : Z;
  fail_ct : Z;
  s_min_pop : Z
}.

(** [for (i < cand_states.size())]: accept a candidate whose score is above
    the floor and whose string is new. *)
Fixpoint accept_candidates (cands : list (State * Q)) (st : Sampling) : Sampling :=
  match cands with
  | [] => st
  | (s, score) :: rest =>
      let state_str := ToStr s in
      if Qltb (- (10000000000 # 1)) score
         && negb (bool_decide (state_str ∈ explored_state_strs st))
      then accept_candidates rest
             {| s_out_states := s_out_states st ++ [s];
                s_rand_gens := s_rand_gens st;
                explored_state_strs := {[state_str]} ∪ explored_state_strs st;
                iter := iter st; unchange_cnt := 0; fail_ct := fail_ct st;
                s_min_pop := s_min_pop st |}
      else accept_candidates rest
             {| s_out_states := s_out_states st;
                s_rand_gens := s_rand_gens st;
                explored_state_strs := explored_state_strs st;
                iter := iter st; unchange_cnt := unchange_cnt st;
                fail_ct := fail_ct st + 1;
                s_min_pop := s_min_pop st |}
  end.

(** [if (unchange_cnt == 5) { if (min_pop > 1) min_pop /= 2; unchange_cnt = 0; }] *)
Definition shrink_target (st : Sampling) : Sampling :=
  if unchange_cnt st =? 5
  then {| s_out_states := s_out_states st; s_rand_gens := s_rand_gens st;
          explored_state_strs := explored_state_strs st;
          iter := iter st; unchange_cnt := 0; fail_ct := fail_ct st;
          s_min_pop := if 1 <? s_min_pop st then Z.quot (s_min_pop st) 2
                       else s_min_pop st |}
  else st.

(** One turn of the [while] loop: a wave of samples, their scoring, the
    acceptance of the new ones and the adjustment of the target. *)
Definition sampling_wave (policy : SketchPolicyNode) (sketches : list State)
    (st : Sampling) : Outcome Sampling :=
  match s_rand_gens st with
  | [] => Undefined                       (* rand_gens[0] *)
  | _ :: _ =>
      let policy' := set_sample_init_min_pop policy (s_min_pop st) in
      let! (temp_states, gens) := sample_wave policy' sketches (s_rand_gens st) in
      let cand_states := omap id temp_states in
      let failed := Z.of_nat (length temp_states) - Z.of_nat (length cand_states) in
      let st1 := {| s_out_states := s_out_states st; s_rand_gens := gens;
                    explored_state_strs := explored_state_strs st;
                    iter := iter st; unchange_cnt := unchange_cnt st + 1;
                    fail_ct := fail_ct st + failed;
                    s_min_pop := s_min_pop st |} in
      let st2 :=
        match cand_states with
        | [] => st1
        | _ :: _ =>
            let task := search_task policy in
            let cands := PruneInvalidState task (InferBound task cand_states) in
            let pop_scores := Predict (program_cost_model policy) task cands in
            accept_candidates (combine cands pop_scores) st1
        end in
      let st3 := shrink_target st2 in
      Ok {| s_out_states := s_out_states st3; s_rand_gens := s_rand_gens st3;
            explored_state_strs := explored_state_strs st3;
            iter := iter st3 + 1; unchange_cnt := unchange_cnt st3;
            fail_ct := fail_ct st3; s_min_pop := s_min_pop st3 |}
  end.

(** [while (out_states.size() < sample_init_min_pop_)] *)
Fixpoint sampling_loop (fuel : nat) (policy : SketchPolicyNode) (sketches : list State)
    (st : Sampling) : Outcome Sampling :=
  if Z.of_nat (length (s_out_states st)) <? s_min_pop st then
    match fuel with
    | O => OutOfFuel
    | S fuel' =>
        let! st' := sampling_wave policy sketches st in
        sampling_loop fuel' policy sketches st'
    end
  else Ok st.

(** [rand_gens.push_back(std::mt19937(rand_gen()))], [population] times. *)
Fixpoint seed_rand_gens (n : nat) (g : Rng) : list Rng * Rng :=
  match n with
  | O => ([], g)
  | S n' =>
      let (seed, g1) := rng_next g in
      let (gens, g2) := seed_rand_gens n' g1 in
      (mt19937 seed :: gens, g2)
  end.

(** The state of the locals when the loop is entered. *)
Definition sampling_start (policy : SketchPolicyNode) : Sampling * Rng :=
  let (gens, g) := seed_rand_gens (Z.to_nat (population (params policy))) (rand_gen policy) in
  ({| s_out_states := []; s_rand_gens := gens; explored_state_strs := ∅;
      iter := 1; unchange_cnt := 0; fail_ct := 0;
      s_min_pop := sample_init_min_pop_ policy |}, g).

(** The run of the loop of [SampleInitPopulation]. *)
Definition sampling_run (fuel : nat) (policy : SketchPolicyNode) (sketches : list State)
    : Outcome Sampling :=
  (* rand_gens.reserve(population): a negative [int] is a size past max_size() *)
  let! _ := CHECK (0 <=? population (params policy))
              "std::length_error: vector::reserve" in
  let (st0, g) := sampling_start policy in
  sampling_loop fuel (set_rand_gen policy g) sketches st0.

(** The number of waves a finished run has made ([iter] starts at 1). *)
Definition waves (st : Sampling) : Z := iter st - 1.

(** [SketchPolicyNode::SampleInitPopulation]: the population, and the policy
    with its generator advanced and its target as the loop left it. *)
Definition SampleInitPopulation (fuel : nat) (policy : SketchPolicyNode)
    (sketches : list State) : Outcome (list State * SketchPolicyNode) :=
  let! st := sampling_run fuel policy sketches in
  Ok (s_out_states st,
      set_sample_init_min_pop (set_rand_gen policy (sampling_start policy).2) (s_min_pop st)).

(** *** EvolutionarySearch *)

(** The heap of the best states, [std::vector<std::pair<State, float>>]
    under [std::push_heap]/[std::pop_heap] with
    [cmp(l, r) = l.second > r.second], whose front is an item of least
    score.  The arrangement inside the vector is the library's; here the
    items are kept in ascending order of score, which is one arrangement
    with the heap property. *)
Definition heap_less (a b : State * Q) : bool := Qltb a.2 b.2.

(** [heap.emplace_back(x); std::push_heap(...)] *)
Definition push_heap (x : State * Q) (heap : list (State * Q)) : list (State * Q) :=
  sort_insert heap_less x heap.

(** The locals of [EvolutionarySearch] that outlive a generation, with the
    generator of the policy. *)
Record Evolution : Type := {
  heap : list (State * Q);
  in_heap : gset string;
  max_score : Q;
  e_rand_gen : Rng;
  mutation_success_ct : Z;
  mutation_fail_ct : Z
}.

Definition set_heap (e : Evolution) (h : list (State * Q)) (seen : gset string) : Evolution :=
  {| heap := h; in_heap := seen; max_score := max_score e; e_rand_gen := e_rand_gen e;
     mutation_success_ct := mutation_success_ct e;
     mutation_fail_ct := mutation_fail_ct e |}.

(** The body of [for (i < pnow->size())] that maintains the heap. *)
Definition offer (out_size : Z) (e : Evolution) (item : State * Q) : Outcome Evolution :=
  let state_str := ToStr item.1 in
  if bool_decide (state_str ∈ in_heap e) then Ok e
  else
    let! e1 :=
      if Z.of_nat (length (heap e)) <? out_size
      then Ok (set_heap e (push_heap item (heap e)) ({[state_str]} ∪ in_heap e))
      else
        match heap e with
        | [] => Undefined                                  (* heap.front() *)
        | front :: rest =>
            if Qltb front.2 item.2
            then Ok (set_heap e (push_heap item rest)
                       ({[state_str]} ∪ (in_heap e ∖ {[ToStr front.1]})))
            else Ok e
        end in
    Ok {| heap := heap e1; in_heap := in_heap e1;
          max_score := if Qltb (max_score e1) item.2 then item.2 else max_score e1;
          e_rand_gen := e_rand_gen e1;
          mutation_success_ct := mutation_success_ct e1;
          mutation_fail_ct := mutation_fail_ct e1 |}.

Fixpoint offer_all (out_size : Z) (items : list (State * Q)) (e : Evolution)
    : Outcome Evolution :=
  match items with
  | [] => Ok e
  | item :: rest => let! e' := offer out_size e item in offer_all out_size rest e'
  end.

(** [pop_scores[i]] for every state: a score vector shorter than the
    generation is a read past its end. *)
Definition with_scores (pnow : list State) (pop_scores : list Q)
    : Outcome (list (State * Q)) :=
  if (length pop_scores <? length pnow)%nat then Undefined
  else Ok (combine pnow pop_scores).

(** The score of a state of a dynamic task: the greatest of its scores over
    the instances (and of 0), raised to the power [floor_div(n_trials, 100) + 1]. *)
Fixpoint max_over_insts (all : list Q) (n_states state_id : nat) (insts : nat) (acc : Q)
    : Outcome Q :=
  match insts with
  | O => Ok acc
  | S insts' =>
      let! rest := max_over_insts all n_states state_id insts' acc in
      match all !! (insts' * n_states + state_id)%nat with
      | Some v => Ok (if Qltb rest v then v else rest)
      | None => Undefined
      end
  end.

(** Step 1 of a generation: infer bounds, prune and score. *)
Definition score_generation (policy : SketchPolicyNode) (pnow : list State)
    : Outcome (list (State * Q)) :=
  let task := search_task policy in
  let pnow' := PruneInvalidState task (InferBound task pnow) in
  if IsDynTask task then
    let all := PredictForAllInstances (program_cost_model policy) task pnow' in
    let weight := floor_div (n_trials policy) 100 + 1 in
    let! pop_scores :=
      Filters.omap (fun state_id =>
                      let! m := max_over_insts all (length pnow') state_id
                                  (length (wkl_insts task)) 0%Q in
                      Ok (Qpower m weight))
                   (seq 0 (length pnow')) in
    with_scores pnow' pop_scores
  else with_scores pnow' (Predict (program_cost_model policy) task pnow').

(** [size_t population = GetIntParam(...)] *)
Definition population_size (policy : SketchPolicyNode) : Z :=
  population (params policy) mod 2 ^ 64.

(** One turn of [while (pnext->size() < population)]: draw a parent and,
    with probability [mutation_prob], mutate it. *)
Definition mutation_attempt (policy : SketchPolicyNode) (pnow : list State)
    (pop_selection_probs rule_selection_probs : list Q)
    (pnext : list State) (e : Evolution) : Outcome (list State * Evolution) :=
  let (parent_id, g1) := RandomChoose pop_selection_probs (e_rand_gen e) in
  match pnow !! parent_id with
  | None => Fatal "IndexError: indexing out of bound"
  | Some tmp_s =>
      let (u, g2) := uniform_real g1 in
      if Qltb u (mutation_prob (params policy)) then
        let (rule_id, g3) := RandomChoose rule_selection_probs g2 in
        match mutation_rules policy !! rule_id with
        | None => Undefined
        | Some rule =>
            match MutationApply rule policy tmp_s g3 with
            | (kValid, s', g4) =>
                Ok (pnext ++ [s'],
                    {| heap := heap e; in_heap := in_heap e; max_score := max_score e;
                       e_rand_gen := g4;
                       mutation_success_ct := mutation_success_ct e + 1;
                       mutation_fail_ct := mutation_fail_ct e |})
            | (kInvalid, _, g4) =>
                Ok (pnext,
                    {| heap := heap e; in_heap := in_heap e; max_score := max_score e;
                       e_rand_gen := g4;
                       mutation_success_ct := mutation_success_ct e;
                       mutation_fail_ct := mutation_fail_ct e + 1 |})
            end
        end
      else
        Ok (pnext ++ [tmp_s],
            {| heap := heap e; in_heap := in_heap e; max_score := max_score e;
               e_rand_gen := g2;
               mutation_success_ct := mutation_success_ct e;
               mutation_fail_ct := mutation_fail_ct e |})
  end.

Fixpoint mutate (fuel : nat) (policy : SketchPolicyNode) (pnow : list State)
    (pop_selection_probs rule_selection_probs : list Q)
    (pnext : list State) (e : Evolution) : Outcome (list State * Evolution) :=
  if Z.of_nat (length pnext) <? population_size policy then
    match fuel with
    | O => OutOfFuel
    | S fuel' =>
        let! (pnext', e') := mutation_attempt policy pnow pop_selection_probs
                               rule_selection_probs pnext e in
        mutate fuel' policy pnow pop_selection_probs rule_selection_probs pnext' e'
    end
  else Ok (pnext, e).

(** [for (k = 0; k < num_iters + 1; ++k)]: [todo] generations are left, the
    one at hand being the [k]-th. *)
Fixpoint evolve (todo : nat) (k : Z) (fuel : nat) (policy : SketchPolicyNode)
    (num_iters out_size : Z) (rule_selection_probs : list Q)
    (pnow : list State) (e : Evolution) : Outcome Evolution :=
  match todo with
  | O => Ok e
  | S todo' =>
      let! scored := score_generation policy pnow in
      let! e1 := offer_all out_size scored e in
      if k =? num_iters then Ok e1
      else
        let pop_selection_probs := ComputePrefixSumProb (map snd scored) in
        let! (pnext, e2) := mutate fuel policy (map fst scored) pop_selection_probs
                              rule_selection_probs [] e1 in
        evolve todo' (k + 1) fuel policy num_iters out_size rule_selection_probs pnext e2
  end.

(** The number of iterations: at most 2 under a random cost model. *)
Definition effective_num_iters (policy : SketchPolicyNode) : Z :=
  let n := num_iters (params policy) in
  if IsRandomModel (program_cost_model policy) && (2 <? n) then 2 else n.

(** [cmp] of the heap, as [std::sort] uses it at the end: greater scores
    first. *)
Definition heap_cmp (a b : State * Q) : bool := Qltb b.2 a.2.

(** The heap when the generations are over. *)
Definition evolution_run (fuel : nat) (policy : SketchPolicyNode)
    (init_population : list State) (out_size : Z) : Outcome Evolution :=
  let n := effective_num_iters policy in
  (* heap.reserve(out_size); pop_scores.reserve(population): a negative [int]
     is a size past max_size() *)
  let! _ := CHECK ((0 <=? out_size) && (0 <=? population (params policy)))
              "std::length_error: vector::reserve" in
  evolve (Z.to_nat (n + 1)) 0 fuel policy n out_size
    (ComputePrefixSumProb (map rule_weight (mutation_rules policy)))
    init_population
    {| heap := []; in_heap := measured_states_set_ policy;
       max_score := (- (1 # 10000000000))%Q; e_rand_gen := rand_gen policy;
       mutation_success_ct := 0; mutation_fail_ct := 0 |}.

(** The items that [EvolutionarySearch] returns the states of. *)
Definition best_items (e : Evolution) : list (State * Q) := std_sort heap_cmp (heap e).

(** [SketchPolicyNode::EvolutionarySearch] *)
Definition EvolutionarySearch (fuel : nat) (policy : SketchPolicyNode)
    (init_population : list State) (out_size : Z)
    : Outcome (list State * SketchPolicyNode) :=
  let! e := evolution_run fuel policy init_population out_size in
  Ok (map fst (best_items e), set_rand_gen policy (e_rand_gen e)).

(** *** SearchOneRound and PickStatesWithEpsGreedy *)

(** [static_cast<int>] of a [double]. *)
Definition trunc_Q (q : Q) : Z := Z.quot (Qnum q) (Z.pos (Qden q)).

(** [init_population.push_back(measured_states_vector_[indices[i]])] for
    [i < num_use_measured]. *)
Fixpoint push_measured (measured : list State) (indices : list nat) (i : nat)
    (todo : nat) (init_population : list State) : Outcome (list State) :=
  match todo with
  | O => Ok init_population
  | S todo' =>
      match indices !! i with
      | None => Undefined
      | Some j =>
          match measured !! j with
          | None => Undefined
          | Some s => push_measured measured indices (S i) todo' (init_population ++ [s])
          end
      end
  end.

(** [SketchPolicyNode::SearchOneRound].  [random_states] is the array the
    pointer of that name refers to, [None] for [nullptr]. *)
Definition SearchOneRound (fuel : nat) (policy : SketchPolicyNode)
    (num_random_states : Z) (random_states : option (list State))
    : Outcome (list State * option (list State) * SketchPolicyNode) :=
  let num_use_measured :=
    Z.min (Z.of_nat (length (measured_states_vector_ policy)))
          (trunc_Q (use_measured_ratio (params policy)
                    * inject_Z (population (params policy)))) in
  let! policy1 :=
    match sketch_cache_ policy with
    | [] => let! sketches := GenerateSketches fuel policy in
            Ok (set_sketch_cache policy sketches)
    | _ :: _ => Ok policy
    end in
  let! (sampled, policy2) := SampleInitPopulation fuel policy1 (sketch_cache_ policy1) in
  let indices := Argsort (measured_states_throughputs_ policy2) in
  let! init_population :=
    push_measured (measured_states_vector_ policy2) indices 0
      (Z.to_nat num_use_measured) sampled in
  let (random_states', policy3) :=
    match random_states with
    | Some _ =>
        if 0 <? num_random_states
        then let (rs, g) := RandomSampleStates init_population (rand_gen policy2)
                              num_random_states in
             (Some rs, set_rand_gen policy2 g)
        else (random_states, policy2)
    | None => (None, policy2)
    end in
  let! (best, policy4) :=
    EvolutionarySearch fuel policy3 init_population (num_measure_per_iter_ policy3 * 2) in
  Ok (best, random_states', policy4).

Definition add_measured (p : SketchPolicyNode) (state_str : string) (s : State)
    : SketchPolicyNode :=
  {| search_task := search_task p; program_cost_model := program_cost_model p;
     rand_gen := rand_gen p; params := params p; verbose := verbose p;
     sample_init_min_pop_ := sample_init_min_pop_ p;
     sketch_rules := sketch_rules p; init_rules := init_rules p;
     mutation_rules := mutation_rules p; sketch_cache_ := sketch_cache_ p;
     measured_states_set_ := {[state_str]} ∪ measured_states_set_ p;
     measured_states_vector_ := measured_states_vector_ p ++ [s];
     measured_states_throughputs_ := measured_states_throughputs_ p;
     num_measure_per_iter_ := num_measure_per_iter_ p; n_trials := n_trials p;
     curr_inst_opt_prob := curr_inst_opt_prob p |}.

(** The loop of [PickStatesWithEpsGreedy]; [best] and [random] are what is
    left of the two arrays past [offset_best] and [offset_random].  Every
    turn takes a state from one of them, so [fuel] of their total length
    lets the loop run to its end. *)
Fixpoint pick_states (fuel : nat) (limit num_good : Z) (best random : list State)
    (inputs : list MeasureInput) (policy : SketchPolicyNode)
    : list MeasureInput * SketchPolicyNode :=
  match fuel with
  | O => (inputs, policy)
  | S fuel' =>
      if Z.of_nat (length inputs) <? limit then
        let choice :=
          if Z.of_nat (length inputs) <? num_good then
            match best, random with
            | b :: best', _ => Some (b, best', random)
            | [], r :: random' => Some (r, best, random')
            | [], [] => None
            end
          else
            match random, best with
            | r :: random', _ => Some (r, best, random')
            | [], b :: best' => Some (b, best', random)
            | [], [] => None
            end in
        match choice with
        | None => (inputs, policy)
        | Some (state, best', random') =>
            let state_str := ToStr state in
            if bool_decide (state_str ∈ measured_states_set_ policy)
            then pick_states fuel' limit num_good best' random' inputs policy
            else pick_states fuel' limit num_good best' random'
                   (inputs ++ [{| mi_state := state; mi_wkl_inst := None |}])
                   (add_measured policy state_str state)
        end
      else (inputs, policy)
  end.

(** [SketchPolicyNode::PickStatesWithEpsGreedy] *)
Definition PickStatesWithEpsGreedy (policy : SketchPolicyNode)
    (best_states random_states : list State) (remaining_n_trials : Z)
    : list MeasureInput * SketchPolicyNode :=
  let per_iter := num_measure_per_iter_ policy in
  let num_random := trunc_Q (eps_greedy (params policy) * inject_Z per_iter) in
  let num_good := per_iter - num_random in
  pick_states (length best_states + length random_states)
    (Z.min per_iter remaining_n_trials) num_good best_states random_states [] policy.

(** *** Search *)

(** The measurer ([measure.h]) with its builder, the update of the cost
    model, and the helpers of the dynamic-shape dispatch
    ([TopKDispatcher], [AdaptStateToWorkload], ...), none of which is among
    the sources. *)
Variable Reset : Measurer -> Measurer.
Variable Measure :
  Measurer -> SearchTaskNode -> list MeasureInput -> list MeasureResult * Measurer.
Variable Build : Measurer -> list MeasureInput -> Z -> list BuildResult.
Variable best_ct : Measurer -> string -> Z.
Variable has_valid : Measurer -> string -> bool.
Variable best_states : Measurer -> string -> list State.
Variable best_inst_flops : Measurer -> string -> list Q.
Variable Update : CostModel -> list MeasureInput -> list MeasureResult -> CostModel.
Variable EstimateFlopForInst : SearchTaskNode -> list Z -> Q.
Variable CherryPickWorkloadInstance : State -> SearchTaskNode -> list Z * Q * Q.
Variable FloatArrayMean : list Q -> Q.
Variable AdaptStateToWorkload : SearchTaskNode -> State -> list Z -> Q -> Q.
Variable dispatch : list Q -> nat -> gmap nat nat.
Variable MapWklInstsToStates :
  gmap nat nat -> list State -> list Q -> list (list Z) -> list Q ->
  gmap nat nat * list State * list Q * list Q.

Definition set_cost_model (p : SketchPolicyNode) (c : CostModel) : SketchPolicyNode :=
  {| search_task := search_task p; program_cost_model := c;
     rand_gen := rand_gen p; params := params p; verbose := verbose p;
     sample_init_min_pop_ := sample_init_min_pop_ p;
     sketch_rules := sketch_rules p; init_rules := init_rules p;
     mutation_rules := mutation_rules p; sketch_cache_ := sketch_cache_ p;
     measured_states_set_ := measured_states_set_ p;
     measured_states_vector_ := measured_states_vector_ p;
     measured_states_throughputs_ := measured_states_throughputs_ p;
     num_measure_per_iter_ := num_measure_per_iter_ p; n_trials := n_trials p;
     curr_inst_opt_prob := curr_inst_opt_prob p |}.

(** The writes of the measuring loop to [n_trials], [curr_inst_opt_prob]
    and [measured_states_throughputs_]. *)
Definition set_progress (p : SketchPolicyNode) (ct : Z) (prob : list Q)
    (throughputs : list Q) : SketchPolicyNode :=
  {| search_task := search_task p; program_cost_model := program_cost_model p;
     rand_gen := rand_gen p; params := params p; verbose := verbose p;
     sample_init_min_pop_ := sample_init_min_pop_ p;
     sketch_rules := sketch_rules p; init_rules := init_rules p;
     mutation_rules := mutation_rules p; sketch_cache_ := sketch_cache_ p;
     measured_states_set_ := measured_states_set_ p;
     measured_states_vector_ := measured_states_vector_ p;
     measured_states_throughputs_ := throughputs;
     num_measure_per_iter_ := num_measure_per_iter_ p; n_trials := ct;
     curr_inst_opt_prob := prob |}.

(** [SketchPolicyNode::CalculateInstOptProb]: the new [curr_inst_opt_prob]. *)
Definition CalculateInstOptProb (policy : SketchPolicyNode) (measurer : Measurer)
    : Outcome (list Q) :=
  let task := search_task policy in
  let! _ := CHECK (IsDynTask task) "Check failed: IsDynTask(search_task)" in
  let flops := best_inst_flops measurer (workload_key task) in
  let! priority :=
    Filters.omap
      (fun i =>
         match wkl_insts task !! i with
         | None => Fatal "IndexError: indexing out of bound"
         | Some inst =>
             let flop := EstimateFlopForInst task inst in
             let! _ := CHECK (Qltb 0 flop) "Check failed: flop > 0." in
             match wkl_inst_weights task !! i, flops !! i with
             | None, _ => Fatal "IndexError: indexing out of bound"
             | Some _, None => Undefined
             | Some w, Some best => fdiv (flop * w) best
             end
         end)
      (seq 0 (length (wkl_insts task))) in
  Ok (ComputePrefixSumProb priority).

(** The throughputs pushed for a round of measurements. *)
Definition round_throughputs (policy : SketchPolicyNode)
    (inputs : list MeasureInput) (results : list MeasureResult) : Outcome (list Q) :=
  let task := search_task policy in
  if IsDynTask task then
    let! _ := CHECK (length inputs =? length results)%nat
                "Check failed: inputs.size() == results.size()" in
    Filters.omap
      (fun ir : MeasureInput * MeasureResult =>
         let '(_, flop_ct, adaption_penalty) :=
           CherryPickWorkloadInstance (mi_state ir.1) task in
         let! x := fdiv flop_ct adaption_penalty in
         fdiv x (FloatArrayMean (costs ir.2)))
      (combine inputs results)
  else
    Filters.omap (fun res => fdiv 1 (FloatArrayMean (costs res))) results.

(** The locals of the measuring loop of [Search], with the policy, the
    measurer and the record of the calls made so far. *)
Record Tuning : Type := {
  t_policy : SketchPolicyNode;
  t_measurer : Measurer;
  t_log : list Event;
  ct : Z;
  t_empty_retry_count : Z;
  t_random_states : list State;
  t_inputs : list MeasureInput;
  t_results : list MeasureResult
}.

(** One turn of [while (ct < n_trials)]; the boolean tells whether the loop
    goes on ([continue], or the end of the body) or is left by [break]. *)
Definition tuning_round (fuel : nat) (n_trials_arg early_stopping num_random : Z)
    (t : Tuning) : Outcome (Tuning * bool) :=
  let policy0 := t_policy t in
  let task := search_task policy0 in
  let '(policy1, log1) :=
    match t_inputs t with
    | [] => (policy0, t_log t)
    | _ :: _ =>
        (set_cost_model policy0
           (Update (program_cost_model policy0) (t_inputs t) (t_results t)),
         t_log t ++ [EvUpdate (length (t_inputs t))])
    end in
  let! (best, random_opt, policy2) :=
    SearchOneRound fuel policy1 (num_random * 3) (Some (t_random_states t)) in
  let random := default [] random_opt in
  let best' := InferBound task best in
  let random' := InferBound task random in
  let (inputs, policy3) :=
    PickStatesWithEpsGreedy policy2 best' random' (n_trials_arg - ct t) in
  match inputs with
  | [] =>
      Ok ({| t_policy := policy3; t_measurer := t_measurer t; t_log := log1;
             ct := ct t; t_empty_retry_count := t_empty_retry_count t - 1;
             t_random_states := random'; t_inputs := [];
             t_results := t_results t |},
          0 <? t_empty_retry_count t)
  | _ :: _ =>
      let (results, measurer') := Measure (t_measurer t) task inputs in
      let log2 := log1 ++ [EvMeasure (length inputs)] in
      let! prob := if IsDynTask task then CalculateInstOptProb policy3 measurer'
                   else Ok (curr_inst_opt_prob policy3) in
      let ct' := ct t + Z.of_nat (length inputs) in
      let retry := empty_retry_count (params policy3) in
      if (early_stopping <? ct' - best_ct measurer' (workload_key task))
         && has_valid measurer' (workload_key task)
      then
        Ok ({| t_policy := set_progress policy3 (n_trials policy3) prob
                             (measured_states_throughputs_ policy3);
               t_measurer := measurer'; t_log := log2; ct := ct';
               t_empty_retry_count := retry; t_random_states := random';
               t_inputs := inputs; t_results := results |}, false)
      else
        let! pushed := round_throughputs policy3 inputs results in
        Ok ({| t_policy := set_progress policy3 ct' prob
                             (measured_states_throughputs_ policy3 ++ pushed);
               t_measurer := measurer'; t_log := log2; ct := ct';
               t_empty_retry_count := retry; t_random_states := random';
               t_inputs := inputs; t_results := results |}, true)
  end.

Fixpoint tuning_loop (fuel : nat) (n_trials_arg early_stopping num_random : Z)
    (t : Tuning) : Outcome Tuning :=
  if ct t <? n_trials_arg then
    match fuel with
    | O => OutOfFuel
    | S fuel' =>
        let! (t', go_on) := tuning_round fuel' n_trials_arg early_stopping num_random t in
        if go_on then tuning_loop fuel' n_trials_arg early_stopping num_random t'
        else Ok t'
    end
  else Ok t.

(** The locals of the final check of the dispatched states. *)
Record Dispatching : Type := {
  adapted_candidate_flops : list Q;
  changed_adapted_candidate_flops : bool;
  wkl_inst_ids : list nat;
  next_wkl_inst_ids : list nat;
  inst_id_disp_map : gmap nat nat;
  selected_candidate_states : list State;
  d_log : list Event
}.

(** [adapted_candidate_flops[inst_id * measured_states_vector_.size() + state_id]],
    filled for every state with a throughput and every instance. *)
Fixpoint adapt_all (policy : SketchPolicyNode) (pairs : list (nat * nat))
    (adapted : list Q) : Outcome (list Q) :=
  match pairs with
  | [] => Ok adapted
  | (state_id, inst_id) :: rest =>
      let task := search_task policy in
      match measured_states_vector_ policy !! state_id,
            wkl_insts task !! inst_id,
            measured_states_throughputs_ policy !! state_id with
      | Some s, Some inst, Some throughput =>
          let idx := (inst_id * length (measured_states_vector_ policy) + state_id)%nat in
          if (idx <? length adapted)%nat
          then adapt_all policy rest
                 (<[idx := AdaptStateToWorkload task s inst throughput]> adapted)
          else Undefined
      | _, _, _ => Undefined
      end
  end.

(** The loop over the build results of one pass. *)
Fixpoint check_builds (policy : SketchPolicyNode) (ids : list nat)
    (build_results : list BuildResult) (d : Dispatching) : Outcome Dispatching :=
  match ids, build_results with
  | inst_id :: ids', res :: results' =>
      let state_id := default 0%nat (inst_id_disp_map d !! inst_id) in
      if error_no res =? 0 then check_builds policy ids' results' d
      else
        (* the log line reads wkl_insts[state_id] and selected_candidate_states[state_id] *)
        match wkl_insts (search_task policy) !! state_id,
              selected_candidate_states d !! state_id with
        | None, _ => Fatal "IndexError: indexing out of bound"
        | Some _, None => Undefined
        | Some _, Some _ =>
            let idx := (inst_id * length (measured_states_vector_ policy) + state_id)%nat in
            if (idx <? length (adapted_candidate_flops d))%nat
            then check_builds policy ids' results'
                   {| adapted_candidate_flops := <[idx := 0%Q]> (adapted_candidate_flops d);
                      changed_adapted_candidate_flops := changed_adapted_candidate_flops d;
                      wkl_inst_ids := wkl_inst_ids d;
                      next_wkl_inst_ids := next_wkl_inst_ids d ++ [inst_id];
                      inst_id_disp_map := inst_id_disp_map d;
                      selected_candidate_states := selected_candidate_states d;
                      d_log := d_log d |}
            else Undefined
        end
  | _, _ => Ok d
  end.

(** [inst_id_disp_map[inst_id]] for every id of the list: [operator[]] of
    [std::unordered_map] adds an absent key, with the value [0]. *)
Definition touch_all (m : gmap nat nat) (ids : list nat) : gmap nat nat :=
  foldl (fun m inst_id =>
           match m !! inst_id with
           | Some _ => m
           | None => <[inst_id := 0%nat]> m
           end) m ids.

(** The body of the [do ... while (changed_adapted_candidate_flops)] loop:
    dispatch, build one input per instance of [wkl_inst_ids], look at the
    results, and log the dispatch (which reads [wkl_insts] at every key of
    the map). *)
Definition dispatch_pass (policy : SketchPolicyNode) (measurer : Measurer)
    (d : Dispatching) : Outcome Dispatching :=
  let task := search_task policy in
  let raw := dispatch (adapted_candidate_flops d) (length (measured_states_vector_ policy)) in
  let '(disp_map, selected, _, _) :=
    MapWklInstsToStates raw (measured_states_vector_ policy)
      (measured_states_throughputs_ policy) (wkl_insts task) (adapted_candidate_flops d) in
  let! test_inputs :=
    Filters.omap
      (fun inst_id =>
         match selected !! default 0%nat (disp_map !! inst_id), wkl_insts task !! inst_id with
         | Some s, Some inst => Ok {| mi_state := s; mi_wkl_inst := Some inst |}
         | None, _ => Undefined
         | Some _, None => Fatal "IndexError: indexing out of bound"
         end)
      (wkl_inst_ids d) in
  let build_results := Build measurer test_inputs (verbose policy) in
  let! _ := CHECK (length build_results =? length test_inputs)%nat
              "Check failed: build_results.size() == test_inputs.size()" in
  let! d' :=
    check_builds policy (wkl_inst_ids d) build_results
      {| adapted_candidate_flops := adapted_candidate_flops d;
         changed_adapted_candidate_flops := changed_adapted_candidate_flops d;
         wkl_inst_ids := wkl_inst_ids d;
         next_wkl_inst_ids := [];
         inst_id_disp_map := touch_all disp_map (wkl_inst_ids d);
         selected_candidate_states := selected;
         d_log := d_log d ++ [EvBuild (length test_inputs)] |} in
  let! _ := CHECK (bool_decide
                     (map_Forall (fun (inst_id _ : nat) =>
                                    (inst_id < length (wkl_insts task))%nat)
                                 (inst_id_disp_map d')))
              "IndexError: indexing out of bound" in
  Ok d'.

Fixpoint dispatch_loop (fuel : nat) (policy : SketchPolicyNode) (measurer : Measurer)
    (d : Dispatching) : Outcome Dispatching :=
  match fuel with
  | O => OutOfFuel
  | S fuel' =>
      let! d' := dispatch_pass policy measurer d in
      if changed_adapted_candidate_flops d'
      then dispatch_loop fuel' policy measurer d'
      else Ok d'
  end.

(** The locals as the loop finds them: the adapted scores of every measured
    state for every instance, and all instances to be checked. *)
Definition dispatch_start (policy : SketchPolicyNode) (log : list Event)
    : Outcome Dispatching :=
  let n_insts := length (wkl_insts (search_task policy)) in
  let n_states := length (measured_states_throughputs_ policy) in
  let! adapted :=
    adapt_all policy
      (state_id ← seq 0 n_states; inst_id ← seq 0 n_insts; [(state_id, inst_id)])
      (replicate (n_insts * n_states) 0%Q) in
  Ok {| adapted_candidate_flops := adapted;
        changed_adapted_candidate_flops := false;
        wkl_inst_ids := seq 0 n_insts;
        next_wkl_inst_ids := [];
        inst_id_disp_map := ∅;
        selected_candidate_states := [];
        d_log := log |}.

(** The final check of [Search] on a dynamic task. *)
Definition dispatch_phase (fuel : nat) (policy : SketchPolicyNode) (measurer : Measurer)
    (log : list Event) : Outcome Dispatching :=
  let! d0 := dispatch_start policy log in
  dispatch_loop fuel policy measurer d0.

(** What [Search] hands back, with what it leaves behind. *)
Record SearchResult : Type := {
  r_states : list State;
  r_inst_id_disp_map : gmap nat nat;
  r_policy : SketchPolicyNode;
  r_measurer : Measurer;
  r_log : list Event
}.

(** [SketchPolicyNode::Search] *)
Definition Search (fuel : nat) (policy : SketchPolicyNode)
    (n_trials_arg early_stopping num_measure_per_iter : Z) (measurer : Measurer)
    : Outcome SearchResult :=
  let policy0 := set_num_measure_per_iter policy num_measure_per_iter in
  if n_trials_arg <=? 1 then
    let! (best, _, policy1) := SearchOneRound fuel policy0 0 None in
    match best with
    | [] => Fatal "Check failed: best_states.size() > 0"
    | first :: _ =>
        Ok {| r_states := [first]; r_inst_id_disp_map := ∅; r_policy := policy1;
              r_measurer := measurer; r_log := [] |}
    end
  else
    let num_random :=
      trunc_Q (eps_greedy (params policy0) * inject_Z num_measure_per_iter) in
    let early_stopping' :=
      if early_stopping <? 0 then Z.shiftr INT32_MAX 1 else early_stopping in
    let! t :=
      tuning_loop fuel n_trials_arg early_stopping' num_random
        {| t_policy := policy0; t_measurer := Reset measurer; t_log := [EvReset];
           ct := 0; t_empty_retry_count := empty_retry_count (params policy0);
           t_random_states := []; t_inputs := []; t_results := [] |} in
    let task := search_task (t_policy t) in
    if IsDynTask task then
      let! d := dispatch_phase fuel (t_policy t) (t_measurer t) (t_log t) in
      Ok {| r_states := selected_candidate_states d;
            r_inst_id_disp_map := inst_id_disp_map d;
            r_policy := t_policy t; r_measurer := t_measurer t; r_log := d_log d |}
    else
      Ok {| r_states := best_states (t_measurer t) (workload_key task);
            r_inst_id_disp_map := ∅;
            r_policy := t_policy t; r_measurer := t_measurer t; r_log := t_log t |}.

(** *** ContinueSearchOneRound *)

(** [compute_dag->flop_ct] of a task and [measurer->best_score]. *)
Variable dag_flop_ct : SearchTaskNode -> Q.
Variable best_score : Measurer -> string -> Q.

(** The loop [for (i < task->wkl_insts.size())] of
    [ComputeFlopWeightedLatency]: [inst_weights[i]] and [best_inst_flops[i]]
    are reads of a [std::vector]. *)
Fixpoint weighted_latency (task : SearchTaskNode) (inst_weights best_flops : list Q)
    (i : nat) (insts : list (list Z)) (acc : Q) : Outcome Q :=
  match insts with
  | [] => Ok acc
  | inst :: insts' =>
      let! _ := CHECK (defined (shape_vars task)) "Check failed: shape_vars.value()" in
      let flop := EstimateFlopForInst task inst in
      match inst_weights !! i, best_flops !! i with
      | Some w, Some best =>
          let! term := fdiv (w * flop) best in
          weighted_latency task inst_weights best_flops (S i) insts' (acc + term)%Q
      | _, _ => Undefined
      end
  end.

(** [ComputeFlopWeightedLatency] *)
Definition ComputeFlopWeightedLatency (task : SearchTaskNode) (best_flops : list Q)
    : Outcome Q :=
  let weights := wkl_inst_weights task in
  let inst_weights_sum := foldl Qplus 0%Q weights in
  let! inst_weights := Filters.omap (fun w => fdiv w inst_weights_sum) weights in
  let! _ := CHECK (length best_flops =? length inst_weights)%nat
              "Check failed: best_inst_flops.size() == inst_weights.size()" in
  weighted_latency task inst_weights best_flops 0 (wkl_insts task) 0%Q.

(** What [ContinueSearchOneRound] hands back, with what it leaves behind. *)
Record RoundResult : Type := {
  c_num_measured : nat;
  c_latency : Q;
  c_policy : SketchPolicyNode;
  c_measurer : Measurer;
  c_log : list Event
}.

(** [SketchPolicyNode::ContinueSearchOneRound] *)
Definition ContinueSearchOneRound (fuel : nat) (policy : SketchPolicyNode)
    (num_measure : Z) (measurer : Measurer) : Outcome RoundResult :=
  let policy0 := set_num_measure_per_iter policy num_measure in
  let task := search_task policy0 in
  let num_random := trunc_Q (eps_greedy (params policy0) * inject_Z num_measure) in
  let! (best, random_opt, policy2) :=
    SearchOneRound fuel policy0 (num_random * 3) (Some []) in
  let best' := InferBound task best in
  let random' := InferBound task (default [] random_opt) in
  let (inputs, policy3) := PickStatesWithEpsGreedy policy2 best' random' num_measure in
  let (results, measurer') := Measure measurer task inputs in
  let! prob := if IsDynTask task then CalculateInstOptProb policy3 measurer'
               else Ok (curr_inst_opt_prob policy3) in
  let! pushed := round_throughputs policy3 inputs results in
  let policy4 :=
    set_cost_model
      (set_progress policy3 (n_trials policy3) prob
         (measured_states_throughputs_ policy3 ++ pushed))
      (Update (program_cost_model policy3) inputs results) in
  let! latency :=
    if IsDynTask task
    then ComputeFlopWeightedLatency task (best_inst_flops measurer' (workload_key task))
    else fdiv (dag_flop_ct task) (best_score measurer' (workload_key task)) in
  Ok {| c_num_measured := length inputs; c_latency := latency; c_policy := policy4;
        c_measurer := measurer';
        c_log := [EvMeasure (length inputs); EvUpdate (length inputs)] |}.

(** *** Facts about GenerateSketches *)







(** *** Facts about SampleInitPopulation *)

(** [n] turns of the loop body, one after the other. *)
Fixpoint run_waves (n : nat) (policy : SketchPolicyNode) (sketches : list State)
    (st : Sampling) : Outcome Sampling :=
  match n with
  | O => Ok st
  | S n' =>
      let! st' := sampling_wave policy sketches st in
      run_waves n' policy sketches st'
  end.

(** The target after a halving. *)
Definition halved (target : Z) : Z :=
  if 1 <? target then Z.quot target 2 else target.

Lemma accept_candidates_spec (cands : list (State * Q)) (st : Sampling) :
  let st' := accept_candidates cands st in
  s_min_pop st' = s_min_pop st /\ iter st' = iter st /\
  (length (s_out_states st) <= length (s_out_states st'))%nat /\
  ((s_out_states st' = s_out_states st /\ unchange_cnt st' = unchange_cnt st) \/
   ((length (s_out_states st) < length (s_out_states st'))%nat /\ unchange_cnt st' = 0)).
Proof.
  revert st. induction cands as [|[s score] cands IH]; intros st; cbn zeta.
  - cbn. repeat split; try reflexivity. left. split; reflexivity.
  - cbn [accept_candidates].
    destruct (Qltb _ score && negb _).
    + specialize (IH {| s_out_states := s_out_states st ++ [s];
                        s_rand_gens := s_rand_gens st;
                        explored_state_strs := {[ToStr s]} ∪ explored_state_strs st;
                        iter := iter st; unchange_cnt := 0; fail_ct := fail_ct st;
                        s_min_pop := s_min_pop st |}).
      cbn zeta in IH. cbn [s_min_pop iter s_out_states unchange_cnt] in IH.
      rewrite length_app in IH. cbn [length] in IH.
      destruct IH as (H1 & H2 & H3 & H4). repeat split; try assumption; [lia|].
      right. split; [lia|]. destruct H4 as [[_ H4]|[_ H4]]; exact H4.
    + specialize (IH {| s_out_states := s_out_states st;
                        s_rand_gens := s_rand_gens st;
                        explored_state_strs := explored_state_strs st;
                        iter := iter st; unchange_cnt := unchange_cnt st;
                        fail_ct := fail_ct st + 1;
                        s_min_pop := s_min_pop st |}).
      exact IH.
Qed.

(** What one wave does to the counters. *)
Lemma sampling_wave_spec (policy : SketchPolicyNode) (sketches : list State)
    (st st' : Sampling) :
  sampling_wave policy sketches st = Ok st' ->
  iter st' = iter st + 1 /\
  (length (s_out_states st) <= length (s_out_states st'))%nat /\
  ((length (s_out_states st') = length (s_out_states st) /\
    unchange_cnt st' = (if unchange_cnt st + 1 =? 5 then 0 else unchange_cnt st + 1) /\
    s_min_pop st' = (if unchange_cnt st + 1 =? 5 then halved (s_min_pop st)
                     else s_min_pop st)) \/
   ((length (s_out_states st) < length (s_out_states st'))%nat /\
    unchange_cnt st' = 0 /\ s_min_pop st' = s_min_pop st)).
Proof.
  unfold sampling_wave. destruct (s_rand_gens st) as [|g gens]; [discriminate|].
  destruct (sample_wave _ sketches (g :: gens)) as [[temp_states gens']| | |];
    cbn [obind]; try discriminate.
  set (st1 := {| s_out_states := s_out_states st; s_rand_gens := gens';
                 explored_state_strs := explored_state_strs st; iter := iter st;
                 unchange_cnt := unchange_cnt st + 1;
                 fail_ct := _; s_min_pop := s_min_pop st |}).
  match goal with |- context [shrink_target ?x] => set (st2 := x) end.
  assert (H2 : s_min_pop st2 = s_min_pop st /\ iter st2 = iter st /\
               (length (s_out_states st) <= length (s_out_states st2))%nat /\
               ((s_out_states st2 = s_out_states st /\
                 unchange_cnt st2 = unchange_cnt st + 1) \/
                ((length (s_out_states st) < length (s_out_states st2))%nat /\
                 unchange_cnt st2 = 0))).
  { subst st2. destruct (omap id temp_states) as [|c cs].
    - subst st1. cbn. repeat split; try reflexivity. left. split; reflexivity.
    - match goal with |- context [accept_candidates ?c ?s] =>
        pose proof (accept_candidates_spec c s) as H end.
      cbn zeta in H. exact H. }
  clearbody st2. clear st1. destruct H2 as (Hm & Hi & Hlen & Hcase).
  intros [= <-]. unfold shrink_target.
  cbn [iter s_out_states unchange_cnt s_min_pop].
  destruct Hcase as [[Hout Hcnt]|[Hout Hcnt]].
  - rewrite Hcnt. destruct (unchange_cnt st + 1 =? 5) eqn:E;
      cbn [iter s_out_states unchange_cnt s_min_pop]; rewrite ?Hi, ?Hout, ?Hm;
      (split; [reflexivity|]); (split; [lia|]); left; repeat split; try reflexivity.
    exact Hcnt.
  - rewrite Hcnt. cbn [iter s_out_states unchange_cnt s_min_pop Z.eqb].
    rewrite Hi. split; [reflexivity|]. split; [exact Hlen|]. right. auto.
Qed.

Lemma run_waves_grows (n : nat) (policy : SketchPolicyNode) (sketches : list State)
    (st st' : Sampling) :
  run_waves n policy sketches st = Ok st' ->
  (length (s_out_states st) <= length (s_out_states st'))%nat.
Proof.
  revert st. induction n as [|n IH]; intros st; cbn [run_waves].
  - intros [= <-]. lia.
  - destruct (sampling_wave policy sketches st) as [st1| | |] eqn:E; cbn [obind];
      try discriminate.
    intros H. apply IH in H. apply sampling_wave_spec in E as (_ & Hle & _). lia.
Qed.

(** Waves that add nothing: the counter goes up by one a wave, and the
    target stays, as long as the counter stays below five. *)
Lemma run_waves_idle (n : nat) (policy : SketchPolicyNode) (sketches : list State)
    (st st' : Sampling) :
  run_waves n policy sketches st = Ok st' ->
  length (s_out_states st') = length (s_out_states st) ->
  unchange_cnt st + Z.of_nat n < 5 ->
  0 <= unchange_cnt st ->
  unchange_cnt st' = unchange_cnt st + Z.of_nat n /\ s_min_pop st' = s_min_pop st.
Proof.
  revert st. induction n as [|n IH]; intros st; cbn [run_waves].
  - intros [= <-] _ _ _. split; [lia | reflexivity].
  - destruct (sampling_wave policy sketches st) as [st1| | |] eqn:E; cbn [obind];
      try discriminate.
    intros H Hlen Hcnt Hpos.
    pose proof (run_waves_grows _ _ _ _ _ H) as Hgrow.
    apply sampling_wave_spec in E as (_ & Hle & [(Hl & Hc & Hm)|(Hl & _)]); [|lia].
    destruct (Z.eqb_spec (unchange_cnt st + 1) 5) as [Heq|Hne]; [lia|].
    destruct (IH st1 H) as [IH1 IH2]; [lia | lia | lia|].
    split; [lia | congruence].
Qed.

(** The loop is not entered when the target is already met. *)
Lemma sampling_loop_target_met (fuel : nat) (policy : SketchPolicyNode)
    (sketches : list State) (st : Sampling) :
  s_min_pop st <= Z.of_nat (length (s_out_states st)) ->
  sampling_loop fuel policy sketches st = Ok st.
Proof.
  intros H. destruct fuel; cbn [sampling_loop];
    destruct (Z.ltb_spec (Z.of_nat (length (s_out_states st))) (s_min_pop st));
    try lia; reflexivity.
Qed.

Lemma sampling_start_spec (policy : SketchPolicyNode) :
  let st := (sampling_start policy).1 in
  s_out_states st = [] /\ iter st = 1 /\ unchange_cnt st = 0 /\
  s_min_pop st = sample_init_min_pop_ policy.
Proof.
  unfold sampling_start. destruct (seed_rand_gens _ _). cbn. auto.
Qed.

(** C6 (as amended).  With a target of 0 (or less), and a population
    parameter that is not negative, the loop of [SampleInitPopulation] is
    not entered: the run makes no wave whatever the fuel, returns the empty
    population and leaves the target as it was.
    In general, five consecutive turns of the loop that accept no new state,
    counted from a turn that accepted one (or from the start), leave the
    target untouched for four turns and halve it at the fifth: it becomes
    its half, rounded down, when it was above 1 and stays what it was
    otherwise, so that a target of at least 1 never falls below 1. *)
Theorem SampleInitPopulation_target (policy : SketchPolicyNode) (sketches : list State) :
  (forall fuel,
     0 <= population (params policy) ->
     sample_init_min_pop_ policy <= 0 ->
     exists st,
       sampling_run fuel policy sketches = Ok st /\
       waves st = 0 /\ s_out_states st = [] /\
       s_min_pop st = sample_init_min_pop_ policy) /\
  (forall st st4 st5,
     unchange_cnt st = 0 ->
     run_waves 4 policy sketches st = Ok st4 ->
     sampling_wave policy sketches st4 = Ok st5 ->
     length (s_out_states st5) = length (s_out_states st) ->
     s_min_pop st4 = s_min_pop st /\
     s_min_pop st5 = halved (s_min_pop st) /\
     unchange_cnt st5 = 0 /\
     (1 <= s_min_pop st -> 1 <= s_min_pop st5 <= s_min_pop st)).
Proof.
  split.
  - intros fuel Hpop Hle. unfold sampling_run.
    rewrite (proj2 (Z.leb_le _ _) Hpop). cbn [CHECK obind].
    pose proof (sampling_start_spec policy) as Hs. cbn zeta in Hs.
    destruct (sampling_start policy) as [st0 g]. cbn [fst] in Hs.
    destruct Hs as (Hout & Hiter & Hcnt & Hmin).
    exists st0. rewrite sampling_loop_target_met by (rewrite Hout, Hmin; cbn; lia).
    unfold waves. repeat split; [lia | exact Hout | exact Hmin].
  - intros st st4 st5 Hcnt H4 H5 Hlen.
    pose proof (run_waves_grows _ _ _ _ _ H4) as Hg4.
    pose proof (sampling_wave_spec _ _ _ _ H5) as (_ & Hg5 & Hcase).
    destruct (run_waves_idle 4 _ _ _ _ H4) as [Hc4 Hm4]; [lia | lia | lia|].
    destruct Hcase as [(_ & Hc & Hm)|(Hl & _)]; [|lia].
    rewrite Hc4, Hcnt in Hc, Hm.
    change (0 + Z.of_nat 4 + 1 =? 5) with true in Hc, Hm. cbv iota in Hc, Hm.
    rewrite Hm4 in Hm.
    split; [exact Hm4|]. split; [exact Hm|]. split; [exact Hc|].
    intros Hpos. rewrite Hm. unfold halved.
    destruct (Z.ltb_spec 1 (s_min_pop st)) as [Hgt|Hle]; [|lia].
    pose proof (Z.quot_le_lower_bound (s_min_pop st) 2 1).
    pose proof (Z.quot_lt (s_min_pop st) 2). lia.
Qed.

(** *** Facts about the mutation loop of EvolutionarySearch *)

(** What a turn of the mutation loop leaves: either the failure of a
    mutation is counted and the next generation is as it was, or the next
    generation gains one state, a mutated one (counted as a success) or an
    unmodified parent. *)
Definition attempt_outcome (pnow pnext : list State) (e : Evolution)
    (pnext' : list State) (e' : Evolution) : Prop :=
  (pnext' = pnext /\
   mutation_fail_ct e' = mutation_fail_ct e + 1 /\
   mutation_success_ct e' = mutation_success_ct e) \/
  (exists mutated, pnext' = pnext ++ [mutated] /\
   mutation_fail_ct e' = mutation_fail_ct e /\
   mutation_success_ct e' = mutation_success_ct e + 1) \/
  (exists parent, parent ∈ pnow /\ pnext' = pnext ++ [parent] /\
   mutation_fail_ct e' = mutation_fail_ct e /\
   mutation_success_ct e' = mutation_success_ct e).

Lemma mutation_attempt_outcome (policy : SketchPolicyNode) (pnow : list State)
    (probs rprobs : list Q) (pnext pnext' : list State) (e e' : Evolution) :
  mutation_attempt policy pnow probs rprobs pnext e = Ok (pnext', e') ->
  heap e' = heap e /\ in_heap e' = in_heap e /\
  attempt_outcome pnow pnext e pnext' e'.
Proof.
  unfold mutation_attempt, attempt_outcome.
  destruct (RandomChoose probs (e_rand_gen e)) as [parent_id g1].
  destruct (pnow !! parent_id) as [tmp_s|] eqn:Hp; [|discriminate].
  destruct (uniform_real g1) as [u g2].
  destruct (Qltb u (mutation_prob (params policy))).
  - destruct (RandomChoose rprobs g2) as [rule_id g3].
    destruct (mutation_rules policy !! rule_id) as [rule|]; [|discriminate].
    destruct (MutationApply rule policy tmp_s g3) as [[[] s'] g4]; intros [= <- <-];
      cbn; (split; [reflexivity|]); (split; [reflexivity|]).
    + right. left. eauto.
    + left. auto.
  - intros [= <- <-]. cbn. split; [reflexivity|]. split; [reflexivity|].
    right. right. exists tmp_s. split; [|auto].
    eapply list_elem_of_lookup_2, Hp.
Qed.

(** A failed mutation, step by step: the parent is drawn, the mutation is
    chosen, the rule answers [kInvalid]. *)
Lemma mutation_attempt_invalid (policy : SketchPolicyNode) (pnow : list State)
    (probs rprobs : list Q) (pnext : list State) (e : Evolution)
    (parent_id rule_id : nat) (g1 g2 g3 g4 : Rng) (parent s' : State) (u : Q)
    (rule : MutationRule) :
  RandomChoose probs (e_rand_gen e) = (parent_id, g1) ->
  pnow !! parent_id = Some parent ->
  uniform_real g1 = (u, g2) ->
  Qltb u (mutation_prob (params policy)) = true ->
  RandomChoose rprobs g2 = (rule_id, g3) ->
  mutation_rules policy !! rule_id = Some rule ->
  MutationApply rule policy parent g3 = (kInvalid, s', g4) ->
  exists e',
    mutation_attempt policy pnow probs rprobs pnext e = Ok (pnext, e') /\
    mutation_fail_ct e' = mutation_fail_ct e + 1 /\
    mutation_success_ct e' = mutation_success_ct e.
Proof.
  intros H1 H2 H3 H4 H5 H6 H7. unfold mutation_attempt.
  rewrite H1, H2, H3, H4, H5, H6, H7. eexists. split; [reflexivity|]. cbn. auto.
Qed.

(** The loop as a whole: it stops when the next generation has [population]
    states, and each of its turns has added a state or counted a failure. *)
Lemma mutate_spec (fuel : nat) (policy : SketchPolicyNode) (pnow : list State)
    (probs rprobs : list Q) (pnext pnext' : list State) (e e' : Evolution) :
  mutate fuel policy pnow probs rprobs pnext e = Ok (pnext', e') ->
  Z.of_nat (length pnext') = Z.max (Z.of_nat (length pnext)) (population_size policy) /\
  heap e' = heap e /\ in_heap e' = in_heap e /\
  exists turns : nat,
    (turns <= fuel)%nat /\
    Z.of_nat turns
    = (Z.of_nat (length pnext') - Z.of_nat (length pnext))
      + (mutation_fail_ct e' - mutation_fail_ct e).
Proof.
  revert pnext e. induction fuel as [|fuel IH]; intros pnext e; cbn [mutate];
    destruct (Z.ltb_spec (Z.of_nat (length pnext)) (population_size policy)) as [Hlt|Hge];
    try discriminate.
  - intros [= <- <-]. split; [lia|]. split; [reflexivity|]. split; [reflexivity|].
    exists 0%nat. lia.
  - destruct (mutation_attempt _ _ _ _ _ _) as [[pnext1 e1]| | |] eqn:E; cbn [obind];
      try discriminate.
    intros H. apply IH in H as (Hlen & Hh & Hs & turns & Hle & Hturns).
    apply mutation_attempt_outcome in E as (Hh1 & Hs1 & Hcase).
    assert (Hgrow : Z.of_nat (length pnext1) = Z.of_nat (length pnext)
                    + (1 - (mutation_fail_ct e1 - mutation_fail_ct e))
                    /\ 0 <= mutation_fail_ct e1 - mutation_fail_ct e <= 1).
    { destruct Hcase as [(-> & -> & _)|[(s & -> & -> & _)|(s & _ & -> & -> & _)]];
        rewrite ?length_app; cbn [length]; lia. }
    split; [lia|]. split; [congruence|]. split; [congruence|].
    exists (S turns). lia.
  - intros [= <- <-]. split; [lia|]. split; [reflexivity|]. split; [reflexivity|].
    exists 0%nat. lia.
Qed.

(** C2 (as amended).  In a turn of the mutation loop, a parent selected for
    mutation whose rule answers invalid is counted as a mutation failure and
    adds nothing to the next generation: the parent is not kept, and the
    loop draws again.  Every turn either counts such a failure or adds
    exactly one state (a mutated one, or the unmodified parent when no
    mutation was selected); when the loop returns, the next generation has
    [population] states and the turns made are the states added plus the
    failures counted. *)
Theorem mutation_failure_adds_nothing (policy : SketchPolicyNode) (pnow : list State)
    (probs rprobs : list Q) (pnext : list State) (e : Evolution) :
  (forall parent_id rule_id g1 g2 g3 g4 parent s' u rule,
     RandomChoose probs (e_rand_gen e) = (parent_id, g1) ->
     pnow !! parent_id = Some parent ->
     uniform_real g1 = (u, g2) ->
     Qltb u (mutation_prob (params policy)) = true ->
     RandomChoose rprobs g2 = (rule_id, g3) ->
     mutation_rules policy !! rule_id = Some rule ->
     MutationApply rule policy parent g3 = (kInvalid, s', g4) ->
     exists e',
       mutation_attempt policy pnow probs rprobs pnext e = Ok (pnext, e') /\
       mutation_fail_ct e' = mutation_fail_ct e + 1 /\
       mutation_success_ct e' = mutation_success_ct e) /\
  (forall pnext' e',
     mutation_attempt policy pnow probs rprobs pnext e = Ok (pnext', e') ->
     attempt_outcome pnow pnext e pnext' e') /\
  (forall fuel pnext' e',
     mutate fuel policy pnow probs rprobs pnext e = Ok (pnext', e') ->
     Z.of_nat (length pnext')
     = Z.max (Z.of_nat (length pnext)) (population_size policy) /\
     exists turns : nat,
       (turns <= fuel)%nat /\
       Z.of_nat turns
       = (Z.of_nat (length pnext') - Z.of_nat (length pnext))
         + (mutation_fail_ct e' - mutation_fail_ct e)).
Proof.
  split; [intros; eapply mutation_attempt_invalid; eassumption|].
  split.
  - intros pnext' e' H. apply mutation_attempt_outcome in H as (_ & _ & H). exact H.
  - intros fuel pnext' e' H. apply mutate_spec in H as (H1 & _ & _ & H2). auto.
Qed.

(** *** Facts about the heap of EvolutionarySearch *)

Definition item_key (item : State * Q) : string := ToStr item.1.

(** Ascending order of scores, strictly: the arrangement of a heap whose
    items have distinct scores. *)
Definition ascending (a b : State * Q) : Prop := (a.2 < b.2)%Q.

(** No two items of the list have the same score. *)
Definition distinct_scores (l : list (State * Q)) : Prop :=
  forall (i j : nat) (a b : State * Q),
    (i < j)%nat -> l !! i = Some a -> l !! j = Some b -> ~ (a.2 == b.2)%Q.

(** Every item of [low] scores less than every item of [high]. *)
Definition all_below (low high : list (State * Q)) : Prop :=
  Forall (fun d => Forall (fun h => (d.2 < h.2)%Q) high) low.

Lemma sort_insert_length {A : Type} (cmp : A -> A -> bool) (x : A) (l : list A) :
  length (sort_insert cmp x l) = S (length l).
Proof. rewrite (Permutation_length (sort_insert_perm cmp x l)). reflexivity. Qed.

Lemma push_heap_ascending (x : State * Q) (h : list (State * Q)) :
  StronglySorted ascending h ->
  Forall (fun y => ~ (y.2 == x.2)%Q) h ->
  StronglySorted ascending (push_heap x h).
Proof.
  unfold push_heap. induction 1 as [|y l Hl IH Hy]; intros Hd; cbn;
    [repeat constructor|].
  apply Forall_cons in Hd as [Hyx Hd]. unfold heap_less at 1.
  destruct (Qltb y.2 x.2) eqn:E.
  - constructor; [apply IH, Hd|].
    apply Forall_forall. intros z Hz.
    rewrite (sort_insert_perm heap_less x l) in Hz.
    apply elem_of_cons in Hz as [->|Hz].
    + apply Qltb_lt in E. exact E.
    + rewrite Forall_forall in Hy. apply Hy, Hz.
  - apply Qltb_ge in E.
    assert (Hlt : (x.2 < y.2)%Q).
    { destruct (Qlt_le_dec x.2 y.2) as [|Hle]; [assumption|].
      exfalso. apply Hyx. apply Qle_antisym; assumption. }
    constructor; [constructor; assumption|].
    constructor; [exact Hlt|].
    apply Forall_forall. intros z Hz. rewrite Forall_forall in Hy.
    specialize (Hy _ Hz). unfold ascending in *. lra.
Qed.

Lemma offer_heap_length (out_size : Z) (e e' : Evolution) (item : State * Q) :
  offer out_size e item = Ok e' ->
  Z.of_nat (length (heap e)) <= Z.max 0 out_size ->
  Z.of_nat (length (heap e')) <= Z.max 0 out_size.
Proof.
  unfold offer. destruct (bool_decide _); [intros [= <-]; auto|].
  destruct (Z.ltb_spec (Z.of_nat (length (heap e))) out_size) as [Hlt|Hge]; cbn [obind].
  - intros [= <-] _. cbn. unfold push_heap. rewrite sort_insert_length. lia.
  - destruct (heap e) as [|front rest] eqn:Hh; cbn [obind]; [discriminate|].
    destruct (Qltb front.2 item.2); cbn [obind]; intros [= <-]; cbn.
    + unfold push_heap. rewrite sort_insert_length. cbn in *. lia.
    + rewrite Hh. auto.
Qed.

Lemma offer_all_heap_length (out_size : Z) (items : list (State * Q)) (e e' : Evolution) :
  offer_all out_size items e = Ok e' ->
  Z.of_nat (length (heap e)) <= Z.max 0 out_size ->
  Z.of_nat (length (heap e')) <= Z.max 0 out_size.
Proof.
  revert e. induction items as [|item items IH]; intros e; cbn [offer_all].
  - intros [= <-]. auto.
  - destruct (offer out_size e item) as [e1| | |] eqn:E; cbn [obind]; try discriminate.
    intros H Hlen. eapply IH; [exact H|]. eapply offer_heap_length; eassumption.
Qed.

Lemma evolve_heap_length (todo : nat) (k : Z) (fuel : nat) (policy : SketchPolicyNode)
    (n out_size : Z) (rprobs : list Q) (pnow : list State) (e e' : Evolution) :
  evolve todo k fuel policy n out_size rprobs pnow e = Ok e' ->
  Z.of_nat (length (heap e)) <= Z.max 0 out_size ->
  Z.of_nat (length (heap e')) <= Z.max 0 out_size.
Proof.
  revert k pnow e. induction todo as [|todo IH]; intros k pnow e; cbn [evolve].
  - intros [= <-]. auto.
  - destruct (score_generation policy pnow) as [scored| | |]; cbn [obind]; try discriminate.
    destruct (offer_all out_size scored e) as [e1| | |] eqn:E1; cbn [obind];
      try discriminate.
    intros H Hlen. pose proof (offer_all_heap_length _ _ _ _ E1 Hlen) as Hlen1.
    destruct (k =? n); [injection H as <-; exact Hlen1|].
    destruct (mutate _ _ _ _ _ _ _) as [[pnext e2]| | |] eqn:E2; cbn [obind] in H;
      try discriminate.
    apply mutate_spec in E2 as (_ & Hh & _).
    eapply IH; [exact H|]. rewrite Hh. exact Hlen1.
Qed.

Lemma offer_all_app (out_size : Z) (l1 l2 : list (State * Q)) (e : Evolution) :
  offer_all out_size (l1 ++ l2) e
  = let! e1 := offer_all out_size l1 e in offer_all out_size l2 e1.
Proof.
  revert e. induction l1 as [|x l1 IH]; intros e; cbn [offer_all app]; [reflexivity|].
  destruct (offer out_size e x); cbn [obind]; auto.
Qed.

(** What the heap holds when the items [seen] have been offered to it, for
    items of distinct scores and distinct, unmeasured canonical strings: the
    [out_size] best of them, the others all scoring less. *)
Definition holds_the_best (measured : gset string) (out_size : Z)
    (seen : list (State * Q)) (e : Evolution) : Prop :=
  exists dropped : list (State * Q),
    heap e ++ dropped ≡ₚ seen /\
    StronglySorted ascending (heap e) /\
    Z.of_nat (length (heap e)) = Z.min (Z.of_nat (length seen)) out_size /\
    all_below dropped (heap e) /\
    in_heap e ⊆ measured ∪ list_to_set (map item_key seen).

Lemma distinct_scores_snoc (l : list (State * Q)) (x : State * Q) :
  distinct_scores (l ++ [x]) ->
  distinct_scores l /\ Forall (fun y => ~ (y.2 == x.2)%Q) l.
Proof.
  intros H. split.
  - intros i j a b Hij Ha Hb. apply (H i j a b Hij).
    + rewrite lookup_app_l; [exact Ha|]. eapply lookup_lt_Some, Ha.
    + rewrite lookup_app_l; [exact Hb|]. eapply lookup_lt_Some, Hb.
  - apply Forall_forall. intros y Hy.
    apply list_elem_of_lookup in Hy as [i Hi].
    pose proof (lookup_lt_Some _ _ _ Hi) as Hlt.
    apply (H i (length l) y x Hlt).
    + rewrite lookup_app_l; [exact Hi|exact Hlt].
    + rewrite lookup_app_r by lia. rewrite Nat.sub_diag. reflexivity.
Qed.

Lemma offer_holds_the_best (measured : gset string) (out_size : Z)
    (seen : list (State * Q)) (e : Evolution) (x : State * Q) :
  0 < out_size ->
  holds_the_best measured out_size seen e ->
  Forall (fun y => ~ (y.2 == x.2)%Q) seen ->
  item_key x ∉ measured ->
  item_key x ∉ map item_key seen ->
  exists e', offer out_size e x = Ok e' /\
             holds_the_best measured out_size (seen ++ [x]) e'.
Proof.
  statement_only.
  intros Hk (dropped & Hperm & Hsort & Hlen & Hlow & Hin) Hdist Hm Hs.
  assert (Hfresh : item_key x ∉ in_heap e).
  { intros Hx. apply Hin in Hx. apply elem_of_union in Hx as [Hx|Hx]; [auto|].
    apply elem_of_list_to_set in Hx. auto. }
  assert (Hheap : Forall (fun y => ~ (y.2 == x.2)%Q) (heap e)).
  { apply Forall_forall. intros y Hy. rewrite Forall_forall in Hdist. apply Hdist.
    rewrite <- Hperm. apply elem_of_app. auto. }
  assert (Hkeys : forall (s : gset string),
             s ⊆ {[item_key x]} ∪ in_heap e ->
             s ⊆ measured ∪ list_to_set (map item_key (seen ++ [x]))).
  { intros s Hsub k Hk'. apply Hsub in Hk'. rewrite map_app, list_to_set_app_L.
    apply elem_of_union in Hk' as [Hk'|Hk'].
    - apply elem_of_union_r, elem_of_union_r. cbn. set_solver.
    - apply Hin in Hk'. apply elem_of_union in Hk' as [Hk'|Hk'];
        [apply elem_of_union_l, Hk'|apply elem_of_union_r, elem_of_union_l, Hk']. }
  unfold offer. fold (item_key x). rewrite bool_decide_eq_false_2 by exact Hfresh.
  destruct (Z.ltb_spec (Z.of_nat (length (heap e))) out_size) as [Hlt|Hge]; cbn [obind].
  - eexists. split; [reflexivity|]. unfold holds_the_best. cbn [heap in_heap set_heap].
    assert (Hnil : dropped = []).
    { apply Permutation_length in Hperm. rewrite length_app in Hperm.
      destruct dropped; [reflexivity|]. cbn in Hperm. lia. }
    subst dropped. exists []. split.
    { rewrite app_nil_r in *. unfold push_heap. rewrite sort_insert_perm, Hperm.
      apply Permutation_cons_append. }
    split; [apply push_heap_ascending; assumption|].
    split.
    { pose proof (Permutation_length Hperm) as HL. rewrite length_app in HL.
      unfold push_heap. rewrite sort_insert_length, length_app. cbn in *. lia. }
    split; [constructor|]. apply Hkeys. set_solver.
  - destruct (heap e) as [|front rest] eqn:Hh; [cbn in Hge; lia|]. cbn [obind].
    apply StronglySorted_inv in Hsort as [Hrest Hfront].
    apply Forall_cons in Hheap as [Hfx Hheap].
    destruct (Qltb front.2 x.2) eqn:E; cbn [obind].
    + apply Qltb_lt in E. eexists. split; [reflexivity|]. unfold holds_the_best. cbn [heap in_heap set_heap].
      exists (front :: dropped). split.
      { unfold push_heap. rewrite sort_insert_perm. cbn.
        rewrite <- Hperm. cbn. rewrite <- Permutation_middle.
        rewrite Permutation_swap. apply perm_skip. apply Permutation_cons_append. }
      split; [apply push_heap_ascending; assumption|].
      split. { unfold push_heap. rewrite sort_insert_length, length_app. cbn in *. lia. }
      split.
      * unfold all_below, push_heap. constructor.
        -- apply Forall_forall. intros h Hhh. rewrite sort_insert_perm in Hhh.
           apply elem_of_cons in Hhh as [->|Hhh]; [exact E|].
           rewrite Forall_forall in Hfront. apply Hfront, Hhh.
        -- unfold all_below in Hlow. eapply Forall_impl; [exact Hlow|].
           intros d Hd. cbn in Hd. apply Forall_cons in Hd as [Hdf Hd].
           apply Forall_forall. intros h Hhh. rewrite sort_insert_perm in Hhh.
           apply elem_of_cons in Hhh as [->|Hhh]; [lra|].
           rewrite Forall_forall in Hd. apply Hd, Hhh.
      * apply Hkeys, union_mono_l, subseteq_difference_l. reflexivity.
    + apply Qltb_ge in E. eexists. split; [reflexivity|]. unfold holds_the_best. cbn [heap in_heap set_heap]. rewrite Hh.
      assert (Hlt : (x.2 < front.2)%Q).
      { destruct (Qlt_le_dec x.2 front.2) as [|Hle]; [assumption|].
        exfalso. apply Hfx. apply Qle_antisym; assumption. }
      exists (dropped ++ [x]). split.
      { rewrite app_assoc, Hperm. reflexivity. }
      split; [constructor; assumption|].
      split. { rewrite length_app. cbn in *. lia. }
      split.
      * unfold all_below. apply Forall_app. split; [exact Hlow|].
        constructor; [|constructor]. constructor; [exact Hlt|].
        eapply Forall_impl; [exact Hfront|]. intros h Hhh. unfold ascending in Hhh. lra.
      * apply Hkeys. set_solver.
Qed.

Lemma offer_all_holds_the_best (measured : gset string) (out_size : Z)
    (items : list (State * Q)) (e : Evolution) :
  0 < out_size ->
  heap e = [] -> in_heap e = measured ->
  distinct_scores items ->
  NoDup (map item_key items) ->
  (forall item, item ∈ items -> item_key item ∉ measured) ->
  exists e', offer_all out_size items e = Ok e' /\
             holds_the_best measured out_size items e' /\
             e_rand_gen e' = e_rand_gen e.
Proof.
  intros Hk Hh Hi. induction items as [|x items IH] using rev_ind; intros Hd Hn Hm.
  - exists e. split; [reflexivity|]. split; [|reflexivity].
    exists []. rewrite Hh, Hi. cbn [app length map].
    repeat split; try constructor; [lia|apply union_subseteq_l].
  - apply distinct_scores_snoc in Hd as [Hd Hx].
    rewrite map_app in Hn. apply NoDup_app in Hn as (Hn & Hnx & _).
    destruct IH as (e1 & E1 & Hinv & Hg); [assumption..| |].
    { intros item Hitem. apply Hm, elem_of_app. auto. }
    destruct (offer_holds_the_best measured out_size items e1 x Hk Hinv Hx) as (e2 & E2 & Hinv2).
    { apply Hm, elem_of_app. right. apply list_elem_of_singleton. reflexivity. }
    { intros Hin. apply (Hnx _ Hin). cbn. apply list_elem_of_singleton. reflexivity. }
    exists e2. rewrite offer_all_app, E1. cbn [obind offer_all]. rewrite E2. cbn [obind].
    split; [reflexivity|]. split; [exact Hinv2|].
    rewrite <- Hg. revert E2. unfold offer.
    destruct (bool_decide _); [intros [= <-]; reflexivity|].
    destruct (_ <? _); cbn [obind]; [intros [= <-]; reflexivity|].
    destruct (heap e1) as [|front rest]; cbn [obind]; [discriminate|].
    destruct (Qltb _ _); cbn [obind]; intros [= <-]; reflexivity.
Qed.

Lemma set_rand_gen_same (policy : SketchPolicyNode) :
  set_rand_gen policy (rand_gen policy) = policy.
Proof. destruct policy. reflexivity. Qed.

Lemma all_below_perm (low high high' : list (State * Q)) :
  high ≡ₚ high' -> all_below low high -> all_below low high'.
Proof.
  intros Hp H. unfold all_below in *. eapply Forall_impl; [exact H|].
  intros d Hd. cbn in *. rewrite <- Hp. exact Hd.
Qed.

(** The locals of EvolutionarySearch before the first generation. *)
Definition evolution_start (policy : SketchPolicyNode) : Evolution :=
  {| heap := []; in_heap := measured_states_set_ policy;
     max_score := (- (1 # 10000000000))%Q; e_rand_gen := rand_gen policy;
     mutation_success_ct := 0; mutation_fail_ct := 0 |}.

(** [scored] is the population of one of the generations that [evolve] goes
    through from the generation [k] on, each state with the score that
    [score_generation] gave it in that generation. *)
Inductive generation (fuel : nat) (policy : SketchPolicyNode) (num_iters out_size : Z)
    (rule_selection_probs : list Q)
    : nat -> Z -> list State -> Evolution -> list (State * Q) -> Prop :=
| generation_now (todo : nat) (k : Z) (pnow : list State) (e : Evolution)
    (scored : list (State * Q)) :
    score_generation policy pnow = Ok scored ->
    generation fuel policy num_iters out_size rule_selection_probs (S todo) k pnow e scored
| generation_later (todo : nat) (k : Z) (pnow : list State) (e : Evolution)
    (scored0 : list (State * Q)) (e1 : Evolution) (pnext : list State) (e2 : Evolution)
    (scored : list (State * Q)) :
    score_generation policy pnow = Ok scored0 ->
    offer_all out_size scored0 e = Ok e1 ->
    k <> num_iters ->
    mutate fuel policy (map fst scored0) (ComputePrefixSumProb (map snd scored0))
      rule_selection_probs [] e1 = Ok (pnext, e2) ->
    generation fuel policy num_iters out_size rule_selection_probs todo (k + 1) pnext e2
      scored ->
    generation fuel policy num_iters out_size rule_selection_probs (S todo) k pnow e scored.

(** The item is a state of a generation of the run of EvolutionarySearch,
    with the score it was given there. *)
Definition scored_in_run (fuel : nat) (policy : SketchPolicyNode)
    (init_population : list State) (out_size : Z) (item : State * Q) : Prop :=
  let n := effective_num_iters policy in
  exists scored,
    generation fuel policy n out_size
      (ComputePrefixSumProb (map rule_weight (mutation_rules policy)))
      (Z.to_nat (n + 1)) 0 init_population (evolution_start policy) scored /\
    item ∈ scored.

Lemma offer_heap_items (out_size : Z) (e e' : Evolution) (item x : State * Q) :
  offer out_size e item = Ok e' -> x ∈ heap e' -> x ∈ heap e \/ x = item.
Proof.
  unfold offer. destruct (bool_decide _); [intros [= <-]; auto|].
  destruct (_ <? _); cbn [obind].
  - intros [= <-]. cbn [heap set_heap]. unfold push_heap. rewrite sort_insert_perm.
    rewrite elem_of_cons. intros [->|Hx]; auto.
  - destruct (heap e) as [|front rest] eqn:Hh; cbn [obind]; [discriminate|].
    destruct (Qltb _ _); cbn [obind]; intros [= <-]; cbn [heap set_heap];
      [|rewrite Hh; auto].
    unfold push_heap. rewrite sort_insert_perm. rewrite !elem_of_cons.
    intros [->|Hx]; auto.
Qed.

Lemma offer_all_heap_items (out_size : Z) (items : list (State * Q)) (e e' : Evolution)
    (x : State * Q) :
  offer_all out_size items e = Ok e' -> x ∈ heap e' -> x ∈ heap e \/ x ∈ items.
Proof.
  revert e. induction items as [|item items IH]; intros e; cbn [offer_all].
  - intros [= <-]. auto.
  - destruct (offer out_size e item) as [e1| | |] eqn:E; cbn [obind]; try discriminate.
    intros H Hx. destruct (IH _ H Hx) as [Hx1|Hx1].
    + destruct (offer_heap_items _ _ _ _ _ E Hx1) as [?| ->]; [auto|].
      right. apply list_elem_of_here.
    + right. apply list_elem_of_further, Hx1.
Qed.

Lemma evolve_heap_items (todo : nat) (k : Z) (fuel : nat) (policy : SketchPolicyNode)
    (n out_size : Z) (rprobs : list Q) (pnow : list State) (e e' : Evolution)
    (x : State * Q) :
  evolve todo k fuel policy n out_size rprobs pnow e = Ok e' ->
  x ∈ heap e' ->
  x ∈ heap e \/
  exists scored, generation fuel policy n out_size rprobs todo k pnow e scored /\ x ∈ scored.
Proof.
  revert k pnow e. induction todo as [|todo IH]; intros k pnow e; cbn [evolve].
  - intros [= <-]. auto.
  - destruct (score_generation policy pnow) as [scored| | |] eqn:Es; cbn [obind];
      try discriminate.
    destruct (offer_all out_size scored e) as [e1| | |] eqn:E1; cbn [obind];
      try discriminate.
    assert (Hnow : forall y, y ∈ heap e1 ->
              y ∈ heap e \/
              exists scored', generation fuel policy n out_size rprobs (S todo) k pnow e scored'
                              /\ y ∈ scored').
    { intros y Hy. destruct (offer_all_heap_items _ _ _ _ _ E1 Hy) as [?|Hin]; [auto|].
      right. exists scored. split; [apply generation_now, Es|exact Hin]. }
    destruct (Z.eqb_spec k n) as [Hk|Hk]; [intros [= <-]; apply Hnow|].
    destruct (mutate _ _ _ _ _ _ _) as [[pnext e2]| | |] eqn:E2; cbn [obind];
      try discriminate.
    intros H Hx. destruct (IH _ _ _ H Hx) as [Hx2|(scored' & Hgen & Hin)].
    + apply mutate_spec in E2 as (_ & Hh & _). rewrite Hh in Hx2. apply Hnow, Hx2.
    + right. exists scored'. split; [|exact Hin].
      eapply generation_later; eassumption.
Qed.

(** C5 (as amended).  Whatever the number of iterations, the states that
    EvolutionarySearch returns are those of a list of at most [out_size]
    items in descending order of score, the score of an item being the one
    that the scoring of a generation of the run (bound inference, pruning
    and the cost model) gave to its state.  With [num_iters = 0] (and a
    population parameter that is not negative), when the population as
    scored has at least [out_size >= 1] items of pairwise distinct scores
    whose canonical strings are pairwise distinct and not in the
    measured-state set, the result is exactly the [out_size] best of them
    in descending order of score: every other item scores less than each of
    the returned ones. *)
Theorem EvolutionarySearch_keeps_the_best (policy : SketchPolicyNode)
    (init_population : list State) (out_size : Z) :
  (forall fuel states policy',
     EvolutionarySearch fuel policy init_population out_size = Ok (states, policy') ->
     exists items : list (State * Q),
       states = map fst items /\
       Z.of_nat (length states) <= out_size /\
       StronglySorted (descending snd) items /\
       Forall (scored_in_run fuel policy init_population out_size) items) /\
  (forall fuel scored,
     num_iters (params policy) = 0 ->
     0 <= population (params policy) ->
     score_generation policy init_population = Ok scored ->
     0 < out_size <= Z.of_nat (length scored) ->
     distinct_scores scored ->
     NoDup (map item_key scored) ->
     (forall item, item ∈ scored -> item_key item ∉ measured_states_set_ policy) ->
     exists kept dropped : list (State * Q),
       EvolutionarySearch fuel policy init_population out_size
       = Ok (map fst kept, policy) /\
       kept ++ dropped ≡ₚ scored /\
       Z.of_nat (length kept) = out_size /\
       StronglySorted (descending snd) kept /\
       all_below dropped kept).
Proof.
  split.
  - intros fuel states policy'. unfold EvolutionarySearch.
    destruct (evolution_run fuel policy init_population out_size) as [e| | |] eqn:E;
      cbn [obind]; try discriminate.
    intros [= <- <-]. exists (best_items e). split; [reflexivity|].
    unfold evolution_run in E.
    destruct (Z.leb_spec 0 out_size) as [Hout|Hout]; [|discriminate E].
    destruct (0 <=? population (params policy)); [|discriminate E].
    cbn [andb CHECK obind] in E. fold (evolution_start policy) in E.
    split; [|split; [exact (std_sort_sorted snd (heap e))|]].
    + rewrite length_map. unfold best_items.
      rewrite (Permutation_length (std_sort_perm heap_cmp (heap e))).
      apply evolve_heap_length in E; cbn [heap length evolution_start] in *; lia.
    + apply Forall_forall. intros x Hx. unfold best_items in Hx.
      rewrite (std_sort_perm heap_cmp (heap e)) in Hx.
      destruct (evolve_heap_items _ _ _ _ _ _ _ _ _ _ _ E Hx) as [Hnil|Hgen].
      * cbn [heap evolution_start] in Hnil. inversion Hnil.
      * exact Hgen.
  - intros fuel scored Hn Hpop Hscore [Hpos Hsize] Hd Hnd Hm.
    unfold EvolutionarySearch, evolution_run, effective_num_iters.
    rewrite (proj2 (Z.leb_le 0 out_size)) by lia.
    rewrite (proj2 (Z.leb_le _ _) Hpop). cbn [andb CHECK obind].
    rewrite Hn. change (2 <? 0) with false. rewrite andb_false_r.
    change (Z.to_nat (0 + 1)) with 1%nat. cbn [evolve]. rewrite Hscore. cbn [obind].
    match goal with
    | |- context [offer_all out_size scored ?e0] =>
        destruct (offer_all_holds_the_best (measured_states_set_ policy) out_size
                    scored e0 Hpos eq_refl eq_refl Hd Hnd Hm)
          as (e' & -> & (dropped & Hperm & _ & Hlen & Hlow & _) & Hg)
    end.
    cbn [obind e_rand_gen] in *. change (0 =? 0) with true. cbv iota. cbn [obind].
    rewrite Hg, set_rand_gen_same.
    pose proof (std_sort_perm heap_cmp (heap e')) as Hsorted.
    exists (best_items e'), dropped. split; [reflexivity|]. unfold best_items.
    split; [rewrite Hsorted; exact Hperm|].
    split; [rewrite (Permutation_length Hsorted); lia|].
    split; [exact (std_sort_sorted snd (heap e'))|].
    eapply all_below_perm; [symmetry; exact Hsorted|exact Hlow].
Qed.

(** *** Facts about Search *)

(** What a search round leaves alone: the cost model and the record of the
    measured states. *)
Definition untouched_by_round (p q : SketchPolicyNode) : Prop :=
  program_cost_model q = program_cost_model p /\
  measured_states_set_ q = measured_states_set_ p /\
  measured_states_vector_ q = measured_states_vector_ p /\
  measured_states_throughputs_ q = measured_states_throughputs_ p /\
  num_measure_per_iter_ q = num_measure_per_iter_ p.

Lemma untouched_by_round_trans (p q r : SketchPolicyNode) :
  untouched_by_round p q -> untouched_by_round q r -> untouched_by_round p r.
Proof. unfold untouched_by_round. intuition congruence. Qed.

Lemma SampleInitPopulation_untouched (fuel : nat) (p p' : SketchPolicyNode)
    (sketches sampled : list State) :
  SampleInitPopulation fuel p sketches = Ok (sampled, p') -> untouched_by_round p p'.
Proof.
  unfold SampleInitPopulation.
  destruct (sampling_run fuel p sketches); cbn [obind]; try discriminate.
  intros [= _ <-]. repeat split.
Qed.

Lemma EvolutionarySearch_untouched (fuel : nat) (p p' : SketchPolicyNode)
    (init_population best : list State) (out_size : Z) :
  EvolutionarySearch fuel p init_population out_size = Ok (best, p') ->
  untouched_by_round p p'.
Proof.
  unfold EvolutionarySearch.
  destruct (evolution_run fuel p init_population out_size); cbn [obind]; try discriminate.
  intros [= _ <-]. repeat split.
Qed.

Lemma SearchOneRound_untouched (fuel : nat) (p p' : SketchPolicyNode)
    (num_random_states : Z) (random_states random_states' : option (list State))
    (best : list State) :
  SearchOneRound fuel p num_random_states random_states = Ok (best, random_states', p') ->
  untouched_by_round p p'.
Proof.
  unfold SearchOneRound.
  set (first := match sketch_cache_ p with [] => _ | _ :: _ => _ end).
  destruct first as [p1| | |] eqn:E1; cbn [obind]; try discriminate.
  assert (H1 : untouched_by_round p p1).
  { subst first. destruct (sketch_cache_ p).
    - destruct (GenerateSketches fuel p); cbn [obind] in E1; try discriminate.
      injection E1 as <-. repeat split.
    - injection E1 as <-. repeat split. }
  destruct (SampleInitPopulation fuel p1 (sketch_cache_ p1)) as [[sampled p2]| | |] eqn:E2;
    cbn [obind]; try discriminate.
  apply SampleInitPopulation_untouched in E2.
  destruct (push_measured _ _ _ _ _) as [init_population| | |]; cbn [obind];
    try discriminate.
  set (third := match random_states with Some _ => _ | None => _ end).
  assert (H3 : untouched_by_round p2 third.2).
  { subst third. destruct random_states; [|repeat split].
    destruct (0 <? num_random_states); [|repeat split].
    destruct (RandomSampleStates _ _ _). repeat split. }
  destruct third as [rs' p3]. cbn [snd] in H3.
  destruct (EvolutionarySearch fuel p3 _ _) as [[best' p4]| | |] eqn:E4; cbn [obind];
    try discriminate.
  apply EvolutionarySearch_untouched in E4.
  intros [= _ _ <-].
  eauto using untouched_by_round_trans.
Qed.

(** C10 (as amended).  A call of Search with [n_trials <= 1] runs one search
    round, [SearchOneRound(0)], and nothing else: the measurer is as it was,
    no call is made to it or to the update of the cost model, the cost model
    and the record of the measured states are those of the policy, and the
    dispatch map returned is empty.  When the round returns at least one
    state, Search returns exactly its first one; when the round returns no
    state, Search does not return: its check that there is a best state
    fails. *)
Theorem Search_without_trials (fuel : nat) (policy : SketchPolicyNode)
    (n_trials_arg early_stopping num_measure_per_iter : Z) (measurer : Measurer) :
  n_trials_arg <= 1 ->
  let policy0 := set_num_measure_per_iter policy num_measure_per_iter in
  let result := Search fuel policy n_trials_arg early_stopping num_measure_per_iter
                  measurer in
  (forall first rest random_states policy1,
     SearchOneRound fuel policy0 0 None = Ok (first :: rest, random_states, policy1) ->
     result = Ok {| r_states := [first]; r_inst_id_disp_map := ∅; r_policy := policy1;
                    r_measurer := measurer; r_log := [] |}) /\
  (forall random_states policy1,
     SearchOneRound fuel policy0 0 None = Ok ([], random_states, policy1) ->
     result = Fatal "Check failed: best_states.size() > 0") /\
  (forall r,
     result = Ok r ->
     (exists rest random_states,
        SearchOneRound fuel policy0 0 None
        = Ok (r_states r ++ rest, random_states, r_policy r)) /\
     length (r_states r) = 1%nat /\
     r_inst_id_disp_map r = ∅ /\
     r_measurer r = measurer /\ r_log r = [] /\
     untouched_by_round policy0 (r_policy r)).
Proof.
  intros Hn policy0 result. subst result. unfold Search. fold policy0.
  rewrite (proj2 (Z.leb_le _ _) Hn).
  split; [intros first rest rs policy1 ->; reflexivity|].
  split; [intros rs policy1 ->; reflexivity|].
  intros r.
  destruct (SearchOneRound fuel policy0 0 None) as [[[best rs] policy1]| | |] eqn:E;
    cbn [obind]; try discriminate.
  destruct best as [|first rest]; [discriminate|].
  intros [= <-]. cbn.
  split; [exists rest, rs; reflexivity|].
  repeat (split; [reflexivity|]).
  eapply SearchOneRound_untouched, E.
Qed.

(** *** Facts about the final check of the dispatched states *)

Lemma check_builds_keeps (policy : SketchPolicyNode) (ids : list nat)
    (build_results : list BuildResult) (d d' : Dispatching) :
  check_builds policy ids build_results d = Ok d' ->
  changed_adapted_candidate_flops d' = changed_adapted_candidate_flops d /\
  wkl_inst_ids d' = wkl_inst_ids d /\
  inst_id_disp_map d' = inst_id_disp_map d /\
  selected_candidate_states d' = selected_candidate_states d /\
  d_log d' = d_log d.
Proof.
  revert build_results d. induction ids as [|inst_id ids IH];
    intros [|res results] d; cbn [check_builds]; try (intros [= <-]; repeat split).
  destruct (error_no res =? 0); [apply IH|].
  destruct (wkl_insts (search_task policy) !! _); [|discriminate].
  destruct (selected_candidate_states d !! _); [|discriminate].
  destruct (_ <? _)%nat; [|discriminate].
  intros H. apply IH in H. cbn in H. exact H.
Qed.

(** The instances whose build failed are those that a pass leaves in
    [next_wkl_inst_ids]. *)
Fixpoint failed_builds (ids : list nat) (build_results : list BuildResult) : list nat :=
  match ids, build_results with
  | inst_id :: ids', res :: results' =>
      if error_no res =? 0 then failed_builds ids' results'
      else inst_id :: failed_builds ids' results'
  | _, _ => []
  end.

Lemma check_builds_next (policy : SketchPolicyNode) (ids : list nat)
    (build_results : list BuildResult) (d d' : Dispatching) :
  check_builds policy ids build_results d = Ok d' ->
  next_wkl_inst_ids d' = next_wkl_inst_ids d ++ failed_builds ids build_results.
Proof.
  revert build_results d. induction ids as [|inst_id ids IH];
    intros [|res results] d; cbn [check_builds failed_builds];
    try (intros [= <-]; rewrite app_nil_r; reflexivity).
  destruct (error_no res =? 0); [apply IH|].
  destruct (wkl_insts (search_task policy) !! _); [|discriminate].
  destruct (selected_candidate_states d !! _); [|discriminate].
  destruct (_ <? _)%nat; [|discriminate].
  intros H. apply IH in H. cbn in H. rewrite H, <- app_assoc. reflexivity.
Qed.

Lemma dispatch_pass_keeps (policy : SketchPolicyNode) (measurer : Measurer)
    (d d' : Dispatching) :
  dispatch_pass policy measurer d = Ok d' ->
  changed_adapted_candidate_flops d' = changed_adapted_candidate_flops d /\
  wkl_inst_ids d' = wkl_inst_ids d /\
  exists n : nat, d_log d' = d_log d ++ [EvBuild n].
Proof.
  unfold dispatch_pass.
  destruct (MapWklInstsToStates _ _ _ _ _) as [[[disp_map selected] ?] ?].
  destruct (Filters.omap _ _) as [test_inputs| | |]; cbn [obind]; try discriminate.
  destruct (CHECK _ _); cbn [obind]; try discriminate.
  destruct (check_builds _ _ _ _) as [d1| | |] eqn:E; cbn [obind]; try discriminate.
  destruct (CHECK _ _); cbn [obind]; try discriminate.
  intros [= <-]. apply check_builds_keeps in E as (-> & -> & _ & _ & ->). cbn.
  repeat split. eauto.
Qed.

Lemma dispatch_start_spec (policy : SketchPolicyNode) (log : list Event) (d0 : Dispatching) :
  dispatch_start policy log = Ok d0 ->
  changed_adapted_candidate_flops d0 = false /\
  wkl_inst_ids d0 = seq 0 (length (wkl_insts (search_task policy))) /\
  d_log d0 = log.
Proof.
  unfold dispatch_start. destruct (adapt_all _ _ _); cbn [obind]; try discriminate.
  intros [= <-]. repeat split.
Qed.

(** C1 (what the code does).  The final check of the dispatched states makes
    one pass and no more, whatever the builds report: the flag
    [changed_adapted_candidate_flops] that its [do ... while] tests is false
    from its initialisation on, and the instances collected in
    [next_wkl_inst_ids] are never dispatched again.  So the check of Search
    on a dynamic task is its first pass: one call of the builder on all the
    instances, after which the dispatch of that pass is returned, with the
    states whose build failed. *)
Theorem dispatch_checked_once (fuel : nat) (policy : SketchPolicyNode)
    (measurer : Measurer) (log : list Event) :
  dispatch_phase (S fuel) policy measurer log
  = (let! d0 := dispatch_start policy log in dispatch_pass policy measurer d0) /\
  (forall d : Dispatching,
     dispatch_phase (S fuel) policy measurer log = Ok d ->
     changed_adapted_candidate_flops d = false /\
     wkl_inst_ids d = seq 0 (length (wkl_insts (search_task policy))) /\
     exists n : nat, d_log d = log ++ [EvBuild n]).
Proof.
  assert (Hone : dispatch_phase (S fuel) policy measurer log
                 = (let! d0 := dispatch_start policy log in
                    dispatch_pass policy measurer d0)).
  { unfold dispatch_phase.
    destruct (dispatch_start policy log) as [d0| | |] eqn:E0; cbn [obind]; try reflexivity.
    apply dispatch_start_spec in E0 as (Hflag & _).
    cbn [dispatch_loop].
    destruct (dispatch_pass policy measurer d0) as [d1| | |] eqn:E1; cbn [obind];
      try reflexivity.
    apply dispatch_pass_keeps in E1 as (-> & _). rewrite Hflag. reflexivity. }
  split; [exact Hone|].
  intros d. rewrite Hone.
  destruct (dispatch_start policy log) as [d0| | |] eqn:E0; cbn [obind]; try discriminate.
  apply dispatch_start_spec in E0 as (Hflag & Hids & Hlog).
  intros E1. apply dispatch_pass_keeps in E1 as (-> & -> & n & ->).
  rewrite Hlog. eauto.
Qed.

(** *** What the round never proposes *)

(** The heap holds states of pairwise distinct canonical strings, none of
    them measured, and [in_heap] holds the measured strings and those of the
    heap. *)
Definition heap_is_fresh (measured : gset string) (e : Evolution) : Prop :=
  measured ⊆ in_heap e /\
  (forall item, item ∈ heap e -> item_key item ∈ in_heap e /\ item_key item ∉ measured) /\
  NoDup (map item_key (heap e)).

Lemma offer_fresh (measured : gset string) (out_size : Z) (e e' : Evolution)
    (x : State * Q) :
  offer out_size e x = Ok e' -> heap_is_fresh measured e -> heap_is_fresh measured e'.
Proof.
  statement_only.
  intros H (Hm & Hh & Hn). revert H. unfold offer. fold (item_key x).
  destruct (bool_decide_reflect (item_key x ∈ in_heap e)) as [Hin|Hout];
    [intros [= <-]; exact (conj Hm (conj Hh Hn))|].
  assert (Hxm : item_key x ∉ measured) by (intros Hx; apply Hout, Hm, Hx).
  destruct (_ <? _); cbn [obind].
  - intros [= <-]. unfold heap_is_fresh, push_heap. cbn [heap in_heap set_heap].
    split; [intros k Hk; apply elem_of_union_r, Hm, Hk|]. split.
    + intros item Hitem. rewrite sort_insert_perm in Hitem.
      apply elem_of_cons in Hitem as [->|Hitem].
      * split; [apply elem_of_union_l, elem_of_singleton; reflexivity|exact Hxm].
      * destruct (Hh item Hitem) as [Hi Hi']. split; [apply elem_of_union_r, Hi|exact Hi'].
    + rewrite (Permutation_map item_key (sort_insert_perm heap_less x (heap e))).
      cbn [map]. apply NoDup_cons. split; [|exact Hn]. intros Hk.
      apply list_elem_of_fmap in Hk as (item & Hkey & Hitem).
      apply Hout. rewrite Hkey. apply Hh, Hitem.
  - destruct (heap e) as [|front rest] eqn:Hheap; cbn [obind]; [discriminate|].
    cbn [map] in Hn. apply NoDup_cons in Hn as [Hfront Hn].
    destruct (Qltb _ _); cbn [obind]; intros [= <-];
      unfold heap_is_fresh, push_heap; cbn [heap in_heap set_heap].
    + assert (Hfm : ToStr front.1 ∉ measured).
      { apply (Hh front). apply elem_of_cons. auto. }
      split.
      { intros k Hk. apply elem_of_union_r, elem_of_difference. split; [apply Hm, Hk|].
        rewrite elem_of_singleton. intros ->. exact (Hfm Hk). }
      split.
      * intros item Hitem. rewrite sort_insert_perm in Hitem.
        apply elem_of_cons in Hitem as [->|Hitem].
        -- split; [apply elem_of_union_l, elem_of_singleton; reflexivity|exact Hxm].
        -- destruct (Hh item) as [Hi Hi']; [apply elem_of_cons; auto|].
           split; [|exact Hi'].
           apply elem_of_union_r, elem_of_difference. split; [exact Hi|].
           rewrite elem_of_singleton. intros Heq. apply Hfront.
           replace (item_key front) with (item_key item) by exact Heq.
           apply list_elem_of_fmap. eauto.
      * rewrite (Permutation_map item_key (sort_insert_perm heap_less x rest)).
        cbn [map]. apply NoDup_cons. split; [|exact Hn]. intros Hk.
        apply list_elem_of_fmap in Hk as (item & Hkey & Hitem).
        apply Hout. rewrite Hkey. apply (Hh item). apply elem_of_cons. auto.
    + rewrite Hheap. split; [exact Hm|]. split; [exact Hh|].
      cbn [map]. apply NoDup_cons. auto.
Qed.

Lemma offer_all_fresh (measured : gset string) (out_size : Z)
    (items : list (State * Q)) (e e' : Evolution) :
  offer_all out_size items e = Ok e' ->
  heap_is_fresh measured e -> heap_is_fresh measured e'.
Proof.
  revert e. induction items as [|item items IH]; intros e; cbn [offer_all].
  - intros [= <-]. auto.
  - destruct (offer out_size e item) as [e1| | |] eqn:E; cbn [obind]; try discriminate.
    intros H Hf. eapply IH; [exact H|]. eapply offer_fresh; eassumption.
Qed.

Lemma evolve_fresh (measured : gset string) (todo : nat) (k : Z) (fuel : nat)
    (policy : SketchPolicyNode) (n out_size : Z) (rprobs : list Q)
    (pnow : list State) (e e' : Evolution) :
  evolve todo k fuel policy n out_size rprobs pnow e = Ok e' ->
  heap_is_fresh measured e -> heap_is_fresh measured e'.
Proof.
  revert k pnow e. induction todo as [|todo IH]; intros k pnow e; cbn [evolve].
  - intros [= <-]. auto.
  - destruct (score_generation policy pnow) as [scored| | |]; cbn [obind]; try discriminate.
    destruct (offer_all out_size scored e) as [e1| | |] eqn:E1; cbn [obind];
      try discriminate.
    intros H Hf. pose proof (offer_all_fresh _ _ _ _ _ E1 Hf) as Hf1.
    destruct (k =? n); [injection H as <-; exact Hf1|].
    destruct (mutate _ _ _ _ _ _ _) as [[pnext e2]| | |] eqn:E2; cbn [obind] in H;
      try discriminate.
    apply mutate_spec in E2 as (_ & Hh & Hi & _).
    eapply IH; [exact H|]. unfold heap_is_fresh. rewrite Hh, Hi. exact Hf1.
Qed.

(** X1.  The states that EvolutionarySearch returns have pairwise distinct
    canonical strings, and none of them is in the measured-state set of the
    policy. *)
Theorem EvolutionarySearch_returns_fresh_states (fuel : nat) (policy policy' : SketchPolicyNode)
    (init_population best : list State) (out_size : Z) :
  EvolutionarySearch fuel policy init_population out_size = Ok (best, policy') ->
  NoDup (map ToStr best) /\
  forall s, s ∈ best -> ToStr s ∉ measured_states_set_ policy.
Proof.
  unfold EvolutionarySearch.
  destruct (evolution_run fuel policy init_population out_size) as [e| | |] eqn:E;
    cbn [obind]; try discriminate.
  intros [= <- _]. unfold evolution_run in E.
  destruct (CHECK _ _); cbn [obind] in E; try discriminate.
  apply (evolve_fresh (measured_states_set_ policy)) in E.
  - destruct E as (_ & Hh & Hn). unfold best_items.
    pose proof (std_sort_perm heap_cmp (heap e)) as Hp. split.
    + rewrite map_map. change (fun x => ToStr x.1) with item_key.
      rewrite (Permutation_map item_key Hp). exact Hn.
    + intros s Hs. apply list_elem_of_fmap in Hs as (item & -> & Hitem).
      rewrite Hp in Hitem. apply (Hh item Hitem).
  - split; [reflexivity|]. split; [intros item Hitem; inversion Hitem|constructor].
Qed.

(** *** What the sampler returns *)

(** The sampled states have pairwise distinct canonical strings, all of them
    recorded in [explored_state_strs]. *)
Definition distinct_strings (st : Sampling) : Prop :=
  NoDup (map ToStr (s_out_states st)) /\
  forall s, s ∈ s_out_states st -> ToStr s ∈ explored_state_strs st.

Lemma accept_candidates_distinct (cands : list (State * Q)) (st : Sampling) :
  distinct_strings st -> distinct_strings (accept_candidates cands st).
Proof.
  revert st. induction cands as [|[s score] cands IH]; intros st Hst; [exact Hst|].
  cbn [accept_candidates].
  destruct (Qltb _ score); cbn [andb]; [|apply IH; exact Hst].
  destruct (bool_decide_reflect (ToStr s ∈ explored_state_strs st)) as [Hin|Hout];
    cbn [negb]; apply IH; [exact Hst|].
  destruct Hst as [Hn He]. split; cbn [s_out_states explored_state_strs].
  - rewrite map_app. apply NoDup_app. split; [exact Hn|]. split.
    + intros k Hk Hk'. cbn in Hk'. apply list_elem_of_singleton in Hk'. subst k.
      apply list_elem_of_fmap in Hk as (s' & Heq & Hs'). apply Hout.
      rewrite Heq. apply He, Hs'.
    + cbn. apply NoDup_singleton.
  - intros s' Hs'. apply elem_of_app in Hs' as [Hs'|Hs'].
    + apply elem_of_union_r, He, Hs'.
    + apply list_elem_of_singleton in Hs'. subst s'.
      apply elem_of_union_l, elem_of_singleton. reflexivity.
Qed.

Lemma sampling_wave_distinct (policy : SketchPolicyNode) (sketches : list State)
    (st st' : Sampling) :
  sampling_wave policy sketches st = Ok st' ->
  distinct_strings st -> distinct_strings st'.
Proof.
  unfold sampling_wave. destruct (s_rand_gens st) as [|g gens]; [discriminate|].
  destruct (sample_wave _ sketches (g :: gens)) as [[temp_states gens']| | |];
    cbn [obind]; try discriminate.
  match goal with |- context [shrink_target ?x] => set (st2 := x) end.
  intros [= <-] Hst.
  assert (H2 : distinct_strings st2).
  { subst st2. destruct (omap id temp_states); [exact Hst|].
    apply accept_candidates_distinct. exact Hst. }
  clearbody st2. unfold distinct_strings, shrink_target in *.
  destruct (unchange_cnt st2 =? 5); exact H2.
Qed.

Lemma sampling_loop_distinct (fuel : nat) (policy : SketchPolicyNode)
    (sketches : list State) (st st' : Sampling) :
  sampling_loop fuel policy sketches st = Ok st' ->
  distinct_strings st ->
  distinct_strings st' /\ s_min_pop st' <= Z.of_nat (length (s_out_states st')).
Proof.
  revert st. induction fuel as [|fuel IH]; intros st; cbn [sampling_loop];
    destruct (Z.ltb_spec (Z.of_nat (length (s_out_states st))) (s_min_pop st));
    try discriminate; try (intros [= <-] Hst; split; [exact Hst|lia]).
  destruct (sampling_wave policy sketches st) as [st1| | |] eqn:E; cbn [obind];
    try discriminate.
  intros Hrun Hst. apply (IH st1 Hrun). eapply sampling_wave_distinct; eassumption.
Qed.

(** X2.  The states that SampleInitPopulation returns have pairwise distinct
    canonical strings, and they are at least as many as the target
    [sample_init_min_pop_] that the sampling leaves in the policy. *)
Theorem SampleInitPopulation_distinct_states (fuel : nat)
    (policy policy' : SketchPolicyNode) (sketches sampled : list State) :
  SampleInitPopulation fuel policy sketches = Ok (sampled, policy') ->
  NoDup (map ToStr sampled) /\
  sample_init_min_pop_ policy' <= Z.of_nat (length sampled).
Proof.
  unfold SampleInitPopulation.
  destruct (sampling_run fuel policy sketches) as [st| | |] eqn:E; cbn [obind];
    try discriminate.
  intros [= <- <-]. cbn [sample_init_min_pop_ set_sample_init_min_pop].
  unfold sampling_run in E. destruct (CHECK _ _); cbn [obind] in E; try discriminate.
  pose proof (sampling_start_spec policy) as Hs. cbn zeta in Hs.
  destruct (sampling_start policy) as [st0 g]. cbn [fst] in Hs.
  destruct Hs as (Hout & _).
  apply sampling_loop_distinct in E as [[Hn _] Hlen]; [auto|].
  split; rewrite Hout; [constructor|]. intros s Hs. inversion Hs.
Qed.

(** *** What a pass of the final check writes *)

Lemma check_builds_zeroes (policy : SketchPolicyNode) (ids : list nat)
    (build_results : list BuildResult) (d d' : Dispatching) :
  check_builds policy ids build_results d = Ok d' ->
  (forall i, adapted_candidate_flops d !! i = Some 0%Q ->
             adapted_candidate_flops d' !! i = Some 0%Q) /\
  (forall inst_id,
     inst_id ∈ failed_builds ids build_results ->
     adapted_candidate_flops d'
       !! (inst_id * length (measured_states_vector_ policy)
           + default 0 (inst_id_disp_map d !! inst_id))%nat = Some 0%Q).
Proof.
  revert build_results d. induction ids as [|inst_id ids IH];
    intros [|res results] d; cbn [check_builds failed_builds];
    try (intros [= <-]; split; [auto|intros ? Hin; inversion Hin]).
  destruct (error_no res =? 0); [apply IH|].
  destruct (wkl_insts (search_task policy) !! _); [|discriminate].
  destruct (selected_candidate_states d !! _); [|discriminate].
  destruct (Nat.ltb_spec
              (inst_id * length (measured_states_vector_ policy)
               + default 0%nat (inst_id_disp_map d !! inst_id))
              (length (adapted_candidate_flops d))) as [Hlt|]; [|discriminate].
  intros H. apply IH in H as [Hkeep Hzero].
  cbn [adapted_candidate_flops inst_id_disp_map] in Hkeep, Hzero.
  split.
  - intros i Hi. apply Hkeep.
    destruct (decide (i = (inst_id * length (measured_states_vector_ policy)
                           + default 0 (inst_id_disp_map d !! inst_id))%nat)) as [->|Hne].
    + apply list_lookup_insert_eq. exact Hlt.
    + rewrite list_lookup_insert_ne by auto. exact Hi.
  - intros inst Hin. apply elem_of_cons in Hin as [->|Hin]; [|apply Hzero, Hin].
    apply Hkeep, list_lookup_insert_eq. exact Hlt.
Qed.

(** X3.  A pass of the final check that returns has built one input for
    each instance of [wkl_inst_ids]; the instances it leaves in
    [next_wkl_inst_ids] are exactly those whose build failed, in their
    order, and for each of them the entry
    [adapted_candidate_flops[inst_id * measured_states_vector_.size() +
    inst_id_disp_map[inst_id]]] is 0 after the pass. *)
Theorem dispatch_pass_zeroes_failed_builds (policy : SketchPolicyNode)
    (measurer : Measurer) (d d' : Dispatching) :
  dispatch_pass policy measurer d = Ok d' ->
  exists test_inputs : list MeasureInput,
    length test_inputs = length (wkl_inst_ids d) /\
    next_wkl_inst_ids d'
    = failed_builds (wkl_inst_ids d) (Build measurer test_inputs (verbose policy)) /\
    forall inst_id,
      inst_id ∈ next_wkl_inst_ids d' ->
      adapted_candidate_flops d'
        !! (inst_id * length (measured_states_vector_ policy)
            + default 0 (inst_id_disp_map d' !! inst_id))%nat = Some 0%Q.
Proof.
  unfold dispatch_pass.
  destruct (MapWklInstsToStates _ _ _ _ _) as [[[disp_map selected] ?] ?].
  destruct (Filters.omap _ _) as [test_inputs| | |] eqn:Einputs; cbn [obind];
    try discriminate.
  destruct (CHECK _ _); cbn [obind]; try discriminate.
  destruct (check_builds _ _ _ _) as [d1| | |] eqn:E; cbn [obind]; try discriminate.
  destruct (CHECK _ _); cbn [obind]; try discriminate.
  intros [= <-]. exists test_inputs.
  split; [eapply Filters.omap_length, Einputs|].
  pose proof (check_builds_next _ _ _ _ _ E) as Hnext.
  pose proof (check_builds_keeps _ _ _ _ _ E) as (_ & _ & Hmap & _).
  apply check_builds_zeroes in E as [_ Hzero].
  cbn [next_wkl_inst_ids inst_id_disp_map app] in Hnext, Hmap, Hzero.
  split; [exact Hnext|].
  intros inst_id Hin. rewrite Hmap. apply Hzero. rewrite <- Hnext. exact Hin.
Qed.

(** *** What PickStatesWithEpsGreedy picks *)

Definition input_key (input : MeasureInput) : string := ToStr (mi_state input).

(** The inputs [added] by a run of the loop that started from [policy] with
    the arrays [best] and [random], and the policy [policy'] it leaves. *)
Definition picked_from (policy : SketchPolicyNode) (best random : list State)
    (added : list MeasureInput) (policy' : SketchPolicyNode) : Prop :=
  NoDup (map input_key added) /\
  (forall input, input ∈ added ->
     (input_key input ∉ measured_states_set_ policy) /\
     (mi_state input ∈ best \/ mi_state input ∈ random) /\
     mi_wkl_inst input = None) /\
  measured_states_vector_ policy'
  = (measured_states_vector_ policy ++ map mi_state added) /\
  measured_states_set_ policy'
  = list_to_set (map input_key added) ∪ measured_states_set_ policy.

Lemma picked_from_nil (policy : SketchPolicyNode) (best random : list State) :
  picked_from policy best random [] policy.
Proof.
  statement_only.
  split; [constructor|]. split; [intros input Hin; inversion Hin|].
  split; [symmetry; apply app_nil_r|]. cbn. symmetry. apply (left_id_L ∅ (∪)).
Qed.

Lemma picked_from_skip (policy policy' : SketchPolicyNode)
    (best best' random random' : list State) (added : list MeasureInput) :
  best' ⊆ best -> random' ⊆ random ->
  picked_from policy best' random' added policy' ->
  picked_from policy best random added policy'.
Proof.
  statement_only.
  intros Hb Hr (Hn & Hin & Hv & Hs). split; [exact Hn|]. split; [|auto].
  intros input Hinput. destruct (Hin input Hinput) as (H1 & [H2|H2] & H3); auto.
Qed.

Lemma picked_from_cons (policy policy' : SketchPolicyNode)
    (best best' random random' : list State) (state : State)
    (added : list MeasureInput) :
  best' ⊆ best -> random' ⊆ random ->
  state ∈ best \/ state ∈ random ->
  ToStr state ∉ measured_states_set_ policy ->
  picked_from (add_measured policy (ToStr state) state) best' random' added policy' ->
  picked_from policy best random
    ({| mi_state := state; mi_wkl_inst := None |} :: added) policy'.
Proof.
  statement_only.
  intros Hb Hr Hstate Hfresh (Hn & Hin & Hv & Hs).
  cbn [measured_states_set_ measured_states_vector_ add_measured] in Hin, Hv, Hs.
  split; [|split; [|split]].
  - cbn [map]. apply NoDup_cons. split; [|exact Hn].
    intros Hk. apply list_elem_of_fmap in Hk as (input & Hkey & Hinput).
    destruct (Hin input Hinput) as (Hnot & _). apply Hnot.
    rewrite <- Hkey. apply elem_of_union_l, elem_of_singleton. reflexivity.
  - intros input Hinput. apply elem_of_cons in Hinput as [->|Hinput].
    + auto.
    + destruct (Hin input Hinput) as (H1 & H2 & H3).
      split; [intros Hk; apply H1, elem_of_union_r, Hk|].
      split; [destruct H2; auto|exact H3].
  - rewrite Hv, <- app_assoc. reflexivity.
  - rewrite Hs. cbn [map]. rewrite list_to_set_cons.
    unfold input_key at 2. cbn [mi_state].
    apply set_eq. intros k. rewrite !elem_of_union. tauto.
Qed.

Lemma pick_states_spec (fuel : nat) (limit num_good : Z) (best random : list State)
    (inputs inputs' : list MeasureInput) (policy policy' : SketchPolicyNode) :
  pick_states fuel limit num_good best random inputs policy = (inputs', policy') ->
  exists added,
    inputs' = inputs ++ added /\
    Z.of_nat (length inputs') <= Z.max (Z.of_nat (length inputs)) limit /\
    picked_from policy best random added policy'.
Proof.
  revert best random inputs policy.
  induction fuel as [|fuel IH]; intros best random inputs policy; cbn [pick_states].
  - intros [= <- <-]. exists []. rewrite app_nil_r.
    split; [reflexivity|]. split; [lia|apply picked_from_nil].
  - destruct (Z.ltb_spec (Z.of_nat (length inputs)) limit) as [Hlt|Hge].
    2:{ intros [= <- <-]. exists []. rewrite app_nil_r.
        split; [reflexivity|]. split; [lia|apply picked_from_nil]. }
    match goal with |- context [match ?c with Some _ => _ | None => _ end] =>
      set (choice := c) end.
    assert (Hchoice : match choice with
                      | Some (state, best', random') =>
                          best' ⊆ best /\ random' ⊆ random /\
                          (state ∈ best \/ state ∈ random)
                      | None => True
                      end).
    { subst choice. destruct (_ <? num_good), best as [|b best'], random as [|r random'];
        try exact I; repeat split; try reflexivity;
        try (intros x Hx; apply elem_of_cons; right; exact Hx);
        try (left; apply elem_of_cons; left; reflexivity);
        try (right; apply elem_of_cons; left; reflexivity). }
    destruct choice as [[[state best'] random']|].
    2:{ intros [= <- <-]. exists []. rewrite app_nil_r.
        split; [reflexivity|]. split; [lia|apply picked_from_nil]. }
    destruct Hchoice as (Hb & Hr & Hstate).
    destruct (bool_decide_reflect (ToStr state ∈ measured_states_set_ policy))
      as [Hin|Hout]; intros H; apply IH in H as (added & -> & Hlen & Hp).
    + exists added. split; [reflexivity|]. split; [exact Hlen|].
      eapply picked_from_skip; eassumption.
    + exists ({| mi_state := state; mi_wkl_inst := None |} :: added).
      rewrite <- app_assoc. split; [reflexivity|].
      rewrite <- app_assoc, !length_app in *. cbn [length app] in *.
      split; [lia|]. eapply picked_from_cons; eassumption.
Qed.

(** X4.  PickStatesWithEpsGreedy returns at most
    [min(num_measure_per_iter_, remaining_n_trials)] inputs; their states
    come from the two arrays it is given, have pairwise distinct canonical
    strings and were not measured before; and the policy records exactly
    them, in their order, as measured. *)
Theorem PickStatesWithEpsGreedy_picks_new_states (policy policy' : SketchPolicyNode)
    (best random : list State) (remaining_n_trials : Z)
    (inputs : list MeasureInput) :
  PickStatesWithEpsGreedy policy best random remaining_n_trials = (inputs, policy') ->
  Z.of_nat (length inputs)
  <= Z.max 0 (Z.min (num_measure_per_iter_ policy) remaining_n_trials) /\
  picked_from policy best random inputs policy'.
Proof.
  unfold PickStatesWithEpsGreedy. intros H.
  apply pick_states_spec in H as (added & -> & Hlen & Hp).
  cbn [app length] in *. auto.
Qed.

(** *** The budget of the measuring loop *)

(** The number of states that the calls of [Measure] recorded in a log were
    given. *)
Definition measured_trials (log : list Event) : Z :=
  foldr (fun ev acc => match ev with EvMeasure n => Z.of_nat n + acc | _ => acc end) 0 log.

Lemma measured_trials_app (l1 l2 : list Event) :
  measured_trials (l1 ++ l2) = measured_trials l1 + measured_trials l2.
Proof.
  induction l1 as [|ev l1 IH]; cbn; [reflexivity|].
  fold (measured_trials (l1 ++ l2)) (measured_trials l1). rewrite IH. destruct ev; lia.
Qed.

Lemma tuning_round_budget (fuel : nat) (n_trials_arg early_stopping num_random : Z)
    (t t' : Tuning) (go_on : bool) :
  tuning_round fuel n_trials_arg early_stopping num_random t = Ok (t', go_on) ->
  ct t < n_trials_arg ->
  ct t <= ct t' <= n_trials_arg /\
  measured_trials (t_log t') = measured_trials (t_log t) + (ct t' - ct t).
Proof.
  unfold tuning_round. intros H Hlt.
  set (start := match t_inputs t with [] => _ | _ :: _ => _ end) in H.
  assert (Hlog : measured_trials start.2 = measured_trials (t_log t)).
  { subst start. destruct (t_inputs t); [reflexivity|]. cbn [snd].
    rewrite measured_trials_app. cbn. lia. }
  destruct start as [policy1 log1]. cbn [snd] in Hlog.
  destruct (SearchOneRound fuel policy1 _ _) as [[[best random_opt] policy2]| | |];
    cbn [obind] in H; try discriminate.
  destruct (PickStatesWithEpsGreedy policy2 _ _ _) as [inputs policy3] eqn:Epick.
  unfold PickStatesWithEpsGreedy in Epick.
  apply pick_states_spec in Epick as (added & -> & Hlen & _).
  cbn [app length] in *.
  destruct added as [|input added].
  - injection H as <- <-. cbn [ct t_log]. split; [lia|]. rewrite Hlog. lia.
  - destruct (Measure (t_measurer t) _ _) as [results measurer'].
    match type of H with context [if IsDynTask ?task then ?a else ?b] =>
      destruct (if IsDynTask task then a else b) as [prob| | |]; cbn [obind] in H;
      try discriminate end.
    destruct (_ && _).
    + injection H as <- <-. cbn [ct t_log length] in *. rewrite measured_trials_app, Hlog.
      cbn. lia.
    + destruct (round_throughputs _ _ _) as [pushed| | |]; cbn [obind] in H;
        try discriminate.
      injection H as <- <-. cbn [ct t_log length] in *.
      rewrite measured_trials_app, Hlog. cbn. lia.
Qed.

Lemma tuning_loop_budget (fuel : nat) (n_trials_arg early_stopping num_random : Z)
    (t t' : Tuning) :
  tuning_loop fuel n_trials_arg early_stopping num_random t = Ok t' ->
  ct t <= Z.max (ct t) n_trials_arg ->
  ct t' <= Z.max (ct t) n_trials_arg /\
  measured_trials (t_log t') = measured_trials (t_log t) + (ct t' - ct t).
Proof.
  revert t. induction fuel as [|fuel IH]; intros t; cbn [tuning_loop];
    destruct (Z.ltb_spec (ct t) n_trials_arg) as [Hlt|Hge]; try discriminate;
    try (intros [= <-] _; split; lia).
  destruct (tuning_round fuel _ _ _ t) as [[t1 go_on]| | |] eqn:E; cbn [obind];
    try discriminate.
  apply tuning_round_budget in E as (Hct & Hlog); [|exact Hlt].
  destruct go_on.
  - intros Hrun _. apply IH in Hrun as (Hct' & Hlog'); [|lia]. split; lia.
  - intros [= <-] _. split; lia.
Qed.

Lemma dispatch_loop_log (fuel : nat) (policy : SketchPolicyNode) (measurer : Measurer)
    (d d' : Dispatching) :
  dispatch_loop fuel policy measurer d = Ok d' ->
  measured_trials (d_log d') = measured_trials (d_log d).
Proof.
  revert d. induction fuel as [|fuel IH]; intros d; cbn [dispatch_loop]; [discriminate|].
  destruct (dispatch_pass policy measurer d) as [d1| | |] eqn:E; cbn [obind];
    try discriminate.
  apply dispatch_pass_keeps in E as (_ & _ & n & Hlog).
  assert (H1 : measured_trials (d_log d1) = measured_trials (d_log d)).
  { rewrite Hlog, measured_trials_app. cbn. lia. }
  destruct (changed_adapted_candidate_flops d1).
  - intros H. apply IH in H. lia.
  - intros [= <-]. exact H1.
Qed.

(** X5.  A call of Search that returns has handed at most [n_trials] states
    to the measurer, over all its calls of [Measure] (and none when
    [n_trials <= 1]). *)
Theorem Search_measures_within_budget (fuel : nat) (policy : SketchPolicyNode)
    (n_trials_arg early_stopping num_measure_per_iter : Z) (measurer : Measurer)
    (r : SearchResult) :
  Search fuel policy n_trials_arg early_stopping num_measure_per_iter measurer = Ok r ->
  measured_trials (r_log r) <= Z.max 0 n_trials_arg.
Proof.
  unfold Search. destruct (n_trials_arg <=? 1).
  - destruct (SearchOneRound _ _ _ _) as [[[best rs] policy1]| | |]; cbn [obind];
      try discriminate.
    destruct best; [discriminate|]. intros [= <-]. cbn. lia.
  - destruct (tuning_loop _ _ _ _ _) as [t| | |] eqn:E; cbn [obind]; try discriminate.
    apply tuning_loop_budget in E as (Hct & Hlog); cbn [ct t_log] in *; [|lia].
    change (measured_trials [EvReset]) with 0 in Hlog.
    destruct (IsDynTask _).
    + destruct (dispatch_phase _ _ _ _) as [d| | |] eqn:Ed; cbn [obind]; try discriminate.
      intros [= <-]. cbn [r_log]. unfold dispatch_phase in Ed.
      destruct (dispatch_start _ _) as [d0| | |] eqn:E0; cbn [obind] in Ed;
        try discriminate.
      apply dispatch_start_spec in E0 as (_ & _ & Hlog0).
      apply dispatch_loop_log in Ed. rewrite Ed, Hlog0. lia.
    + intros [= <-]. cbn [r_log]. lia.
Qed.

(** *** The records of the measured states *)

Lemma pick_states_throughputs (fuel : nat) (limit num_good : Z) (best random : list State)
    (inputs inputs' : list MeasureInput) (policy policy' : SketchPolicyNode) :
  pick_states fuel limit num_good best random inputs policy = (inputs', policy') ->
  measured_states_throughputs_ policy' = measured_states_throughputs_ policy.
Proof.
  revert best random inputs policy.
  induction fuel as [|fuel IH]; intros best random inputs policy; cbn [pick_states].
  - intros [= _ <-]. reflexivity.
  - destruct (_ <? limit); [|intros [= _ <-]; reflexivity].
    match goal with |- context [match ?c with Some _ => _ | None => _ end] =>
      destruct c as [[[state best'] random']|] end; [|intros [= _ <-]; reflexivity].
    destruct (bool_decide _); intros H; apply IH in H; exact H.
Qed.

Lemma round_throughputs_length (policy : SketchPolicyNode) (inputs : list MeasureInput)
    (results : list MeasureResult) (pushed : list Q) :
  round_throughputs policy inputs results = Ok pushed ->
  length inputs = length results -> length pushed = length results.
Proof.
  unfold round_throughputs. destruct (IsDynTask _).
  - destruct (CHECK _ _); cbn [obind]; try discriminate.
    intros H Hlen. apply Filters.omap_length in H. rewrite H, length_combine. lia.
  - intros H _. apply Filters.omap_length in H. exact H.
Qed.

Lemma tuning_round_lengths (fuel : nat) (n_trials_arg early_stopping num_random : Z)
    (t t' : Tuning) (go_on : bool) :
  (forall m task inputs, length (Measure m task inputs).1 = length inputs) ->
  length (measured_states_vector_ (t_policy t))
  = length (measured_states_throughputs_ (t_policy t)) ->
  tuning_round fuel n_trials_arg early_stopping num_random t = Ok (t', go_on) ->
  length (measured_states_vector_ (t_policy t'))
  = (length (measured_states_throughputs_ (t_policy t'))
     + (if go_on then 0 else length (t_inputs t')))%nat.
Proof.
  intros Hmeasure Hrec. unfold tuning_round.
  set (start := match t_inputs t with [] => _ | _ :: _ => _ end).
  assert (Hstart : measured_states_vector_ start.1 = measured_states_vector_ (t_policy t) /\
                   measured_states_throughputs_ start.1
                   = measured_states_throughputs_ (t_policy t)).
  { subst start. destruct (t_inputs t); split; reflexivity. }
  destruct start as [policy1 log1]. cbn [fst] in Hstart. destruct Hstart as [Hv1 Ht1].
  destruct (SearchOneRound fuel policy1 _ _) as [[[best random_opt] policy2]| | |] eqn:E;
    cbn [obind]; try discriminate.
  apply SearchOneRound_untouched in E as (_ & _ & Hv2 & Ht2 & _).
  destruct (PickStatesWithEpsGreedy policy2 _ _ _) as [inputs policy3] eqn:Epick.
  unfold PickStatesWithEpsGreedy in Epick.
  pose proof (pick_states_throughputs _ _ _ _ _ _ _ _ _ Epick) as Ht3.
  apply pick_states_spec in Epick as (added & -> & _ & (_ & _ & Hv3 & _)).
  cbn [app] in *.
  assert (Hlen : length (measured_states_vector_ policy3)
                 = (length (measured_states_throughputs_ policy3) + length added)%nat).
  { rewrite Hv3, Ht3, Hv2, Ht2, Hv1, Ht1, length_app, length_map, Hrec. reflexivity. }
  destruct added as [|input added].
  - intros [= <- <-]. cbn [t_policy t_inputs length] in *. destruct (0 <? _); lia.
  - pose proof (Hmeasure (t_measurer t) (search_task (t_policy t)) (input :: added)) as Hres.
    destruct (Measure (t_measurer t) _ _) as [results measurer']. cbn [fst] in Hres.
    match goal with |- context [if IsDynTask ?task then ?a else ?b] =>
      destruct (if IsDynTask task then a else b) as [prob| | |]; cbn [obind];
      try discriminate end.
    destruct (_ && _).
    + intros [= <- <-]. cbn [t_policy t_inputs set_progress measured_states_vector_
                               measured_states_throughputs_]. exact Hlen.
    + destruct (round_throughputs _ _ _) as [pushed| | |] eqn:Er; cbn [obind];
        try discriminate.
      apply round_throughputs_length in Er; [|congruence].
      intros [= <- <-]. cbn [t_policy t_inputs set_progress measured_states_vector_
                               measured_states_throughputs_].
      rewrite length_app, Er, Hres. lia.
Qed.

(** X6.  Provided the measurer answers with one result per input, a round
    of the measuring loop of Search that goes on leaves
    [measured_states_vector_] and [measured_states_throughputs_] of the same
    length when it found them so; a round that leaves the loop (by the early
    stop, or for want of new states) leaves the vector longer than the
    throughputs by the number of inputs it has just measured. *)
Theorem measuring_round_records (fuel : nat) (n_trials_arg early_stopping num_random : Z)
    (t t' : Tuning) (go_on : bool) :
  (forall m task inputs, length (Measure m task inputs).1 = length inputs) ->
  length (measured_states_vector_ (t_policy t))
  = length (measured_states_throughputs_ (t_policy t)) ->
  tuning_round fuel n_trials_arg early_stopping num_random t = Ok (t', go_on) ->
  length (measured_states_vector_ (t_policy t'))
  = (length (measured_states_throughputs_ (t_policy t'))
     + (if go_on then 0 else length (t_inputs t')))%nat.
Proof. apply tuning_round_lengths. Qed.

Lemma tuning_loop_lengths (fuel : nat) (n_trials_arg early_stopping num_random : Z) :
  (forall m task inputs, length (Measure m task inputs).1 = length inputs) ->
  forall t t',
    length (measured_states_vector_ (t_policy t))
    = length (measured_states_throughputs_ (t_policy t)) ->
    tuning_loop fuel n_trials_arg early_stopping num_random t = Ok t' ->
    length (measured_states_vector_ (t_policy t'))
    = length (measured_states_throughputs_ (t_policy t')) \/
    length (measured_states_vector_ (t_policy t'))
    = (length (measured_states_throughputs_ (t_policy t')) + length (t_inputs t'))%nat.
Proof.
  intros Hmeasure. induction fuel as [|fuel IH]; intros t t' Hrec; cbn [tuning_loop];
    destruct (ct t <? n_trials_arg); try discriminate;
    try (intros [= <-]; left; exact Hrec).
  destruct (tuning_round fuel _ _ _ t) as [[t1 go_on]| | |] eqn:E; cbn [obind];
    try discriminate.
  apply tuning_round_lengths in E; [|exact Hmeasure|exact Hrec].
  destruct go_on.
  - apply IH. rewrite E. lia.
  - intros [= <-]. right. exact E.
Qed.

(** *** The adapted scores of the final check *)

Lemma adapt_all_bounds (policy : SketchPolicyNode) (pairs : list (nat * nat))
    (adapted : list Q) :
  Forall (fun pair =>
            (pair.1 < length (measured_states_vector_ policy))%nat /\
            (pair.1 < length (measured_states_throughputs_ policy))%nat /\
            (pair.2 < length (wkl_insts (search_task policy)))%nat) pairs ->
  (Forall (fun pair =>
             (pair.2 * length (measured_states_vector_ policy) + pair.1
              < length adapted)%nat) pairs ->
   exists adapted', adapt_all policy pairs adapted = Ok adapted' /\
                    length adapted' = length adapted) /\
  (Exists (fun pair =>
             (length adapted
              <= pair.2 * length (measured_states_vector_ policy) + pair.1)%nat) pairs ->
   adapt_all policy pairs adapted = Undefined).
Proof.
  intros Hrange. revert adapted.
  induction Hrange as [|[state_id inst_id] pairs (Hs & Ht & Hi) _ IH]; intros adapted.
  - split; [intros _; exists adapted; split; reflexivity|]. intros H. inversion H.
  - cbn [fst snd] in Hs, Ht, Hi. cbn [adapt_all].
    destruct (lookup_lt_is_Some_2 _ _ Hs) as [s ->].
    destruct (lookup_lt_is_Some_2 _ _ Hi) as [inst ->].
    destruct (lookup_lt_is_Some_2 _ _ Ht) as [throughput ->].
    destruct (Nat.ltb_spec (inst_id * length (measured_states_vector_ policy) + state_id)
                (length adapted)) as [Hlt|Hge].
    + destruct (IH (<[(inst_id * length (measured_states_vector_ policy) + state_id)%nat
                      := AdaptStateToWorkload (search_task policy) s inst throughput]>
                     adapted)) as [IHok IHoob].
      rewrite length_insert in IHok, IHoob. split.
      * intros H. apply Forall_cons in H as [_ H]. exact (IHok H).
      * intros H. apply Exists_cons in H as [H|H]; [cbn [fst snd] in H; lia|].
        exact (IHoob H).
    + split; [|reflexivity]. intros H. apply Forall_cons in H as [H _].
      cbn [fst snd] in H. lia.
Qed.

Lemma dispatch_pairs_elem (n_states n_insts state_id inst_id : nat) :
  (state_id, inst_id)
  ∈ (state_id ← seq 0 n_states; inst_id ← seq 0 n_insts; [(state_id, inst_id)])
  <-> (state_id < n_states)%nat /\ (inst_id < n_insts)%nat.
Proof.
  rewrite list_elem_of_bind. split.
  - intros (s & Hin & Hs). apply list_elem_of_bind in Hin as (i & Hin & Hi).
    apply list_elem_of_singleton in Hin. injection Hin as -> ->.
    apply elem_of_seq in Hs, Hi. lia.
  - intros [Hs Hi]. exists state_id. split; [|apply elem_of_seq; lia].
    apply list_elem_of_bind. exists inst_id. split; [|apply elem_of_seq; lia].
    apply list_elem_of_singleton. reflexivity.
Qed.

(** X7.  The final check of Search fills its table of adapted scores, of
    [wkl_insts.size() * measured_states_throughputs_.size()] entries, at the
    index [inst_id * measured_states_vector_.size() + state_id].  When the
    vector and the throughputs have the same length the table is filled and
    keeps its size; when the vector is longer (as an early stop leaves it),
    with at least one throughput and two instances, an entry is written
    past the end of the table. *)
Theorem dispatch_start_bounds (policy : SketchPolicyNode) (log : list Event) :
  let n_vector := length (measured_states_vector_ policy) in
  let n_throughputs := length (measured_states_throughputs_ policy) in
  let n_insts := length (wkl_insts (search_task policy)) in
  (n_vector = n_throughputs ->
   exists d0, dispatch_start policy log = Ok d0 /\
              length (adapted_candidate_flops d0) = (n_insts * n_throughputs)%nat) /\
  ((n_throughputs < n_vector)%nat -> (1 <= n_throughputs)%nat -> (2 <= n_insts)%nat ->
   dispatch_start policy log = Undefined).
Proof.
  intros n_vector n_throughputs n_insts. unfold dispatch_start.
  fold n_throughputs n_insts.
  set (pairs := (state_id ← seq 0 n_throughputs; inst_id ← seq 0 n_insts;
                 [(state_id, inst_id)])).
  assert (Hpairs : forall pair, pair ∈ pairs ->
                     (pair.1 < n_throughputs)%nat /\ (pair.2 < n_insts)%nat).
  { intros [s i] Hin. apply dispatch_pairs_elem in Hin. exact Hin. }
  split.
  - intros Heq.
    destruct (adapt_all_bounds policy pairs (replicate (n_insts * n_throughputs) 0%Q))
      as [Hok _].
    { apply Forall_forall. intros pair Hin. apply Hpairs in Hin.
      fold n_vector n_throughputs n_insts. lia. }
    destruct Hok as (adapted & -> & Hlen).
    { apply Forall_forall. intros pair Hin. apply Hpairs in Hin.
      rewrite length_replicate. fold n_vector. nia. }
    cbn [obind]. eexists. split; [reflexivity|].
    cbn [adapted_candidate_flops]. rewrite Hlen, length_replicate. reflexivity.
  - intros Hlt Hone Htwo.
    destruct (adapt_all_bounds policy pairs (replicate (n_insts * n_throughputs) 0%Q))
      as [_ Hoob].
    { apply Forall_forall. intros pair Hin. apply Hpairs in Hin.
      fold n_vector n_throughputs n_insts. lia. }
    rewrite Hoob; [reflexivity|].
    apply Exists_exists. exists ((n_throughputs - 1)%nat, (n_insts - 1)%nat). split.
    + apply dispatch_pairs_elem. lia.
    + cbn [fst snd]. rewrite length_replicate. fold n_vector. nia.
Qed.

(** *** The weights of the instances *)

Lemma omap_all_Ok {A B : Type} (f : A -> Outcome B) (l : list A) (r : list B) (x : A) :
  Filters.omap f l = Ok r -> x ∈ l -> exists y, f x = Ok y.
Proof.
  revert r. induction l as [|a l IH]; intros r; cbn [Filters.omap].
  - intros _ Hin. inversion Hin.
  - destruct (f a) as [b| | |] eqn:E; cbn [obind]; try discriminate.
    destruct (Filters.omap f l) as [bs| | |]; cbn [obind]; try discriminate.
    intros _ Hin. apply elem_of_cons in Hin as [->|Hin]; [eauto|].
    eapply IH; [reflexivity|exact Hin].
Qed.

(** X9.  On a task with more workload instances than instance weights,
    CalculateInstOptProb never returns: the read of the weight of an
    instance without one is out of the bounds of the array. *)
Theorem CalculateInstOptProb_needs_weights (policy : SketchPolicyNode)
    (measurer : Measurer) :
  (length (wkl_inst_weights (search_task policy))
   < length (wkl_insts (search_task policy)))%nat ->
  is_Ok (CalculateInstOptProb policy measurer) = false.
Proof.
  intros Hlt. unfold CalculateInstOptProb.
  destruct (CHECK _ _); cbn [obind]; try reflexivity.
  match goal with |- context [Filters.omap ?f ?l] =>
    destruct (Filters.omap f l) as [priority| | |] eqn:E; cbn [obind]; try reflexivity;
    apply (omap_all_Ok f l priority
             (length (wkl_inst_weights (search_task policy)))) in E as [y Hy]
  end.
  - exfalso. cbn beta in Hy.
    destruct (lookup_lt_is_Some_2 _ _ Hlt) as [inst Hinst]. rewrite Hinst in Hy.
    destruct (CHECK _ _); cbn [obind] in Hy; try discriminate.
    rewrite (lookup_ge_None_2 (wkl_inst_weights (search_task policy))) in Hy by lia.
    discriminate.
  - apply elem_of_seq. lia.
Qed.

(** *** Facts about ContinueSearchOneRound *)

Lemma weighted_latency_reads (task : SearchTaskNode) (inst_weights best_flops : list Q)
    (i : nat) (insts : list (list Z)) (acc q : Q) :
  weighted_latency task inst_weights best_flops i insts acc = Ok q ->
  (i + length insts <= length inst_weights)%nat \/ insts = [].
Proof.
  revert i acc. induction insts as [|inst insts IH]; intros i acc; [auto|].
  cbn [weighted_latency]. destruct (CHECK _ _); cbn [obind]; try discriminate.
  destruct (inst_weights !! i) as [w|] eqn:Ew; [|discriminate].
  destruct (best_flops !! i) as [best|]; [|discriminate].
  destruct (fdiv _ _); cbn [obind]; try discriminate.
  intros H. left. apply lookup_lt_Some in Ew.
  apply IH in H as [H| ->]; cbn [length]; lia.
Qed.

(** X10.  ComputeFlopWeightedLatency returns a latency only for consistent
    counts: as many best flop rates as instance weights, and no more
    workload instances than weights. *)
Theorem ComputeFlopWeightedLatency_counts (task : SearchTaskNode) (best_flops : list Q)
    (latency : Q) :
  ComputeFlopWeightedLatency task best_flops = Ok latency ->
  length best_flops = length (wkl_inst_weights task) /\
  (length (wkl_insts task) <= length (wkl_inst_weights task))%nat.
Proof.
  unfold ComputeFlopWeightedLatency.
  destruct (Filters.omap _ _) as [inst_weights| | |] eqn:E; cbn [obind]; try discriminate.
  apply Filters.omap_length in E.
  destruct (Nat.eqb_spec (length best_flops) (length inst_weights)) as [Heq|];
    cbn [CHECK obind]; [|discriminate].
  intros H. split; [congruence|].
  apply weighted_latency_reads in H as [H|H]; [lia|]. rewrite H. cbn. lia.
Qed.

(** X8.  A call of ContinueSearchOneRound that returns has measured at most
    [num_measure] states, and, provided the measurer answers with one result
    per input, it has added exactly the measured states to
    [measured_states_vector_] and as many throughputs to
    [measured_states_throughputs_]. *)
Theorem ContinueSearchOneRound_records (fuel : nat) (policy : SketchPolicyNode)
    (num_measure : Z) (measurer : Measurer) (r : RoundResult) :
  (forall m task inputs, length (Measure m task inputs).1 = length inputs) ->
  ContinueSearchOneRound fuel policy num_measure measurer = Ok r ->
  Z.of_nat (c_num_measured r) <= Z.max 0 num_measure /\
  length (measured_states_vector_ (c_policy r))
  = (length (measured_states_vector_ policy) + c_num_measured r)%nat /\
  length (measured_states_throughputs_ (c_policy r))
  = (length (measured_states_throughputs_ policy) + c_num_measured r)%nat.
Proof.
  intros Hmeasure. unfold ContinueSearchOneRound.
  destruct (SearchOneRound fuel _ _ _) as [[[best random_opt] policy2]| | |] eqn:E;
    cbn [obind]; try discriminate.
  apply SearchOneRound_untouched in E as (_ & _ & Hv2 & Ht2 & Hper).
  cbn [set_num_measure_per_iter measured_states_vector_ measured_states_throughputs_
       num_measure_per_iter_ search_task] in Hv2, Ht2, Hper.
  destruct (PickStatesWithEpsGreedy policy2 _ _ _) as [inputs policy3] eqn:Epick.
  unfold PickStatesWithEpsGreedy in Epick.
  pose proof (pick_states_throughputs _ _ _ _ _ _ _ _ _ Epick) as Ht3.
  apply pick_states_spec in Epick as (added & -> & Hlen & (_ & _ & Hv3 & _)).
  cbn [app length] in *. rewrite Hper in Hlen.
  match goal with |- context [Measure measurer ?task added] =>
    pose proof (Hmeasure measurer task added) as Hres;
    destruct (Measure measurer task added) as [results measurer'] end.
  cbn [fst] in Hres.
  match goal with |- context [let! prob := ?a in _] =>
    destruct a as [prob| | |]; cbn [obind]; try discriminate end.
  destruct (round_throughputs _ _ _) as [pushed| | |] eqn:Er; cbn [obind];
    try discriminate.
  apply round_throughputs_length in Er; [|congruence].
  match goal with |- context [let! latency := ?a in _] =>
    destruct a as [latency| | |]; cbn [obind]; try discriminate end.
  intros [= <-].
  cbn [c_num_measured c_policy set_cost_model set_progress measured_states_vector_
       measured_states_throughputs_].
  rewrite Hv3, Ht3, Hv2, Ht2, !length_app, length_map, Er, Hres.
  repeat split; lia.
Qed.

(** *** What GenerateSketches leaves before an rfactor step *)

Definition is_rfactor (step : option Step) : bool :=
  match step with Some (RfactorStep _ _ _) => true | _ => false end.

(** Up to index [k], every rfactor step follows a split step whose one
    factor is undefined. *)
Definition rfactor_ready_upto (k : nat) (steps : list Step) : Prop :=
  forall p, (p < k)%nat -> is_rfactor (steps !! p) = true ->
    (1 <= p)%nat /\
    exists stage_id iter_id extent inner_to_outer,
      steps !! (p - 1)%nat
      = Some (SplitStep stage_id iter_id extent [None] inner_to_outer).

Definition rfactor_ready (s : State) : Prop :=
  rfactor_ready_upto (length (transform_steps s)) (transform_steps s).

Lemma free_rfactor_splits_ready (steps steps' : list Step) (k todo : nat) :
  free_rfactor_splits steps k todo = Ok steps' ->
  (k + todo)%nat = length steps ->
  rfactor_ready_upto k steps ->
  rfactor_ready_upto (length steps') steps' /\ length steps' = length steps.
Proof.
  statement_only.
  revert steps k. induction todo as [|todo IH]; intros steps k; cbn [free_rfactor_splits].
  - intros [= <-] Hk Hready. rewrite Nat.add_0_r in Hk. subst k. auto.
  - intros H Hk Hready.
    assert (Hnext : is_rfactor (steps !! k) = false ->
                    rfactor_ready_upto (S k) steps).
    { intros Hno p Hp Hr. destruct (decide (p = k)) as [->|Hne]; [congruence|].
      apply Hready; [lia|exact Hr]. }
    destruct (steps !! k) as [[| |]|] eqn:Ek;
      try (apply IH in H; [exact H|lia|apply Hnext; reflexivity]).
    destruct (Nat.leb_spec 1 k) as [Hone|]; cbn [CHECK obind] in H; [|discriminate].
    destruct (steps !! (k - 1)%nat) as [[sid iid ext lens io| |]|] eqn:Ep;
      try discriminate.
    apply IH in H; [|rewrite length_insert; lia|].
    + rewrite length_insert in H. exact H.
    + intros p Hp Hr. destruct (decide (p = k)) as [->|Hne].
      * split; [exact Hone|]. rewrite list_lookup_insert_eq by lia. eauto.
      * assert (Hpk : p <> (k - 1)%nat).
        { intros ->. rewrite list_lookup_insert_eq in Hr by lia. discriminate. }
        rewrite list_lookup_insert_ne in Hr by auto.
        destruct (Hready p) as (Hp1 & Hsplit); [lia|exact Hr|].
        split; [exact Hp1|]. rewrite list_lookup_insert_ne by lia. exact Hsplit.
Qed.

Lemma free_rfactor_all_ready (l l' : list State) :
  free_rfactor_all l = Ok l' -> Forall rfactor_ready l'.
Proof.
  statement_only.
  revert l'. induction l as [|s l IH]; intros l'; cbn [free_rfactor_all].
  - intros [= <-]. constructor.
  - unfold free_rfactor at 1.
    destruct (free_rfactor_splits _ _ _) as [steps| | |] eqn:E; cbn [obind];
      try discriminate.
    destruct (free_rfactor_all l) as [l1| | |]; cbn [obind]; try discriminate.
    intros [= <-]. constructor; [|apply IH; reflexivity].
    apply free_rfactor_splits_ready in E as [Hready _]; [exact Hready|reflexivity|].
    intros p Hp. lia.
Qed.

(** X11.  In every sketch that GenerateSketches returns, each rfactor step
    is immediately preceded by a split step whose one factor is undefined
    (to be sampled later); no sketch is returned with an rfactor step in
    first position. *)
Theorem GenerateSketches_frees_rfactor_splits (fuel : nat) (policy : SketchPolicyNode)
    (sketches : list State) :
  GenerateSketches fuel policy = Ok sketches ->
  Forall rfactor_ready sketches.
Proof.
  unfold GenerateSketches.
  destruct (enumerate _ _ _ _ _) as [out| | |]; cbn [obind]; try discriminate.
  apply free_rfactor_all_ready.
Qed.

(** *** Search on a dynamic task and the early stop *)

(** X22.  A Search over more than one trial on a dynamic task of two
    workload instances or more, started with a throughput for every measured
    state and a measurer that answers with one result per input, returns
    only with a throughput for every measured state, or with no throughput
    at all.  A run that leaves the measuring loop by the early stop, when
    the states of the round are in [measured_states_vector_] and their
    throughputs not yet pushed, does not return if a throughput was recorded
    before: the final check writes past the end of its table of adapted
    scores. *)
Theorem Search_returns_with_throughputs (fuel : nat) (policy : SketchPolicyNode)
    (n_trials_arg early_stopping num_measure_per_iter : Z) (measurer : Measurer)
    (r : SearchResult) :
  (forall m task inputs, length (Measure m task inputs).1 = length inputs) ->
  length (measured_states_vector_ policy) = length (measured_states_throughputs_ policy) ->
  1 < n_trials_arg ->
  Search fuel policy n_trials_arg early_stopping num_measure_per_iter measurer = Ok r ->
  IsDynTask (search_task (r_policy r)) = true ->
  (2 <= length (wkl_insts (search_task (r_policy r))))%nat ->
  length (measured_states_vector_ (r_policy r))
  = length (measured_states_throughputs_ (r_policy r)) \/
  measured_states_throughputs_ (r_policy r) = [].
Proof.
  intros Hmeasure Hrec Htrials. unfold Search.
  destruct (Z.leb_spec n_trials_arg 1) as [|_]; [lia|].
  destruct (tuning_loop _ _ _ _ _) as [t| | |] eqn:E; cbn [obind]; try discriminate.
  apply tuning_loop_lengths in E; [|exact Hmeasure|exact Hrec].
  cbn [t_policy] in E.
  destruct (IsDynTask (search_task (t_policy t))) eqn:Edyn.
  - destruct (dispatch_phase _ _ _ _) as [d| | |] eqn:Ed; cbn [obind]; try discriminate.
    intros [= <-] _ Hinsts. cbn [r_policy] in *.
    destruct E as [E|E]; [left; exact E|].
    destruct (measured_states_throughputs_ (t_policy t)) as [|x throughputs] eqn:Et;
      [right; reflexivity|].
    destruct (t_inputs t) as [|input inputs]; [left; cbn [length] in *; lia|].
    exfalso. unfold dispatch_phase, dispatch_start in Ed. rewrite Et in Ed.
    set (n_insts := length (wkl_insts (search_task (t_policy t)))) in *.
    set (n_states := length (x :: throughputs)) in *.
    destruct (adapt_all_bounds (t_policy t)
                (state_id ← seq 0 n_states; inst_id ← seq 0 n_insts; [(state_id, inst_id)])
                (replicate (n_insts * n_states) 0%Q)) as [_ Hoob].
    { apply Forall_forall. intros [s i] Hin. apply dispatch_pairs_elem in Hin.
      cbn [fst snd]. rewrite Et. fold n_states n_insts. cbn [length] in E. lia. }
    rewrite Hoob in Ed; [discriminate Ed|].
    apply Exists_exists. exists ((n_states - 1)%nat, (n_insts - 1)%nat). split.
    + apply dispatch_pairs_elem. subst n_states. cbn [length]. lia.
    + cbn [fst snd]. rewrite length_replicate, E. fold n_states.
      cbn [length]. subst n_states. cbn [length]. nia.
  - intros [= <-] Hdyn. cbn [r_policy] in Hdyn. congruence.
Qed.

End WithCollaborators.

(** ** A small world to run the policy in

    The collaborators at their simplest, to evaluate the methods above on
    concrete policies: a counter for the random generator, a cost model that
    scores a state by the number of its transform steps, a canonical string
    that prints the stages of a state, one sketch rule that skips a stage,
    one initialisation rule that leaves the sketch as it is, and mutation
    rules that either append a step or fail. *)

Definition demo_ToStr (s : State) : string := String.concat ";" (stages s).

Definition demo_InferBound (task : SearchTaskNode) (l : list State) : list State := l.

Definition demo_PruneInvalidState (task : SearchTaskNode) (l : list State) : list State := l.

Definition demo_score (s : State) : Q := inject_Z (Z.of_nat (length (transform_steps s))).

Definition demo_Predict (model : unit) (task : SearchTaskNode) (l : list State) : list Q :=
  map demo_score l.

Definition demo_PredictForAllInstances (model : unit) (task : SearchTaskNode)
    (l : list State) : list Q :=
  flat_map (fun _ => map demo_score l) (wkl_insts task).

Definition demo_IsRandomModel (model : unit) : bool := false.

Definition demo_mt19937 (seed : Z) : Z := seed.

Definition demo_rng_next (g : Z) : Z * Z := (g, g + 1).

Definition demo_uniform_real (g : Z) : Q * Z := (Qmake (g mod 10) 10, g + 1).

Definition demo_RandomChoose (probs : list Q) (g : Z) : nat * Z :=
  (Z.to_nat (g mod Z.of_nat (length probs)), g + 1).

Definition demo_ComputePrefixSumProb (weights : list Q) : list Q := weights.

Definition demo_Argsort (l : list Q) : list nat := seq 0 (length l).

Definition demo_RandomSampleStates (l : list State) (g : Z) (n : Z) : list State * Z :=
  (take (Z.to_nat n) l, g).

Definition DemoPolicy : Type := SketchPolicyNode unit Z unit unit bool.

(** The rule that skips a stage: the state itself, one stage further. *)
Definition demo_MeetCondition (rule : unit) (policy : DemoPolicy) (s : State)
    (stage_id : Z) : ConditionKind := kApplyAndSkipRest.

Definition demo_SketchApply (rule : unit) (policy : DemoPolicy) (s : State)
    (stage_id : Z) : list (State * Z) := [(s, stage_id - 1)].

Definition demo_InitApply (rule : unit) (policy : DemoPolicy) (s : State) (g : Z)
    : ResultKind * State * Z := (kValid, s, g).

Definition demo_rule_weight (rule : bool) : Q := 1.

(** The mutation rule [true] appends a step; the rule [false] fails. *)
Definition demo_MutationApply (rule : bool) (policy : DemoPolicy) (s : State) (g : Z)
    : ResultKind * State * Z :=
  if rule
  then (kValid,
        {| node_addr := S (node_addr s); stages := stages s;
           transform_steps := transform_steps s ++ [OtherStep "mutated"] |},
        g + 1)
  else (kInvalid, s, g + 1).

(** The measurer: every measurement costs 1, and the build of the state at
    address 0 fails for the instance [[3]]. *)
Definition demo_Reset (m : unit) : unit := m.

Definition demo_Measure (m : unit) (task : SearchTaskNode) (inputs : list MeasureInput)
    : list MeasureResult * unit :=
  (map (fun _ => {| costs := [1%Q]; mr_error_no := 0 |}) inputs, m).

Definition demo_Build (m : unit) (inputs : list MeasureInput) (verbose : Z)
    : list BuildResult :=
  map (fun input =>
         {| error_no :=
              if (node_addr (mi_state input) =? 0)%nat
                 && bool_decide (mi_wkl_inst input = Some [3])
              then 1 else 0;
            error_msg := "" |})
      inputs.

Definition demo_best_ct (m : unit) (key : string) : Z := 0.

Definition demo_has_valid (m : unit) (key : string) : bool := true.

Definition demo_best_states (m : unit) (key : string) : list State := [].

Definition demo_best_inst_flops (m : unit) (key : string) : list Q := [].

Definition demo_Update (model : unit) (inputs : list MeasureInput)
    (results : list MeasureResult) : unit := model.

Definition demo_EstimateFlopForInst (task : SearchTaskNode) (inst : list Z) : Q := 1.

Definition demo_CherryPickWorkloadInstance (s : State) (task : SearchTaskNode)
    : list Z * Q * Q := ([], 1%Q, 1%Q).

Definition demo_FloatArrayMean (l : list Q) : Q := 1.

(** No penalty: the adapted score of a state is its throughput. *)
Definition demo_AdaptStateToWorkload (task : SearchTaskNode) (s : State) (inst : list Z)
    (throughput : Q) : Q := throughput.

(** The index of the first greatest score of a row. *)
Definition argmax (row : list Q) : nat :=
  (foldl (fun (acc : nat * Q * nat) (v : Q) =>
            let '(best, best_v, i) := acc in
            if Qltb best_v v then (i, v, S i) else (best, best_v, S i))
         (0%nat, (- (1))%Q, 0%nat) row).1.1.

(** A greedy dispatcher: every instance takes the state of greatest adapted
    score for it, and the map refers to the measured states directly. *)
Definition demo_dispatch (flops : list Q) (n_states : nat) : gmap nat nat :=
  list_to_map
    (map (fun inst_id =>
            (inst_id, argmax (take n_states (drop (inst_id * n_states) flops))))
         (seq 0 (length flops / n_states))).

Definition demo_MapWklInstsToStates (raw : gmap nat nat) (states : list State)
    (throughputs : list Q) (insts : list (list Z)) (adapted : list Q)
    : gmap nat nat * list State * list Q * list Q :=
  (raw, states, throughputs, []).


Definition demo_sampling_run : nat -> DemoPolicy -> list State -> Outcome (Sampling Z) :=
  sampling_run unit Z unit unit bool demo_ToStr demo_InferBound demo_PruneInvalidState
    demo_Predict demo_mt19937 demo_rng_next demo_InitApply.

Definition demo_sampling_wave : DemoPolicy -> list State -> Sampling Z -> Outcome (Sampling Z) :=
  sampling_wave unit Z unit unit bool demo_ToStr demo_InferBound demo_PruneInvalidState
    demo_Predict demo_rng_next demo_InitApply.

Definition demo_run_waves
    : nat -> DemoPolicy -> list State -> Sampling Z -> Outcome (Sampling Z) :=
  run_waves unit Z unit unit bool demo_ToStr demo_InferBound demo_PruneInvalidState
    demo_Predict demo_rng_next demo_InitApply.

Definition demo_mutation_attempt
    : DemoPolicy -> list State -> list Q -> list Q -> list State -> Evolution Z ->
      Outcome (list State * Evolution Z) :=
  mutation_attempt unit Z unit unit bool demo_uniform_real demo_RandomChoose
    demo_MutationApply.

Definition demo_mutate
    : nat -> DemoPolicy -> list State -> list Q -> list Q -> list State -> Evolution Z ->
      Outcome (list State * Evolution Z) :=
  mutate unit Z unit unit bool demo_uniform_real demo_RandomChoose demo_MutationApply.

Definition demo_score_generation : DemoPolicy -> list State -> Outcome (list (State * Q)) :=
  score_generation unit Z unit unit bool demo_InferBound demo_PruneInvalidState
    demo_Predict demo_PredictForAllInstances Z.div.

Definition demo_EvolutionarySearch
    : nat -> DemoPolicy -> list State -> Z -> Outcome (list State * DemoPolicy) :=
  EvolutionarySearch unit Z unit unit bool demo_ToStr demo_InferBound
    demo_PruneInvalidState demo_Predict demo_PredictForAllInstances demo_IsRandomModel
    demo_uniform_real demo_RandomChoose demo_ComputePrefixSumProb Z.div
    demo_rule_weight demo_MutationApply.

Definition demo_SearchOneRound
    : nat -> DemoPolicy -> Z -> option (list State) ->
      Outcome (list State * option (list State) * DemoPolicy) :=
  SearchOneRound unit Z unit unit bool demo_ToStr demo_InferBound
    demo_PruneInvalidState demo_Predict demo_PredictForAllInstances demo_IsRandomModel
    demo_mt19937 demo_rng_next demo_uniform_real demo_RandomChoose
    demo_ComputePrefixSumProb demo_Argsort demo_RandomSampleStates Z.div
    demo_MeetCondition demo_SketchApply demo_InitApply demo_rule_weight
    demo_MutationApply.

Definition demo_Search
    : nat -> DemoPolicy -> Z -> Z -> Z -> unit ->
      Outcome (SearchResult unit Z unit unit unit bool) :=
  Search unit Z unit unit unit bool demo_ToStr demo_InferBound
    demo_PruneInvalidState demo_Predict demo_PredictForAllInstances demo_IsRandomModel
    demo_mt19937 demo_rng_next demo_uniform_real demo_RandomChoose
    demo_ComputePrefixSumProb demo_Argsort demo_RandomSampleStates Z.div
    demo_MeetCondition demo_SketchApply demo_InitApply demo_rule_weight
    demo_MutationApply demo_Reset demo_Measure demo_Build demo_best_ct demo_has_valid
    demo_best_states demo_best_inst_flops demo_Update demo_EstimateFlopForInst
    demo_CherryPickWorkloadInstance demo_FloatArrayMean demo_AdaptStateToWorkload
    demo_dispatch demo_MapWklInstsToStates.

Definition demo_dispatch_phase
    : nat -> DemoPolicy -> unit -> list Event -> Outcome Dispatching :=
  dispatch_phase unit Z unit unit unit bool demo_Build demo_AdaptStateToWorkload
    demo_dispatch demo_MapWklInstsToStates.

(** *** Tasks, states and policies of the small world *)

Definition demo_task : SearchTaskNode :=
  {| init_state := empty_state; workload_key := "dense";
     target := cuda; target_host := cuda; hardware_params := v100_params;
     layout_rewrite_option := 0; task_input_names := [];
     shape_vars := None; wkl_insts := []; wkl_inst_weights := [];
     hardware_api := v100_api |}.

(** A dynamic task with the three instances [T = 1, 2, 3]. *)
Definition demo_dyn_task : SearchTaskNode :=
  {| init_state := empty_state; workload_key := "dense";
     target := cuda; target_host := cuda; hardware_params := v100_params;
     layout_rewrite_option := 0; task_input_names := [];
     shape_vars := Some ["T"%string]; wkl_insts := [[1]; [2]; [3]];
     wkl_inst_weights := [1%Q; 1%Q; 1%Q];
     hardware_api := v100_api |}.

Definition demo_params (min_pop : Z) : Params :=
  {| eps_greedy := 5 # 100; empty_retry_count := 2; population := 2;
     mutation_prob := 85 # 100; num_iters := 0; use_measured_ratio := 2 # 10;
     min_population := min_pop; max_innermost_split_factor := 64 |}.

(** A policy on [task] with the target [min_pop], the mutation rules [rules]
    and the states [measured], each measured with the throughput given. *)
Definition demo_policy (task : SearchTaskNode) (min_pop : Z) (rules : list bool)
    (measured : list (State * Q)) : DemoPolicy :=
  {| search_task := task; program_cost_model := tt; rand_gen := 0;
     params := demo_params min_pop; verbose := 0;
     sample_init_min_pop_ := min_pop;
     sketch_rules := [tt]; init_rules := [tt]; mutation_rules := rules;
     sketch_cache_ := [];
     measured_states_set_ := list_to_set (map (fun m => demo_ToStr m.1) measured);
     measured_states_vector_ := map fst measured;
     measured_states_throughputs_ := map snd measured;
     num_measure_per_iter_ := 0; n_trials := 0; curr_inst_opt_prob := [] |}.

(** A state of one stage [name] with [n] transform steps; its score in the
    small world is [n]. *)
Definition demo_state (addr : nat) (name : string) (n : nat) : State :=
  {| node_addr := addr; stages := [name];
     transform_steps := replicate n (OtherStep "annotation") |}.

(** Six states of distinct strings and scores, in ascending order of score. *)
Definition demo_population : list State :=
  [demo_state 1 "F" 1; demo_state 2 "A" 5; demo_state 3 "B" 6; demo_state 4 "C" 7;
   demo_state 5 "D" 8; demo_state 6 "E" 9].

(** The same with a seventh state that prints as ["A"] does and scores 10. *)
Definition demo_population_twin : list State :=
  demo_population ++ [demo_state 7 "A" 10].

(** The locals of EvolutionarySearch before the first generation. *)
Definition demo_evolution : Evolution Z :=
  {| heap := []; in_heap := ∅; max_score := (- (1 # 10000000000))%Q; e_rand_gen := 0;
     mutation_success_ct := 0; mutation_fail_ct := 0 |}.

(** The value of a run that returned, [d] otherwise. *)
Definition returned {A : Type} (d : A) (o : Outcome A) : A :=
  match o with Ok a => a | _ => d end.

(** The sampling of a policy of target 8 whose samples all print alike: the
    locals at the start, after the first wave (which accepts one state),
    after four more waves and after the fifth. *)
Definition demo_sampling_0 : Sampling Z :=
  (sampling_start unit Z unit unit bool demo_mt19937 demo_rng_next
     (demo_policy demo_task 8 [] [])).1.

Definition demo_sampling_1 : Sampling Z :=
  returned demo_sampling_0
    (demo_sampling_wave (demo_policy demo_task 8 [] []) [empty_state] demo_sampling_0).

Definition demo_sampling_5 : Sampling Z :=
  returned demo_sampling_1
    (demo_run_waves 4 (demo_policy demo_task 8 [] []) [empty_state] demo_sampling_1).

Definition demo_sampling_6 : Sampling Z :=
  returned demo_sampling_5
    (demo_sampling_wave (demo_policy demo_task 8 [] []) [empty_state] demo_sampling_5).

(** A policy on the dynamic task with two measured states, of throughputs
    10 and 5. *)
Definition demo_dyn_policy : DemoPolicy :=
  demo_policy demo_dyn_task 1 []
    [(demo_state 0 "s0" 0, 10%Q); (demo_state 1 "s1" 0, 5%Q)].

(** *** The methods at work in the small world *)

Lemma ascending_distinct_scores (l : list (State * Q)) :
  StronglySorted ascending l -> distinct_scores l.
Proof.
  induction 1 as [|x l Hl IH Hx]; intros i j a b Hij Ha Hb.
  - discriminate Ha.
  - destruct j as [|j]; [lia|]. cbn in Hb. destruct i as [|i]; cbn in Ha.
    + injection Ha as <-. rewrite Forall_forall in Hx.
      assert (Hlt : ascending x b) by (eapply Hx, list_elem_of_lookup_2, Hb).
      unfold ascending in Hlt. intros Heq. rewrite Heq in Hlt.
      exact (Qlt_irrefl _ Hlt).
    + apply (IH i j a b); [lia|assumption..].
Qed.









Lemma SampleInitPopulation_target_witness :
  (exists st,
     demo_sampling_run 3 (demo_policy demo_task 0 [] []) [empty_state] = Ok st /\
     waves Z st = 0 /\ s_out_states Z st = [] /\ s_min_pop Z st = 0) /\
  s_min_pop Z demo_sampling_5 = 8 /\
  s_min_pop Z demo_sampling_6 = 4 /\
  unchange_cnt Z demo_sampling_6 = 0.
Proof.
  split.
  - apply (proj1 (SampleInitPopulation_target unit Z unit unit bool demo_ToStr
                    demo_InferBound demo_PruneInvalidState demo_Predict demo_mt19937
                    demo_rng_next demo_InitApply
                    (demo_policy demo_task 0 [] []) [empty_state]) 3%nat);
      cbn; lia.
  - destruct (proj2 (SampleInitPopulation_target unit Z unit unit bool demo_ToStr
                       demo_InferBound demo_PruneInvalidState demo_Predict demo_mt19937
                       demo_rng_next demo_InitApply
                       (demo_policy demo_task 8 [] []) [empty_state])
                demo_sampling_1 demo_sampling_5 demo_sampling_6)
      as (H4 & H5 & Hc & _).
    + reflexivity.
    + vm_compute. reflexivity.
    + vm_compute. reflexivity.
    + reflexivity.
    + split; [exact H4|]. split; [exact H5|exact Hc].
Defined.

(** With the target 0 the run makes no wave: the loop is left at its first
    test, with [iter] at its initial value. *)
Lemma SampleInitPopulation_zero_target_no_wave :
  sample_init_min_pop_ _ _ _ _ _ (demo_policy demo_task 0 [] []) = 0 /\
  exists st,
    demo_sampling_run 3 (demo_policy demo_task 0 [] []) [empty_state] = Ok st /\
    waves Z st = 0 /\ iter Z st = 1.
Proof.
  split; [reflexivity|]. eexists. split; [vm_compute; reflexivity|].
  split; reflexivity.
Qed.

Lemma mutation_failure_witness :
  exists e',
    demo_mutation_attempt (demo_policy demo_task 1 [false] []) [empty_state]
      [1%Q] [1%Q] [] demo_evolution = Ok ([], e') /\
    mutation_fail_ct Z e' = mutation_fail_ct Z demo_evolution + 1 /\
    mutation_success_ct Z e' = mutation_success_ct Z demo_evolution.
Proof.
  apply (proj1 (mutation_failure_adds_nothing unit Z unit unit bool
                  demo_uniform_real demo_RandomChoose demo_MutationApply
                  (demo_policy demo_task 1 [false] []) [empty_state]
                  [1%Q] [1%Q] [] demo_evolution)
           0%nat 0%nat 1 2 3 4 empty_state empty_state (1 # 10)%Q false);
    reflexivity.
Defined.

(** A parent chosen for mutation under a rule that fails is not kept: the
    next generation is still empty after the turn, and the loop needs six
    turns, four of them failures, for a next generation of two states. *)
Lemma mutation_failure_drops_parent :
  (exists e',
     demo_mutation_attempt (demo_policy demo_task 1 [false] []) [empty_state]
       [1%Q] [1%Q] [] demo_evolution = Ok ([], e') /\
     mutation_fail_ct Z e' = 1) /\
  (exists pnext e',
     demo_mutate 20 (demo_policy demo_task 1 [false] []) [empty_state]
       [1%Q] [1%Q] [] demo_evolution = Ok (pnext, e') /\
     length pnext = 2%nat /\ mutation_fail_ct Z e' = 4).
Proof.
  split.
  - eexists. split; reflexivity.
  - eexists _, _. split; [vm_compute; reflexivity|]. split; reflexivity.
Qed.

(** A policy whose evolution runs one iteration on generations of three
    states, with the mutation rule that appends a step. *)
Definition demo_evolving_policy : DemoPolicy :=
  {| search_task := demo_task; program_cost_model := tt; rand_gen := 0;
     params := {| eps_greedy := 5 # 100; empty_retry_count := 2; population := 3;
                  mutation_prob := 85 # 100; num_iters := 1; use_measured_ratio := 2 # 10;
                  min_population := 1; max_innermost_split_factor := 64 |};
     verbose := 0; sample_init_min_pop_ := 1;
     sketch_rules := [tt]; init_rules := [tt]; mutation_rules := [true];
     sketch_cache_ := []; measured_states_set_ := ∅;
     measured_states_vector_ := []; measured_states_throughputs_ := [];
     num_measure_per_iter_ := 0; n_trials := 0; curr_inst_opt_prob := [] |}.

Definition demo_scored_in_run : nat -> DemoPolicy -> list State -> Z -> State * Q -> Prop :=
  scored_in_run unit Z unit unit bool demo_ToStr demo_InferBound
    demo_PruneInvalidState demo_Predict demo_PredictForAllInstances demo_IsRandomModel
    demo_uniform_real demo_RandomChoose demo_ComputePrefixSumProb Z.div
    demo_rule_weight demo_MutationApply.

(** What the evolution of [demo_evolving_policy] returns of
    [demo_population] for [out_size = 3]. *)
Definition demo_best_three : list State :=
  [demo_state 6 "E" 9; demo_state 5 "D" 8; demo_state 4 "C" 7].

Lemma EvolutionarySearch_best_witness :
  (exists items : list (State * Q),
     demo_best_three = map fst items /\
     Z.of_nat (length demo_best_three) <= 3 /\
     StronglySorted (descending snd) items /\
     Forall (demo_scored_in_run 10 demo_evolving_policy demo_population 3) items) /\
  exists kept dropped : list (State * Q),
    demo_EvolutionarySearch 0 (demo_policy demo_task 1 [] []) demo_population 5
    = Ok (map fst kept, demo_policy demo_task 1 [] []) /\
    kept ++ dropped ≡ₚ combine demo_population (map demo_score demo_population) /\
    Z.of_nat (length kept) = 5 /\
    StronglySorted (descending snd) kept /\
    all_below dropped kept.
Proof.
  split.
  - eapply (proj1 (EvolutionarySearch_keeps_the_best unit Z unit unit bool demo_ToStr
                     demo_InferBound demo_PruneInvalidState demo_Predict
                     demo_PredictForAllInstances demo_IsRandomModel demo_uniform_real
                     demo_RandomChoose demo_ComputePrefixSumProb Z.div demo_rule_weight
                     demo_MutationApply
                     demo_evolving_policy demo_population 3) 10%nat).
    vm_compute. reflexivity.
  - apply (proj2 (EvolutionarySearch_keeps_the_best unit Z unit unit bool demo_ToStr
                    demo_InferBound demo_PruneInvalidState demo_Predict
                    demo_PredictForAllInstances demo_IsRandomModel demo_uniform_real
                    demo_RandomChoose demo_ComputePrefixSumProb Z.div demo_rule_weight
                    demo_MutationApply
                    (demo_policy demo_task 1 [] []) demo_population 5) 0%nat).
    + reflexivity.
    + cbn. lia.
    + reflexivity.
    + cbn. lia.
    + apply ascending_distinct_scores. repeat constructor.
    + cbn. repeat (constructor; [rewrite ?elem_of_cons, elem_of_nil; intuition discriminate|]).
      constructor.
    + intros item _. cbn. apply not_elem_of_empty.
Defined.

(** A population of seven states of pairwise distinct scores, none of them
    measured: the state of the best score, 10, prints as another state of
    the population does, and is not among the five returned. *)
Lemma EvolutionarySearch_misses_twin :
  map demo_score demo_population_twin = [1%Q; 5%Q; 6%Q; 7%Q; 8%Q; 9%Q; 10%Q] /\
  exists best policy',
    demo_EvolutionarySearch 0 (demo_policy demo_task 1 [] []) demo_population_twin 5
    = Ok (best, policy') /\
    map demo_score best = [9%Q; 8%Q; 7%Q; 6%Q; 5%Q] /\
    demo_state 7 "A" 10 ∉ best.
Proof.
  split; [reflexivity|]. eexists _, _. split; [vm_compute; reflexivity|].
  split; [reflexivity|].
  rewrite !elem_of_cons, elem_of_nil. intuition discriminate.
Qed.

Lemma Search_without_trials_witness :
  exists policy1,
    demo_Search 5 (demo_policy demo_task 1 [] []) 1 (-1) 2 tt
    = Ok {| r_states := [empty_state]; r_inst_id_disp_map := ∅; r_policy := policy1;
            r_measurer := tt; r_log := [] |}.
Proof.
  eexists.
  refine (proj1 (Search_without_trials unit Z unit unit unit bool demo_ToStr
                   demo_InferBound demo_PruneInvalidState demo_Predict
                   demo_PredictForAllInstances demo_IsRandomModel demo_mt19937
                   demo_rng_next demo_uniform_real demo_RandomChoose
                   demo_ComputePrefixSumProb demo_Argsort demo_RandomSampleStates Z.div
                   demo_MeetCondition demo_SketchApply demo_InitApply demo_rule_weight
                   demo_MutationApply demo_Reset demo_Measure demo_Build demo_best_ct
                   demo_has_valid demo_best_states demo_best_inst_flops demo_Update
                   demo_EstimateFlopForInst demo_CherryPickWorkloadInstance
                   demo_FloatArrayMean demo_AdaptStateToWorkload demo_dispatch
                   demo_MapWklInstsToStates
                   5%nat (demo_policy demo_task 1 [] []) 1 (-1) 2 tt _)
            empty_state [] None _ _).
  - lia.
  - vm_compute. reflexivity.
Defined.

(** A policy that has measured the one state its sampler can produce: the
    round returns no state, and Search with [n_trials = 1] fails its check
    instead of returning one. *)
Lemma Search_without_trials_aborts :
  demo_Search 5 (demo_policy demo_task 1 [] [(empty_state, 1%Q)]) 1 (-1) 2 tt
  = Fatal "Check failed: best_states.size() > 0".
Proof. vm_compute. reflexivity. Qed.

(** The final check on three instances and two measured states, when the
    build of the state dispatched to the third instance fails: its adapted
    score for that instance is set to 0 and the instance is put on the list
    of the next pass, but there is no next pass; the builder has been
    called once, and the map returned still sends the instance to the state
    whose build failed. *)
Lemma dispatch_keeps_failing_state :
  exists d,
    demo_dispatch_phase 3 demo_dyn_policy tt [] = Ok d /\
    adapted_candidate_flops d = [10%Q; 5%Q; 10%Q; 5%Q; 0%Q; 5%Q] /\
    next_wkl_inst_ids d = [2%nat] /\
    inst_id_disp_map d !! 2%nat = Some 0%nat /\
    selected_candidate_states d !! 0%nat = Some (demo_state 0 "s0" 0) /\
    d_log d = [EvBuild 3].
Proof.
  eexists. split; [vm_compute; reflexivity|]. repeat split; reflexivity.
Qed.

(** *** The sampler, the evolution, the picking and a pass of the final
    check in the small world *)

Definition demo_SampleInitPopulation
    : nat -> DemoPolicy -> list State -> Outcome (list State * DemoPolicy) :=
  SampleInitPopulation unit Z unit unit bool demo_ToStr demo_InferBound
    demo_PruneInvalidState demo_Predict demo_mt19937 demo_rng_next demo_InitApply.

Definition demo_PickStatesWithEpsGreedy
    : DemoPolicy -> list State -> list State -> Z -> list MeasureInput * DemoPolicy :=
  PickStatesWithEpsGreedy unit Z unit unit bool demo_ToStr.

Definition demo_dispatch_pass : DemoPolicy -> unit -> Dispatching -> Outcome Dispatching :=
  dispatch_pass unit Z unit unit unit bool demo_Build demo_dispatch
    demo_MapWklInstsToStates.

(** What the sampler returns for a target of 8 when every sample prints
    alike. *)
Definition demo_sampled : list State * DemoPolicy :=
  returned ([], demo_policy demo_task 8 [] [])
    (demo_SampleInitPopulation 30 (demo_policy demo_task 8 [] []) [empty_state]).

(** What the evolution returns for the population with the twin. *)
Definition demo_best : list State * DemoPolicy :=
  returned ([], demo_policy demo_task 1 [] [])
    (demo_EvolutionarySearch 0 (demo_policy demo_task 1 [] []) demo_population_twin 5).

(** A policy that has measured the state [F] and measures two states a
    round, and what it picks from the population with the twin. *)
Definition demo_picking_policy : DemoPolicy :=
  set_num_measure_per_iter unit Z unit unit bool
    (demo_policy demo_task 1 [] [(demo_state 1 "F" 1, 1%Q)]) 2.

Definition demo_picked : list MeasureInput * DemoPolicy :=
  demo_PickStatesWithEpsGreedy demo_picking_policy demo_population_twin [] 10.

(** The locals of the final check before and after its pass. *)
Definition demo_dispatching_0 : Dispatching :=
  returned
    {| adapted_candidate_flops := []; changed_adapted_candidate_flops := false;
       wkl_inst_ids := []; next_wkl_inst_ids := []; inst_id_disp_map := ∅;
       selected_candidate_states := []; d_log := [] |}
    (dispatch_start unit Z unit unit bool demo_AdaptStateToWorkload demo_dyn_policy []).

Definition demo_dispatching_1 : Dispatching :=
  returned demo_dispatching_0 (demo_dispatch_pass demo_dyn_policy tt demo_dispatching_0).

Lemma EvolutionarySearch_returns_fresh_states_witness :
  NoDup (map demo_ToStr demo_best.1) /\
  forall s, s ∈ demo_best.1 ->
            demo_ToStr s ∉ measured_states_set_ _ _ _ _ _ (demo_policy demo_task 1 [] []).
Proof.
  apply (EvolutionarySearch_returns_fresh_states unit Z unit unit bool demo_ToStr
           demo_InferBound demo_PruneInvalidState demo_Predict
           demo_PredictForAllInstances demo_IsRandomModel demo_uniform_real
           demo_RandomChoose demo_ComputePrefixSumProb Z.div demo_rule_weight
           demo_MutationApply
           0%nat (demo_policy demo_task 1 [] []) demo_best.2 demo_population_twin
           demo_best.1 5).
  vm_compute. reflexivity.
Defined.

Lemma SampleInitPopulation_distinct_states_witness :
  NoDup (map demo_ToStr demo_sampled.1) /\
  sample_init_min_pop_ _ _ _ _ _ demo_sampled.2 <= Z.of_nat (length demo_sampled.1).
Proof.
  apply (SampleInitPopulation_distinct_states unit Z unit unit bool demo_ToStr
           demo_InferBound demo_PruneInvalidState demo_Predict demo_mt19937
           demo_rng_next demo_InitApply
           30%nat (demo_policy demo_task 8 [] []) demo_sampled.2 [empty_state]
           demo_sampled.1).
  vm_compute. reflexivity.
Defined.

Lemma dispatch_pass_zeroes_failed_builds_witness :
  exists test_inputs : list MeasureInput,
    length test_inputs = length (wkl_inst_ids demo_dispatching_0) /\
    next_wkl_inst_ids demo_dispatching_1
    = failed_builds (wkl_inst_ids demo_dispatching_0) (demo_Build tt test_inputs 0) /\
    forall inst_id,
      inst_id ∈ next_wkl_inst_ids demo_dispatching_1 ->
      adapted_candidate_flops demo_dispatching_1
        !! (inst_id * 2 + default 0 (inst_id_disp_map demo_dispatching_1 !! inst_id))%nat
      = Some 0%Q.
Proof.
  apply (dispatch_pass_zeroes_failed_builds unit Z unit unit unit bool demo_Build
           demo_dispatch demo_MapWklInstsToStates
           demo_dyn_policy tt demo_dispatching_0 demo_dispatching_1).
  vm_compute. reflexivity.
Defined.

Lemma PickStatesWithEpsGreedy_picks_new_states_witness :
  Z.of_nat (length demo_picked.1) <= Z.max 0 (Z.min 2 10) /\
  picked_from unit Z unit unit bool demo_ToStr demo_picking_policy
    demo_population_twin [] demo_picked.1 demo_picked.2.
Proof.
  apply (PickStatesWithEpsGreedy_picks_new_states unit Z unit unit bool demo_ToStr
           demo_picking_policy demo_picked.2 demo_population_twin [] 10 demo_picked.1).
  apply surjective_pairing.
Defined.

(** *** The measuring loop, a continued round and the sketches in the small
    world *)

Definition demo_dag_flop_ct (task : SearchTaskNode) : Q := 1.

Definition demo_best_score (m : unit) (key : string) : Q := 1.

Definition demo_tuning_round
    : nat -> Z -> Z -> Z -> Tuning unit Z unit unit unit bool ->
      Outcome (Tuning unit Z unit unit unit bool * bool) :=
  tuning_round unit Z unit unit unit bool demo_ToStr demo_InferBound
    demo_PruneInvalidState demo_Predict demo_PredictForAllInstances demo_IsRandomModel
    demo_mt19937 demo_rng_next demo_uniform_real demo_RandomChoose
    demo_ComputePrefixSumProb demo_Argsort demo_RandomSampleStates Z.div
    demo_MeetCondition demo_SketchApply demo_InitApply demo_rule_weight
    demo_MutationApply demo_Measure demo_best_ct demo_has_valid demo_best_inst_flops
    demo_Update demo_EstimateFlopForInst demo_CherryPickWorkloadInstance
    demo_FloatArrayMean.

Definition demo_ContinueSearchOneRound
    : nat -> DemoPolicy -> Z -> unit -> Outcome (RoundResult unit Z unit unit unit bool) :=
  ContinueSearchOneRound unit Z unit unit unit bool demo_ToStr demo_InferBound
    demo_PruneInvalidState demo_Predict demo_PredictForAllInstances demo_IsRandomModel
    demo_mt19937 demo_rng_next demo_uniform_real demo_RandomChoose
    demo_ComputePrefixSumProb demo_Argsort demo_RandomSampleStates Z.div
    demo_MeetCondition demo_SketchApply demo_InitApply demo_rule_weight
    demo_MutationApply demo_Measure demo_best_inst_flops demo_Update
    demo_EstimateFlopForInst demo_CherryPickWorkloadInstance demo_FloatArrayMean
    demo_dag_flop_ct demo_best_score.

(** The locals of the measuring loop of a policy that measures two states a
    round, before its first turn, and after that turn when the search stops
    as soon as a measurement brings nothing better ([early_stopping = 0]). *)
Definition demo_tuning_0 : Tuning unit Z unit unit unit bool :=
  {| t_policy := set_num_measure_per_iter unit Z unit unit bool
                   (demo_policy demo_task 1 [] []) 2;
     t_measurer := tt; t_log := [EvReset]; ct := 0; t_empty_retry_count := 2;
     t_random_states := []; t_inputs := []; t_results := [] |}.

Definition demo_tuning_1 : Tuning unit Z unit unit unit bool * bool :=
  returned (demo_tuning_0, true) (demo_tuning_round 5 3 0 0 demo_tuning_0).

(** The dynamic task with one weight for its three instances. *)
Definition demo_unweighted_task : SearchTaskNode :=
  {| init_state := empty_state; workload_key := "dense";
     target := cuda; target_host := cuda; hardware_params := v100_params;
     layout_rewrite_option := 0; task_input_names := [];
     shape_vars := Some ["T"%string]; wkl_insts := [[1]; [2]; [3]];
     wkl_inst_weights := [1%Q];
     hardware_api := v100_api |}.

(** The policy on the dynamic task after a round that was left by [break]:
    three states in the vector, two throughputs. *)
Definition demo_stopped_policy : DemoPolicy :=
  {| search_task := demo_dyn_task; program_cost_model := tt; rand_gen := 0;
     params := demo_params 1; verbose := 0; sample_init_min_pop_ := 1;
     sketch_rules := [tt]; init_rules := [tt]; mutation_rules := [];
     sketch_cache_ := [];
     measured_states_set_ := list_to_set ["s0"; "s1"; "s2"]%string;
     measured_states_vector_ :=
       [demo_state 0 "s0" 0; demo_state 1 "s1" 0; demo_state 2 "s2" 0];
     measured_states_throughputs_ := [10%Q; 5%Q];
     num_measure_per_iter_ := 1; n_trials := 2; curr_inst_opt_prob := [] |}.

(** A sketch rule that splits an axis by a factor of 4 and applies rfactor
    to the result. *)
Definition demo_rfactor_SketchApply (rule : unit) (policy : DemoPolicy) (s : State)
    (stage_id : Z) : list (State * Z) :=
  [({| node_addr := node_addr s; stages := stages s;
       transform_steps :=
         transform_steps s
         ++ [SplitStep stage_id 0 (Some (IntImm 64)) [Some 4] true;
             RfactorStep stage_id 0 0] |},
    stage_id - 1)].

Definition demo_rfactor_sketches : list State :=
  returned []
    (GenerateSketches unit Z unit unit bool demo_MeetCondition demo_rfactor_SketchApply
       10 (demo_policy demo_task 1 [] [])).

Lemma Search_measures_within_budget_witness :
  exists r,
    demo_Search 20 (demo_policy demo_task 1 [] []) 3 (-1) 2 tt = Ok r /\
    measured_trials (r_log _ _ _ _ _ _ r) <= Z.max 0 3.
Proof.
  eexists. split; [vm_compute; reflexivity|].
  apply (Search_measures_within_budget unit Z unit unit unit bool demo_ToStr
           demo_InferBound demo_PruneInvalidState demo_Predict
           demo_PredictForAllInstances demo_IsRandomModel demo_mt19937
           demo_rng_next demo_uniform_real demo_RandomChoose
           demo_ComputePrefixSumProb demo_Argsort demo_RandomSampleStates Z.div
           demo_MeetCondition demo_SketchApply demo_InitApply demo_rule_weight
           demo_MutationApply demo_Reset demo_Measure demo_Build demo_best_ct
           demo_has_valid demo_best_states demo_best_inst_flops demo_Update
           demo_EstimateFlopForInst demo_CherryPickWorkloadInstance
           demo_FloatArrayMean demo_AdaptStateToWorkload demo_dispatch
           demo_MapWklInstsToStates
           20%nat (demo_policy demo_task 1 [] []) 3 (-1) 2 tt).
  vm_compute. reflexivity.
Defined.

Lemma measuring_round_records_witness :
  demo_tuning_1.2 = false /\
  length (measured_states_vector_ _ _ _ _ _ (t_policy _ _ _ _ _ _ demo_tuning_1.1))
  = (length (measured_states_throughputs_ _ _ _ _ _
               (t_policy _ _ _ _ _ _ demo_tuning_1.1))
     + (if demo_tuning_1.2 then 0 else length (t_inputs _ _ _ _ _ _ demo_tuning_1.1)))%nat.
Proof.
  split; [vm_compute; reflexivity|].
  apply (measuring_round_records unit Z unit unit unit bool demo_ToStr demo_InferBound
           demo_PruneInvalidState demo_Predict demo_PredictForAllInstances
           demo_IsRandomModel demo_mt19937 demo_rng_next demo_uniform_real
           demo_RandomChoose demo_ComputePrefixSumProb demo_Argsort
           demo_RandomSampleStates Z.div demo_MeetCondition demo_SketchApply
           demo_InitApply demo_rule_weight demo_MutationApply demo_Measure
           demo_best_ct demo_has_valid demo_best_inst_flops demo_Update
           demo_EstimateFlopForInst demo_CherryPickWorkloadInstance demo_FloatArrayMean
           5%nat 3 0 0 demo_tuning_0 demo_tuning_1.1 demo_tuning_1.2).
  - intros m task inputs. apply length_map.
  - reflexivity.
  - vm_compute. reflexivity.
Defined.

Lemma dispatch_start_bounds_witness :
  dispatch_start unit Z unit unit bool demo_AdaptStateToWorkload demo_stopped_policy []
  = Undefined.
Proof.
  apply (proj2 (dispatch_start_bounds unit Z unit unit bool demo_AdaptStateToWorkload
                  demo_stopped_policy [])); cbn; lia.
Defined.

Lemma CalculateInstOptProb_needs_weights_witness :
  is_Ok (CalculateInstOptProb unit Z unit unit unit bool demo_ComputePrefixSumProb
           (fun _ _ => [1%Q; 1%Q; 1%Q]) demo_EstimateFlopForInst
           (demo_policy demo_unweighted_task 1 [] []) tt) = false.
Proof.
  apply (CalculateInstOptProb_needs_weights unit Z unit unit unit bool
           demo_ComputePrefixSumProb (fun _ _ => [1%Q; 1%Q; 1%Q])
           demo_EstimateFlopForInst (demo_policy demo_unweighted_task 1 [] []) tt).
  cbn. lia.
Defined.

Lemma ComputeFlopWeightedLatency_counts_witness :
  length [2%Q; 2%Q; 2%Q] = length (wkl_inst_weights demo_dyn_task) /\
  (length (wkl_insts demo_dyn_task) <= length (wkl_inst_weights demo_dyn_task))%nat.
Proof.
  apply (ComputeFlopWeightedLatency_counts demo_EstimateFlopForInst demo_dyn_task
           [2%Q; 2%Q; 2%Q] (108 # 216)%Q).
  vm_compute. reflexivity.
Defined.

(** What a continued round of two measurements hands back. *)
Definition demo_continued : RoundResult unit Z unit unit unit bool :=
  returned
    {| c_num_measured := 0; c_latency := 0; c_policy := demo_policy demo_task 1 [] [];
       c_measurer := tt; c_log := [] |}
    (demo_ContinueSearchOneRound 5 (demo_policy demo_task 1 [] []) 2 tt).

Lemma ContinueSearchOneRound_records_witness :
  Z.of_nat (c_num_measured _ _ _ _ _ _ demo_continued) <= Z.max 0 2 /\
  length (measured_states_vector_ _ _ _ _ _ (c_policy _ _ _ _ _ _ demo_continued))
  = (length (measured_states_vector_ _ _ _ _ _ (demo_policy demo_task 1 [] []))
     + c_num_measured _ _ _ _ _ _ demo_continued)%nat /\
  length (measured_states_throughputs_ _ _ _ _ _ (c_policy _ _ _ _ _ _ demo_continued))
  = (length (measured_states_throughputs_ _ _ _ _ _ (demo_policy demo_task 1 [] []))
     + c_num_measured _ _ _ _ _ _ demo_continued)%nat.
Proof.
  apply (ContinueSearchOneRound_records unit Z unit unit unit bool demo_ToStr
           demo_InferBound demo_PruneInvalidState demo_Predict
           demo_PredictForAllInstances demo_IsRandomModel demo_mt19937 demo_rng_next
           demo_uniform_real demo_RandomChoose demo_ComputePrefixSumProb demo_Argsort
           demo_RandomSampleStates Z.div demo_MeetCondition demo_SketchApply
           demo_InitApply demo_rule_weight demo_MutationApply demo_Measure
           demo_best_inst_flops demo_Update demo_EstimateFlopForInst
           demo_CherryPickWorkloadInstance demo_FloatArrayMean demo_dag_flop_ct
           demo_best_score
           5%nat (demo_policy demo_task 1 [] []) 2 tt demo_continued).
  - intros m task inputs. apply length_map.
  - vm_compute. reflexivity.
Defined.

Lemma GenerateSketches_frees_rfactor_splits_witness :
  Forall rfactor_ready demo_rfactor_sketches.
Proof.
  apply (GenerateSketches_frees_rfactor_splits unit Z unit unit bool demo_MeetCondition
           demo_rfactor_SketchApply 10%nat (demo_policy demo_task 1 [] [])
           demo_rfactor_sketches).
  vm_compute. reflexivity.
Defined.

(** *** Search on a dynamic task in the small world *)

(** Search with a measurer that knows a best rate for each of the three
    instances. *)
Definition demo_dyn_Search
    : nat -> DemoPolicy -> Z -> Z -> Z -> unit ->
      Outcome (SearchResult unit Z unit unit unit bool) :=
  Search unit Z unit unit unit bool demo_ToStr demo_InferBound
    demo_PruneInvalidState demo_Predict demo_PredictForAllInstances demo_IsRandomModel
    demo_mt19937 demo_rng_next demo_uniform_real demo_RandomChoose
    demo_ComputePrefixSumProb demo_Argsort demo_RandomSampleStates Z.div
    demo_MeetCondition demo_SketchApply demo_InitApply demo_rule_weight
    demo_MutationApply demo_Reset demo_Measure demo_Build demo_best_ct demo_has_valid
    demo_best_states (fun _ _ => [1%Q; 1%Q; 1%Q]) demo_Update demo_EstimateFlopForInst
    demo_CherryPickWorkloadInstance demo_FloatArrayMean demo_AdaptStateToWorkload
    demo_dispatch demo_MapWklInstsToStates.

(** A policy on the dynamic task that has measured one state. *)
Definition demo_tuned_policy : DemoPolicy :=
  demo_policy demo_dyn_task 1 [] [(demo_state 5 "s" 0, 1%Q)].

(** What a search of three trials without early stop returns. *)
Definition demo_dyn_searched : SearchResult unit Z unit unit unit bool :=
  returned
    {| r_states := []; r_inst_id_disp_map := ∅; r_policy := demo_tuned_policy;
       r_measurer := tt; r_log := [] |}
    (demo_dyn_Search 20 demo_tuned_policy 3 (-1) 2 tt).

Lemma Search_returns_with_throughputs_witness :
  length (measured_states_vector_ _ _ _ _ _ (r_policy _ _ _ _ _ _ demo_dyn_searched))
  = length (measured_states_throughputs_ _ _ _ _ _ (r_policy _ _ _ _ _ _ demo_dyn_searched))
  \/ measured_states_throughputs_ _ _ _ _ _ (r_policy _ _ _ _ _ _ demo_dyn_searched) = [].
Proof.
  apply (Search_returns_with_throughputs unit Z unit unit unit bool demo_ToStr
           demo_InferBound demo_PruneInvalidState demo_Predict
           demo_PredictForAllInstances demo_IsRandomModel demo_mt19937
           demo_rng_next demo_uniform_real demo_RandomChoose
           demo_ComputePrefixSumProb demo_Argsort demo_RandomSampleStates Z.div
           demo_MeetCondition demo_SketchApply demo_InitApply demo_rule_weight
           demo_MutationApply demo_Reset demo_Measure demo_Build demo_best_ct
           demo_has_valid demo_best_states (fun _ _ => [1%Q; 1%Q; 1%Q]) demo_Update
           demo_EstimateFlopForInst demo_CherryPickWorkloadInstance
           demo_FloatArrayMean demo_AdaptStateToWorkload demo_dispatch
           demo_MapWklInstsToStates
           20%nat demo_tuned_policy 3 (-1) 2 tt demo_dyn_searched).
  - intros m task inputs. apply length_map.
  - reflexivity.
  - lia.
  - vm_compute. reflexivity.
  - vm_compute. reflexivity.
  - vm_compute. lia.
Defined.

(** The same search told to stop as soon as a measurement brings nothing
    better: it measures one state, leaves the loop before the throughput of
    that state is pushed, and its final check writes past the end of the
    table of adapted scores. *)
Lemma Search_early_stop_overruns :
  demo_dyn_Search 20 demo_tuned_policy 3 0 2 tt = Undefined.
Proof. vm_compute. reflexivity. Qed.

End Policy.

(** * The hardware-aligned configurations of the efficient search

    [hardware/hw_expr_extractor.h] and, of [sketch_policy.cc], the functions
    that enumerate the tile configurations: MemFootPrint,
    ComputeIntensiveThreshold, GetComputeIntensiveRatio, ConfigFilter,
    GetNextConfig, HasNextConfig and EmitConfig. *)

Module Emit.

Import HwConfig Task.

Definition vector_at {A : Type} (l : list A) (i : Z) : Outcome A :=
  if i <? 0 then Undefined
  else match l !! Z.to_nat i with
       | Some a => Ok a
       | None => Undefined
       end.

Definition vector_set {A : Type} (l : list A) (i : Z) (a : A) : Outcome (list A) :=
  if (0 <=? i) && (i <? Z.of_nat (length l)) then Ok (<[Z.to_nat i := a]> l)
  else Undefined.

(** [v.resize(n)] on an empty vector, for an [int n]. *)
Definition resized {A : Type} (n : Z) (a : A) : Outcome (list A) :=
  if n <? 0 then Fatal "std::length_error: vector::_M_default_append"
  else Ok (replicate (Z.to_nat n) a).

(** [std::accumulate(first, last, init, std::multiplies<int>())] and
    [std::accumulate(first, last, init)]. *)
Definition product_from (init : Z) (l : list Z) : Z := foldl Z.mul init l.

Definition sum_from (init : Z) (l : list Z) : Z := foldl Z.add init l.

(** ** HwExprExtractor *)

(** The expressions as the extractor tells them apart.  A producer stands
    by its name hint, an index by the name hint of its variable, [None]
    when the index is not a [VarNode]. *)
#[local] Unset Elimination Schemes.

Inductive Expr : Type :=
| ReduceNode (source : list Expr)
| MulNode (a b : Expr)
| ProducerLoadNode (producer : string) (indices : list (option string))
| OtherNode (type_key : string).

#[local] Set Elimination Schemes.

Record HwExprExtractor : Type := {
  expr_producer : list string;
  expr_indices : list (list (option string))
}.

(** The loop [for (auto expr : op->source) if (!VisitExpr(expr)) return false;]. *)
Definition visit_sources
    (visit : Expr -> HwExprExtractor -> Outcome (bool * HwExprExtractor))
    : list Expr -> HwExprExtractor -> Outcome (bool * HwExprExtractor) :=
  fix go (source : list Expr) (x : HwExprExtractor) :=
    match source with
    | [] => Ok (true, x)
    | expr :: source' =>
        let! (visited, x') := visit expr x in
        if visited : bool then go source' x' else Ok (false, x')
    end.

Section Visitor.

(** What [ExprFunctor] does of a node the extractor does not override. *)
Variable VisitExprDefault : string -> Outcome bool.

(** [HwExprExtractor::VisitExpr], on the extractor [x]. *)
Fixpoint VisitExpr (e : Expr) (x : HwExprExtractor) : Outcome (bool * HwExprExtractor) :=
  match e with
  | ReduceNode source => visit_sources VisitExpr source x
  | MulNode a b =>
      let! (visited, x') := VisitExpr a x in
      if visited : bool then VisitExpr b x' else Ok (false, x')
  | ProducerLoadNode producer indices =>
      Ok (true, {| expr_producer := expr_producer x ++ [producer];
                   expr_indices := expr_indices x ++ [indices] |})
  | OtherNode type_key =>
      let! visited := VisitExprDefault type_key in Ok (visited, x)
  end.

End Visitor.

(** ** MemFootPrint *)

(** [for (j < names.size()) if (name == names[j]) { use *= tiles[j]; break; }] *)
Fixpoint scale_by_tile (name : string) (names : list string) (tiles : list Z) (use : Z)
    : Outcome Z :=
  match names with
  | [] => Ok use
  | n :: names' =>
      if String.eqb name n then
        match tiles with
        | t :: _ => Ok (use * t)
        | [] => Undefined
        end
      else scale_by_tile name names' (tail tiles) use
  end.

(** The body of [for (auto iter_var : extractor.expr_indices[i])]:
    [iter_var.as<VarNode>()] is null for an index that is no variable, and
    is read as soon as there is a name to compare it with. *)
Definition index_use (space_names reduce_names : list string)
    (space_tile reduce_tile : list Z) (iter_var : option string) (use : Z) : Outcome Z :=
  match iter_var with
  | Some name =>
      let! use' := scale_by_tile name space_names space_tile use in
      scale_by_tile name reduce_names reduce_tile use'
  | None =>
      match space_names, reduce_names with
      | [], [] => Ok use
      | _, _ => Undefined
      end
  end.

Fixpoint access_use (space_names reduce_names : list string)
    (space_tile reduce_tile : list Z) (indices : list (option string)) (use : Z)
    : Outcome Z :=
  match indices with
  | [] => Ok use
  | iter_var :: indices' =>
      let! use' := index_use space_names reduce_names space_tile reduce_tile iter_var use in
      access_use space_names reduce_names space_tile reduce_tile indices' use'
  end.

(** The loop [for (i < extractor.expr_indices.size())] over one extractor:
    [producers] and [indices] are what is left of [expr_producer] and
    [expr_indices] from [i] on. *)
Fixpoint count_accesses (space_names reduce_names : list string)
    (space_tile reduce_tile : list Z)
    (producers : list string) (indices : list (list (option string)))
    (visited_producer : list string) (reg_use : Z) : Outcome (list string * Z) :=
  match indices, producers with
  | [], _ => Ok (visited_producer, reg_use)
  | _ :: _, [] => Fatal "IndexError: indexing out of bound"
  | idx :: indices', producer :: producers' =>
      if bool_decide (producer ∈ visited_producer)
      then count_accesses space_names reduce_names space_tile reduce_tile
             producers' indices' visited_producer reg_use
      else
        let! var_reg_use :=
          access_use space_names reduce_names space_tile reduce_tile idx 1 in
        count_accesses space_names reduce_names space_tile reduce_tile
          producers' indices' (visited_producer ++ [producer]) (reg_use + var_reg_use)
  end.

(** The loop [for (auto extractor : expr_extractor)]. *)
Fixpoint count_extractors (space_names reduce_names : list string)
    (space_tile reduce_tile : list Z) (mem_level : Z)
    (expr_extractor : list HwExprExtractor)
    (visited_producer : list string) (reg_use : Z) : Outcome Z :=
  match expr_extractor with
  | [] => Ok reg_use
  | extractor :: rest =>
      let! (visited', reg_use') :=
        count_accesses space_names reduce_names space_tile reduce_tile
          (expr_producer extractor) (expr_indices extractor) visited_producer reg_use in
      count_extractors space_names reduce_names space_tile reduce_tile mem_level rest
        visited'
        (if mem_level =? 2 then product_from 1 space_tile else reg_use')
  end.

Definition MemFootPrint (space_names reduce_names : list string)
    (expr_extractor : list HwExprExtractor) (space_tile reduce_tile : list Z)
    (mem_level tensor_type_size : Z) : Outcome Z :=
  let! reg_use :=
    count_extractors space_names reduce_names space_tile reduce_tile mem_level
      expr_extractor [] 0 in
  Ok (if mem_level =? 1 then reg_use * tensor_type_size else reg_use).

(** ** The cursors of the enumeration *)

(** The iterators [space_ptr] and [reduce_ptr], each by its position in the
    list of tiles it runs over; [end()] is the length of that list. *)
Record Cursor : Type := {
  space_ptr : list nat;
  reduce_ptr : list nat
}.

(** [for (auto ptr : ptrs) tile.push_back( *ptr )] *)
Fixpoint deref_all (ptrs : list nat) (tiles : list (list Z)) : Outcome (list Z) :=
  match ptrs, tiles with
  | [], _ => Ok []
  | _ :: _, [] => Undefined
  | p :: ptrs', t :: tiles' =>
      match t !! p with
      | Some v => let! vs := deref_all ptrs' tiles' in Ok (v :: vs)
      | None => Undefined
      end
  end.

(** [ptrs[i]++]; an iterator at [end()] cannot be incremented. *)
Definition advance (tiles : list (list Z)) (ptrs : list nat) (i : nat)
    : Outcome (list nat) :=
  match ptrs !! i, tiles !! i with
  | Some p, Some t => if (p <? length t)%nat then Ok (<[i := S p]> ptrs) else Undefined
  | _, _ => Undefined
  end.

(** The loop [for (int j = reduce_ptr.size() - 1; j >= 0; j--)] of
    GetNextConfig, from [j] on. *)
Fixpoint carry_reduce (reduce_tiles : list (list Z)) (j : nat) (reduce_ptr : list nat)
    : Outcome (list nat) :=
  match reduce_ptr !! j, reduce_tiles !! j with
  | Some p, Some t =>
      if (p =? length t)%nat then
        match j with
        | O => Ok reduce_ptr
        | S j' =>
            let! reduce_ptr' := advance reduce_tiles (<[j := 0%nat]> reduce_ptr) j' in
            carry_reduce reduce_tiles j' reduce_ptr'
        end
      else Ok reduce_ptr
  | _, _ => Undefined
  end.

(** [ptrs[ptrs.size() - 1]++] *)
Definition advance_last (tiles : list (list Z)) (ptrs : list nat) : Outcome (list nat) :=
  match ptrs with
  | [] => Undefined
  | _ :: _ => advance tiles ptrs (length ptrs - 1)
  end.

(** The loop [for (int i = space_ptr.size() - 1; i >= 0; i--)] of
    GetNextConfig, from [i] on. *)
Fixpoint carry_space (space_tiles reduce_tiles : list (list Z)) (i : nat) (c : Cursor)
    : Outcome Cursor :=
  match space_ptr c !! i, space_tiles !! i with
  | Some p, Some t =>
      if (p =? length t)%nat then
        let space_ptr' := <[i := 0%nat]> (space_ptr c) in
        match i with
        | O =>
            let! reduce_ptr' := advance_last reduce_tiles (reduce_ptr c) in
            let! reduce_ptr'' :=
              carry_reduce reduce_tiles (length reduce_ptr' - 1) reduce_ptr' in
            Ok {| space_ptr := space_ptr'; reduce_ptr := reduce_ptr'' |}
        | S i' =>
            let! space_ptr'' := advance space_tiles space_ptr' i' in
            carry_space space_tiles reduce_tiles i'
              {| space_ptr := space_ptr''; reduce_ptr := reduce_ptr c |}
        end
      else Ok c
  | _, _ => Undefined
  end.

(** [HasNextConfig] *)
Definition HasNextConfig (reduce_ptr : list nat) (reduce_tiles : list (list Z))
    : Outcome bool :=
  match reduce_ptr, reduce_tiles with
  | p :: _, t :: _ => Ok (negb (p =? length t)%nat)
  | _, _ => Undefined
  end.

(** *** The cursors as a counter *)

(** A cursor of [ptrs] over [tiles] read as a number, most significant
    digit first, the digit at [i] counting in base [tiles[i].size()]. *)
Fixpoint digits_value (acc : nat) (ptrs : list nat) (tiles : list (list Z)) : nat :=
  match ptrs, tiles with
  | p :: ptrs', t :: tiles' => digits_value (acc * length t + p) ptrs' tiles'
  | _, _ => acc
  end.

(** The number of combinations of one tile from each list. *)
Definition volume (tiles : list (list Z)) : nat :=
  foldr (fun t n => (length t * n)%nat) 1%nat tiles.

(** Every iterator points to an element. *)
Definition in_range (ptrs : list nat) (tiles : list (list Z)) : Prop :=
  Forall2 (fun (p : nat) (t : list Z) => (p < length t)%nat) ptrs tiles.

(** As [in_range], but the first iterator may be at [end()]. *)
Definition in_range_or_done (ptrs : list nat) (tiles : list (list Z)) : Prop :=
  match ptrs, tiles with
  | p :: ptrs', t :: tiles' => (p <= length t)%nat /\ in_range ptrs' tiles'
  | _, _ => False
  end.

Definition no_empty_list (tiles : list (list Z)) : Prop :=
  Forall (fun t : list Z => (0 < length t)%nat) tiles.

Lemma digits_value_app (acc : nat) (a b : list nat) (ta tb : list (list Z)) :
  length a = length ta ->
  digits_value acc (a ++ b) (ta ++ tb) = digits_value (digits_value acc a ta) b tb.
Proof.
  revert acc ta. induction a as [|p a IH]; intros acc [|t ta] Hlen; try discriminate.
  - reflexivity.
  - cbn. apply IH. cbn in Hlen. lia.
Qed.

Lemma digits_value_zeros (acc : nat) (tiles : list (list Z)) :
  digits_value acc (replicate (length tiles) 0%nat) tiles = (acc * volume tiles)%nat.
Proof.
  revert acc. induction tiles as [|t tiles IH]; intros acc.
  - cbn. lia.
  - change (volume (t :: tiles)) with (length t * volume tiles)%nat.
    cbn [length replicate digits_value]. rewrite IH. nia.
Qed.

Lemma digits_value_acc (acc : nat) (ptrs : list nat) (tiles : list (list Z)) :
  length ptrs = length tiles ->
  digits_value acc ptrs tiles = (acc * volume tiles + digits_value 0 ptrs tiles)%nat.
Proof.
  revert acc tiles. induction ptrs as [|p ptrs IH]; intros acc [|t tiles] Hlen;
    try discriminate.
  - cbn. lia.
  - change (volume (t :: tiles)) with (length t * volume tiles)%nat.
    cbn [digits_value]. cbn in Hlen.
    rewrite (IH (acc * length t + p)%nat), (IH (0 * length t + p)%nat) by lia. nia.
Qed.

Lemma in_range_length (ptrs : list nat) (tiles : list (list Z)) :
  in_range ptrs tiles -> length ptrs = length tiles.
Proof. apply Forall2_length. Qed.

Lemma digits_value_below (ptrs : list nat) (tiles : list (list Z)) :
  in_range ptrs tiles -> (digits_value 0 ptrs tiles < volume tiles)%nat.
Proof.
  induction 1 as [|p t ptrs tiles Hp Hrest IH]; [cbn; lia|].
  change (volume (t :: tiles)) with (length t * volume tiles)%nat.
  cbn [digits_value]. rewrite digits_value_acc by (eapply Forall2_length, Hrest).
  assert (p * volume tiles + volume tiles <= length t * volume tiles)%nat by nia.
  lia.
Qed.

Lemma in_range_zeros (tiles : list (list Z)) :
  no_empty_list tiles -> in_range (replicate (length tiles) 0%nat) tiles.
Proof.
  induction 1 as [|t tiles Ht _ IH]; cbn; constructor; assumption.
Qed.

Lemma in_range_app (a b : list nat) (ta tb : list (list Z)) :
  in_range a ta -> in_range b tb -> in_range (a ++ b) (ta ++ tb).
Proof. apply Forall2_app. Qed.

Lemma insert_middle {A : Type} (l1 l2 : list A) (x y : A) :
  <[length l1 := y]> (l1 ++ x :: l2) = l1 ++ y :: l2.
Proof. induction l1 as [|a l1 IH]; cbn; [reflexivity|]. f_equal. exact IH. Qed.

Lemma deref_all_in_range (ptrs : list nat) (tiles : list (list Z)) :
  in_range ptrs tiles -> exists vs, deref_all ptrs tiles = Ok vs.
Proof.
  induction 1 as [|p t ptrs tiles Hp _ [vs IH]]; cbn; [eauto|].
  destruct (lookup_lt_is_Some_2 t p Hp) as [v ->]. rewrite IH. cbn. eauto.
Qed.

(** What [advance] does of the iterator in the middle. *)
Lemma advance_middle (tf tb : list (list Z)) (t : list Z) (front back : list nat)
    (p : nat) :
  length front = length tf -> (p < length t)%nat ->
  advance (tf ++ t :: tb) (front ++ p :: back) (length front)
  = Ok (front ++ S p :: back).
Proof.
  intros Hlen Hp. unfold advance.
  rewrite list_lookup_middle by reflexivity.
  rewrite list_lookup_middle by exact Hlen.
  destruct (Nat.ltb_spec p (length t)); [|lia].
  rewrite insert_middle. reflexivity.
Qed.

(** The carry over the reduction iterators keeps the value of the cursor
    and leaves every iterator on an element, the first one possibly at
    [end()]. *)
Lemma carry_reduce_spec (front : list nat) :
  forall (tf tb : list (list Z)) (t : list Z) (p : nat),
    in_range front tf -> (p <= length t)%nat -> (0 < length t)%nat ->
    no_empty_list tb ->
    exists reduce_ptr',
      carry_reduce (tf ++ t :: tb) (length front)
        (front ++ p :: replicate (length tb) 0%nat) = Ok reduce_ptr' /\
      digits_value 0 reduce_ptr' (tf ++ t :: tb)
      = digits_value 0 (front ++ p :: replicate (length tb) 0%nat) (tf ++ t :: tb) /\
      in_range_or_done reduce_ptr' (tf ++ t :: tb).
Proof.
  induction front as [|q front IH] using rev_ind; intros tf tb t p Hfront Hp Ht Htb.
  - apply Forall2_nil_inv_l in Hfront as ->. cbn [app length carry_reduce lookup].
    cbn. destruct (Nat.eqb_spec p (length t)) as [->|Hne].
    + eexists. split; [reflexivity|]. split; [reflexivity|].
      split; [lia|apply in_range_zeros, Htb].
    + eexists. split; [reflexivity|]. split; [reflexivity|].
      split; [lia|apply in_range_zeros, Htb].
  - apply Forall2_app_inv_l in Hfront as (tf' & tm & Hfront' & Hq & ->).
    apply Forall2_cons_inv_l in Hq as (m & tnil & Hq & Hnil & ->).
    apply Forall2_nil_inv_l in Hnil as ->.
    pose proof (in_range_length _ _ Hfront') as Hlen.
    assert (Hlen' : length (front ++ [q]) = length (tf' ++ [m]))
      by (rewrite !length_app; cbn; lia).
    assert (Hj : length (front ++ [q]) = S (length front))
      by (rewrite length_app; cbn; lia).
    destruct (Nat.eqb_spec p (length t)) as [->|Hne].
    + rewrite Hj. cbn [carry_reduce]. rewrite <- Hj.
      rewrite list_lookup_middle by reflexivity.
      rewrite list_lookup_middle by exact Hlen'.
      rewrite Nat.eqb_refl. rewrite insert_middle.
      rewrite <- !app_assoc. cbn [app].
      rewrite (advance_middle tf' (t :: tb) m front (0%nat :: replicate (length tb) 0%nat) q
                 Hlen Hq).
      cbn [obind].
      destruct (IH tf' (t :: tb) m (S q) Hfront') as (rp & Hrp & Hval & Hok);
        [lia|lia|constructor; assumption|].
      cbn [length replicate] in Hrp, Hval. exists rp. split; [exact Hrp|].
      split; [|exact Hok]. rewrite Hval.
      rewrite !digits_value_app by exact Hlen. cbn [digits_value].
      f_equal. lia.
    + rewrite Hj. cbn [carry_reduce]. rewrite <- Hj.
      rewrite list_lookup_middle by reflexivity.
      rewrite list_lookup_middle by exact Hlen'.
      destruct (Nat.eqb_spec p (length t)) as [|_]; [contradiction|].
      eexists. split; [reflexivity|]. split; [reflexivity|].
      assert (Hall : in_range ((front ++ [q]) ++ p :: replicate (length tb) 0%nat)
                       ((tf' ++ [m]) ++ t :: tb)).
      { apply in_range_app; [apply in_range_app; [exact Hfront'|repeat constructor; exact Hq]|].
        constructor; [lia|apply in_range_zeros, Htb]. }
      destruct ((front ++ [q]) ++ p :: replicate (length tb) 0%nat) as [|a l] eqn:El;
        [destruct front; discriminate|].
      destruct ((tf' ++ [m]) ++ t :: tb) as [|ta tl] eqn:Et; [inversion Hall|].
      apply Forall2_cons in Hall as [Ha Hl]. split; [lia|exact Hl].
Qed.

Lemma advance_last_spec (tf : list (list Z)) (t : list Z) (front : list nat) (p : nat) :
  length front = length tf -> (p < length t)%nat ->
  advance_last (tf ++ [t]) (front ++ [p]) = Ok (front ++ [S p]).
Proof.
  intros Hlen Hp. unfold advance_last.
  destruct (front ++ [p]) as [|a l] eqn:E; [destruct front; discriminate|].
  rewrite <- E. replace (length (front ++ [p]) - 1)%nat with (length front)
    by (rewrite length_app; cbn; lia).
  apply advance_middle; assumption.
Qed.

Lemma in_range_last (ptrs : list nat) (tiles : list (list Z)) :
  in_range ptrs tiles -> tiles <> [] ->
  exists front p tf t,
    ptrs = front ++ [p] /\ tiles = tf ++ [t] /\ in_range front tf /\ (p < length t)%nat.
Proof.
  intros Hin Hne. destruct (exists_last Hne) as (tf & t & ->).
  apply Forall2_app_inv_r in Hin as (front & pl & Hfront & Hp & ->).
  apply Forall2_cons_inv_r in Hp as (p & pnil & Hp & Hnil & ->).
  apply Forall2_nil_inv_r in Hnil as ->. eauto 10.
Qed.

(** The cursor as one number: the reduction iterators count the turns of
    the space iterators. *)
Definition cursor_value (space_tiles reduce_tiles : list (list Z)) (c : Cursor) : nat :=
  (digits_value 0 (reduce_ptr c) reduce_tiles * volume space_tiles
   + digits_value 0 (space_ptr c) space_tiles)%nat.

Definition cursor_ok (space_tiles reduce_tiles : list (list Z)) (c : Cursor) : Prop :=
  in_range (space_ptr c) space_tiles /\ in_range_or_done (reduce_ptr c) reduce_tiles.

(** The carry over the space iterators, into the reduction iterators when
    it reaches the first, keeps the value of the cursor. *)
Lemma carry_space_spec (reduce_tiles : list (list Z)) (reduce_ptr0 : list nat)
    (front : list nat) :
  in_range reduce_ptr0 reduce_tiles -> reduce_tiles <> [] ->
  forall (tf tb : list (list Z)) (t : list Z) (p : nat),
    in_range front tf -> (p <= length t)%nat -> (0 < length t)%nat ->
    no_empty_list tb ->
    let c := {| space_ptr := front ++ p :: replicate (length tb) 0%nat;
                reduce_ptr := reduce_ptr0 |} in
    exists c',
      carry_space (tf ++ t :: tb) reduce_tiles (length front) c = Ok c' /\
      cursor_value (tf ++ t :: tb) reduce_tiles c'
      = cursor_value (tf ++ t :: tb) reduce_tiles c /\
      cursor_ok (tf ++ t :: tb) reduce_tiles c'.
Proof.
  intros Hr Hrne.
  induction front as [|q front IH] using rev_ind; intros tf tb t p Hfront Hp Ht Htb c;
    subst c.
  - apply Forall2_nil_inv_l in Hfront as ->. cbn [app length carry_space space_ptr lookup].
    cbn [reduce_ptr]. cbn.
    destruct (Nat.eqb_spec p (length t)) as [->|Hne].
    + destruct (in_range_last _ _ Hr Hrne) as (rfront & pl & rtf & tl & -> & -> & Hrf & Hpl).
      pose proof (in_range_length _ _ Hrf) as Hrlen.
      rewrite (advance_last_spec rtf tl rfront pl Hrlen Hpl). cbn [obind].
      replace (length (rfront ++ [S pl]) - 1)%nat with (length rfront)
        by (rewrite length_app; cbn; lia).
      destruct (carry_reduce_spec rfront rtf [] tl (S pl) Hrf) as (rp & Hrp & Hval & Hok);
        [lia|lia|constructor|].
      cbn [length replicate] in Hrp, Hval. rewrite Hrp. cbn [obind].
      eexists. split; [reflexivity|]. split.
      * unfold cursor_value. cbn [reduce_ptr space_ptr]. rewrite Hval.
        rewrite !digits_value_app by exact Hrlen. cbn [digits_value].
        change (volume (t :: tb)) with (length t * volume tb)%nat.
        rewrite !digits_value_zeros. unfold volume. nia.
      * split; [|exact Hok]. cbn [space_ptr].
        constructor; [exact Ht|apply in_range_zeros, Htb].
    + eexists. split; [reflexivity|]. split; [reflexivity|].
      split; cbn [space_ptr reduce_ptr].
      * constructor; [lia|apply in_range_zeros, Htb].
      * destruct Hr as [|a ta l tl Ha Hl]; [congruence|]. split; [lia|exact Hl].
  - apply Forall2_app_inv_l in Hfront as (tf' & tm & Hfront' & Hq & ->).
    apply Forall2_cons_inv_l in Hq as (m & tnil & Hq & Hnil & ->).
    apply Forall2_nil_inv_l in Hnil as ->.
    pose proof (in_range_length _ _ Hfront') as Hlen.
    assert (Hlen' : length (front ++ [q]) = length (tf' ++ [m]))
      by (rewrite !length_app; cbn; lia).
    assert (Hj : length (front ++ [q]) = S (length front))
      by (rewrite length_app; cbn; lia).
    rewrite Hj. cbn [carry_space space_ptr reduce_ptr]. rewrite <- Hj.
    rewrite list_lookup_middle by reflexivity.
    rewrite list_lookup_middle by exact Hlen'.
    destruct (Nat.eqb_spec p (length t)) as [->|Hne].
    + rewrite insert_middle. rewrite <- !app_assoc. cbn [app].
      rewrite (advance_middle tf' (t :: tb) m front (0%nat :: replicate (length tb) 0%nat) q
                 Hlen Hq).
      cbn [obind].
      destruct (IH tf' (t :: tb) m (S q) Hfront') as (c' & Hc' & Hval & Hok);
        [lia|lia|constructor; assumption|].
      cbn [length replicate] in Hc', Hval. exists c'. split; [exact Hc'|].
      split; [|exact Hok]. rewrite Hval. unfold cursor_value.
      cbn [reduce_ptr space_ptr]. f_equal.
      rewrite !digits_value_app by exact Hlen. cbn [digits_value].
      f_equal. lia.
    + eexists. split; [reflexivity|]. split; [reflexivity|].
      split; cbn [space_ptr reduce_ptr].
      * apply in_range_app; [apply in_range_app; [exact Hfront'|repeat constructor; exact Hq]|].
        constructor; [lia|apply in_range_zeros, Htb].
      * destruct Hr as [|a ta l tl Ha Hl]; [congruence|]. split; [lia|exact Hl].
Qed.

Section WithTask.

Set Default Proof Using "Type".

(** [this->search_task]; of its compute DAG, the names of the spatial and of
    the reduction iterators of the first stage of [init_state] that has a
    reduction iterator (of the last stage, when none has), the size in bytes
    of the elements of the first input of the first compute operation (4
    when there is none), and the bodies of the compute operation of the
    first stage with a reduction iterator (none when there is no such
    stage). *)
Variable task : SearchTaskNode.
Variable space_names reduce_names : list string.
Variable tensor_type_size : Z.
Variable reduce_stage_body : list Expr.

Variable VisitExprDefault : string -> Outcome bool.
Variable GetParallelism : list Z -> list Z -> Z.
Variable GetAlignedTile :
  list Z -> list Z -> Z -> list HwExprExtractor -> Outcome (list (list Z) * list (list Z)).

(** The value of an [int] member that was never written. *)
Variable indeterminate : Z.

(** [SketchPolicyNode::ComputeIntensiveThreshold] *)
Definition ComputeIntensiveThreshold (space_tile : list Z) (mem_level : Z) : Outcome Q :=
  let product := product_from 1 space_tile in
  let sum := sum_from 0 space_tile in
  let! bw := array_at (bandwidth (hardware_api task)) (mem_level - 1) in
  let! rate := fdiv (2 * inject_Z product * inject_Z bw) (peak_flops (hardware_api task)) in
  fdiv (inject_Z (product * tensor_type_size))
       (rate - inject_Z (sum * tensor_type_size)).

(** [SketchPolicyNode::GetComputeIntensiveRatio] *)
Definition GetComputeIntensiveRatio (space_tile reduce_tile : list Z)
    (mem_level mem_use : Z) : Outcome Q :=
  let product := product_from (product_from 1 space_tile) reduce_tile in
  let mem_use' := if mem_level =? 2 then sum_from 1 space_tile else mem_use in
  let! compute := fdiv (inject_Z product * 2) (peak_flops (hardware_api task)) in
  let! bw := array_at (bandwidth (hardware_api task)) (mem_level - 1) in
  let! memory := fdiv (1 * inject_Z mem_use' * inject_Z tensor_type_size) (inject_Z bw) in
  fdiv compute memory.

(** [k_threshold] as ConfigFilter stores it. *)
Definition stored_threshold (space_tile : list Z) (mem_level : Z) : Outcome Q :=
  let! k_threshold := ComputeIntensiveThreshold space_tile mem_level in
  if Qltb k_threshold 0
  then let! inverse := fdiv 1 k_threshold in Ok (9999 - inverse)%Q
  else Ok k_threshold.

(** [SketchPolicyNode::ConfigFilter]: the configs of [pnext] after the call. *)
Definition ConfigFilter (pnext : list HwAlignedConfig) (base_config : HwAlignedConfig)
    (expr_extractor : list HwExprExtractor) (space_tile reduce_tile : list Z)
    (mem_level : Z) : Outcome (list HwAlignedConfig) :=
  let api := hardware_api task in
  if mem_level =? 2 then
    let! reg_use := MemFootPrint space_names reduce_names expr_extractor
                      space_tile reduce_tile mem_level tensor_type_size in
    let! cap := array_at (reg_cap api) 1 in
    if cap <? reg_use then Ok pnext
    else
      let! k_threshold := stored_threshold space_tile mem_level in
      let! st0 := resized (num_level api) [] in
      let! rt0 := resized (num_level api) [] in
      let! kt0 := resized (num_level api) 0%Q in
      let! cir0 := resized (num_level api) 0%Q in
      let! ratio := GetComputeIntensiveRatio space_tile reduce_tile mem_level reg_use in
      let! cir := vector_set cir0 (mem_level - 1) ratio in
      let! st := vector_set st0 (mem_level - 1) space_tile in
      let! rt := vector_set rt0 (mem_level - 1) reduce_tile in
      let! kt := vector_set kt0 (mem_level - 1) k_threshold in
      Ok (pnext ++ [{| space_tiles := st; reduce_tiles := rt; k_threshold := kt;
                       compute_intensive_ratio := cir;
                       single_thread_reg_usage := reg_use;
                       space_production_threshold := indeterminate;
                       smem_usage := indeterminate;
                       threads_num := indeterminate |}])
  else if mem_level =? 1 then
    let! smem_use := MemFootPrint space_names reduce_names expr_extractor
                       space_tile reduce_tile mem_level tensor_type_size in
    let! cap := array_at (smem_cap api) 0 in
    if cap <? smem_use then Ok pnext
    else
      let! base_space := vector_at (HwConfig.space_tiles base_config) mem_level in
      let parallelism := GetParallelism space_tile base_space in
      let! regs := array_at (reg_cap api) 0 in
      if regs <? parallelism * single_thread_reg_usage base_config then Ok pnext
      else if 1024 <=? parallelism then Ok pnext
      else
        let! k_threshold := stored_threshold space_tile mem_level in
        let! st0 := resized (num_level api) [] in
        let! rt0 := resized (num_level api) [] in
        let! kt0 := resized (num_level api) 0%Q in
        let! cir0 := resized (num_level api) 0%Q in
        let! base_ratio := vector_at (compute_intensive_ratio base_config) mem_level in
        let! cir1 := vector_set cir0 mem_level base_ratio in
        let! st1 := vector_set st0 mem_level base_space in
        let! base_reduce := vector_at (HwConfig.reduce_tiles base_config) mem_level in
        let! rt1 := vector_set rt0 mem_level base_reduce in
        let! base_k := vector_at (HwConfig.k_threshold base_config) mem_level in
        let! kt1 := vector_set kt0 mem_level base_k in
        let! st := vector_set st1 (mem_level - 1) space_tile in
        let! rt := vector_set rt1 (mem_level - 1) reduce_tile in
        let! kt := vector_set kt1 (mem_level - 1) k_threshold in
        let! _ := if tensor_type_size =? 0 then Undefined else Ok tt in
        let! ratio := GetComputeIntensiveRatio space_tile reduce_tile mem_level
                        (Z.quot smem_use tensor_type_size) in
        let! cir := vector_set cir1 (mem_level - 1) ratio in
        let! partition := array_at (compute_sm_partition api) 0 in
        Ok (pnext ++ [{| space_tiles := st; reduce_tiles := rt; k_threshold := kt;
                         compute_intensive_ratio := cir;
                         single_thread_reg_usage := single_thread_reg_usage base_config;
                         space_production_threshold :=
                           partition * 2 * product_from 1 space_tile;
                         smem_usage := smem_use;
                         threads_num := parallelism |}])
  else Ok pnext.

(** [SketchPolicyNode::GetNextConfig]: the configs of [pnext] after the
    call, the cursor moved on, and the pair of tiles returned. *)
Definition GetNextConfig (pnext : list HwAlignedConfig)
    (expr_extractor : list HwExprExtractor) (base_config : HwAlignedConfig)
    (mem_level : Z) (c : Cursor) (space_tiles reduce_tiles : list (list Z))
    : Outcome (list HwAlignedConfig * Cursor * (list Z * list Z)) :=
  let! space_tile := deref_all (space_ptr c) space_tiles in
  let! reduce_tile := deref_all (reduce_ptr c) reduce_tiles in
  let! space_ptr1 := advance_last space_tiles (space_ptr c) in
  let! pnext' := ConfigFilter pnext base_config expr_extractor space_tile reduce_tile
                   mem_level in
  let last := (length space_ptr1 - 1)%nat in
  let! space_ptr2 :=
    if (length pnext' =? length pnext)%nat then
      match space_tiles !! last with
      | Some t => Ok (<[last := length t]> space_ptr1)
      | None => Undefined
      end
    else Ok space_ptr1 in
  let! c' := carry_space space_tiles reduce_tiles last
               {| space_ptr := space_ptr2; reduce_ptr := reduce_ptr c |} in
  Ok (pnext', c', (space_tile, reduce_tile)).

(** [while (HasNextConfig(reduce_ptr, tiles.second)) GetNextConfig(...)] *)
Fixpoint config_loop (fuel : nat) (pnext : list HwAlignedConfig)
    (expr_extractor : list HwExprExtractor) (base_config : HwAlignedConfig)
    (mem_level : Z) (c : Cursor) (space_tiles reduce_tiles : list (list Z))
    : Outcome (list HwAlignedConfig * Cursor) :=
  match fuel with
  | O => OutOfFuel
  | S fuel' =>
      let! more := HasNextConfig (reduce_ptr c) reduce_tiles in
      if more : bool then
        let! (pnext', c', _) :=
          GetNextConfig pnext expr_extractor base_config mem_level c
            space_tiles reduce_tiles in
        config_loop fuel' pnext' expr_extractor base_config mem_level c'
          space_tiles reduce_tiles
      else Ok (pnext, c)
  end.

(** [has_zero_tiles], once the two loops that set the cursors to [begin()]
    have run. *)
Definition has_zero_tiles (tiles : list (list Z) * list (list Z)) : bool :=
  existsb (fun t => (length t =? 0)%nat) tiles.1
  || existsb (fun t => (length t =? 0)%nat) tiles.2.

Definition begin_of (tiles : list (list Z) * list (list Z)) : Cursor :=
  {| space_ptr := map (fun _ => 0%nat) tiles.1;
     reduce_ptr := map (fun _ => 0%nat) tiles.2 |}.

(** A default-initialised [HwAlignedConfig]. *)
Definition no_base_config : HwAlignedConfig :=
  {| space_tiles := []; reduce_tiles := []; k_threshold := [];
     compute_intensive_ratio := [];
     single_thread_reg_usage := indeterminate;
     space_production_threshold := indeterminate;
     smem_usage := indeterminate; threads_num := indeterminate |}.

(** The loop [for (i < pnow->size())] of EmitConfig, over what is left of
    the configs of [pnow]. *)
Fixpoint refine_all (fuel : nat) (expr_extractor : list HwExprExtractor)
    (mem_level : Z) (pnow pnext : list HwAlignedConfig) : Outcome (list HwAlignedConfig) :=
  match pnow with
  | [] => Ok pnext
  | base_config :: pnow' =>
      let! sbase_tile := vector_at (HwConfig.space_tiles base_config) mem_level in
      let! rbase_tile := vector_at (HwConfig.reduce_tiles base_config) mem_level in
      let! align_tiles := GetAlignedTile sbase_tile rbase_tile mem_level expr_extractor in
      if has_zero_tiles align_tiles
      then refine_all fuel expr_extractor mem_level pnow' pnext
      else
        let! (pnext', _) :=
          config_loop fuel pnext expr_extractor base_config mem_level
            (begin_of align_tiles) align_tiles.1 align_tiles.2 in
        refine_all fuel expr_extractor mem_level pnow' pnext'
  end.

(** The loop [while (mem_level > 0)] of EmitConfig; the vector [pnext]
    points to is empty at the head of every turn. *)
Fixpoint emit_loop (fuel : nat) (expr_extractor : list HwExprExtractor)
    (space_dims reduce_dims : Z) (mem_level : Z) (pnow : list HwAlignedConfig)
    : Outcome (list HwAlignedConfig) :=
  if 0 <? mem_level then
    match fuel with
    | O => OutOfFuel
    | S fuel' =>
        match pnow with
        | [] =>
            let sbase_tile := replicate (Z.to_nat space_dims) 1 in
            let rbase_tile := replicate (Z.to_nat reduce_dims) 1 in
            let! align_tiles :=
              GetAlignedTile sbase_tile rbase_tile mem_level expr_extractor in
            if has_zero_tiles align_tiles
            then emit_loop fuel' expr_extractor space_dims reduce_dims mem_level pnow
            else
              let! (pnext, _) :=
                config_loop fuel' [] expr_extractor no_base_config mem_level
                  (begin_of align_tiles) align_tiles.1 align_tiles.2 in
              emit_loop fuel' expr_extractor space_dims reduce_dims (mem_level - 1) pnext
        | _ :: _ =>
            let! pnext := refine_all fuel' expr_extractor mem_level pnow [] in
            emit_loop fuel' expr_extractor space_dims reduce_dims (mem_level - 1) pnext
        end
    end
  else Ok pnow.

(** The loop [for (auto expr : ...->body)] of EmitConfig: one extractor
    for each expression, whatever its visit answers. *)
Definition extract_all (body : list Expr) : Outcome (list HwExprExtractor) :=
  Filters.omap
    (fun expr =>
       let! (_, extractor) :=
         VisitExpr VisitExprDefault expr {| expr_producer := []; expr_indices := [] |} in
       Ok extractor)
    body.

(** [SketchPolicyNode::EmitConfig] *)
Definition EmitConfig (fuel : nat) (space_dims reduce_dims : Z)
    : Outcome (list HwAlignedConfig) :=
  let! expr_extractor := extract_all reduce_stage_body in
  emit_loop fuel expr_extractor space_dims reduce_dims
    (num_level (hardware_api task)) [].

(** *** Runs that do not depend on fuel *)

Definition fuel_free {A : Type} (o : Outcome A) : Prop := o <> OutOfFuel.

Ltac not_out_of_fuel := unfold fuel_free; discriminate.

Lemma fuel_free_Ok {A : Type} (a : A) : fuel_free (Ok a).
Proof. not_out_of_fuel. Qed.

Lemma fuel_free_Fatal {A : Type} (msg : string) : fuel_free (@Fatal A msg).
Proof. not_out_of_fuel. Qed.

Lemma fuel_free_Undefined {A : Type} : fuel_free (@Undefined A).
Proof. not_out_of_fuel. Qed.

Lemma fuel_free_bind {A B : Type} (m : Outcome A) (k : A -> Outcome B) :
  fuel_free m -> (forall a, fuel_free (k a)) -> fuel_free (obind m k).
Proof.
  intros Hm Hk. destruct m; cbn;
    [apply Hk|not_out_of_fuel|not_out_of_fuel|exfalso; apply Hm; reflexivity].
Qed.

Lemma fuel_free_array_at {A : Type} (l : list A) (i : Z) : fuel_free (array_at l i).
Proof. unfold array_at. destruct (i <? 0), (l !! Z.to_nat i); not_out_of_fuel. Qed.

Lemma fuel_free_vector_at {A : Type} (l : list A) (i : Z) : fuel_free (vector_at l i).
Proof. unfold vector_at. destruct (i <? 0), (l !! Z.to_nat i); not_out_of_fuel. Qed.

Lemma fuel_free_vector_set {A : Type} (l : list A) (i : Z) (a : A) :
  fuel_free (vector_set l i a).
Proof. unfold vector_set. destruct (_ && _); not_out_of_fuel. Qed.

Lemma fuel_free_resized {A : Type} (n : Z) (a : A) : fuel_free (resized n a).
Proof. unfold resized. destruct (n <? 0); not_out_of_fuel. Qed.

Lemma fuel_free_fdiv (a b : Q) : fuel_free (fdiv a b).
Proof. unfold fdiv. destruct (Qnum b =? 0); not_out_of_fuel. Qed.

Create HintDb fuel_free.

#[local] Hint Resolve fuel_free_Ok fuel_free_Fatal fuel_free_Undefined fuel_free_array_at
  fuel_free_vector_at fuel_free_vector_set fuel_free_resized fuel_free_fdiv : fuel_free.

Ltac fuel_free_step :=
  first
    [ solve [auto with fuel_free]
    | apply fuel_free_bind; [|intros]
    | match goal with
      | |- fuel_free (match ?x with _ => _ end) => destruct x
      | |- fuel_free (if ?b then _ else _) => destruct b
      end ].

Lemma fuel_free_scale_by_tile (name : string) (names : list string) (tiles : list Z)
    (use : Z) :
  fuel_free (scale_by_tile name names tiles use).
Proof.
  revert tiles. induction names as [|n names IH]; intros tiles; cbn; [not_out_of_fuel|].
  destruct (String.eqb name n); [destruct tiles; not_out_of_fuel|apply IH].
Qed.

Lemma fuel_free_access_use (sn rn : list string) (st rt : list Z)
    (indices : list (option string)) (use : Z) :
  fuel_free (access_use sn rn st rt indices use).
Proof.
  revert use. induction indices as [|v indices IH]; intros use; cbn; [not_out_of_fuel|].
  apply fuel_free_bind; [|intros; apply IH].
  unfold index_use. destruct v as [name|].
  - apply fuel_free_bind; intros; apply fuel_free_scale_by_tile.
  - destruct sn, rn; not_out_of_fuel.
Qed.

Lemma fuel_free_count_accesses (sn rn : list string) (st rt : list Z)
    (producers : list string) (indices : list (list (option string)))
    (visited : list string) (reg_use : Z) :
  fuel_free (count_accesses sn rn st rt producers indices visited reg_use).
Proof.
  revert producers visited reg_use.
  induction indices as [|idx indices IH]; intros [|p producers] visited reg_use; cbn;
    try not_out_of_fuel.
  destruct (bool_decide _); [apply IH|].
  apply fuel_free_bind; [apply fuel_free_access_use|intros; apply IH].
Qed.

Lemma fuel_free_MemFootPrint (sn rn : list string) (extractors : list HwExprExtractor)
    (st rt : list Z) (mem_level size : Z) :
  fuel_free (MemFootPrint sn rn extractors st rt mem_level size).
Proof.
  unfold MemFootPrint. apply fuel_free_bind; [|intros; not_out_of_fuel].
  generalize (@nil string) as visited. generalize 0 as reg_use.
  induction extractors as [|x extractors IH]; intros reg_use visited; cbn; [not_out_of_fuel|].
  apply fuel_free_bind; [apply fuel_free_count_accesses|].
  intros [visited' reg_use']. apply IH.
Qed.

#[local] Hint Resolve fuel_free_MemFootPrint : fuel_free.

Lemma fuel_free_ComputeIntensiveThreshold (space_tile : list Z) (mem_level : Z) :
  fuel_free (ComputeIntensiveThreshold space_tile mem_level).
Proof. unfold ComputeIntensiveThreshold. repeat fuel_free_step. Qed.

Lemma fuel_free_GetComputeIntensiveRatio (space_tile reduce_tile : list Z)
    (mem_level mem_use : Z) :
  fuel_free (GetComputeIntensiveRatio space_tile reduce_tile mem_level mem_use).
Proof. unfold GetComputeIntensiveRatio. repeat fuel_free_step. Qed.

#[local] Hint Resolve fuel_free_ComputeIntensiveThreshold
  fuel_free_GetComputeIntensiveRatio : fuel_free.

Lemma fuel_free_ConfigFilter (pnext : list HwAlignedConfig) (base_config : HwAlignedConfig)
    (expr_extractor : list HwExprExtractor) (space_tile reduce_tile : list Z)
    (mem_level : Z) :
  fuel_free (ConfigFilter pnext base_config expr_extractor space_tile reduce_tile mem_level).
Proof. unfold ConfigFilter, stored_threshold. repeat fuel_free_step. Qed.

(** *** The enumeration of one level ends *)

Lemma begin_of_zeros (tiles : list (list Z)) :
  map (fun _ : list Z => 0%nat) tiles = replicate (length tiles) 0%nat.
Proof. induction tiles as [|t tiles IH]; cbn; [reflexivity|]. rewrite IH. reflexivity. Qed.

Lemma existsb_no_empty_list (tiles : list (list Z)) :
  existsb (fun t : list Z => (length t =? 0)%nat) tiles = false -> no_empty_list tiles.
Proof.
  induction tiles as [|t tiles IH]; cbn; [constructor|].
  intros H. apply orb_false_iff in H as [Ht Hrest]. constructor; [|apply IH, Hrest].
  apply Nat.eqb_neq in Ht. lia.
Qed.

Lemma has_zero_tiles_false (space_tiles reduce_tiles : list (list Z)) :
  has_zero_tiles (space_tiles, reduce_tiles) = false ->
  no_empty_list space_tiles /\ no_empty_list reduce_tiles.
Proof.
  unfold has_zero_tiles. cbn [fst snd]. intros H. apply orb_false_iff in H as [Hs Hr].
  split; apply existsb_no_empty_list; assumption.
Qed.

(** A call of GetNextConfig on a cursor that points to a combination hands
    that combination to ConfigFilter and, if ConfigFilter returns, moves the
    cursor to a greater one. *)
Lemma GetNextConfig_step (pnext : list HwAlignedConfig)
    (expr_extractor : list HwExprExtractor) (base_config : HwAlignedConfig)
    (mem_level : Z) (c : Cursor) (space_tiles reduce_tiles : list (list Z)) :
  space_tiles <> [] -> reduce_tiles <> [] ->
  in_range (space_ptr c) space_tiles -> in_range (reduce_ptr c) reduce_tiles ->
  exists space_tile reduce_tile,
    deref_all (space_ptr c) space_tiles = Ok space_tile /\
    deref_all (reduce_ptr c) reduce_tiles = Ok reduce_tile /\
    match ConfigFilter pnext base_config expr_extractor space_tile reduce_tile mem_level with
    | Ok pnext' =>
        exists c',
          GetNextConfig pnext expr_extractor base_config mem_level c
            space_tiles reduce_tiles = Ok (pnext', c', (space_tile, reduce_tile)) /\
          cursor_ok space_tiles reduce_tiles c' /\
          (cursor_value space_tiles reduce_tiles c
           < cursor_value space_tiles reduce_tiles c')%nat
    | _ =>
        fuel_free (GetNextConfig pnext expr_extractor base_config mem_level c
                     space_tiles reduce_tiles) /\
        is_Ok (GetNextConfig pnext expr_extractor base_config mem_level c
                 space_tiles reduce_tiles) = false
    end.
Proof.
  intros Hsne Hrne Hs Hr. destruct c as [sp rp]. cbn [space_ptr reduce_ptr] in *.
  destruct (deref_all_in_range _ _ Hs) as [space_tile Hst].
  destruct (deref_all_in_range _ _ Hr) as [reduce_tile Hrt].
  exists space_tile, reduce_tile. split; [exact Hst|]. split; [exact Hrt|].
  destruct (in_range_last _ _ Hs Hsne) as (front & p & tf & t & -> & -> & Hfront & Hp).
  pose proof (in_range_length _ _ Hfront) as Hlen.
  unfold GetNextConfig. cbn [space_ptr reduce_ptr]. rewrite Hst, Hrt. cbn [obind].
  rewrite (advance_last_spec tf t front p Hlen Hp). cbn [obind].
  pose proof (fuel_free_ConfigFilter pnext base_config expr_extractor space_tile
                reduce_tile mem_level) as Hfree.
  destruct (ConfigFilter pnext base_config expr_extractor space_tile reduce_tile mem_level)
    as [pnext'|msg| |]; cbn [obind].
  - replace (length (front ++ [S p]) - 1)%nat with (length front)
      by (rewrite length_app; cbn; lia).
    rewrite list_lookup_middle by exact Hlen. rewrite insert_middle.
    assert (Hmove : forall p2, (p < p2 <= length t)%nat ->
              exists c',
                carry_space (tf ++ [t]) reduce_tiles (length front)
                  {| space_ptr := front ++ [p2]; reduce_ptr := rp |} = Ok c' /\
                cursor_ok (tf ++ [t]) reduce_tiles c' /\
                (cursor_value (tf ++ [t]) reduce_tiles
                   {| space_ptr := front ++ [p]; reduce_ptr := rp |}
                 < cursor_value (tf ++ [t]) reduce_tiles c')%nat).
    { intros p2 Hp2.
      destruct (carry_space_spec reduce_tiles rp front Hr Hrne tf [] t p2 Hfront)
        as (c' & Hc' & Hval & Hok); [lia|lia|constructor|].
      cbn [length replicate] in Hc', Hval. exists c'. split; [exact Hc'|].
      split; [exact Hok|]. rewrite Hval. unfold cursor_value.
      cbn [space_ptr reduce_ptr]. rewrite !digits_value_app by exact Hlen.
      cbn [digits_value]. lia. }
    destruct (length pnext' =? length pnext)%nat; cbn [obind].
    + destruct (Hmove (length t)) as (c' & Hc' & Hok & Hlt); [lia|].
      rewrite Hc'. cbn [obind]. eauto.
    + destruct (Hmove (S p)) as (c' & Hc' & Hok & Hlt); [lia|].
      rewrite Hc'. cbn [obind]. eauto.
  - split; [not_out_of_fuel|reflexivity].
  - split; [not_out_of_fuel|reflexivity].
  - exfalso. apply Hfree. reflexivity.
Qed.

Lemma cursor_value_below (space_tiles reduce_tiles : list (list Z)) (c : Cursor) :
  in_range (space_ptr c) space_tiles -> in_range (reduce_ptr c) reduce_tiles ->
  (cursor_value space_tiles reduce_tiles c < volume reduce_tiles * volume space_tiles)%nat.
Proof.
  intros Hs Hr. unfold cursor_value.
  pose proof (digits_value_below _ _ Hs). pose proof (digits_value_below _ _ Hr). nia.
Qed.

Lemma config_loop_ends (expr_extractor : list HwExprExtractor)
    (base_config : HwAlignedConfig) (mem_level : Z)
    (space_tiles reduce_tiles : list (list Z)) (fuel : nat) :
  space_tiles <> [] -> reduce_tiles <> [] ->
  forall (pnext : list HwAlignedConfig) (c : Cursor),
    cursor_ok space_tiles reduce_tiles c ->
    (volume reduce_tiles * volume space_tiles - cursor_value space_tiles reduce_tiles c
     < fuel)%nat ->
    fuel_free (config_loop fuel pnext expr_extractor base_config mem_level c
                 space_tiles reduce_tiles) /\
    ((forall pn s r,
        is_Ok (ConfigFilter pn base_config expr_extractor s r mem_level) = true) ->
     exists pnext' c',
       config_loop fuel pnext expr_extractor base_config mem_level c
         space_tiles reduce_tiles = Ok (pnext', c') /\
       HasNextConfig (reduce_ptr c') reduce_tiles = Ok false).
Proof.
  intros Hsne Hrne. induction fuel as [|fuel IH]; intros pnext c [Hs Hr] Hfuel; [lia|].
  cbn [config_loop].
  destruct (reduce_ptr c) as [|p0 rest] eqn:Erp; [contradiction|].
  destruct reduce_tiles as [|t0 trest] eqn:Ert; [contradiction|]. rewrite <- Ert in *.
  assert (Hnext : HasNextConfig (p0 :: rest) reduce_tiles
                  = Ok (negb (p0 =? length t0)%nat)) by (rewrite Ert; reflexivity).
  rewrite Hnext. cbn [obind].
  destruct (Nat.eqb_spec p0 (length t0)) as [Hend|Hmore]; cbn [negb].
  - split; [not_out_of_fuel|]. intros _. exists pnext, c. split; [reflexivity|].
    rewrite Erp, Hnext. destruct (Nat.eqb_spec p0 (length t0)); [reflexivity|contradiction].
  - assert (Hr' : in_range (reduce_ptr c) reduce_tiles).
    { rewrite Erp, Ert. rewrite Ert in Hr. destruct Hr as [H0 Hrest].
      constructor; [lia|exact Hrest]. }
    destruct (GetNextConfig_step pnext expr_extractor base_config mem_level c
                space_tiles reduce_tiles Hsne Hrne Hs Hr')
      as (s & r & _ & _ & Hstep).
    pose proof (cursor_value_below _ _ c Hs Hr') as Hbelow.
    destruct (ConfigFilter pnext base_config expr_extractor s r mem_level)
      as [pnext'|msg| |] eqn:Efilter.
    + destruct Hstep as (c' & -> & Hok & Hlt). cbn [obind].
      apply IH; [exact Hok|lia].
    + destruct Hstep as [Hfree Hnot]. split.
      * destruct (GetNextConfig _ _ _ _ _ _ _) as [[[? ?] ?]| | |]; cbn [obind];
          try not_out_of_fuel; try discriminate Hnot; exfalso; apply Hfree; reflexivity.
      * intros Htotal. specialize (Htotal pnext s r). rewrite Efilter in Htotal.
        discriminate Htotal.
    + destruct Hstep as [Hfree Hnot]. split.
      * destruct (GetNextConfig _ _ _ _ _ _ _) as [[[? ?] ?]| | |]; cbn [obind];
          try not_out_of_fuel; try discriminate Hnot; exfalso; apply Hfree; reflexivity.
      * intros Htotal. specialize (Htotal pnext s r). rewrite Efilter in Htotal.
        discriminate Htotal.
    + destruct Hstep as [Hfree Hnot]. split.
      * destruct (GetNextConfig _ _ _ _ _ _ _) as [[[? ?] ?]| | |]; cbn [obind];
          try not_out_of_fuel; try discriminate Hnot; exfalso; apply Hfree; reflexivity.
      * intros Htotal. specialize (Htotal pnext s r). rewrite Efilter in Htotal.
        discriminate Htotal.
Qed.

(** X14.  The loop [while (HasNextConfig(...)) GetNextConfig(...)] of
    EmitConfig over lists of tiles none of which is empty, started with every
    iterator at [begin()], ends after at most as many calls of GetNextConfig
    as there are combinations of one tile from each list: run for more turns
    than that, it has ended, with the failure of a call of ConfigFilter or
    with a result; and when no call of ConfigFilter fails it returns, with
    the first reduction iterator at [end()]. *)
Theorem config_loop_terminates (pnext : list HwAlignedConfig)
    (expr_extractor : list HwExprExtractor) (base_config : HwAlignedConfig)
    (mem_level : Z) (space_tiles reduce_tiles : list (list Z)) (fuel : nat) :
  space_tiles <> [] -> reduce_tiles <> [] ->
  has_zero_tiles (space_tiles, reduce_tiles) = false ->
  (volume reduce_tiles * volume space_tiles < fuel)%nat ->
  config_loop fuel pnext expr_extractor base_config mem_level
    (begin_of (space_tiles, reduce_tiles)) space_tiles reduce_tiles <> OutOfFuel /\
  ((forall pn s r,
      is_Ok (ConfigFilter pn base_config expr_extractor s r mem_level) = true) ->
   exists pnext' c',
     config_loop fuel pnext expr_extractor base_config mem_level
       (begin_of (space_tiles, reduce_tiles)) space_tiles reduce_tiles = Ok (pnext', c') /\
     HasNextConfig (reduce_ptr c') reduce_tiles = Ok false).
Proof.
  intros Hsne Hrne Hzero Hfuel.
  apply has_zero_tiles_false in Hzero as [Hs Hr].
  apply config_loop_ends; [exact Hsne|exact Hrne| |lia].
  unfold begin_of, cursor_ok. cbn [space_ptr reduce_ptr fst snd].
  rewrite !begin_of_zeros. split; [apply in_range_zeros, Hs|].
  pose proof (in_range_zeros _ Hr) as Hzeros.
  destruct Hzeros as [|p t ptrs tiles Hp Hrest]; [congruence|].
  split; [lia|exact Hrest].
Qed.

(** *** What the configs of EmitConfig respect *)

(** The registers of one thread fit [reg_cap[1]]. *)
Definition within_registers (c : HwAlignedConfig) : Prop :=
  exists cap,
    array_at (reg_cap (hardware_api task)) 1 = Ok cap /\
    single_thread_reg_usage c <= cap.

(** The shared memory of a block fits [smem_cap[0]], its threads are fewer
    than 1024 and their registers fit [reg_cap[0]]. *)
Definition within_block (c : HwAlignedConfig) : Prop :=
  exists smem regs,
    array_at (smem_cap (hardware_api task)) 0 = Ok smem /\
    array_at (reg_cap (hardware_api task)) 0 = Ok regs /\
    smem_usage c <= smem /\
    threads_num c < 1024 /\
    threads_num c * single_thread_reg_usage c <= regs.

Ltac statement_only := repeat match goal with x : _ |- _ => clear x end.

Ltac bind_ok H :=
  repeat match type of H with
         | obind ?m _ = Ok _ =>
             let E := fresh "E" in
             destruct m eqn:E; cbn [obind] in H; try discriminate H
         | (if ?b then _ else _) = Ok _ =>
             let E := fresh "E" in destruct b eqn:E
         end.

Lemma ConfigFilter_pushes (pnext : list HwAlignedConfig) (base_config : HwAlignedConfig)
    (expr_extractor : list HwExprExtractor) (space_tile reduce_tile : list Z)
    (mem_level : Z) (pnext' : list HwAlignedConfig) :
  ConfigFilter pnext base_config expr_extractor space_tile reduce_tile mem_level
  = Ok pnext' ->
  pnext' = pnext \/
  exists c,
    pnext' = pnext ++ [c] /\
    ((mem_level = 2 /\ within_registers c) \/
     (mem_level = 1 /\ within_block c /\
      single_thread_reg_usage c = single_thread_reg_usage base_config /\
      is_Ok (vector_at (HwConfig.space_tiles base_config) 1) = true)).
Proof.
  unfold ConfigFilter. intros H.
  destruct (mem_level =? 2) eqn:E2; [|destruct (mem_level =? 1) eqn:E1].
  - apply Z.eqb_eq in E2. bind_ok H; injection H as <-; [left; reflexivity|].
    right. eexists. split; [reflexivity|]. left. split; [exact E2|].
    unfold within_registers. cbn [single_thread_reg_usage].
    repeat match goal with
           | Hlt : (_ <? _) = false |- _ => apply Z.ltb_ge in Hlt
           end.
    eexists. split; [eassumption|lia].
  - apply Z.eqb_eq in E1. subst mem_level.
    bind_ok H; injection H as <-; try (left; reflexivity).
    right. eexists. split; [reflexivity|]. right. split; [reflexivity|].
    repeat match goal with
           | Hlt : (_ <? _) = false |- _ => apply Z.ltb_ge in Hlt
           | Hle : (_ <=? _) = false |- _ => apply Z.leb_gt in Hle
           end.
    split; [|split; [reflexivity|]].
    + unfold within_block. cbn [smem_usage threads_num single_thread_reg_usage].
      do 2 eexists. split; [eassumption|]. split; [eassumption|]. lia.
    + reflexivity.
  - injection H as <-. left. reflexivity.
Qed.

(** What is known of the configs of [pnow] at the head of the turn of
    [mem_level]: none has been pushed above level 2, those of level 2 fit
    the registers of a thread, those of level 1 the block as well. *)
Definition emitted_at (mem_level : Z) (c : HwAlignedConfig) : Prop :=
  if mem_level <=? 0 then within_registers c /\ within_block c
  else if mem_level =? 1 then within_registers c
  else False.

Lemma ConfigFilter_emitted (pnext : list HwAlignedConfig) (base_config : HwAlignedConfig)
    (expr_extractor : list HwExprExtractor) (space_tile reduce_tile : list Z)
    (mem_level : Z) (pnext' : list HwAlignedConfig) :
  0 < mem_level ->
  base_config = no_base_config \/ emitted_at mem_level base_config ->
  Forall (emitted_at (mem_level - 1)) pnext ->
  ConfigFilter pnext base_config expr_extractor space_tile reduce_tile mem_level
  = Ok pnext' ->
  Forall (emitted_at (mem_level - 1)) pnext'.
Proof.
  intros Hpos Hbase Hpnext H.
  apply ConfigFilter_pushes in H as [->|(c & -> & Hc)]; [exact Hpnext|].
  apply Forall_app. split; [exact Hpnext|]. constructor; [|constructor].
  destruct Hc as [[-> Hc]|(-> & Hblock & Hreg & Hspace)].
  - exact Hc.
  - split; [|exact Hblock].
    destruct Hbase as [->|Hbase]; [discriminate Hspace|].
    destruct Hbase as (cap & Hcap & Hle). exists cap. split; [exact Hcap|].
    rewrite Hreg. exact Hle.
Qed.

Lemma config_loop_emitted (fuel : nat) (expr_extractor : list HwExprExtractor)
    (base_config : HwAlignedConfig) (mem_level : Z)
    (space_tiles reduce_tiles : list (list Z)) :
  0 < mem_level ->
  base_config = no_base_config \/ emitted_at mem_level base_config ->
  forall (pnext : list HwAlignedConfig) (c : Cursor) (pnext' : list HwAlignedConfig)
         (c' : Cursor),
    Forall (emitted_at (mem_level - 1)) pnext ->
    config_loop fuel pnext expr_extractor base_config mem_level c
      space_tiles reduce_tiles = Ok (pnext', c') ->
    Forall (emitted_at (mem_level - 1)) pnext'.
Proof.
  intros Hpos Hbase. induction fuel as [|fuel IH]; intros pnext c pnext' c' Hpnext H;
    [discriminate H|].
  cbn [config_loop] in H.
  destruct (HasNextConfig _ _) as [[|]| | |]; cbn [obind] in H; try discriminate H.
  - destruct (GetNextConfig _ _ _ _ _ _ _) as [[[pnext1 c1] tiles]| | |] eqn:Enext;
      cbn [obind] in H; try discriminate H.
    apply IH in H; [exact H|].
    unfold GetNextConfig in Enext. bind_ok Enext.
    all: injection Enext as <- _ _; eapply ConfigFilter_emitted; eassumption.
  - injection H as <- _. exact Hpnext.
Qed.

Lemma refine_all_emitted (fuel : nat) (expr_extractor : list HwExprExtractor)
    (mem_level : Z) (pnow : list HwAlignedConfig) :
  0 < mem_level ->
  Forall (emitted_at mem_level) pnow ->
  forall pnext pnext',
    Forall (emitted_at (mem_level - 1)) pnext ->
    refine_all fuel expr_extractor mem_level pnow pnext = Ok pnext' ->
    Forall (emitted_at (mem_level - 1)) pnext'.
Proof.
  intros Hpos. induction 1 as [|base_config pnow Hbase _ IH]; intros pnext pnext' Hpnext H;
    cbn [refine_all] in H.
  - injection H as <-. exact Hpnext.
  - destruct (vector_at (HwConfig.space_tiles base_config) mem_level); cbn [obind] in H;
      try discriminate H.
    destruct (vector_at (HwConfig.reduce_tiles base_config) mem_level); cbn [obind] in H;
      try discriminate H.
    destruct (GetAlignedTile _ _ _ _) as [align_tiles| | |]; cbn [obind] in H;
      try discriminate H.
    destruct (has_zero_tiles align_tiles); [eapply IH; eassumption|].
    destruct (config_loop _ _ _ _ _ _ _ _) as [[pnext1 c1]| | |] eqn:Eloop;
      cbn [obind] in H; try discriminate H.
    eapply IH; [|exact H].
    eapply config_loop_emitted; [exact Hpos|right; exact Hbase|exact Hpnext|exact Eloop].
Qed.

Lemma emit_loop_emitted (fuel : nat) (expr_extractor : list HwExprExtractor)
    (space_dims reduce_dims : Z) :
  forall (mem_level : Z) (pnow configs : list HwAlignedConfig),
    Forall (emitted_at mem_level) pnow ->
    emit_loop fuel expr_extractor space_dims reduce_dims mem_level pnow = Ok configs ->
    Forall (emitted_at 0) configs.
Proof.
  induction fuel as [|fuel IH]; intros mem_level pnow configs Hpnow H.
  - cbn [emit_loop] in H. destruct (Z.ltb_spec 0 mem_level); [discriminate H|].
    injection H as <-. eapply Forall_impl; [exact Hpnow|].
    intros c. unfold emitted_at. destruct (Z.leb_spec mem_level 0); [|lia].
    cbn. auto.
  - cbn [emit_loop] in H. destruct (Z.ltb_spec 0 mem_level) as [Hpos|Hle].
    + destruct pnow as [|base_config pnow].
      * destruct (GetAlignedTile _ _ _ _) as [align_tiles| | |]; cbn [obind] in H;
          try discriminate H.
        destruct (has_zero_tiles align_tiles); [eapply IH; eassumption|].
        destruct (config_loop _ _ _ _ _ _ _ _) as [[pnext1 c1]| | |] eqn:Eloop;
          cbn [obind] in H; try discriminate H.
        eapply IH; [|exact H].
        eapply config_loop_emitted; [exact Hpos|left; reflexivity|constructor|exact Eloop].
      * destruct (refine_all _ _ _ _ _) as [pnext1| | |] eqn:Erefine;
          cbn [obind] in H; try discriminate H.
        eapply IH; [|exact H].
        eapply refine_all_emitted; [exact Hpos|exact Hpnow|constructor|exact Erefine].
    + injection H as <-. eapply Forall_impl; [exact Hpnow|].
      intros c. unfold emitted_at. destruct (Z.leb_spec mem_level 0); [|lia].
      cbn. auto.
Qed.

(** X15.  Every config that EmitConfig returns, on hardware of any number
    of levels, respects the capacities that ConfigFilter checks: the
    registers of one thread fit [reg_cap[1]], the shared memory of a block
    fits [smem_cap[0]], the block has fewer than 1024 threads and their
    registers fit [reg_cap[0]]. *)
Theorem EmitConfig_within_capacities (fuel : nat) (space_dims reduce_dims : Z)
    (configs : list HwAlignedConfig) :
  EmitConfig fuel space_dims reduce_dims = Ok configs ->
  Forall (fun c => within_registers c /\ within_block c) configs.
Proof.
  unfold EmitConfig. intros H.
  destruct (extract_all _) as [expr_extractor| | |]; cbn [obind] in H; try discriminate H.
  apply emit_loop_emitted in H; [exact H|constructor].
Qed.

(** *** EmitConfig on an empty list of tiles *)

Lemma emit_loop_spins (expr_extractor : list HwExprExtractor)
    (space_dims reduce_dims mem_level : Z) (align_tiles : list (list Z) * list (list Z))
    (fuel : nat) :
  0 < mem_level ->
  GetAlignedTile (replicate (Z.to_nat space_dims) 1) (replicate (Z.to_nat reduce_dims) 1)
    mem_level expr_extractor = Ok align_tiles ->
  has_zero_tiles align_tiles = true ->
  emit_loop fuel expr_extractor space_dims reduce_dims mem_level [] = OutOfFuel.
Proof.
  intros Hpos Htiles Hzero. induction fuel as [|fuel IH]; cbn [emit_loop];
    destruct (Z.ltb_spec 0 mem_level); try lia; [reflexivity|].
  rewrite Htiles. cbn [obind]. rewrite Hzero. exact IH.
Qed.

(** X16.  When one of the lists of tiles that GetAlignedTile answers for
    the base tiles of ones at the first level is empty, EmitConfig never
    returns: the [continue] that follows [has_zero_tiles] goes back to the
    head of [while (mem_level > 0)] without [mem_level--], to the same call
    of GetAlignedTile. *)
Theorem EmitConfig_spins_on_empty_tiles (fuel : nat) (space_dims reduce_dims : Z)
    (expr_extractor : list HwExprExtractor)
    (align_tiles : list (list Z) * list (list Z)) :
  extract_all reduce_stage_body = Ok expr_extractor ->
  0 < num_level (hardware_api task) ->
  GetAlignedTile (replicate (Z.to_nat space_dims) 1) (replicate (Z.to_nat reduce_dims) 1)
    (num_level (hardware_api task)) expr_extractor = Ok align_tiles ->
  has_zero_tiles align_tiles = true ->
  EmitConfig fuel space_dims reduce_dims = OutOfFuel.
Proof.
  intros Hextract Hpos Htiles Hzero. unfold EmitConfig. rewrite Hextract. cbn [obind].
  eapply emit_loop_spins; eassumption.
Qed.

(** *** What the extractor collects *)

Lemma Expr_induction (P : Expr -> Prop) :
  (forall source, Forall P source -> P (ReduceNode source)) ->
  (forall a b, P a -> P b -> P (MulNode a b)) ->
  (forall producer indices, P (ProducerLoadNode producer indices)) ->
  (forall type_key, P (OtherNode type_key)) ->
  forall e, P e.
Proof.
  intros HR HM HL HO. fix IH 1. intros [source|a b|producer indices|type_key].
  - apply HR. induction source as [|e source IHs]; constructor; [apply IH|exact IHs].
  - apply HM; apply IH.
  - apply HL.
  - apply HO.
Qed.

(** The loads of an expression, from left to right, each with its indices. *)
Fixpoint loads (e : Expr) : list (string * list (option string)) :=
  match e with
  | ReduceNode source => flat_map loads source
  | MulNode a b => loads a ++ loads b
  | ProducerLoadNode producer indices => [(producer, indices)]
  | OtherNode _ => []
  end.

(** The expressions made of reductions, products and loads only. *)
Fixpoint only_products (e : Expr) : bool :=
  match e with
  | ReduceNode source => forallb only_products source
  | MulNode a b => only_products a && only_products b
  | ProducerLoadNode _ _ => true
  | OtherNode _ => false
  end.

Definition collected (x : HwExprExtractor) (l : list (string * list (option string)))
    : HwExprExtractor :=
  {| expr_producer := expr_producer x ++ map fst l;
     expr_indices := expr_indices x ++ map snd l |}.

Lemma collected_nil (x : HwExprExtractor) : collected x [] = x.
Proof. destruct x. unfold collected. cbn. rewrite !app_nil_r. reflexivity. Qed.

Lemma collected_app (x : HwExprExtractor) (l1 l2 : list (string * list (option string))) :
  collected (collected x l1) l2 = collected x (l1 ++ l2).
Proof. unfold collected. cbn. rewrite !map_app, !app_assoc. reflexivity. Qed.

Lemma VisitExpr_only_products (e : Expr) :
  forall x, only_products e = true ->
            VisitExpr VisitExprDefault e x = Ok (true, collected x (loads e)).
Proof.
  induction e as [source IH|a b IHa IHb|producer indices|type_key] using Expr_induction;
    intros x Hok; cbn [VisitExpr loads only_products] in *.
  - revert x. induction IH as [|e source He _ IHs]; intros x; cbn [visit_sources flat_map].
    + rewrite collected_nil. reflexivity.
    + cbn [forallb] in Hok. apply andb_true_iff in Hok as [Hoe Hos].
      rewrite (He x Hoe). cbn [obind]. rewrite (IHs Hos), collected_app. reflexivity.
  - apply andb_true_iff in Hok as [Hoa Hob].
    rewrite (IHa x Hoa). cbn [obind]. rewrite (IHb _ Hob), collected_app. reflexivity.
  - reflexivity.
  - discriminate Hok.
Qed.

Lemma VisitExpr_extends (e : Expr) :
  forall x visited x',
    VisitExpr VisitExprDefault e x = Ok (visited, x') -> exists l, x' = collected x l.
Proof.
  induction e as [source IH|a b IHa IHb|producer indices|type_key] using Expr_induction;
    intros x visited x' H; cbn [VisitExpr] in H.
  - revert x H. induction IH as [|e source He _ IHs]; intros x H; cbn [visit_sources] in H.
    + injection H as _ <-. exists []. rewrite collected_nil. reflexivity.
    + destruct (VisitExpr VisitExprDefault e x) as [[ve xe]| | |] eqn:Ee; cbn [obind] in H;
        try discriminate H.
      apply He in Ee as [l1 ->]. destruct ve.
      * apply IHs in H as [l2 ->]. exists (l1 ++ l2). apply collected_app.
      * injection H as _ <-. eauto.
  - destruct (VisitExpr VisitExprDefault a x) as [[va xa]| | |] eqn:Ea; cbn [obind] in H;
      try discriminate H.
    apply IHa in Ea as [l1 ->]. destruct va.
    + apply IHb in H as [l2 ->]. exists (l1 ++ l2). apply collected_app.
    + injection H as _ <-. eauto.
  - injection H as _ <-. exists [(producer, indices)]. reflexivity.
  - destruct (VisitExprDefault type_key); cbn [obind] in H; try discriminate H.
    injection H as _ <-. exists []. rewrite collected_nil. reflexivity.
Qed.

(** X17.  On an expression made of reductions, products and loads only,
    [HwExprExtractor::VisitExpr] answers true and appends to
    [expr_producer] and [expr_indices] the producers and the indices of the
    loads of the expression, from left to right.  On any expression, a visit
    that returns has only appended, and as many producers as lists of
    indices: entry [i] of [expr_indices] belongs to entry [i] of
    [expr_producer]. *)
Theorem VisitExpr_collects (e : Expr) (x : HwExprExtractor) :
  (only_products e = true ->
   VisitExpr VisitExprDefault e x = Ok (true, collected x (loads e))) /\
  (forall visited x',
     VisitExpr VisitExprDefault e x = Ok (visited, x') ->
     exists l,
       expr_producer x' = expr_producer x ++ map fst l /\
       expr_indices x' = expr_indices x ++ map snd l).
Proof.
  split; [apply VisitExpr_only_products|].
  intros visited x' H. apply VisitExpr_extends in H as [l ->]. exists l. split; reflexivity.
Qed.

(** *** What MemFootPrint counts *)

(** The loads of an extractor, each producer with its indices. *)
Definition accesses (x : HwExprExtractor) : list (string * list (option string)) :=
  combine (expr_producer x) (expr_indices x).

(** The first load of each producer, in the order of the loads. *)
Fixpoint first_by_producer (l : list (string * list (option string)))
    : list (string * list (option string)) :=
  match l with
  | [] => []
  | a :: l' => a :: filter (fun b : string * list (option string) => b.1 <> a.1)
                      (first_by_producer l')
  end.

(** The loop of [count_accesses] over the loads of all the extractors. *)
Fixpoint count_loads (sn rn : list string) (st rt : list Z)
    (l : list (string * list (option string))) (visited : list string) (reg_use : Z)
    : Outcome (list string * Z) :=
  match l with
  | [] => Ok (visited, reg_use)
  | (producer, idx) :: l' =>
      if bool_decide (producer ∈ visited) then count_loads sn rn st rt l' visited reg_use
      else
        let! var_reg_use := access_use sn rn st rt idx 1 in
        count_loads sn rn st rt l' (visited ++ [producer]) (reg_use + var_reg_use)
  end.

Lemma count_accesses_loads (sn rn : list string) (st rt : list Z)
    (producers : list string) (indices : list (list (option string))) :
  forall visited reg_use r,
    count_accesses sn rn st rt producers indices visited reg_use = Ok r ->
    count_loads sn rn st rt (combine producers indices) visited reg_use = Ok r.
Proof.
  revert producers. induction indices as [|idx indices IH];
    intros [|p producers] visited reg_use r H; cbn [count_accesses combine count_loads] in *;
    try exact H; try discriminate H.
  destruct (bool_decide (p ∈ visited)); [apply IH, H|].
  destruct (access_use sn rn st rt idx 1); cbn [obind] in *; try discriminate H.
  apply IH, H.
Qed.

Lemma count_loads_app (sn rn : list string) (st rt : list Z)
    (l1 l2 : list (string * list (option string))) :
  forall visited reg_use visited1 reg_use1,
    count_loads sn rn st rt l1 visited reg_use = Ok (visited1, reg_use1) ->
    count_loads sn rn st rt (l1 ++ l2) visited reg_use
    = count_loads sn rn st rt l2 visited1 reg_use1.
Proof.
  induction l1 as [|[p idx] l1 IH]; intros visited reg_use visited1 reg_use1 H;
    cbn [count_loads app] in *.
  - injection H as <- <-. reflexivity.
  - destruct (bool_decide (p ∈ visited)); [apply IH, H|].
    destruct (access_use sn rn st rt idx 1); cbn [obind] in *; try discriminate H.
    apply IH, H.
Qed.

Lemma count_extractors_loads (sn rn : list string) (st rt : list Z) (mem_level : Z)
    (extractors : list HwExprExtractor) :
  mem_level <> 2 ->
  forall visited reg_use r,
    count_extractors sn rn st rt mem_level extractors visited reg_use = Ok r ->
    exists visited',
      count_loads sn rn st rt (flat_map accesses extractors) visited reg_use
      = Ok (visited', r).
Proof.
  intros Hlevel. induction extractors as [|x extractors IH]; intros visited reg_use r H;
    cbn [count_extractors flat_map] in *.
  - injection H as <-. exists visited. reflexivity.
  - destruct (count_accesses sn rn st rt (expr_producer x) (expr_indices x) visited reg_use)
      as [[visited1 reg_use1]| | |] eqn:E; cbn [obind] in H; try discriminate H.
    apply count_accesses_loads in E. destruct (Z.eqb_spec mem_level 2); [contradiction|].
    apply IH in H as [visited' H]. exists visited'.
    unfold accesses at 1. rewrite (count_loads_app _ _ _ _ _ _ _ _ _ _ E). exact H.
Qed.

Lemma count_loads_first (sn rn : list string) (st rt : list Z)
    (l : list (string * list (option string))) :
  forall visited reg_use visited' reg_use',
    count_loads sn rn st rt l visited reg_use = Ok (visited', reg_use') ->
    exists uses,
      Filters.omap (fun a : string * list (option string) => access_use sn rn st rt a.2 1)
        (filter (fun a : string * list (option string) => a.1 ∉ visited)
           (first_by_producer l)) = Ok uses /\
      reg_use' = reg_use + foldr Z.add 0 uses.
Proof.
  statement_only.
  induction l as [|[p idx] l IH]; intros visited reg_use visited' reg_use' H;
    cbn [count_loads first_by_producer] in *.
  - injection H as _ <-. exists []. split; [reflexivity|]. cbn. lia.
  - destruct (bool_decide_reflect (p ∈ visited)) as [Hin|Hnot].
    + rewrite filter_cons_False by (cbn; tauto).
      rewrite list_filter_filter_l
        by (intros a Ha Heq; apply Ha; cbn in Heq; rewrite Heq; exact Hin).
      eapply IH, H.
    + rewrite filter_cons_True by exact Hnot.
      destruct (access_use sn rn st rt idx 1) as [u| | |] eqn:Eu; cbn [obind] in H;
        try discriminate H.
      apply IH in H as (uses & Huses & ->).
      rewrite list_filter_filter.
      rewrite (list_filter_iff _ (fun a : string * list (option string) =>
                                    a.1 ∉ visited ++ [p])).
      * cbn [Filters.omap snd]. rewrite Eu. cbn [obind]. rewrite Huses. cbn [obind].
        eexists. split; [reflexivity|]. cbn [foldr]. lia.
      * intros a. cbn. rewrite elem_of_app, list_elem_of_singleton. tauto.
Qed.

Lemma filter_all {A : Type} (P : A -> Prop) `{!forall a, Decision (P a)} (l : list A) :
  (forall a, P a) -> filter P l = l.
Proof.
  intros HP. induction l as [|a l IH]; [reflexivity|].
  rewrite filter_cons_True by apply HP. rewrite IH. reflexivity.
Qed.

Lemma count_extractors_level_2 (sn rn : list string) (st rt : list Z)
    (extractors : list HwExprExtractor) :
  forall visited r,
    count_extractors sn rn st rt 2 extractors visited (product_from 1 st) = Ok r ->
    r = product_from 1 st.
Proof.
  induction extractors as [|x extractors IH]; intros visited r H;
    cbn [count_extractors] in H.
  - injection H as <-. reflexivity.
  - destruct (count_accesses _ _ _ _ _ _ _ _) as [[visited1 reg_use1]| | |];
      cbn [obind] in H; try discriminate H.
    eapply IH, H.
Qed.

(** X18.  What MemFootPrint returns.  At level 2, with an expression to
    look at, the product of the space tiles, whatever is loaded.  At any
    other level, the sum over the producers loaded, each counted once and
    for its first load, of the product of the tiles of the iterators that
    index this load; times the size of an element at level 1. *)
Theorem MemFootPrint_counts (sn rn : list string) (extractors : list HwExprExtractor)
    (st rt : list Z) (mem_level tensor_size r : Z) :
  MemFootPrint sn rn extractors st rt mem_level tensor_size = Ok r ->
  (mem_level = 2 -> extractors <> [] -> r = product_from 1 st) /\
  (mem_level <> 2 ->
   exists uses,
     Filters.omap (fun a : string * list (option string) => access_use sn rn st rt a.2 1)
       (first_by_producer (flat_map accesses extractors)) = Ok uses /\
     r = foldr Z.add 0 uses * (if mem_level =? 1 then tensor_size else 1)).
Proof.
  statement_only. unfold MemFootPrint. intros H.
  destruct (count_extractors sn rn st rt mem_level extractors [] 0) as [reg_use| | |] eqn:E;
    cbn [obind] in H; try discriminate H.
  injection H as <-. split.
  - intros -> Hne. cbn. destruct extractors as [|x extractors]; [contradiction|].
    cbn [count_extractors] in E.
    destruct (count_accesses _ _ _ _ _ _ _ _) as [[visited1 reg_use1]| | |];
      cbn [obind] in E; try discriminate E.
    eapply count_extractors_level_2, E.
  - intros Hlevel. apply (count_extractors_loads _ _ _ _ _ _ Hlevel) in E as [visited' E].
    apply count_loads_first in E as (uses & Huses & ->).
    rewrite filter_all in Huses by (intros a; apply not_elem_of_nil).
    exists uses. split; [exact Huses|].
    destruct (mem_level =? 1); lia.
Qed.

(** *** The shape of the configs of EmitConfig *)

Lemma deref_all_length (ptrs : list nat) (tiles : list (list Z)) (vs : list Z) :
  deref_all ptrs tiles = Ok vs -> length vs = length ptrs.
Proof.
  revert tiles vs. induction ptrs as [|p ptrs IH]; intros [|t tiles] vs H;
    cbn [deref_all] in H; try discriminate H; try (injection H as <-; reflexivity).
  destruct (t !! p); [|discriminate H].
  destruct (deref_all ptrs tiles) as [vs'| | |] eqn:E; cbn [obind] in H; try discriminate H.
  injection H as <-. cbn [length]. f_equal. eapply IH, E.
Qed.

Lemma advance_length (tiles : list (list Z)) (ptrs ptrs' : list nat) (i : nat) :
  advance tiles ptrs i = Ok ptrs' -> length ptrs' = length ptrs.
Proof.
  unfold advance. destruct (ptrs !! i), (tiles !! i); try discriminate.
  destruct (_ <? _)%nat; [|discriminate]. intros [= <-]. apply length_insert.
Qed.

Lemma advance_last_length (tiles : list (list Z)) (ptrs ptrs' : list nat) :
  advance_last tiles ptrs = Ok ptrs' -> length ptrs' = length ptrs.
Proof. unfold advance_last. destruct ptrs; [discriminate|]. apply advance_length. Qed.

Ltac case_head H :=
  repeat match type of H with
         | match ?x with _ => _ end = Ok _ =>
             let E := fresh "E" in destruct x eqn:E; try discriminate H
         | obind ?m _ = Ok _ =>
             let E := fresh "E" in
             destruct m eqn:E; cbn [obind] in H; try discriminate H
         end.

Lemma carry_reduce_length (reduce_tiles : list (list Z)) (j : nat) :
  forall ptrs ptrs',
    carry_reduce reduce_tiles j ptrs = Ok ptrs' -> length ptrs' = length ptrs.
Proof.
  induction j as [|j IH]; intros ptrs ptrs' H; cbn [carry_reduce] in H; case_head H;
    try (injection H as <-; reflexivity).
  apply IH in H.
  match goal with
  | E : advance _ _ _ = Ok _ |- _ => apply advance_length in E; rewrite length_insert in E
  end.
  congruence.
Qed.

Lemma carry_space_lengths (space_tiles reduce_tiles : list (list Z)) (i : nat) :
  forall c c',
    carry_space space_tiles reduce_tiles i c = Ok c' ->
    length (space_ptr c') = length (space_ptr c) /\
    length (reduce_ptr c') = length (reduce_ptr c).
Proof.
  induction i as [|i IH]; intros c c' H; cbn [carry_space] in H; case_head H;
    try (injection H as <-; split; reflexivity).
  - injection H as <-. cbn [space_ptr reduce_ptr]. rewrite length_insert.
    repeat match goal with
           | E : advance_last _ _ = Ok _ |- _ => apply advance_last_length in E
           | E : carry_reduce _ _ _ = Ok _ |- _ => apply carry_reduce_length in E
           end.
    split; [reflexivity|congruence].
  - apply IH in H as [Hs Hr]. cbn [space_ptr reduce_ptr] in *.
    match goal with
    | E : advance _ _ _ = Ok _ |- _ => apply advance_length in E; rewrite length_insert in E
    end.
    split; congruence.
Qed.

Lemma GetNextConfig_call (pnext : list HwAlignedConfig)
    (expr_extractor : list HwExprExtractor) (base_config : HwAlignedConfig)
    (mem_level : Z) (c : Cursor) (space_tiles reduce_tiles : list (list Z))
    (pnext' : list HwAlignedConfig) (c' : Cursor) (tile : list Z * list Z) :
  GetNextConfig pnext expr_extractor base_config mem_level c space_tiles reduce_tiles
  = Ok (pnext', c', tile) ->
  ConfigFilter pnext base_config expr_extractor tile.1 tile.2 mem_level = Ok pnext' /\
  length tile.1 = length (space_ptr c) /\
  length tile.2 = length (reduce_ptr c) /\
  length (space_ptr c') = length (space_ptr c) /\
  length (reduce_ptr c') = length (reduce_ptr c).
Proof.
  unfold GetNextConfig. intros H.
  destruct (deref_all (space_ptr c) space_tiles) as [s| | |] eqn:Es; cbn [obind] in H;
    try discriminate H.
  destruct (deref_all (reduce_ptr c) reduce_tiles) as [r| | |] eqn:Er; cbn [obind] in H;
    try discriminate H.
  destruct (advance_last space_tiles (space_ptr c)) as [sp1| | |] eqn:E1; cbn [obind] in H;
    try discriminate H.
  destruct (ConfigFilter pnext base_config expr_extractor s r mem_level) as [pn| | |]
    eqn:Ef; cbn [obind] in H; try discriminate H.
  match type of H with
  | obind ?m _ = _ => destruct m as [sp2| | |] eqn:E2; cbn [obind] in H; try discriminate H
  end.
  match type of H with
  | obind ?m _ = _ => destruct m as [c2| | |] eqn:Ec; cbn [obind] in H; try discriminate H
  end.
  injection H as <- <- <-. cbn [fst snd].
  apply deref_all_length in Es, Er. apply advance_last_length in E1.
  apply carry_space_lengths in Ec as [Hs Hr]. cbn [space_ptr reduce_ptr] in Hs, Hr.
  assert (length sp2 = length sp1).
  { destruct (length pn =? length pnext)%nat; [|congruence].
    destruct (space_tiles !! (length sp1 - 1)%nat); [|discriminate E2]. injection E2 as <-.
    apply length_insert. }
  split; [exact Ef|]. repeat split; congruence.
Qed.

Lemma vector_set_Ok {A : Type} (l l' : list A) (i : Z) (a : A) :
  vector_set l i a = Ok l' -> l' = <[Z.to_nat i := a]> l.
Proof. unfold vector_set. destruct (_ && _); [|discriminate]. intros [= <-]. reflexivity. Qed.

Lemma vector_at_Ok {A : Type} (l : list A) (i : Z) (a : A) :
  vector_at l i = Ok a -> l !! Z.to_nat i = Some a.
Proof.
  unfold vector_at. destruct (i <? 0); [discriminate|].
  destruct (l !! Z.to_nat i); [|discriminate]. intros [= <-]. reflexivity.
Qed.

Lemma resized_Ok {A : Type} (n : Z) (a : A) (l : list A) :
  resized n a = Ok l -> l = replicate (Z.to_nat n) a.
Proof. unfold resized. destruct (n <? 0); [discriminate|]. intros [= <-]. reflexivity. Qed.

(** The numbers of tiles a config holds at each level: none but at the
    levels given. *)
Definition tile_counts (levels : list (nat * nat)) : list nat :=
  foldr (fun (level : nat * nat) counts => <[level.1 := level.2]> counts)
    (replicate (Z.to_nat (num_level (hardware_api task))) 0%nat) levels.

Lemma ConfigFilter_shape (pnext : list HwAlignedConfig) (base_config : HwAlignedConfig)
    (expr_extractor : list HwExprExtractor) (space_tile reduce_tile : list Z)
    (mem_level : Z) (pnext' : list HwAlignedConfig) :
  ConfigFilter pnext base_config expr_extractor space_tile reduce_tile mem_level
  = Ok pnext' ->
  pnext' = pnext \/
  exists c,
    pnext' = pnext ++ [c] /\
    ((mem_level = 2 /\
      map length (HwConfig.space_tiles c) = tile_counts [(1%nat, length space_tile)] /\
      map length (HwConfig.reduce_tiles c) = tile_counts [(1%nat, length reduce_tile)]) \/
     (mem_level = 1 /\
      exists base_space base_reduce,
        HwConfig.space_tiles base_config !! 1%nat = Some base_space /\
        HwConfig.reduce_tiles base_config !! 1%nat = Some base_reduce /\
        map length (HwConfig.space_tiles c)
        = tile_counts [(0%nat, length space_tile); (1%nat, length base_space)] /\
        map length (HwConfig.reduce_tiles c)
        = tile_counts [(0%nat, length reduce_tile); (1%nat, length base_reduce)])).
Proof.
  unfold ConfigFilter. intros H.
  destruct (mem_level =? 2) eqn:E2; [|destruct (mem_level =? 1) eqn:E1].
  - apply Z.eqb_eq in E2. subst mem_level.
    bind_ok H; injection H as <-; [left; reflexivity|].
    right. eexists. split; [reflexivity|]. left. split; [reflexivity|].
    cbn [HwConfig.space_tiles HwConfig.reduce_tiles].
    repeat match goal with
           | Hs : vector_set _ _ _ = Ok _ |- _ => apply vector_set_Ok in Hs; subst
           | Hr : resized _ _ = Ok _ |- _ => apply resized_Ok in Hr; subst
           end.
    unfold tile_counts. cbn [foldr fst snd].
    change (Z.to_nat (2 - 1)) with 1%nat.
    rewrite !list_fmap_insert, !fmap_replicate. split; reflexivity.
  - apply Z.eqb_eq in E1. subst mem_level.
    bind_ok H; injection H as <-; try (left; reflexivity).
    right. eexists. split; [reflexivity|]. right. split; [reflexivity|].
    cbn [HwConfig.space_tiles HwConfig.reduce_tiles].
    repeat match goal with
           | Hs : vector_set _ _ _ = Ok _ |- _ => apply vector_set_Ok in Hs; subst
           | Hr : resized _ _ = Ok _ |- _ => apply resized_Ok in Hr; subst
           end.
    repeat match goal with
           | Hv : vector_at _ 1 = Ok _ |- _ =>
               apply vector_at_Ok in Hv; change (Z.to_nat 1) with 1%nat in Hv
           end.
    do 2 eexists. split; [eassumption|]. split; [eassumption|].
    unfold tile_counts. cbn [foldr fst snd].
    change (Z.to_nat (1 - 1)) with 0%nat. change (Z.to_nat 1) with 1%nat.
    rewrite !list_fmap_insert, !fmap_replicate. split; reflexivity.
  - injection H as <-. left. reflexivity.
Qed.

Section Shape.

(** Of GetAlignedTile, whose source pushes one list of tiles for every
    entry of the base tiles it is given, at the levels 1 and 2. *)
Hypothesis GetAlignedTile_sizes :
  forall sbase_tile rbase_tile mem_level expr_extractor align_tiles,
    mem_level = 1 \/ mem_level = 2 ->
    GetAlignedTile sbase_tile rbase_tile mem_level expr_extractor = Ok align_tiles ->
    length align_tiles.1 = length sbase_tile /\ length align_tiles.2 = length rbase_tile.

Variable space_dims reduce_dims : Z.

(** The shape of the configs of [pnow] at the head of the turn of
    [mem_level]. *)
Definition shaped_at (mem_level : Z) (c : HwAlignedConfig) : Prop :=
  let sd := Z.to_nat space_dims in
  let rd := Z.to_nat reduce_dims in
  if mem_level <=? 0 then
    map length (HwConfig.space_tiles c) = tile_counts [(0%nat, sd); (1%nat, sd)] /\
    map length (HwConfig.reduce_tiles c) = tile_counts [(0%nat, rd); (1%nat, rd)]
  else if mem_level =? 1 then
    map length (HwConfig.space_tiles c) = tile_counts [(1%nat, sd)] /\
    map length (HwConfig.reduce_tiles c) = tile_counts [(1%nat, rd)]
  else False.

(** The base tiles a turn starts from: those of ones for [no_base_config],
    those of level [mem_level] of a config of [pnow]. *)
Definition base_of (mem_level : Z) (base_config : HwAlignedConfig)
    (space_tiles reduce_tiles : list (list Z)) : Prop :=
  (base_config = no_base_config /\
   length space_tiles = Z.to_nat space_dims /\ length reduce_tiles = Z.to_nat reduce_dims) \/
  (shaped_at mem_level base_config /\
   length space_tiles = Z.to_nat space_dims /\ length reduce_tiles = Z.to_nat reduce_dims).

Lemma tile_counts_lookup_1 (n : nat) (l : list (list Z)) (x : list Z) :
  map length l = tile_counts [(1%nat, n)] -> l !! 1%nat = Some x -> length x = n.
Proof.
  intros Hmap Hx. assert (H : map length l !! 1%nat = Some (length x))
    by (rewrite list_lookup_fmap, Hx; reflexivity).
  rewrite Hmap in H. unfold tile_counts in H. cbn [foldr fst snd] in H.
  destruct (decide (1 < length (replicate (Z.to_nat (num_level (hardware_api task))) 0%nat))%nat)
    as [Hlt|Hge].
  - rewrite list_lookup_insert_eq in H by exact Hlt. congruence.
  - rewrite lookup_ge_None_2 in H by (rewrite length_insert; lia). discriminate H.
Qed.

Lemma ConfigFilter_shaped (pnext : list HwAlignedConfig) (base_config : HwAlignedConfig)
    (expr_extractor : list HwExprExtractor) (space_tile reduce_tile : list Z)
    (mem_level : Z) (pnext' : list HwAlignedConfig) :
  0 < mem_level ->
  base_config = no_base_config \/ shaped_at mem_level base_config ->
  (mem_level = 1 \/ mem_level = 2 ->
   length space_tile = Z.to_nat space_dims /\ length reduce_tile = Z.to_nat reduce_dims) ->
  Forall (shaped_at (mem_level - 1)) pnext ->
  ConfigFilter pnext base_config expr_extractor space_tile reduce_tile mem_level
  = Ok pnext' ->
  Forall (shaped_at (mem_level - 1)) pnext'.
Proof.
  intros Hpos Hbase Htile Hpnext H.
  apply ConfigFilter_shape in H as [->|(c & -> & Hc)]; [exact Hpnext|].
  apply Forall_app. split; [exact Hpnext|]. constructor; [|constructor].
  destruct Hc as [(-> & Hcs & Hcr)|(-> & bs & br & Hbs & Hbr & Hcs & Hcr)];
    destruct Htile as [Hs Hr]; auto.
  - unfold shaped_at. cbn. rewrite Hcs, Hcr, Hs, Hr. split; reflexivity.
  - destruct Hbase as [->|Hbase]; [discriminate Hbs|].
    unfold shaped_at in Hbase. cbn in Hbase. destruct Hbase as [Hbase_s Hbase_r].
    apply (tile_counts_lookup_1 _ _ _ Hbase_s) in Hbs.
    apply (tile_counts_lookup_1 _ _ _ Hbase_r) in Hbr.
    unfold shaped_at. cbn. rewrite Hcs, Hcr, Hs, Hr, Hbs, Hbr. split; reflexivity.
Qed.

Lemma config_loop_shaped (fuel : nat) (expr_extractor : list HwExprExtractor)
    (base_config : HwAlignedConfig) (mem_level : Z)
    (space_tiles reduce_tiles : list (list Z)) :
  0 < mem_level ->
  base_config = no_base_config \/ shaped_at mem_level base_config ->
  forall (pnext : list HwAlignedConfig) (c : Cursor) (pnext' : list HwAlignedConfig)
         (c' : Cursor),
    (mem_level = 1 \/ mem_level = 2 ->
     length (space_ptr c) = Z.to_nat space_dims /\
     length (reduce_ptr c) = Z.to_nat reduce_dims) ->
    Forall (shaped_at (mem_level - 1)) pnext ->
    config_loop fuel pnext expr_extractor base_config mem_level c
      space_tiles reduce_tiles = Ok (pnext', c') ->
    Forall (shaped_at (mem_level - 1)) pnext'.
Proof.
  intros Hpos Hbase. induction fuel as [|fuel IH];
    intros pnext c pnext' c' Hptr Hpnext H; [discriminate H|].
  cbn [config_loop] in H.
  destruct (HasNextConfig _ _) as [[|]| | |]; cbn [obind] in H; try discriminate H.
  - destruct (GetNextConfig _ _ _ _ _ _ _) as [[[pnext1 c1] tile]| | |] eqn:Enext;
      cbn [obind] in H; try discriminate H.
    apply GetNextConfig_call in Enext as (Hfilter & Hts & Htr & Hcs & Hcr).
    apply IH in H; [exact H|intros Hlevel; destruct (Hptr Hlevel); split; congruence|].
    eapply ConfigFilter_shaped; [exact Hpos|exact Hbase| |exact Hpnext|exact Hfilter].
    intros Hlevel. destruct (Hptr Hlevel). split; congruence.
  - injection H as <- _. exact Hpnext.
Qed.

Lemma begin_of_lengths (align_tiles : list (list Z) * list (list Z)) :
  length (space_ptr (begin_of align_tiles)) = length align_tiles.1 /\
  length (reduce_ptr (begin_of align_tiles)) = length align_tiles.2.
Proof. unfold begin_of. cbn [space_ptr reduce_ptr]. rewrite !length_map. split; reflexivity. Qed.

Lemma refine_all_shaped (fuel : nat) (expr_extractor : list HwExprExtractor)
    (mem_level : Z) (pnow : list HwAlignedConfig) :
  mem_level = 1 ->
  Forall (shaped_at mem_level) pnow ->
  forall pnext pnext',
    Forall (shaped_at (mem_level - 1)) pnext ->
    refine_all fuel expr_extractor mem_level pnow pnext = Ok pnext' ->
    Forall (shaped_at (mem_level - 1)) pnext'.
Proof using Type GetAlignedTile_sizes.
  intros ->. induction 1 as [|base_config pnow Hbase _ IH]; intros pnext pnext' Hpnext H;
    cbn [refine_all] in H.
  - injection H as <-. exact Hpnext.
  - destruct (vector_at (HwConfig.space_tiles base_config) 1) as [sb| | |] eqn:Esb;
      cbn [obind] in H; try discriminate H.
    destruct (vector_at (HwConfig.reduce_tiles base_config) 1) as [rb| | |] eqn:Erb;
      cbn [obind] in H; try discriminate H.
    destruct (GetAlignedTile _ _ _ _) as [align_tiles| | |] eqn:Et; cbn [obind] in H;
      try discriminate H.
    destruct (has_zero_tiles align_tiles); [eapply IH; eassumption|].
    destruct (config_loop _ _ _ _ _ _ _ _) as [[pnext1 c1]| | |] eqn:Eloop;
      cbn [obind] in H; try discriminate H.
    eapply IH; [|exact H].
    apply GetAlignedTile_sizes in Et as [Hts Htr]; [|left; reflexivity].
    pose proof (begin_of_lengths align_tiles) as [Hbs Hbr].
    pose proof (vector_at_Ok _ _ _ Esb) as Hsb.
    pose proof (vector_at_Ok _ _ _ Erb) as Hrb.
    change (Z.to_nat 1) with 1%nat in Hsb, Hrb.
    pose proof Hbase as Hshape. unfold shaped_at in Hshape. cbn in Hshape.
    destruct Hshape as [Hshape_s Hshape_r].
    apply (tile_counts_lookup_1 _ _ _ Hshape_s) in Hsb.
    apply (tile_counts_lookup_1 _ _ _ Hshape_r) in Hrb.
    eapply (config_loop_shaped _ _ _ 1); [lia|right; exact Hbase| |exact Hpnext|exact Eloop].
    intros _. split; congruence.
Qed.

Lemma emit_loop_shaped (fuel : nat) (expr_extractor : list HwExprExtractor) :
  forall (mem_level : Z) (pnow configs : list HwAlignedConfig),
    Forall (shaped_at mem_level) pnow ->
    emit_loop fuel expr_extractor space_dims reduce_dims mem_level pnow = Ok configs ->
    Forall (shaped_at 0) configs.
Proof using Type GetAlignedTile_sizes.
  induction fuel as [|fuel IH]; intros mem_level pnow configs Hpnow H.
  - cbn [emit_loop] in H. destruct (Z.ltb_spec 0 mem_level); [discriminate H|].
    injection H as <-. eapply Forall_impl; [exact Hpnow|].
    intros c. unfold shaped_at. destruct (Z.leb_spec mem_level 0); [|lia].
    cbn. auto.
  - cbn [emit_loop] in H. destruct (Z.ltb_spec 0 mem_level) as [Hpos|Hle].
    + destruct pnow as [|base_config pnow].
      * destruct (GetAlignedTile _ _ _ _) as [align_tiles| | |] eqn:Et; cbn [obind] in H;
          try discriminate H.
        destruct (has_zero_tiles align_tiles); [eapply IH; eassumption|].
        destruct (config_loop _ _ _ _ _ _ _ _) as [[pnext1 c1]| | |] eqn:Eloop;
          cbn [obind] in H; try discriminate H.
        eapply IH; [|exact H].
        pose proof (begin_of_lengths align_tiles) as [Hbs Hbr].
        eapply config_loop_shaped;
          [exact Hpos|left; reflexivity| |constructor|exact Eloop].
        intros Hlevel. apply (GetAlignedTile_sizes _ _ _ _ _ Hlevel) in Et as [Hts Htr].
        rewrite length_replicate in Hts, Htr. split; congruence.
      * destruct (refine_all _ _ _ _ _) as [pnext1| | |] eqn:Erefine;
          cbn [obind] in H; try discriminate H.
        eapply IH; [|exact H].
        assert (mem_level = 1) as ->.
        { apply Forall_cons in Hpnow as [Hb _]. unfold shaped_at in Hb.
          destruct (Z.leb_spec mem_level 0); [lia|].
          destruct (Z.eqb_spec mem_level 1); [assumption|contradiction]. }
        eapply refine_all_shaped; [reflexivity|exact Hpnow|constructor|exact Erefine].
    + injection H as <-. eapply Forall_impl; [exact Hpnow|].
      intros c. unfold shaped_at. destruct (Z.leb_spec mem_level 0); [|lia].
      cbn. auto.
Qed.

(** X23.  The configs that EmitConfig returns have one shape: each holds,
    at the levels 0 and 1, as many space tiles as the task has spatial
    iterators and as many reduction tiles as it has reduction iterators,
    and none at the other levels.  Any two of them are therefore of the
    same shape, which is what [operator<] asks of the keys of the
    [std::map] EfficientSearch puts them in.  GetAlignedTile is supposed to
    answer, at the levels 1 and 2, one list of tiles for every entry of the
    base tiles, as its source does. *)
Theorem EmitConfig_same_shape (fuel : nat) (configs : list HwAlignedConfig) :
  EmitConfig fuel space_dims reduce_dims = Ok configs ->
  forall a b, a ∈ configs -> b ∈ configs -> same_shape a b.
Proof using Type GetAlignedTile_sizes.
  unfold EmitConfig. intros H a b Ha Hb.
  destruct (extract_all _) as [expr_extractor| | |]; cbn [obind] in H; try discriminate H.
  apply emit_loop_shaped in H; [|constructor].
  rewrite Forall_forall in H. pose proof (H a Ha) as [Has Har].
  pose proof (H b Hb) as [Hbs Hbr]. unfold same_shape. split; congruence.
Qed.

End Shape.

End WithTask.

(** ** A small world for the enumeration

    The dense layer [C[i, j] = sum over k of A[i, k] * B[k, j]] on the
    hardware of [Filters.dyn_task], with lists of tiles short enough to
    follow by hand. *)

Definition demo_body : list Expr :=
  [ReduceNode
     [MulNode (ProducerLoadNode "A" [Some "i"; Some "k"]%string)
              (ProducerLoadNode "B" [Some "k"; Some "j"]%string)]].

Definition demo_default (type_key : string) : Outcome bool :=
  Fatal "Do not have a default for this node".

(** The threads of a block: the tiles of the block over those of a thread. *)
Definition demo_GetParallelism (space_tile base_tile : list Z) : Z :=
  product_from 1 (zip_with Z.quot space_tile base_tile).

(** Two tiles an axis for a thread, three for a block, two for the
    reduction in shared memory. *)
Definition demo_GetAlignedTile (sbase_tile rbase_tile : list Z) (mem_level : Z)
    (expr_extractor : list HwExprExtractor) : Outcome (list (list Z) * list (list Z)) :=
  if mem_level =? 2
  then Ok (map (fun b => [b; b * 2]) sbase_tile, map (fun _ => [1]) rbase_tile)
  else Ok (map (fun b => [b * 8; b * 16; b * 32]) sbase_tile,
           map (fun _ => [4; 8]) rbase_tile).

(** No tile at all for the space axes. *)
Definition demo_no_tile (sbase_tile rbase_tile : list Z) (mem_level : Z)
    (expr_extractor : list HwExprExtractor) : Outcome (list (list Z) * list (list Z)) :=
  Ok (map (fun _ => []) sbase_tile, map (fun _ => [1]) rbase_tile).

Definition demo_extractor : list HwExprExtractor :=
  [{| expr_producer := ["A"; "B"]%string;
      expr_indices := [[Some "i"; Some "k"]; [Some "k"; Some "j"]]%string |}].

Definition demo_EmitConfig
    (aligned : list Z -> list Z -> Z -> list HwExprExtractor ->
               Outcome (list (list Z) * list (list Z)))
    : nat -> Z -> Z -> Outcome (list HwAlignedConfig) :=
  EmitConfig Filters.dyn_task ["i"; "j"]%string ["k"]%string 4 demo_body demo_default
    demo_GetParallelism aligned 0.

(** The 64 configs of the small world. *)
Definition demo_configs : list HwAlignedConfig :=
  match demo_EmitConfig demo_GetAlignedTile 200 2 1 with
  | Ok configs => configs
  | _ => []
  end.

Lemma config_loop_terminates_witness :
  config_loop Filters.dyn_task ["i"; "j"]%string ["k"]%string 4 demo_GetParallelism 0
    5 [] demo_extractor
    (no_base_config 0) 2 (begin_of ([[1; 2]; [1; 2]], [[1]])) [[1; 2]; [1; 2]] [[1]]
  <> OutOfFuel /\
  ((forall pn s r,
      is_Ok (ConfigFilter Filters.dyn_task ["i"; "j"]%string ["k"]%string 4
               demo_GetParallelism 0 pn (no_base_config 0) demo_extractor s r 2) = true) ->
   exists pnext' c',
     config_loop Filters.dyn_task ["i"; "j"]%string ["k"]%string 4 demo_GetParallelism 0
       5 [] demo_extractor
       (no_base_config 0) 2 (begin_of ([[1; 2]; [1; 2]], [[1]])) [[1; 2]; [1; 2]] [[1]]
     = Ok (pnext', c') /\
     HasNextConfig (reduce_ptr c') [[1]] = Ok false).
Proof.
  apply (config_loop_terminates Filters.dyn_task ["i"; "j"]%string ["k"]%string 4
           demo_GetParallelism 0 [] demo_extractor (no_base_config 0) 2
           [[1; 2]; [1; 2]] [[1]] 5).
  - discriminate.
  - discriminate.
  - reflexivity.
  - cbn. lia.
Defined.

Lemma EmitConfig_within_capacities_witness :
  Forall (fun c => within_registers Filters.dyn_task c /\ within_block Filters.dyn_task c)
    demo_configs.
Proof.
  apply (EmitConfig_within_capacities Filters.dyn_task ["i"; "j"]%string ["k"]%string 4
           demo_body demo_default demo_GetParallelism demo_GetAlignedTile 0
           200 2 1 demo_configs).
  vm_compute. reflexivity.
Defined.

Lemma demo_GetAlignedTile_sizes (sbase_tile rbase_tile : list Z) (mem_level : Z)
    (expr_extractor : list HwExprExtractor)
    (align_tiles : list (list Z) * list (list Z)) :
  mem_level = 1 \/ mem_level = 2 ->
  demo_GetAlignedTile sbase_tile rbase_tile mem_level expr_extractor = Ok align_tiles ->
  length align_tiles.1 = length sbase_tile /\ length align_tiles.2 = length rbase_tile.
Proof.
  intros _. unfold demo_GetAlignedTile.
  destruct (mem_level =? 2); intros [= <-]; cbn [fst snd];
    rewrite !length_map; split; reflexivity.
Qed.

Lemma EmitConfig_same_shape_witness :
  Forall (fun a => Forall (fun b => same_shape a b) demo_configs) demo_configs.
Proof.
  apply Forall_forall. intros a Ha. apply Forall_forall. intros b Hb.
  apply (EmitConfig_same_shape Filters.dyn_task ["i"; "j"]%string ["k"]%string 4
           demo_body demo_default demo_GetParallelism demo_GetAlignedTile 0
           demo_GetAlignedTile_sizes 2 1 200 demo_configs).
  - vm_compute. reflexivity.
  - exact Ha.
  - exact Hb.
Defined.

Lemma EmitConfig_spins_on_empty_tiles_witness :
  demo_EmitConfig demo_no_tile 100 2 1 = OutOfFuel.
Proof.
  apply (EmitConfig_spins_on_empty_tiles Filters.dyn_task ["i"; "j"]%string ["k"]%string 4
           demo_body demo_default demo_GetParallelism demo_no_tile 0
           100 2 1 demo_extractor ([[]; []], [[1]])).
  - reflexivity.
  - reflexivity.
  - reflexivity.
  - reflexivity.
Defined.

Lemma MemFootPrint_counts_witness :
  (1 = 2 -> demo_extractor <> [] -> 384 = product_from 1 [8; 16]) /\
  (1 <> 2 ->
   exists uses,
     Filters.omap
       (fun a : string * list (option string) =>
          access_use ["i"; "j"]%string ["k"]%string [8; 16] [4] a.2 1)
       (first_by_producer (flat_map accesses demo_extractor)) = Ok uses /\
     384 = foldr Z.add 0 uses * (if 1 =? 1 then 4 else 1)).
Proof.
  apply (MemFootPrint_counts ["i"; "j"]%string ["k"]%string demo_extractor [8; 16] [4]
           1 4 384).
  reflexivity.
Defined.

End Emit.

(** * EfficientSearch

    [SketchPolicyNode::EfficientSearch] of [sketch_policy.cc]: the configs
    of EmitConfig, turned into states by the rules of the efficient search,
    sifted for every workload instance by the filters, measured once, and
    one of the measured states picked for every instance. *)

Module Efficient.

Import HwConfig Task Filters Policy.

(** [State()], the null reference, while it is only copied. *)
Definition null_State : State :=
  {| node_addr := 0; stages := []; transform_steps := [] |}.

(** [filter_cand_states[config] = state] on a
    [std::map<HwAlignedConfig, State>], the map as the list of its entries
    in the order of the keys.  The key found equivalent stays; [operator<]
    is what orders the keys and tells them apart. *)
Fixpoint map_assign (m : list (HwAlignedConfig * State)) (config : HwAlignedConfig)
    (state : State) : list (HwAlignedConfig * State) :=
  match m with
  | [] => [(config, state)]
  | (key, value) :: m' =>
      if lt config key then (config, state) :: m
      else if lt key config then (key, value) :: map_assign m' config state
      else (key, state) :: m'
  end.

(** [for (i < inst_cand_configs.size())
       filter_cand_states[inst_cand_configs[i]] = inst_cand_states[i];] *)
Definition map_assign_all (m : list (HwAlignedConfig * State)) (r : Filtered)
    : Outcome (list (HwAlignedConfig * State)) :=
  let! entries := zip_inputs r.1 r.2 in
  Ok (foldl (fun m (e : Entry) => map_assign m e.1 e.2) m entries).

Section WithCollaborators.

Set Default Proof Using "Type".

Ltac statement_only := repeat match goal with x : _ |- _ => clear x end.

Variable CostModel : Type.
Variable Rng : Type.
Variable Measurer : Type.
Variable SketchRule : Type.
Variable InitRule : Type.
Variable MutationRule : Type.
Variable EfficientRule : Type.

Abbreviation Node := (SketchPolicyNode CostModel Rng SketchRule InitRule MutationRule).
Abbreviation task_of := (search_task CostModel Rng SketchRule InitRule MutationRule).
Abbreviation vector_of := (measured_states_vector_ CostModel Rng SketchRule InitRule MutationRule).
Abbreviation throughputs_of :=
  (measured_states_throughputs_ CostModel Rng SketchRule InitRule MutationRule).
Abbreviation cache_of := (sketch_cache_ CostModel Rng SketchRule InitRule MutationRule).

(** The sketch rules, as GenerateSketches calls them. *)
Variable MeetCondition : SketchRule -> Node -> State -> Z -> ConditionKind.
Variable SketchApply : SketchRule -> Node -> State -> Z -> list (State * Z).

(** Of the compute DAG of the task, what EmitConfig and ConfigFilter read
    (see [Emit]), and the numbers of spatial and of reduction iterators that
    the first loop of EfficientSearch counts. *)
Variable space_names reduce_names : list string.
Variable tensor_type_size : Z.
Variable reduce_stage_body : list Emit.Expr.
Variable space_dims reduce_dims : Z.
Variable VisitExprDefault : string -> Outcome bool.
Variable GetParallelism : list Z -> list Z -> Z.
Variable GetAlignedTile :
  list Z -> list Z -> Z -> list Emit.HwExprExtractor ->
  Outcome (list (list Z) * list (list Z)).
Variable indeterminate : Z.

(** [efficient_init_rules] and [EfficientGenerationRule::Apply]. *)
Variable efficient_init_rules : list EfficientRule.
Variable EfficientApply :
  EfficientRule -> Node -> State -> HwAlignedConfig -> ResultKind * State.

(** [floor_div] and [floor_by] of [utils.h], for the filters. *)
Variable floor_div : Z -> Z -> Z.
Variable floor_by : Z -> Z -> Z.

Variable Measure :
  Measurer -> SearchTaskNode -> list MeasureInput -> list MeasureResult * Measurer.
Variable CherryPickAlignHardwareWorkloadInstance :
  State -> SearchTaskNode -> list Z * Q * Q.
Variable FloatArrayMean : list Q -> Q.

(** [AlignHWAdaptStateToWorkload]: the score it writes to [state_score]. *)
Variable AlignHWAdaptStateToWorkload : SearchTaskNode -> State -> list Z -> Q -> Q.

(** The loop [for (rule : efficient_init_rules)] on the copy [tmp_s] of the
    first sketch: the state to store, [None] when a rule answers
    [kInvalid]. *)
Fixpoint apply_rules (policy : Node) (rules : list EfficientRule) (tmp_s : State)
    (config : HwAlignedConfig) : option State :=
  match rules with
  | [] => Some tmp_s
  | rule :: rules' =>
      let (result, tmp_s') := EfficientApply rule policy tmp_s config in
      match result with
      | kInvalid => None
      | kValid => apply_rules policy rules' tmp_s' config
      end
  end.

(** [cand_states] after the [parallel_for]: entry [index] holds the state
    made for [configs[index]], or is still null. *)
Definition init_states (policy : Node) (configs : list HwAlignedConfig)
    : Outcome (list (option State)) :=
  match configs with
  | [] => Ok []
  | _ :: _ =>
      match cache_of policy with
      | [] => Fatal "IndexError: indexing out of bound"        (* sketches[0] *)
      | first :: _ =>
          Ok (map (apply_rules policy efficient_init_rules first) configs)
      end
  end.

(** The states of [cand_states] when none is null. *)
Fixpoint all_states (cand_states : list (option State)) : option (list State) :=
  match cand_states with
  | [] => Some []
  | Some s :: rest =>
      match all_states rest with
      | Some states => Some (s :: states)
      | None => None
      end
  | None :: _ => None
  end.

(** The body of [for (inst_id < wkl_insts.size())] up to the last filter.
    OccupancyFilter reads [cand_states[index]->transform_steps] for every
    index, once its prologue has bound the shape variables. *)
Definition instance_candidates (fuel : nat) (task : SearchTaskNode)
    (configs : list HwAlignedConfig) (cand_states : list (option State))
    (wkl_inst : list Z) : Outcome Filtered :=
  let! _ := instance_map task wkl_inst in
  match all_states cand_states with
  | None => Undefined
  | Some states =>
      let! r1 := OccupancyFilter floor_div floor_by fuel task configs states wkl_inst in
      let! r2 := RegisterLaunchBoundsFilter floor_div task r1.1 r1.2 wkl_inst in
      let! r3 := SharedMemoryLaunchBoundsFilter floor_div task r2.1 r2.2 wkl_inst in
      let! r4 := PaddingRelaxation floor_by fuel task r3.1 r3.2 wkl_inst (95 # 100)%Q in
      let! r5 := SharedMemoryComputeIntensiveFilter task r4.1 r4.2 in
      RegComputeIntensiveFilter task r5.1 r5.2 wkl_inst
  end.

(** The loop [for (inst_id < wkl_insts.size())]: [filter_cand_states]. *)
Fixpoint sift_instances (fuel : nat) (task : SearchTaskNode)
    (configs : list HwAlignedConfig) (cand_states : list (option State))
    (insts : list (list Z)) (filter_cand_states : list (HwAlignedConfig * State))
    : Outcome (list (HwAlignedConfig * State)) :=
  match insts with
  | [] => Ok filter_cand_states
  | wkl_inst :: insts' =>
      let! r := instance_candidates fuel task configs cand_states wkl_inst in
      let! filter_cand_states' := map_assign_all filter_cand_states r in
      sift_instances fuel task configs cand_states insts' filter_cand_states'
  end.

(** The throughputs pushed after the measurement, one for each input:
    [results[input_id]] is a read of an [Array]. *)
Fixpoint measured_throughputs (task : SearchTaskNode) (inputs : list MeasureInput)
    (results : list MeasureResult) (input_id : nat) : Outcome (list Q) :=
  match inputs with
  | [] => Ok []
  | input :: inputs' =>
      let '(_, flop_ct, adaption_penalty) :=
        CherryPickAlignHardwareWorkloadInstance (mi_state input) task in
      match results !! input_id with
      | None => Fatal "IndexError: indexing out of bound"
      | Some result =>
          let! x := fdiv flop_ct adaption_penalty in
          let! throughput := fdiv x (FloatArrayMean (costs result)) in
          let! rest := measured_throughputs task inputs' results (S input_id) in
          Ok (throughput :: rest)
      end
  end.

(** The loop [for (state_id < measured_states_throughputs_.size())] for one
    instance, over what is left of the throughputs from [state_id] on:
    [select_state_id] at its end. *)
Fixpoint best_state (task : SearchTaskNode) (vector : list State) (wkl_inst : list Z)
    (throughputs : list Q) (state_id select_state_id : nat) (max_score : Q)
    : Outcome nat :=
  match throughputs with
  | [] => Ok select_state_id
  | base_score :: throughputs' =>
      match vector !! state_id with
      | None => Undefined
      | Some s =>
          let state_score := AlignHWAdaptStateToWorkload task s wkl_inst base_score in
          if Qltb max_score state_score
          then best_state task vector wkl_inst throughputs' (S state_id) state_id state_score
          else best_state task vector wkl_inst throughputs' (S state_id)
                 select_state_id max_score
      end
  end.

(** The last loop over the instances, from [inst_id] on. *)
Fixpoint select_states (task : SearchTaskNode) (vector : list State)
    (throughputs : list Q) (insts : list (list Z)) (inst_id : nat)
    (selected_candidate_states : list State) (inst_id_disp_map : gmap nat nat)
    : Outcome (list State * gmap nat nat) :=
  match insts with
  | [] => Ok (selected_candidate_states, inst_id_disp_map)
  | wkl_inst :: insts' =>
      let! select_state_id := best_state task vector wkl_inst throughputs 0 0 0%Q in
      match vector !! select_state_id with
      | None => Undefined
      | Some s =>
          select_states task vector throughputs insts' (S inst_id)
            (selected_candidate_states ++ [s])
            (<[inst_id := length selected_candidate_states]> inst_id_disp_map)
      end
  end.

(** The writes of EfficientSearch to [measured_states_vector_] and
    [measured_states_throughputs_]. *)
Definition set_measured (p : Node) (vector : list State) (throughputs : list Q) : Node :=
  {| search_task := task_of p;
     program_cost_model := program_cost_model _ _ _ _ _ p;
     rand_gen := rand_gen _ _ _ _ _ p; params := params _ _ _ _ _ p;
     verbose := verbose _ _ _ _ _ p;
     sample_init_min_pop_ := sample_init_min_pop_ _ _ _ _ _ p;
     sketch_rules := sketch_rules _ _ _ _ _ p; init_rules := init_rules _ _ _ _ _ p;
     mutation_rules := mutation_rules _ _ _ _ _ p; sketch_cache_ := cache_of p;
     measured_states_set_ := measured_states_set_ _ _ _ _ _ p;
     measured_states_vector_ := vector;
     measured_states_throughputs_ := throughputs;
     num_measure_per_iter_ := num_measure_per_iter_ _ _ _ _ _ p;
     n_trials := n_trials _ _ _ _ _ p;
     curr_inst_opt_prob := curr_inst_opt_prob _ _ _ _ _ p |}.

(** The configs to make states for: those of EmitConfig that pass
    ThreadsNumberFilter, with the policy once its sketches are cached. *)
Definition candidate_configs (fuel : nat) (policy : Node)
    : Outcome (Node * list HwAlignedConfig) :=
  let task := task_of policy in
  let! policy1 :=
    match cache_of policy with
    | [] =>
        let! sketches :=
          GenerateSketches CostModel Rng SketchRule InitRule MutationRule
            MeetCondition SketchApply fuel policy in
        Ok (set_sketch_cache CostModel Rng SketchRule InitRule MutationRule policy sketches)
    | _ :: _ => Ok policy
    end in
  let! configs :=
    Emit.EmitConfig task space_names reduce_names tensor_type_size reduce_stage_body
      VisitExprDefault GetParallelism GetAlignedTile indeterminate
      fuel space_dims reduce_dims in
  let! r := ThreadsNumberFilter task configs (replicate (length configs) null_State) in
  Ok (policy1, r.1).

Record Searched : Type := {
  s_states : list State;
  s_inst_id_disp_map : gmap nat nat;
  s_policy : Node;
  s_measurer : Measurer;
  s_inputs : list MeasureInput
}.

(** [SketchPolicyNode::EfficientSearch]: the pair it returns, with the
    policy and the measurer as it leaves them and the inputs it has had
    measured. *)
Definition EfficientSearch (fuel : nat) (policy : Node) (measurer : Measurer)
    : Outcome Searched :=
  let! (policy1, configs) := candidate_configs fuel policy in
  let task := task_of policy1 in
  let! cand_states := init_states policy1 configs in
  let! filter_cand_states :=
    sift_instances fuel task configs cand_states (wkl_insts task) [] in
  let cand_states' := map snd filter_cand_states in
  let inputs := map (fun s => {| mi_state := s; mi_wkl_inst := None |}) cand_states' in
  let vector := vector_of policy1 ++ cand_states' in
  let (results, measurer') := Measure measurer task inputs in
  let! pushed := measured_throughputs task inputs results 0 in
  let throughputs := throughputs_of policy1 ++ pushed in
  let! (selected, disp) :=
    select_states task vector throughputs (wkl_insts task) 0 [] ∅ in
  Ok {| s_states := selected; s_inst_id_disp_map := disp;
        s_policy := set_measured policy1 vector throughputs;
        s_measurer := measurer'; s_inputs := inputs |}.

(** *** Facts about EfficientSearch *)

Lemma candidate_configs_keeps (fuel : nat) (policy policy1 : Node)
    (configs : list HwAlignedConfig) :
  candidate_configs fuel policy = Ok (policy1, configs) ->
  task_of policy1 = task_of policy /\
  vector_of policy1 = vector_of policy /\
  throughputs_of policy1 = throughputs_of policy /\
  measured_states_set_ _ _ _ _ _ policy1 = measured_states_set_ _ _ _ _ _ policy.
Proof.
  unfold candidate_configs. intros H.
  destruct (cache_of policy) as [|first rest].
  - destruct (GenerateSketches _ _ _ _ _ _ _ _ _) as [sketches| | |]; cbn [obind] in H;
      try discriminate H.
    destruct (Emit.EmitConfig _ _ _ _ _ _ _ _ _ _ _ _) as [emitted| | |]; cbn [obind] in H;
      try discriminate H.
    destruct (ThreadsNumberFilter _ _ _) as [r| | |]; cbn [obind] in H; try discriminate H.
    injection H as <- _. repeat split; reflexivity.
  - cbn [obind] in H.
    destruct (Emit.EmitConfig _ _ _ _ _ _ _ _ _ _ _ _) as [emitted| | |]; cbn [obind] in H;
      try discriminate H.
    destruct (ThreadsNumberFilter _ _ _) as [r| | |]; cbn [obind] in H; try discriminate H.
    injection H as <- _. repeat split; reflexivity.
Qed.

Lemma best_state_in_range (task : SearchTaskNode) (vector : list State)
    (wkl_inst : list Z) (throughputs : list Q) :
  forall state_id select_state_id max_score r,
    best_state task vector wkl_inst throughputs state_id select_state_id max_score = Ok r ->
    r = select_state_id \/ (state_id <= r < state_id + length throughputs)%nat.
Proof.
  induction throughputs as [|base_score throughputs IH];
    intros state_id select_state_id max_score r H; cbn [best_state] in H.
  - injection H as <-. left. reflexivity.
  - destruct (vector !! state_id) as [s|]; [|discriminate H].
    destruct (Qltb max_score _); apply IH in H as [->|H]; cbn [length]; auto; right; lia.
Qed.

Lemma select_states_spec (task : SearchTaskNode) (vector : list State)
    (throughputs : list Q) (insts : list (list Z)) :
  forall (selected : list State) (disp : gmap nat nat) selected' disp',
    select_states task vector throughputs insts (length selected) selected disp
    = Ok (selected', disp') ->
    exists added,
      selected' = selected ++ added /\
      length added = length insts /\
      Forall (fun s => s ∈ vector) added /\
      forall i,
        disp' !! i
        = if bool_decide (length selected <= i < length selected + length insts)%nat
          then Some i else disp !! i.
Proof.
  statement_only.
  induction insts as [|wkl_inst insts IH]; intros selected disp selected' disp' H;
    cbn [select_states] in H.
  - injection H as <- <-. exists []. rewrite app_nil_r. repeat split; [constructor|].
    intros i. rewrite bool_decide_eq_false_2 by (cbn; lia). reflexivity.
  - destruct (best_state _ _ _ _ _ _ _) as [select_state_id| | |]; cbn [obind] in H;
      try discriminate H.
    destruct (vector !! select_state_id) as [s|] eqn:Es; [|discriminate H].
    replace (S (length selected)) with (length (selected ++ [s])) in H
      by (rewrite length_app; cbn; lia).
    apply IH in H as (added & -> & Hlen & Hin & Hdisp).
    exists (s :: added). rewrite <- app_assoc. split; [reflexivity|].
    split; [cbn; lia|]. split.
    + constructor; [eapply list_elem_of_lookup_2, Es|exact Hin].
    + intros i. rewrite Hdisp, length_app. cbn [length].
      destruct (decide (i = length selected)) as [->|Hne].
      * rewrite lookup_insert_eq.
        rewrite bool_decide_eq_false_2 by lia. rewrite bool_decide_eq_true_2 by lia.
        reflexivity.
      * rewrite lookup_insert_ne by auto.
        destruct (bool_decide_reflect
                    (length selected + 1 <= i < length selected + 1 + length insts)%nat);
          [rewrite bool_decide_eq_true_2 by lia|rewrite bool_decide_eq_false_2 by lia];
          reflexivity.
Qed.

(** X19.  EfficientSearch returns one state for every workload instance,
    each of them one of the measured states of the policy as it leaves it,
    and a dispatch map that is the identity on the instances: instance [i]
    is sent to entry [i] of the states returned. *)
Theorem EfficientSearch_dispatches_each_instance (fuel : nat) (policy : Node)
    (measurer : Measurer) (r : Searched) :
  EfficientSearch fuel policy measurer = Ok r ->
  length (s_states r) = length (wkl_insts (task_of policy)) /\
  Forall (fun s => s ∈ vector_of (s_policy r)) (s_states r) /\
  forall i : nat,
    s_inst_id_disp_map r !! i
    = if bool_decide (i < length (wkl_insts (task_of policy)))%nat then Some i else None.
Proof.
  unfold EfficientSearch. intros H.
  destruct (candidate_configs fuel policy) as [[policy1 configs]| | |] eqn:Ec;
    cbn [obind] in H; try discriminate H.
  apply candidate_configs_keeps in Ec as (Htask & _).
  destruct (init_states policy1 configs) as [cand_states| | |]; cbn [obind] in H;
    try discriminate H.
  destruct (sift_instances _ _ _ _ _ _) as [filter_cand_states| | |]; cbn [obind] in H;
    try discriminate H.
  destruct (Measure _ _ _) as [results measurer'].
  destruct (measured_throughputs _ _ _ _) as [pushed| | |]; cbn [obind] in H;
    try discriminate H.
  destruct (select_states _ _ _ _ _ _ _) as [[selected disp]| | |] eqn:Es;
    cbn [obind] in H; try discriminate H.
  injection H as <-. cbn [s_states s_inst_id_disp_map s_policy].
  apply (select_states_spec _ _ _ _ []) in Es as (added & -> & Hlen & Hin & Hdisp).
  rewrite Htask in Hlen, Hdisp. cbn [app length] in *.
  split; [exact Hlen|]. split; [exact Hin|].
  intros i. rewrite Hdisp, lookup_empty.
  destruct (bool_decide_reflect (i < length (wkl_insts (task_of policy)))%nat);
    [rewrite bool_decide_eq_true_2 by lia|rewrite bool_decide_eq_false_2 by lia];
    reflexivity.
Qed.

Lemma map_assign_length (m : list (HwAlignedConfig * State)) (config : HwAlignedConfig)
    (state : State) :
  (length (map_assign m config state) <= S (length m))%nat.
Proof.
  induction m as [|[key value] m IH]; cbn [map_assign length]; [lia|].
  destruct (lt config key); [cbn; lia|]. destruct (lt key config); cbn [length]; lia.
Qed.

Lemma map_assign_all_length (m m' : list (HwAlignedConfig * State)) (r : Filtered) :
  map_assign_all m r = Ok m' -> (length m' <= length m + length r.1)%nat.
Proof.
  unfold map_assign_all. intros H.
  destruct (zip_inputs r.1 r.2) as [entries| | |] eqn:Ez; cbn [obind] in H;
    try discriminate H.
  injection H as <-. apply zip_inputs_Ok in Ez as [_ <-].
  clear. revert m. induction entries as [|e entries IH]; intros m; cbn [foldl length]; [lia|].
  specialize (IH (map_assign m e.1 e.2)).
  pose proof (map_assign_length m e.1 e.2). lia.
Qed.

Lemma instance_candidates_length (fuel : nat) (task : SearchTaskNode)
    (configs : list HwAlignedConfig) (cand_states : list (option State))
    (wkl_inst : list Z) (r : Filtered) :
  instance_candidates fuel task configs cand_states wkl_inst = Ok r ->
  (length r.1 <= 10)%nat.
Proof.
  unfold instance_candidates. intros H.
  destruct (instance_map task wkl_inst); cbn [obind] in H; try discriminate H.
  destruct (all_states cand_states) as [states|]; [|discriminate H].
  destruct (OccupancyFilter _ _ _ _ _ _ _) as [r1| | |]; cbn [obind] in H;
    try discriminate H.
  destruct (RegisterLaunchBoundsFilter _ _ _ _ _) as [r2| | |]; cbn [obind] in H;
    try discriminate H.
  destruct (SharedMemoryLaunchBoundsFilter _ _ _ _ _) as [r3| | |]; cbn [obind] in H;
    try discriminate H.
  destruct (PaddingRelaxation _ _ _ _ _ _ _) as [r4| | |]; cbn [obind] in H;
    try discriminate H.
  destruct (SharedMemoryComputeIntensiveFilter _ _ _) as [r5| | |]; cbn [obind] in H;
    try discriminate H.
  apply ComputeIntensiveFilter_top in H as (sorted & _ & _ & -> & _).
  rewrite length_map, length_take. lia.
Qed.

Lemma sift_instances_length (fuel : nat) (task : SearchTaskNode)
    (configs : list HwAlignedConfig) (cand_states : list (option State))
    (insts : list (list Z)) :
  forall m m',
    sift_instances fuel task configs cand_states insts m = Ok m' ->
    (length m' <= length m + 10 * length insts)%nat.
Proof.
  induction insts as [|wkl_inst insts IH]; intros m m' H; cbn [sift_instances] in H.
  - injection H as <-. lia.
  - destruct (instance_candidates _ _ _ _ _) as [r| | |] eqn:Er; cbn [obind] in H;
      try discriminate H.
    destruct (map_assign_all m r) as [m1| | |] eqn:Em; cbn [obind] in H;
      try discriminate H.
    apply IH in H. apply instance_candidates_length in Er.
    apply map_assign_all_length in Em. cbn [length]. lia.
Qed.

Lemma measured_throughputs_length (task : SearchTaskNode) (inputs : list MeasureInput)
    (results : list MeasureResult) :
  forall input_id pushed,
    measured_throughputs task inputs results input_id = Ok pushed ->
    length pushed = length inputs.
Proof.
  induction inputs as [|input inputs IH]; intros input_id pushed H;
    cbn [measured_throughputs] in H.
  - injection H as <-. reflexivity.
  - destruct (CherryPickAlignHardwareWorkloadInstance _ _) as [[inst flop_ct] penalty].
    destruct (results !! input_id) as [result|]; [|discriminate H].
    destruct (fdiv flop_ct penalty) as [x| | |]; cbn [obind] in H; try discriminate H.
    destruct (fdiv x _) as [t| | |]; cbn [obind] in H; try discriminate H.
    destruct (measured_throughputs _ _ _ _) as [rest| | |] eqn:Er; cbn [obind] in H;
      try discriminate H.
    injection H as <-. cbn [length]. f_equal. eapply IH, Er.
Qed.

(** X20.  A call of EfficientSearch that returns has had at most 10 states
    measured for every workload instance, in one call of the measurer; it
    has appended these states to [measured_states_vector_] and one
    throughput for each to [measured_states_throughputs_], and has left
    [measured_states_set_] as it was: the states it measured are not
    recorded as measured. *)
Theorem EfficientSearch_measures (fuel : nat) (policy : Node) (measurer : Measurer)
    (r : Searched) :
  EfficientSearch fuel policy measurer = Ok r ->
  (length (s_inputs r) <= 10 * length (wkl_insts (task_of policy)))%nat /\
  vector_of (s_policy r) = vector_of policy ++ map mi_state (s_inputs r) /\
  length (throughputs_of (s_policy r))
  = (length (throughputs_of policy) + length (s_inputs r))%nat /\
  measured_states_set_ _ _ _ _ _ (s_policy r) = measured_states_set_ _ _ _ _ _ policy.
Proof.
  unfold EfficientSearch. intros H.
  destruct (candidate_configs fuel policy) as [[policy1 configs]| | |] eqn:Ec;
    cbn [obind] in H; try discriminate H.
  apply candidate_configs_keeps in Ec as (Htask & Hv & Ht & Hset).
  destruct (init_states policy1 configs) as [cand_states| | |]; cbn [obind] in H;
    try discriminate H.
  destruct (sift_instances _ _ _ _ _ _) as [filter_cand_states| | |] eqn:Esift;
    cbn [obind] in H; try discriminate H.
  destruct (Measure _ _ _) as [results measurer'].
  destruct (measured_throughputs _ _ _ _) as [pushed| | |] eqn:Ep; cbn [obind] in H;
    try discriminate H.
  destruct (select_states _ _ _ _ _ _ _) as [[selected disp]| | |]; cbn [obind] in H;
    try discriminate H.
  injection H as <-.
  cbn [s_inputs s_policy set_measured measured_states_vector_ measured_states_throughputs_
       measured_states_set_].
  apply sift_instances_length in Esift. apply measured_throughputs_length in Ep.
  rewrite Htask in Esift. rewrite !length_map in *. cbn [length] in Esift.
  split; [lia|]. split.
  - rewrite Hv. f_equal. rewrite map_map. cbn [mi_state]. rewrite map_id. reflexivity.
  - split; [|exact Hset]. rewrite length_app, Ht, Ep. reflexivity.
Qed.

Lemma all_states_None (cand_states : list (option State)) :
  None ∈ cand_states -> all_states cand_states = None.
Proof.
  induction cand_states as [|[s|] cand_states IH]; intros Hin; cbn [all_states].
  - inversion Hin.
  - apply elem_of_cons in Hin as [Hin|Hin]; [discriminate Hin|]. rewrite (IH Hin).
    reflexivity.
  - reflexivity.
Qed.

(** X21.  When one of the rules of the efficient search answers [kInvalid]
    for one of the candidate configs, EfficientSearch keeps the config and
    leaves its state null; with a workload instance to sift the configs for
    (one that binds the shape variables), the first filter then reads
    through the null state: the call has no defined behaviour. *)
Theorem EfficientSearch_reads_null_state (fuel : nat) (policy policy1 : Node)
    (measurer : Measurer) (configs : list HwAlignedConfig) (config : HwAlignedConfig)
    (first : State) (sketches : list State) (wkl_inst : list Z) (insts : list (list Z)) :
  candidate_configs fuel policy = Ok (policy1, configs) ->
  cache_of policy1 = first :: sketches ->
  config ∈ configs ->
  apply_rules policy1 efficient_init_rules first config = None ->
  wkl_insts (task_of policy) = wkl_inst :: insts ->
  is_Ok (instance_map (task_of policy) wkl_inst) = true ->
  EfficientSearch fuel policy measurer = Undefined.
Proof.
  intros Hc Hcache Hin Hnone Hinsts Hmap. unfold EfficientSearch. rewrite Hc.
  cbn [obind]. apply candidate_configs_keeps in Hc as (Htask & _). rewrite Htask, Hinsts.
  unfold init_states. rewrite Hcache.
  destruct configs as [|c0 configs]; [inversion Hin|]. cbn [obind sift_instances].
  unfold instance_candidates.
  destruct (instance_map (task_of policy) wkl_inst); try discriminate Hmap. cbn [obind].
  rewrite all_states_None; [reflexivity|].
  rewrite <- Hnone. apply list_elem_of_fmap_2. exact Hin.
Qed.

End WithCollaborators.

(** ** EfficientSearch in the small worlds of [Policy] and [Emit] *)

(** The rule [true] makes, of the first tile of a config, a state tiled by
    it; the rule [false] answers [kInvalid]. *)
Definition demo_EfficientApply (rule : bool) (policy : DemoPolicy) (s : State)
    (config : HwAlignedConfig) : ResultKind * State :=
  if rule
  then (kValid,
        tiled (Z.to_nat (smem_usage config)) 1 (nth 0 (nth 0 (space_tiles config) []) 1) 1)
  else (kInvalid, s).

Definition demo_CherryPick (s : State) (task : SearchTaskNode) : list Z * Q * Q :=
  ([16], 1%Q, 1%Q).

(** The score of a state for an instance: its throughput, weighted. *)
Definition demo_AlignHWAdapt (task : SearchTaskNode) (s : State) (wkl_inst : list Z)
    (base_score : Q) : Q :=
  (base_score * inject_Z (Z.of_nat (node_addr s)))%Q.

Definition demo_EfficientSearch (rules : list bool) : Outcome (Searched unit Z unit unit unit bool) :=
  EfficientSearch unit Z unit unit unit bool bool demo_MeetCondition demo_SketchApply
    ["i"; "j"]%string ["k"]%string 4 Emit.demo_body 2 1 Emit.demo_default
    Emit.demo_GetParallelism Emit.demo_GetAlignedTile 0
    rules demo_EfficientApply ceil_div ceil_by demo_Measure demo_CherryPick
    demo_FloatArrayMean demo_AlignHWAdapt 300 (demo_policy dyn_task 1 [] []) tt.

(** What the search returns when every rule applies. *)
Definition demo_searched : Searched unit Z unit unit unit bool :=
  returned
    {| s_states := []; s_inst_id_disp_map := ∅; s_policy := demo_policy dyn_task 1 [] [];
       s_measurer := tt; s_inputs := [] |}
    (demo_EfficientSearch [true]).

(** The configs the search makes states for, and the policy then. *)
Definition demo_candidates : DemoPolicy * list HwAlignedConfig :=
  returned (demo_policy dyn_task 1 [] [], [])
    (candidate_configs unit Z unit unit bool demo_MeetCondition demo_SketchApply
       ["i"; "j"]%string ["k"]%string 4 Emit.demo_body 2 1 Emit.demo_default
       Emit.demo_GetParallelism Emit.demo_GetAlignedTile 0
       300 (demo_policy dyn_task 1 [] [])).

Lemma EfficientSearch_dispatches_each_instance_witness :
  length (s_states _ _ _ _ _ _ demo_searched) = length (wkl_insts dyn_task) /\
  Forall (fun s => s ∈ measured_states_vector_ _ _ _ _ _ (s_policy _ _ _ _ _ _ demo_searched))
    (s_states _ _ _ _ _ _ demo_searched) /\
  forall i : nat,
    s_inst_id_disp_map _ _ _ _ _ _ demo_searched !! i
    = if bool_decide (i < length (wkl_insts dyn_task))%nat then Some i else None.
Proof.
  apply (EfficientSearch_dispatches_each_instance unit Z unit unit unit bool bool
           demo_MeetCondition demo_SketchApply
           ["i"; "j"]%string ["k"]%string 4 Emit.demo_body 2 1 Emit.demo_default
           Emit.demo_GetParallelism Emit.demo_GetAlignedTile 0
           [true] demo_EfficientApply ceil_div ceil_by demo_Measure demo_CherryPick
           demo_FloatArrayMean demo_AlignHWAdapt 300%nat (demo_policy dyn_task 1 [] []) tt
           demo_searched).
  vm_compute. reflexivity.
Defined.

Lemma EfficientSearch_measures_witness :
  (length (s_inputs _ _ _ _ _ _ demo_searched) <= 10 * length (wkl_insts dyn_task))%nat /\
  measured_states_vector_ _ _ _ _ _ (s_policy _ _ _ _ _ _ demo_searched)
  = [] ++ map mi_state (s_inputs _ _ _ _ _ _ demo_searched) /\
  length (measured_states_throughputs_ _ _ _ _ _ (s_policy _ _ _ _ _ _ demo_searched))
  = (0 + length (s_inputs _ _ _ _ _ _ demo_searched))%nat /\
  measured_states_set_ _ _ _ _ _ (s_policy _ _ _ _ _ _ demo_searched) = ∅.
Proof.
  apply (EfficientSearch_measures unit Z unit unit unit bool bool
           demo_MeetCondition demo_SketchApply
           ["i"; "j"]%string ["k"]%string 4 Emit.demo_body 2 1 Emit.demo_default
           Emit.demo_GetParallelism Emit.demo_GetAlignedTile 0
           [true] demo_EfficientApply ceil_div ceil_by demo_Measure demo_CherryPick
           demo_FloatArrayMean demo_AlignHWAdapt 300%nat (demo_policy dyn_task 1 [] []) tt
           demo_searched).
  vm_compute. reflexivity.
Defined.

Lemma EfficientSearch_reads_null_state_witness :
  demo_EfficientSearch [true; false] = Undefined.
Proof.
  apply (EfficientSearch_reads_null_state unit Z unit unit unit bool bool
           demo_MeetCondition demo_SketchApply
           ["i"; "j"]%string ["k"]%string 4 Emit.demo_body 2 1 Emit.demo_default
           Emit.demo_GetParallelism Emit.demo_GetAlignedTile 0
           [true; false] demo_EfficientApply ceil_div ceil_by demo_Measure demo_CherryPick
           demo_FloatArrayMean demo_AlignHWAdapt 300%nat (demo_policy dyn_task 1 [] [])
           demo_candidates.1 tt demo_candidates.2
           (hd (Emit.no_base_config 0) demo_candidates.2)
           empty_state [] [16] [[32]; [64]]).
  - vm_compute. reflexivity.
  - vm_compute. reflexivity.
  - vm_compute. apply list_elem_of_here.
  - vm_compute. reflexivity.
  - reflexivity.
  - reflexivity.
Defined.

End Efficient.
